(** * Deadline ingestion pipeline of the college-application tracker

    A shallow embedding of the crawler service (crawler/src/crawler.ts,
    crawler/src/pdf-import.ts, crawler/src/index.ts) and of the backend
    route that triggers it (backend/src/routes/crawler.ts), followed by the
    properties of the pipeline that were checked against it.

    Part I holds the definitions, Part II the theorems.

    The calls of [log] are left out, except where building the entry can
    throw; pauses and the timers of timeouts are real time and are left
    out as well. *)

From Stdlib Require Import ZArith List String Ascii Bool Lia DecimalString DecimalPos.
From stdpp Require Import base option list gmap strings.

Local Open Scope string_scope.
Local Open Scope Z_scope.

(* ===================================================================== *)
(** * Part I. Definitions                                                 *)
(* ===================================================================== *)

(** ** JavaScript strings

    Strings are sequences of code units; the model keeps the code units
    0..255 (the Latin-1 range), which is what [Ascii.ascii] holds. *)

Module JsString.

Definition code (a : ascii) : nat := nat_of_ascii a.

Definition between (lo hi : nat) (a : ascii) : bool :=
  (lo <=? code a)%nat && (code a <=? hi)%nat.

(** [\d], [\w] and [\s] of the regular expression syntax, and the
    white space stripped by [String.prototype.trim]. *)
Definition isDigit (a : ascii) : bool := between 48 57 a.
Definition isUpper (a : ascii) : bool := between 65 90 a.
Definition isLower (a : ascii) : bool := between 97 122 a.
Definition isLetter (a : ascii) : bool := isUpper a || isLower a.
Definition isWord (a : ascii) : bool :=
  isLetter a || isDigit a || (code a =? 95)%nat.
Definition isSpace (a : ascii) : bool :=
  between 9 13 a || (code a =? 32)%nat || (code a =? 160)%nat.
Definition isLineTerminator (a : ascii) : bool :=
  (code a =? 10)%nat || (code a =? 13)%nat.

(** [toLowerCase] on one code unit: A-Z, and the Latin-1 capitals. *)
Definition lowerChar (a : ascii) : ascii :=
  if isUpper a || (between 192 222 a && negb (code a =? 215)%nat)
  then ascii_of_nat (code a + 32) else a.

Definition upperChar (a : ascii) : ascii :=
  if isLower a then ascii_of_nat (code a - 32) else a.

Fixpoint toLowerCase (s : string) : string :=
  match s with
  | EmptyString => EmptyString
  | String a s' => String (lowerChar a) (toLowerCase s')
  end.

Fixpoint trimStart (s : string) : string :=
  match s with
  | String a s' => if isSpace a then trimStart s' else s
  | EmptyString => EmptyString
  end.

Fixpoint rev_string (s acc : string) : string :=
  match s with
  | EmptyString => acc
  | String a s' => rev_string s' (String a acc)
  end.

Definition trimEnd (s : string) : string :=
  rev_string (trimStart (rev_string s "")) "".

Definition trim (s : string) : string := trimEnd (trimStart s).

Fixpoint startsWith (p s : string) : bool :=
  match p, s with
  | EmptyString, _ => true
  | String a p', String b s' => if Ascii.eqb a b then startsWith p' s' else false
  | String _ _, EmptyString => false
  end.

(** [s.indexOf(sub)]: the first position where [sub] occurs. *)
Fixpoint indexOf_from (pos : nat) (sub s : string) : option nat :=
  if startsWith sub s then Some pos
  else match s with
       | EmptyString => None
       | String _ s' => indexOf_from (S pos) sub s'
       end.

Definition indexOf (s sub : string) : option nat := indexOf_from 0 sub s.

(** [s.includes(sub)] *)
Definition includes (s sub : string) : bool :=
  match indexOf s sub with Some _ => true | None => false end.

Fixpoint drop (n : nat) (s : string) : string :=
  match n, s with
  | O, _ => s
  | S n', String _ s' => drop n' s'
  | S _, EmptyString => EmptyString
  end.

(** [s.substring(i, j)] for [i <= j] *)
Definition slice (i j : nat) (s : string) : string := substring i (j - i) s.

(** [s.split(sep)] for a separator of one code unit *)
Fixpoint split_go (sep : ascii) (cur : string) (s : string) : list string :=
  match s with
  | EmptyString => [rev_string cur ""]
  | String a s' =>
      if Ascii.eqb a sep then rev_string cur "" :: split_go sep "" s'
      else split_go sep (String a cur) s'
  end.

Definition split (sep : ascii) (s : string) : list string := split_go sep "" s.

(** [s.split(/\s+/)]: every maximal run of white space is one separator;
    a run at either end leaves an empty first or last piece. *)
Fixpoint splitSpaces_go (cur : string) (inSep : bool) (s : string) : list string :=
  match s with
  | EmptyString => [rev_string cur ""]
  | String a s' =>
      if isSpace a
      then if inSep then splitSpaces_go cur true s'
           else rev_string cur "" :: splitSpaces_go "" true s'
      else splitSpaces_go (String a cur) false s'
  end.

Definition splitSpaces (s : string) : list string := splitSpaces_go "" false s.

Fixpoint repeatChar (a : ascii) (n : nat) : string :=
  match n with O => "" | S n' => String a (repeatChar a n') end.

(** [s.padStart(n, c)] *)
Definition padStart (n : nat) (a : ascii) (s : string) : string :=
  repeatChar a (n - String.length s) ++ s.

(** Numbers.  The numbers of the pipeline are integers, or [NaN] when
    [parseInt] finds no digit. *)
Inductive number := Num (z : Z) | NaN.

(** [String(n)], as a template literal prints it. *)
Definition showZ (z : Z) : string := NilZero.string_of_int (Z.to_int z).

Definition show (n : number) : string :=
  match n with Num z => showZ z | NaN => "NaN" end.

Definition digitVal (a : ascii) : Z := Z.of_nat (code a - 48).

Fixpoint digits_go (acc : Z) (s : string) : Z :=
  match s with
  | String a s' => if isDigit a then digits_go (10 * acc + digitVal a) s' else acc
  | EmptyString => acc
  end.

Definition hexVal (a : ascii) : option Z :=
  if isDigit a then Some (digitVal a)
  else if between 97 102 a then Some (Z.of_nat (code a - 87))
  else if between 65 70 a then Some (Z.of_nat (code a - 55))
  else None.

Fixpoint hex_go (acc : Z) (s : string) : Z :=
  match s with
  | String a s' =>
      match hexVal a with
      | Some v => hex_go (16 * acc + v) s'
      | None => acc
      end
  | EmptyString => acc
  end.

(** The digits of [parseInt] after the sign: decimal, or hexadecimal
    after [0x]. *)
Definition parseDigits (t : string) : number :=
  match t with
  | String "0" (String x rest) =>
      if (Ascii.eqb x "x" || Ascii.eqb x "X")%bool
      then match rest with
           | String a _ => match hexVal a with
                           | Some _ => Num (hex_go 0 rest)
                           | None => NaN
                           end
           | EmptyString => NaN
           end
      else Num (digits_go 0 t)
  | String a _ => if isDigit a then Num (digits_go 0 t) else NaN
  | EmptyString => NaN
  end.

Definition negNum (n : number) : number :=
  match n with Num z => Num (- z) | NaN => NaN end.

(** [parseInt(s)]: optional white space, optional sign, then the longest
    run of digits; [NaN] when there is none. *)
Definition parseInt (s : string) : number :=
  match trimStart s with
  | String "-" r => negNum (parseDigits r)
  | String "+" r => parseDigits r
  | t => parseDigits t
  end.

End JsString.

(** ** Regular expressions

    The backtracking matcher of the language: alternatives are tried left
    to right, quantifiers are greedy or lazy, the first match in
    backtracking order wins.  Only what the pipeline's patterns use is
    here: character classes, sequence, alternation, bounded and unbounded
    repetition, capturing groups, [^] and [$] (no pattern sets the
    multiline flag). *)

Module Regex.
Import JsString.

Inductive regex :=
| Chr (p : ascii -> bool)
| Eps
| Seq (a b : regex)
| Alt (a b : regex)
| Rep (greedy : bool) (lo : nat) (hi : option nat) (a : regex)
| Grp (i : nat) (a : regex)
| Bol
| Eol.

(** Group number [i] is bound to the positions where its text starts and
    ends; the latest binding comes first. *)
Definition captures := list (nat * (nat * nat)).

Definition hi_pred (hi : option nat) : option nat :=
  match hi with Some h => Some (Nat.pred h) | None => None end.

Definition hi_open (hi : option nat) : bool :=
  match hi with Some O => false | _ => true end.

Definition orElse {R} (x : option R) (y : unit -> option R) : option R :=
  match x with Some r => Some r | None => y tt end.

(** [run r pos s c k]: match [r] at position [pos], where [s] is the rest
    of the input, then continue with [k]. *)
Fixpoint run {R : Type} (r : regex) (pos : nat) (s : string) (c : captures)
    (k : nat -> string -> captures -> option R) {struct r} : option R :=
  match r with
  | Chr p =>
      match s with
      | String a s' => if p a then k (S pos) s' c else None
      | EmptyString => None
      end
  | Eps => k pos s c
  | Seq a b => run a pos s c (fun pos' s' c' => run b pos' s' c' k)
  | Alt a b => orElse (run a pos s c k) (fun _ => run b pos s c k)
  | Rep greedy lo hi a =>
      (fix rep (fuel lo : nat) (hi : option nat) (pos : nat) (s : string)
           (c : captures) {struct fuel} : option R :=
         let stop := fun _ : unit => if (lo =? 0)%nat then k pos s c else None in
         let more := fun _ : unit =>
           match fuel with
           | O => None
           | S fuel' =>
               if hi_open hi
               then run a pos s c (fun pos' s' c' =>
                      if (lo =? 0)%nat && (pos' =? pos)%nat then None
                      else rep fuel' (Nat.pred lo) (hi_pred hi) pos' s' c')
               else None
           end in
         if greedy then orElse (more tt) stop else orElse (stop tt) more)
        (lo + String.length s + 1)%nat lo hi pos s c
  | Grp i a => run a pos s c (fun pos' s' c' => k pos' s' ((i, (pos, pos')) :: c'))
  | Bol => if (pos =? 0)%nat then k pos s c else None
  | Eol => match s with EmptyString => k pos s c | _ => None end
  end.

(** A match: where it starts, where it ends, and the groups. *)
Record found := { m_start : nat; m_end : nat; m_caps : captures }.

Definition matchAt (r : regex) (pos : nat) (s : string) : option found :=
  run r pos s [] (fun e _ c => Some {| m_start := pos; m_end := e; m_caps := c |}).

(** The leftmost match at or after [pos]; [s] is the input from [pos] on. *)
Fixpoint searchFrom (r : regex) (pos : nat) (s : string) : option found :=
  match matchAt r pos s with
  | Some f => Some f
  | None => match s with
            | EmptyString => None
            | String _ s' => searchFrom r (S pos) s'
            end
  end.

(** [str.match(r)] and [r.exec(str)] without the [g] flag *)
Definition search (r : regex) (s : string) : option found := searchFrom r 0 s.

(** [r.test(str)] *)
Definition test (r : regex) (s : string) : bool :=
  match search r s with Some _ => true | None => false end.

(** The text of the whole match and of group [i] ([None]: [undefined]). *)
Definition matched (s : string) (f : found) : string := slice (m_start f) (m_end f) s.

Fixpoint lookupCap (i : nat) (c : captures) : option (nat * nat) :=
  match c with
  | [] => None
  | (j, se) :: c' => if (i =? j)%nat then Some se else lookupCap i c'
  end.

Definition group (s : string) (f : found) (i : nat) : option string :=
  match lookupCap i (m_caps f) with
  | Some (b, e) => Some (slice b e s)
  | None => None
  end.

(** A group that takes part in every match of its pattern. *)
Definition group' (s : string) (f : found) (i : nat) : string :=
  match group s f i with Some t => t | None => "" end.

(** Every match of a [g] pattern, left to right: the loop
    [while ((m = r.exec(str)) !== null)] for a pattern that matches no
    empty text, and [str.match(r)] and [str.replace(r, ...)] with [g],
    which move one position on after a match of the empty text. *)
Fixpoint execAll_go (fuel : nat) (r : regex) (whole : string) (pos : nat) : list found :=
  match fuel with
  | O => []
  | S fuel' =>
      match searchFrom r pos (drop pos whole) with
      | None => []
      | Some f =>
          f :: execAll_go fuel' r whole
                 (if (m_end f =? m_start f)%nat then S (m_end f) else m_end f)
      end
  end.

Definition execAll (r : regex) (s : string) : list found :=
  execAll_go (S (String.length s)) r s 0.

(** [str.replace(r, by)], for a replacement text without [$]: the first
    match only, or every match when the pattern has the [g] flag. *)
Definition replaceFirst (r : regex) (by_ : string) (s : string) : string :=
  match search r s with
  | None => s
  | Some f => slice 0 (m_start f) s ++ by_ ++ drop (m_end f) s
  end.

Fixpoint replaceAll_go (ms : list found) (by_ : string) (s : string) (from : nat) : string :=
  match ms with
  | [] => drop from s
  | f :: ms' => slice from (m_start f) s ++ by_ ++ replaceAll_go ms' by_ s (m_end f)
  end.

Definition replaceAll (r : regex) (by_ : string) (s : string) : string :=
  replaceAll_go (execAll r s) by_ s 0.

(** Pattern syntax. *)
Definition chr (a : ascii) : regex := Chr (Ascii.eqb a).
(** one character under the [i] flag *)
Definition chri (a : ascii) : regex := Chr (fun b => Ascii.eqb (upperChar a) (upperChar b)).
Definition d : regex := Chr isDigit.
Definition w : regex := Chr isWord.
Definition sp : regex := Chr isSpace.
Definition dot : regex := Chr (fun a => negb (isLineTerminator a)).
Definition oneOf (cs : string) : regex := Chr (fun a => includes cs (String a "")).
Definition noneOf (p : ascii -> bool) : regex := Chr (fun a => negb (p a)).

Fixpoint lit (s : string) : regex :=
  match s with
  | EmptyString => Eps
  | String a EmptyString => chr a
  | String a s' => Seq (chr a) (lit s')
  end.

Fixpoint liti (s : string) : regex :=
  match s with
  | EmptyString => Eps
  | String a EmptyString => chri a
  | String a s' => Seq (chri a) (liti s')
  end.

Definition star (a : regex) : regex := Rep true 0 None a.
Definition plus (a : regex) : regex := Rep true 1 None a.
Definition plusLazy (a : regex) : regex := Rep false 1 None a.
Definition opt (a : regex) : regex := Rep true 0 (Some 1%nat) a.
Definition times (lo hi : nat) (a : regex) : regex := Rep true lo (Some hi) a.

Fixpoint seqs (rs : list regex) : regex :=
  match rs with
  | [] => Eps
  | [r] => r
  | r :: rs' => Seq r (seqs rs')
  end.

Fixpoint alts (rs : list regex) : regex :=
  match rs with
  | [] => Chr (fun _ => false)
  | [r] => r
  | r :: rs' => Alt r (alts rs')
  end.

End Regex.

(** ** The [Date] object

    A date is its time value: milliseconds since 1970-01-01T00:00Z, or
    [NaN] (an Invalid Date).  The constructor belongs to the engine, not
    to the repository; it is modelled for the texts [parseDate] builds:
    - [Word D, Y] and [Word D], the legacy form with a month name.  A
      word of letters that begins with the first three letters of a
      month names that month.  Of the two numbers, a first one that
      cannot be a day (1..31) is the year and the second one the day,
      otherwise day then year (a missing second number is 1); years 0..49
      are 2000.., 50..99 are 1950..; the date is read in local time, and
      a day past the end of its month rolls over into the next month;
    - [A/B/Y], the legacy numeric form: month/day/year unless [A] cannot
      be a day, in which case year/month/day;
    - [YYYY-MM-DD], the ISO form, in UTC, month 1..12 and day 1..31.
    A word that names no month, and any text of another shape, give an
    Invalid Date in the model. *)

Module JsDate.
Import JsString Regex.

(** Days since 1970-01-01 of a civil date (month 1..12, any day number). *)
Definition days_from_civil (y m dd : Z) : Z :=
  let y' := if m <=? 2 then y - 1 else y in
  let era := y' / 400 in
  let yoe := y' - era * 400 in
  let mp := if 2 <? m then m - 3 else m + 9 in
  let doy := (153 * mp + 2) / 5 + dd - 1 in
  let doe := yoe * 365 + yoe / 4 - yoe / 100 + doy in
  era * 146097 + doe - 719468.

(** The civil date (year, month 1..12, day) of a day number. *)
Definition civil_from_days (z : Z) : Z * Z * Z :=
  let z' := z + 719468 in
  let era := z' / 146097 in
  let doe := z' - era * 146097 in
  let yoe := (doe - doe / 1460 + doe / 36524 - doe / 146096) / 365 in
  let doy := doe - (365 * yoe + yoe / 4 - yoe / 100) in
  let mp := (5 * doy + 2) / 153 in
  let dd := doy - (153 * mp + 2) / 5 + 1 in
  let m := if mp <? 10 then mp + 3 else mp - 9 in
  (yoe + era * 400 + (if m <=? 2 then 1 else 0), m, dd).

Definition msPerDay : Z := 86400000.

(** A time value, [None] for [NaN]. *)
Definition Date := option Z.

Definition TimeClip (t : Z) : Date :=
  if Z.abs t <=? 8640000000000000 then Some t else None.

Definition IsMonth (x : Z) : bool := (1 <=? x) && (x <=? 12).
Definition IsDay (x : Z) : bool := (1 <=? x) && (x <=? 31).

Definition legacyYear (y : Z) : Z :=
  if (0 <=? y) && (y <=? 49) then y + 2000
  else if (50 <=? y) && (y <=? 99) then y + 1900
  else y.

(** The time value of a civil date read in local time; [tz] is the
    offset of local time from UTC in minutes, the same for every date (a
    zone without daylight saving time). *)
Definition localDate (tz : Z) (y m dd : Z) : Date :=
  if IsMonth m && IsDay dd
  then TimeClip ((days_from_civil y m 1 + dd - 1) * msPerDay - tz * 60000)
  else None.

Definition utcDate (y m dd : Z) : Date :=
  if IsMonth m && IsDay dd
  then TimeClip ((days_from_civil y m 1 + dd - 1) * msPerDay)
  else None.

Definition monthPrefixes : list string :=
  ["jan"; "feb"; "mar"; "apr"; "may"; "jun"; "jul"; "aug"; "sep"; "oct"; "nov"; "dec"].

Fixpoint findIndex (p : string) (l : list string) (i : Z) : option Z :=
  match l with
  | [] => None
  | x :: l' => if String.eqb x p then Some i else findIndex p l' (i + 1)
  end.

(** The month (1..12) a word names. *)
Definition namedMonth (word : string) : option Z :=
  if (String.length word <? 3)%nat then None
  else findIndex (toLowerCase (substring 0 3 word)) monthPrefixes 1.

Definition reNamed : regex :=
  seqs [Bol; Grp 1 (plus (Chr isLetter)); chr " "; Grp 2 (plus d);
        opt (Seq (lit ", ") (Grp 3 (plus d))); Eol].
(** A first word of digits, which [parseDate]'s [(\w+)] also matches:
    "11 01, 2025", "11 1".  The engine reads the numbers as it reads
    those of a date with slashes; a missing third number is 1. *)
Definition reNumbers : regex :=
  seqs [Bol; Grp 1 (plus d); chr " "; Grp 2 (plus d);
        opt (Seq (lit ", ") (Grp 3 (plus d))); Eol].
Definition reSlash : regex :=
  seqs [Bol; Grp 1 (plus d); chr "/"; Grp 2 (plus d); chr "/"; Grp 3 (plus d); Eol].
Definition reIso : regex :=
  seqs [Bol; Grp 1 (times 4 4 d); chr "-"; Grp 2 (times 2 2 d); chr "-";
        Grp 3 (times 2 2 d); Eol].

Definition num (s : string) : Z := digits_go 0 s.

(** [new Date(text)] *)
Definition parse (tz : Z) (text : string) : Date :=
  match search reNamed text with
  | Some f =>
      match namedMonth (group' text f 1) with
      | Some m =>
          let a := num (group' text f 2) in
          let b := match group text f 3 with Some t => num t | None => 1 end in
          if IsDay a then localDate tz (legacyYear b) m a
          else localDate tz (legacyYear a) m b
      | None => None
      end
  | None =>
  match search reNumbers text with
  | Some f =>
      let a := num (group' text f 1) in
      let b := num (group' text f 2) in
      let c := match group text f 3 with Some t => num t | None => 1 end in
      if IsDay a then localDate tz (legacyYear c) a b
      else localDate tz (legacyYear a) b c
  | None =>
  match search reSlash text with
  | Some f =>
      let a := num (group' text f 1) in
      let b := num (group' text f 2) in
      let c := num (group' text f 3) in
      if IsDay a then localDate tz (legacyYear c) a b
      else localDate tz (legacyYear a) b c
  | None =>
  match search reIso text with
  | Some f => utcDate (num (group' text f 1)) (num (group' text f 2)) (num (group' text f 3))
  | None => None
  end end end end.

(** [isNaN(date.getTime())] *)
Definition isInvalid (dt : Date) : bool :=
  match dt with Some _ => false | None => true end.

(** [date.getMonth()]: the month of the local date, 0..11; [NaN] for an
    Invalid Date. *)
Definition getMonth (tz : Z) (dt : Date) : number :=
  match dt with
  | Some t => let '(_, m, _) := civil_from_days ((t + tz * 60000) / msPerDay) in Num (m - 1)
  | None => NaN
  end.

Definition pad (n : nat) (z : Z) : string := padStart n "0" (showZ z).

(** [date.toISOString()]; it throws a RangeError on an Invalid Date,
    which is [None] here. *)
Definition toISOString (dt : Date) : option string :=
  match dt with
  | None => None
  | Some t =>
      let '(y, m, dd) := civil_from_days (t / msPerDay) in
      let ms := t mod msPerDay in
      let year := if (0 <=? y) && (y <=? 9999) then pad 4 y
                  else (if y <? 0 then "-" else "+") ++ pad 6 (Z.abs y) in
      Some (year ++ "-" ++ pad 2 m ++ "-" ++ pad 2 dd ++ "T"
            ++ pad 2 (ms / 3600000) ++ ":" ++ pad 2 (ms / 60000 mod 60) ++ ":"
            ++ pad 2 (ms / 1000 mod 60) ++ "." ++ pad 3 (ms mod 1000) ++ "Z")
  end.

(** [date.getFullYear()] of a valid date, in local time *)
Definition getFullYear (tz : Z) (t : Z) : Z :=
  let '(y, _, _) := civil_from_days ((t + tz * 60000) / msPerDay) in y.

End JsDate.

(** ** Storage

    The tables the pipeline reads and writes, and [pool.query] as an
    operation on them.  A query can fail (the connection drops, a
    constraint is violated), in which case the [await] throws. *)

Module Db.

Inductive RoundType := ED | ED2 | EA | REA | RD | ROLLING.
Inductive DataSource := CRAWLER | ADMIN.

#[global] Instance RoundType_eq_dec : EqDecision RoundType.
Proof. solve_decision. Defined.
#[global] Instance DataSource_eq_dec : EqDecision DataSource.
Proof. solve_decision. Defined.

Definition roundName (r : RoundType) : string :=
  match r with
  | ED => "ED" | ED2 => "ED2" | EA => "EA" | REA => "REA" | RD => "RD"
  | ROLLING => "ROLLING"
  end.

(** Table [colleges] *)
Record College := {
  c_id : Z;
  c_name : string;
  c_short_name : option string;
  c_admissions_url : option string;
  c_usnews_rank : option Z }.

(** Table [college_rounds]: one DeadlineRecord per row.  Dates are kept as
    the ISO texts that are written to them; a NULL [admin_confirmed] reads
    as [false]. *)
Record CollegeRound := {
  cr_id : Z;
  cr_college_id : Z;
  cr_round_type : RoundType;
  cr_cycle : string;
  cr_deadline_date : option string;
  cr_decision_date : option string;
  cr_source : DataSource;
  cr_admin_confirmed : bool;
  cr_last_crawled_at : option Z }.

Inductive Json := JStr (s : string) | JNum (z : Z).

(** Table [crawl_logs]: one CrawlRun per row. *)
Record CrawlLog := {
  cl_id : Z;
  run_started_at : Z;
  run_finished_at : option Z;
  colleges_attempted : Z;
  colleges_successful : Z;
  colleges_failed : Z;
  cl_details : option (gmap string Json) }.

(** The statements that change a table, as they are sent. *)
Inductive Statement :=
| UpdateRoundCrawler (id : Z) (deadline : string)
| UpdateRoundPdf (id : Z) (deadline : string)
| TouchRound (id : Z)
| InsertRound (college : Z) (rt : RoundType) (cycle : string) (deadline : string)
| InsertCrawlLog (started : Z)
| UpdateProgress (id : Z) (attempted successful failed : Z)
| FinalizeCrawlLog (id : Z) (attempted successful failed : Z) (details : gmap string Json)
| CleanupStale
| UpsertSettings (cycle : string).

Record World := {
  colleges : list College;
  college_rounds : list CollegeRound;
  crawl_logs : list CrawlLog;
  current_cycle : option string;     (* system_settings, row 1 *)
  next_round_id : Z;                 (* the SERIAL sequences *)
  next_log_id : Z;
  now : Z;                           (* NOW(), milliseconds *)
  faults : list bool;                (* true: the next query fails *)
  executed : list Statement          (* latest first *)
}.

Definition with_rounds (f : list CollegeRound -> list CollegeRound) (w : World) : World :=
  {| colleges := colleges w; college_rounds := f (college_rounds w);
     crawl_logs := crawl_logs w; current_cycle := current_cycle w;
     next_round_id := next_round_id w; next_log_id := next_log_id w;
     now := now w; faults := faults w; executed := executed w |}.

Definition with_logs (f : list CrawlLog -> list CrawlLog) (w : World) : World :=
  {| colleges := colleges w; college_rounds := college_rounds w;
     crawl_logs := f (crawl_logs w); current_cycle := current_cycle w;
     next_round_id := next_round_id w; next_log_id := next_log_id w;
     now := now w; faults := faults w; executed := executed w |}.

Definition with_cycle (c : option string) (w : World) : World :=
  {| colleges := colleges w; college_rounds := college_rounds w;
     crawl_logs := crawl_logs w; current_cycle := c;
     next_round_id := next_round_id w; next_log_id := next_log_id w;
     now := now w; faults := faults w; executed := executed w |}.

Definition with_next_round_id (n : Z) (w : World) : World :=
  {| colleges := colleges w; college_rounds := college_rounds w;
     crawl_logs := crawl_logs w; current_cycle := current_cycle w;
     next_round_id := n; next_log_id := next_log_id w;
     now := now w; faults := faults w; executed := executed w |}.

Definition with_next_log_id (n : Z) (w : World) : World :=
  {| colleges := colleges w; college_rounds := college_rounds w;
     crawl_logs := crawl_logs w; current_cycle := current_cycle w;
     next_round_id := next_round_id w; next_log_id := n;
     now := now w; faults := faults w; executed := executed w |}.

Definition with_faults (fs : list bool) (w : World) : World :=
  {| colleges := colleges w; college_rounds := college_rounds w;
     crawl_logs := crawl_logs w; current_cycle := current_cycle w;
     next_round_id := next_round_id w; next_log_id := next_log_id w;
     now := now w; faults := fs; executed := executed w |}.

Definition record (s : Statement) (w : World) : World :=
  {| colleges := colleges w; college_rounds := college_rounds w;
     crawl_logs := crawl_logs w; current_cycle := current_cycle w;
     next_round_id := next_round_id w; next_log_id := next_log_id w;
     now := now w; faults := faults w; executed := s :: executed w |}.

(** *** Computations that await queries *)

Inductive Res (A : Type) := Ok (a : A) | Throw (message : string).
Arguments Ok {A} a.
Arguments Throw {A} message.

Definition M (A : Type) : Type := World -> Res A * World.

Definition ret {A} (a : A) : M A := fun w => (Ok a, w).
Definition throw {A} (message : string) : M A := fun w => (Throw message, w).

Definition bind {A B} (m : M A) (k : A -> M B) : M B := fun w =>
  match m w with
  | (Ok a, w') => k a w'
  | (Throw e, w') => (Throw e, w')
  end.

(** [try { m } catch (err) { h err.message }] *)
Definition try_catch {A} (m : M A) (h : string -> M A) : M A := fun w =>
  match m w with
  | (Ok a, w') => (Ok a, w')
  | (Throw e, w') => h e w'
  end.

(** a computation that does not touch storage *)
Definition lift {A} (r : Res A) : M A := fun w => (r, w).

Definition andThen {A B} (r : Res A) (k : A -> Res B) : Res B :=
  match r with Ok a => k a | Throw e => Throw e end.

Declare Scope db_scope.
Delimit Scope db_scope with db.
Notation "'let*' x := c1 'in' c2" := (bind c1 (fun x => c2))
  (at level 10, x pattern, c1 at level 100, c2 at level 200) : db_scope.
Local Open Scope db_scope.

(** [for (const x of xs) { await body x }] *)
Fixpoint forEach {A} (xs : list A) (body : A -> M unit) : M unit :=
  match xs with
  | [] => ret tt
  | x :: xs' => let* _ := body x in forEach xs' body
  end.

(** [await Promise.all(xs.map(f))] for an [f] that touches only rows of
    its own argument: the calls are taken one after the other, in the
    order of [xs], which is also the order of the results. *)
Fixpoint promiseAll {A B} (f : nat -> A -> M B) (i : nat) (xs : list A) : M (list B) :=
  match xs with
  | [] => ret []
  | x :: xs' => let* y := f i x in let* ys := promiseAll f (S i) xs' in ret (y :: ys)
  end.

(** *** [pool.query] *)

Definition dbError : string := "connection terminated".

Definition query {A} (run : World -> Res A * World) : M A := fun w =>
  match faults w with
  | true :: fs => (Throw dbError, with_faults fs w)
  | false :: fs => run (with_faults fs w)
  | [] => run w
  end.

Definition sameKey (college : Z) (rt : RoundType) (cycle : string) (r : CollegeRound) : Prop :=
  cr_college_id r = college /\ cr_round_type r = rt /\ cr_cycle r = cycle.

#[global] Instance sameKey_dec college rt cycle r : Decision (sameKey college rt cycle r).
Proof. unfold sameKey. apply _. Defined.

(** [SELECT ... FROM college_rounds WHERE college_id = $1 AND
    round_type = $2 AND cycle = $3] *)
Definition selectRound (college : Z) (rt : RoundType) (cycle : string) : M (list CollegeRound) :=
  query (fun w => (Ok (filter (sameKey college rt cycle) (college_rounds w)), w)).

(** What the driver (node-postgres) hands to the program for a DATE
    column of a selected row: a [Date] object for the stored day, or
    [null].  No type parser is registered, so this is the driver's
    default. *)
Inductive DateValue := DateObject (day : string) | DateNull.

Definition selectedDate (stored : option string) : DateValue :=
  match stored with Some day => DateObject day | None => DateNull end.

(** [value !== text] for a text: strict equality never holds between an
    object or [null] and a string, whatever day the object stands for. *)
Definition differsFromText (value : DateValue) (text : string) : bool :=
  match value with
  | DateObject _ => true
  | DateNull => true
  end.

Definition onRow (id : Z) (f : CollegeRound -> CollegeRound) (r : CollegeRound) : CollegeRound :=
  if bool_decide (cr_id r = id) then f r else r.

(** [UPDATE college_rounds SET deadline_date = $1, source = 'CRAWLER',
    admin_confirmed = false, last_crawled_at = NOW() WHERE id = $2] *)
Definition updateRoundCrawler (deadline : string) (id : Z) : M unit :=
  query (fun w =>
    (Ok tt,
     record (UpdateRoundCrawler id deadline)
       (with_rounds (map (onRow id (fun r =>
          {| cr_id := cr_id r; cr_college_id := cr_college_id r;
             cr_round_type := cr_round_type r; cr_cycle := cr_cycle r;
             cr_deadline_date := Some deadline;
             cr_decision_date := cr_decision_date r;
             cr_source := CRAWLER; cr_admin_confirmed := false;
             cr_last_crawled_at := Some (now w) |}))) w))).

(** [UPDATE college_rounds SET deadline_date = $1, source = 'CRAWLER',
    last_crawled_at = NOW() WHERE id = $2] *)
Definition updateRoundPdf (deadline : string) (id : Z) : M unit :=
  query (fun w =>
    (Ok tt,
     record (UpdateRoundPdf id deadline)
       (with_rounds (map (onRow id (fun r =>
          {| cr_id := cr_id r; cr_college_id := cr_college_id r;
             cr_round_type := cr_round_type r; cr_cycle := cr_cycle r;
             cr_deadline_date := Some deadline;
             cr_decision_date := cr_decision_date r;
             cr_source := CRAWLER; cr_admin_confirmed := cr_admin_confirmed r;
             cr_last_crawled_at := Some (now w) |}))) w))).

(** [UPDATE college_rounds SET last_crawled_at = NOW() WHERE id = $1] *)
Definition touchRound (id : Z) : M unit :=
  query (fun w =>
    (Ok tt,
     record (TouchRound id)
       (with_rounds (map (onRow id (fun r =>
          {| cr_id := cr_id r; cr_college_id := cr_college_id r;
             cr_round_type := cr_round_type r; cr_cycle := cr_cycle r;
             cr_deadline_date := cr_deadline_date r;
             cr_decision_date := cr_decision_date r;
             cr_source := cr_source r; cr_admin_confirmed := cr_admin_confirmed r;
             cr_last_crawled_at := Some (now w) |}))) w))).

Definition hasKey (college : Z) (rt : RoundType) (cycle : string) (rows : list CollegeRound) : bool :=
  bool_decide (Exists (sameKey college rt cycle) rows).

Definition hasId (id : Z) (rows : list CollegeRound) : bool :=
  bool_decide (Exists (fun r => cr_id r = id) rows).

(** [INSERT INTO college_rounds (college_id, round_type, cycle,
    deadline_date, source, admin_confirmed, last_crawled_at) VALUES ($1,
    $2, $3, $4, 'CRAWLER', false, NOW())].  The id comes from the
    sequence; the primary key and UNIQUE(college_id, round_type, cycle)
    are checked.  The text of the date is stored as it is given: the
    check of the DATE column (which refuses a day that its month does not
    have) is not part of this model. *)
Definition insertRound (college : Z) (rt : RoundType) (cycle : string) (deadline : string) : M unit :=
  query (fun w =>
    let id := next_round_id w in
    let w' := with_next_round_id (id + 1) w in
    if hasKey college rt cycle (college_rounds w) || hasId id (college_rounds w)
    then (Throw "duplicate key value violates unique constraint", w')
    else (Ok tt,
          record (InsertRound college rt cycle deadline)
            (with_rounds (fun rows => app rows
               [{| cr_id := id; cr_college_id := college; cr_round_type := rt;
                   cr_cycle := cycle; cr_deadline_date := Some deadline;
                   cr_decision_date := None; cr_source := CRAWLER;
                   cr_admin_confirmed := false;
                   cr_last_crawled_at := Some (now w) |}]) w'))).

(** [SELECT COUNT( * ) as count FROM college_rounds] *)
Definition countRounds : M Z :=
  query (fun w => (Ok (Z.of_nat (length (college_rounds w))), w)).

(** [SELECT id, name, short_name FROM colleges] *)
Definition selectColleges : M (list College) :=
  query (fun w => (Ok (colleges w), w)).

End Db.

(** ** The host of the crawler service

    What the service meets outside storage: the time zone of the process,
    the web, and the libraries that turn a page or the requirements grid
    into text. *)

Module Host.
Import Db.

(** How the body of a response ends. *)
Inductive Body :=
| BodyEnd (data : string)
| BodyError (message : string)
| BodyStalls.

(** What a GET meets. *)
Inductive HttpOutcome :=
| Response (statusCode : option Z) (location : option string) (body : Body)
| RequestError (message : string)
| RequestTimeout.

Record Host := {
  tz : Z;                             (* local time minus UTC, in minutes *)
  http : string -> HttpOutcome;
  bodyText : string -> string;        (* cheerio: [$('body').text()] *)
  gridText : Res string               (* downloadPdf, then extractPdfText *)
}.

End Host.

(** ** crawler.ts: fetching a page *)

Module Fetch.
Import JsString Db Host.

(** a string in a condition *)
Definition truthy (s : option string) : bool :=
  match s with Some (String _ _) => true | _ => false end.

Definition isRedirect (statusCode : option Z) (location : option string) : bool :=
  match statusCode with
  | Some st => (300 <=? st) && (st <? 400) && truthy location
  | None => false
  end.

Definition showStatus (statusCode : option Z) : string :=
  match statusCode with Some st => showZ st | None => "undefined" end.

(** [fetchPage], by the number of requests it may still send: a call with
    [redirectCount > 5] sends none. *)
Fixpoint fetchPage_left (left : nat) (http : string -> HttpOutcome) (url : string) : Res string :=
  match left with
  | O => Throw "Too many redirects"
  | S left' =>
      match http url with
      | Response statusCode location body =>
          if isRedirect statusCode location
          then fetchPage_left left' http (default "" location)
          else if negb (bool_decide (statusCode = Some 200))
          then Throw ("HTTP " ++ showStatus statusCode)
          else match body with
               | BodyEnd data => Ok data
               | BodyError message => Throw message
               | BodyStalls => Throw "Request timeout"
               end
      | RequestError message => Throw message
      | RequestTimeout => Throw "Request timeout"
      end
  end.

Definition fetchPage (http : string -> HttpOutcome) (url : string) (redirectCount : nat) : Res string :=
  fetchPage_left (6 - redirectCount) http url.

End Fetch.

(** ** crawler.ts: dates *)

Module DateParser.
Import JsString Regex Db.

Definition monthNames : list string :=
  ["January"; "February"; "March"; "April"; "May"; "June"; "July"; "August";
   "September"; "October"; "November"; "December"].

Definition monthName : regex := alts (map liti monthNames).

Definition DATE_PATTERNS : list regex :=
  [ seqs [monthName; plus sp; times 1 2 d; opt (chr ","); plus sp; times 4 4 d];
    seqs [monthName; plus sp; times 1 2 d];
    seqs [times 1 2 d; chr "/"; times 1 2 d; chr "/"; times 4 4 d];
    seqs [times 4 4 d; chr "-"; times 2 2 d; chr "-"; times 2 2 d] ].

(** [/(\w+)\s+(\d{1,2}),?\s+(\d{4})/] *)
Definition fullPattern : regex :=
  seqs [Grp 1 (plus w); plus sp; Grp 2 (times 1 2 d); opt (chr ","); plus sp;
        Grp 3 (times 4 4 d)].
(** [/(\w+)\s+(\d{1,2})/] *)
Definition partialPattern : regex :=
  seqs [Grp 1 (plus w); plus sp; Grp 2 (times 1 2 d)].
(** [/(\d{1,2})\/(\d{1,2})\/(\d{4})/] *)
Definition slashPattern : regex :=
  seqs [Grp 1 (times 1 2 d); chr "/"; Grp 2 (times 1 2 d); chr "/"; Grp 3 (times 4 4 d)].
(** [/(\d{4})-(\d{2})-(\d{2})/] *)
Definition isoPattern : regex :=
  seqs [Grp 1 (times 4 4 d); chr "-"; Grp 2 (times 2 2 d); chr "-"; Grp 3 (times 2 2 d)].

(** [!date || isNaN(date.getTime())], for [date : Date | null] *)
Definition missing (date : option JsDate.Date) : bool :=
  match date with None => true | Some dt => JsDate.isInvalid dt end.

(** [log(..., { ..., parsed: date.toISOString() })]: building the entry
    throws when the date is invalid. *)
Definition logParsed (dt : JsDate.Date) : Res unit :=
  match JsDate.toISOString dt with
  | Some _ => Ok tt
  | None => Throw "Invalid time value"
  end.

Definition geNum (n : number) (k : Z) : bool :=
  match n with Num z => k <=? z | NaN => false end.

Definition succNum (n : number) : number :=
  match n with Num z => Num (z + 1) | NaN => NaN end.

(** The body of the [try] block of [parseDate]. *)
Definition parseDate_try (tz : Z) (dateStr : string) (cycleStartYear : number)
  : Res (option string) :=
  (* Full date with year: "November 1, 2025" *)
  andThen
    (match search fullPattern dateStr with
     | Some f =>
         let date := JsDate.parse tz
           (group' dateStr f 1 ++ " " ++ group' dateStr f 2 ++ ", " ++ group' dateStr f 3) in
         andThen (logParsed date) (fun _ => Ok (Some date))
     | None => Ok None
     end) (fun date =>
  (* Partial date without year: "November 1" *)
  andThen
    (if missing date then
       match search partialPattern dateStr with
       | Some f =>
           let month := JsDate.getMonth tz (JsDate.parse tz (group' dateStr f 1 ++ " 1")) in
           let year := if geNum month 8 then cycleStartYear else succNum cycleStartYear in
           let date := JsDate.parse tz
             (group' dateStr f 1 ++ " " ++ group' dateStr f 2 ++ ", " ++ show year) in
           andThen (logParsed date) (fun _ => Ok (Some date))
       | None => Ok date
       end
     else Ok date) (fun date =>
  (* MM/DD/YYYY format *)
  let date :=
    if missing date then
      match search slashPattern dateStr with
      | Some f => Some (JsDate.parse tz
          (group' dateStr f 1 ++ "/" ++ group' dateStr f 2 ++ "/" ++ group' dateStr f 3))
      | None => date
      end
    else date in
  (* YYYY-MM-DD format *)
  let date :=
    if missing date then
      match search isoPattern dateStr with
      | Some f => Some (JsDate.parse tz
          (group' dateStr f 1 ++ "-" ++ group' dateStr f 2 ++ "-" ++ group' dateStr f 3))
      | None => date
      end
    else date in
  match date with
  | Some dt =>
      match JsDate.toISOString dt with
      | Some iso => Ok (Some (hd "" (split "T" iso)))
      | None => Ok None
      end
  | None => Ok None
  end)).

(** [parseDate]: the [catch] logs and the function returns [null]. *)
Definition parseDate (tz : Z) (dateStr : string) (cycleStartYear : number) : option string :=
  match parseDate_try tz dateStr cycleStartYear with
  | Ok r => r
  | Throw _ => None
  end.

Fixpoint findNearbyDate_loop (tz : Z) (patterns : list regex) (text : string)
    (cycleStartYear : number) : option string :=
  match patterns with
  | [] => None
  | pattern :: rest =>
      match search pattern text with
      | Some f =>
          match parseDate tz (matched text f) cycleStartYear with
          | Some (String a parsed) => Some (String a parsed)
          | _ => findNearbyDate_loop tz rest text cycleStartYear
          end
      | None => findNearbyDate_loop tz rest text cycleStartYear
      end
  end.

Definition findNearbyDate (tz : Z) (text : string) (cycleStartYear : number) : option string :=
  findNearbyDate_loop tz DATE_PATTERNS text cycleStartYear.

(** [getCurrentCycle], at the instant [t] *)
Definition getCurrentCycle (tz : Z) (t : Z) : string :=
  let year := JsDate.getFullYear tz t in
  if geNum (JsDate.getMonth tz (Some t)) 8
  then showZ year ++ "-" ++ showZ (year + 1)
  else showZ (year - 1) ++ "-" ++ showZ year.

End DateParser.

(** ** crawler.ts: the admissions page of one college *)

Module Html.
Import JsString Regex Db Host Fetch DateParser.

Record DeadlineData := {
  deadline_date : option string;
  decision_date : option string }.

(** [Partial<Record<RoundType, DeadlineData>>], in the order its keys
    were set. *)
Definition ParsedDeadlines := list (RoundType * DeadlineData).

Definition ROUND_KEYWORDS : list (RoundType * list string) :=
  [ (ED, ["early decision"; "ed deadline"; "ed i "; "ed1"]);
    (ED2, ["early decision ii"; "early decision 2"; "ed ii"; "ed2"; "ed 2"]);
    (EA, ["early action"; "ea deadline"]);
    (REA, ["restrictive early action"; "single-choice early action"; "rea"]);
    (RD, ["regular decision"; "rd deadline"; "regular deadline"]);
    (ROLLING, ["rolling admission"; "rolling deadline"]) ].

(** The inner loop over the keywords of one round: the first keyword that
    occurs with a date nearby gives the deadline, then [break]. *)
Fixpoint scanKeywords (tz : Z) (textContent : string) (cycleStartYear : number)
    (keywords : list string) : option string :=
  match keywords with
  | [] => None
  | keyword :: rest =>
      match indexOf textContent keyword with
      | Some keywordIndex =>
          let context := slice (keywordIndex - 100)
                           (Nat.min (String.length textContent) (keywordIndex + 200))
                           textContent in
          match findNearbyDate tz context cycleStartYear with
          | Some deadlineDate => Some deadlineDate
          | None => scanKeywords tz textContent cycleStartYear rest
          end
      | None => scanKeywords tz textContent cycleStartYear rest
      end
  end.

Fixpoint scanRounds (tz : Z) (textContent : string) (cycleStartYear : number)
    (table : list (RoundType * list string)) : ParsedDeadlines :=
  match table with
  | [] => []
  | (roundType, keywords) :: rest =>
      match scanKeywords tz textContent cycleStartYear keywords with
      | Some deadlineDate =>
          (roundType, {| deadline_date := Some deadlineDate; decision_date := None |})
            :: scanRounds tz textContent cycleStartYear rest
      | None => scanRounds tz textContent cycleStartYear rest
      end
  end.

(** [parseAdmissionsPage]; its [catch] logs and throws the error again. *)
Definition parseAdmissionsPage (h : Host) (url : string) (cycle : string) : Res ParsedDeadlines :=
  let cycleStartYear := parseInt (hd "" (split "-" cycle)) in
  andThen (fetchPage (http h) url 0) (fun html =>
    let textContent := toLowerCase (bodyText h html) in
    Ok (scanRounds (tz h) textContent cycleStartYear ROUND_KEYWORDS)).

End Html.

(** ** crawler.ts: reconciling one college, and the run over all of them *)

Module Crawler.
Import JsString Db Host Fetch DateParser Html.
Local Open Scope db_scope.

(** The body of the loop over the rounds found on the page: one
    candidate deadline for the key (college, round type, cycle). *)
Definition reconcileRound (college : Z) (currentCycle : string) (roundType : RoundType)
    (data : DeadlineData) : M unit :=
  if truthy (deadline_date data) then
    let date := default "" (deadline_date data) in
    (* Check if round exists *)
    let* rows := selectRound college roundType currentCycle in
    match rows with
    | existing :: _ =>
        (* Only update if not admin-confirmed and date changed *)
        if negb (cr_admin_confirmed existing)
           && differsFromText (selectedDate (cr_deadline_date existing)) date
        then updateRoundCrawler date (cr_id existing)
        else if cr_admin_confirmed existing
        then ret tt
        else (* Just update last_crawled_at *)
          touchRound (cr_id existing)
    | [] =>
        (* Insert new round *)
        insertRound college roundType currentCycle date
    end
  else ret tt.

Record ProcessResult := {
  success : bool;
  college : string;
  rounds : list string;
  error : option string }.

(** [processCollege]: every error of the page or of storage is caught and
    becomes a result. *)
Definition processCollege (h : Host) (c : College) (currentCycle : string) (workerId : nat)
  : M ProcessResult :=
  try_catch
    (let* deadlines := lift (parseAdmissionsPage h (default "" (c_admissions_url c)) currentCycle) in
     let roundsFound := map (fun e => roundName (fst e)) deadlines in
     let* _ := (if (0 <? length roundsFound)%nat
                then forEach deadlines (fun e => reconcileRound (c_id c) currentCycle (fst e) (snd e))
                else ret tt) in
     ret {| success := true; college := c_name c; rounds := roundsFound; error := None |})
    (fun errorMsg =>
       ret {| success := false; college := c_name c; rounds := []; error := Some errorMsg |}).

(** Worker pool configuration *)
Definition CONCURRENCY : nat := 10.

Record Counters := {
  completed : Z;
  successful : Z;
  failed : Z;
  errors : list (string * string);
  foundDeadlines : list (string * list string) }.

Definition noCounters : Counters :=
  {| completed := 0; successful := 0; failed := 0; errors := []; foundDeadlines := [] |}.

(** The loop that aggregates the results of one batch.  [keepErrors] is
    false in [runCrawlerForMissingColleges], which has no error list. *)
Definition aggregate (keepErrors : bool) (k : Counters) (result : ProcessResult) : Counters :=
  if success result then
    {| completed := completed k + 1; successful := successful k + 1; failed := failed k;
       errors := errors k;
       foundDeadlines :=
         if (0 <? length (rounds result))%nat
         then app (foundDeadlines k) [(college result, rounds result)]
         else foundDeadlines k |}
  else
    {| completed := completed k + 1; successful := successful k; failed := failed k + 1;
       errors :=
         if keepErrors && truthy (error result)
         then app (errors k) [(college result, default "" (error result))]
         else errors k;
       foundDeadlines := foundDeadlines k |}.

(** [INSERT INTO crawl_logs (run_started_at, colleges_attempted,
    colleges_successful, colleges_failed) VALUES ($1, 0, 0, 0)
    RETURNING id] *)
Definition insertCrawlLog (startTime : Z) : M Z :=
  query (fun w =>
    let id := next_log_id w in
    let w' := with_next_log_id (id + 1) w in
    if bool_decide (Exists (fun l => cl_id l = id) (crawl_logs w))
    then (Throw "duplicate key value violates unique constraint", w')
    else (Ok id,
          record (InsertCrawlLog startTime)
            (with_logs (fun logs => app logs
               [{| cl_id := id; run_started_at := startTime; run_finished_at := None;
                   colleges_attempted := 0; colleges_successful := 0;
                   colleges_failed := 0; cl_details := None |}]) w'))).

Definition onLog (id : Z) (f : CrawlLog -> CrawlLog) (l : CrawlLog) : CrawlLog :=
  if bool_decide (cl_id l = id) then f l else l.

(** [UPDATE crawl_logs SET colleges_attempted = $1, colleges_successful =
    $2, colleges_failed = $3 WHERE id = $4] *)
Definition updateProgress (k : Counters) (logId : Z) : M unit :=
  query (fun w =>
    (Ok tt,
     record (UpdateProgress logId (completed k) (successful k) (failed k))
       (with_logs (map (onLog logId (fun l =>
          {| cl_id := cl_id l; run_started_at := run_started_at l;
             run_finished_at := run_finished_at l;
             colleges_attempted := completed k; colleges_successful := successful k;
             colleges_failed := failed k; cl_details := cl_details l |}))) w))).

Definition finalDetails (error : option string) (k : Counters) : gmap string Json :=
  let counts : gmap string Json :=
    <["completed" := JNum (completed k)]>
      (<["successful" := JNum (successful k)]> (<["failed" := JNum (failed k)]> ∅)) in
  if truthy error then <["error" := JStr (default "" error)]> counts else counts.

(** [finalizeCrawlLog]: sets the end time, the counters and the details;
    a failure of the statement is logged and goes no further. *)
Definition finalizeCrawlLog (logId : Z) (k : Counters) (error : option string) : M unit :=
  try_catch
    (query (fun w =>
       let details := finalDetails error k in
       (Ok tt,
        record (FinalizeCrawlLog logId (completed k) (successful k) (failed k) details)
          (with_logs (map (onLog logId (fun l =>
             {| cl_id := cl_id l; run_started_at := run_started_at l;
                run_finished_at := Some (now w);
                colleges_attempted := completed k; colleges_successful := successful k;
                colleges_failed := failed k; cl_details := Some details |}))) w))))
    (fun _ => ret tt).

(** [SELECT current_cycle FROM system_settings WHERE id = 1] *)
Definition selectCycle : M (option string) :=
  query (fun w => (Ok (current_cycle w), w)).

(** [INSERT INTO system_settings ... ON CONFLICT (id) DO UPDATE SET
    current_cycle = $1] *)
Definition upsertSettings (cycle : string) : M unit :=
  query (fun w => (Ok tt, record (UpsertSettings cycle) (with_cycle (Some cycle) w))).

(** [ORDER BY usnews_rank ASC NULLS LAST]; rows of equal rank keep the
    order of the table. *)
Definition rankLe (a b : College) : bool :=
  match c_usnews_rank a, c_usnews_rank b with
  | Some x, Some y => x <=? y
  | Some _, None => true
  | None, Some _ => false
  | None, None => true
  end.

Fixpoint insertByRank (c : College) (l : list College) : list College :=
  match l with
  | [] => [c]
  | x :: l' => if rankLe x c then x :: insertByRank c l' else c :: l
  end.

Definition orderByRank (l : list College) : list College :=
  fold_left (fun acc c => insertByRank c acc) l [].

(** [SELECT id, name, admissions_url FROM colleges WHERE admissions_url
    IS NOT NULL AND admissions_url != '' ORDER BY usnews_rank ASC NULLS
    LAST] *)
Definition targets (w : World) : list College :=
  orderByRank (List.filter (fun c => truthy (c_admissions_url c)) (colleges w)).

Definition selectTargets : M (list College) :=
  query (fun w => (Ok (targets w), w)).

Definition hasRoundsIn (cycle : string) (rows : list CollegeRound) (c : College) : bool :=
  bool_decide (Exists (fun r => cr_college_id r = c_id c /\ cr_cycle r = cycle) rows).

(** The same, [AND NOT EXISTS (SELECT 1 FROM college_rounds cr WHERE
    cr.college_id = c.id AND cr.cycle = $1)] *)
Definition selectMissing (cycle : string) : M (list College) :=
  query (fun w =>
    (Ok (orderByRank (List.filter (fun c => truthy (c_admissions_url c)
                                   && negb (hasRoundsIn cycle (college_rounds w) c))
                        (colleges w))), w)).

(** [colleges.slice(i, i + CONCURRENCY)] *)
Definition sliceList {A} (i n : nat) (l : list A) : list A := firstn n (skipn i l).

(** The loop [for (let i = 0; i < colleges.length; i += CONCURRENCY)] of
    [runCrawler], from index [i] on.  The counters are variables of
    [runCrawler] that its [catch] block reads, so the loop hands them back
    also when it throws.  [fuel] bounds the number of batches;
    [length colleges] is enough. *)
Fixpoint batches (fuel : nat) (h : Host) (currentCycle : string) (logId : Z)
    (colleges : list College) (i : nat) (k : Counters)
  : World -> (Counters * Res unit) * World :=
  match fuel with
  | O => fun w => ((k, Ok tt), w)
  | S fuel' =>
      if (i <? length colleges)%nat then
        let batch := sliceList i CONCURRENCY colleges in
        let batchIndex := (i / CONCURRENCY)%nat in
        fun w =>
        match promiseAll (fun idx c =>
                processCollege h c currentCycle (batchIndex * CONCURRENCY + idx + 1))
              0%nat batch w with
        | (Throw e, w1) => ((k, Throw e), w1)
        | (Ok results, w1) =>
            (* Aggregate results *)
            let k' := fold_left (aggregate true) results k in
            (* Update progress after each batch *)
            match updateProgress k' logId w1 with
            | (Throw e, w2) => ((k', Throw e), w2)
            | (Ok _, w2) =>
                batches fuel' h currentCycle logId colleges (i + CONCURRENCY) k' w2
            end
        end
      else fun w => ((k, Ok tt), w)
  end.

(** The beginning of the [try] block of [runCrawler]: the cycle, from
    the settings or from the calendar, and the colleges to crawl. *)
Definition crawlSetup (h : Host) : M (string * list College) :=
  let* settings := selectCycle in
  let* currentCycle :=
    (if truthy settings then ret (default "" settings)
     else fun w =>
       let currentCycle := getCurrentCycle (tz h) (now w) in
       (* Initialize settings if not exists *)
       (let* _ := upsertSettings currentCycle in ret currentCycle) w) in
  (* Get colleges with URLs *)
  let* colleges := selectTargets in
  ret (currentCycle, colleges).

(** The [try] block of [runCrawler] up to the end of the loop. *)
Definition crawlAll (h : Host) (logId : Z) : World -> (Counters * Res unit) * World :=
  fun w =>
  match crawlSetup h w with
  | (Throw e, w1) => ((noCounters, Throw e), w1)
  | (Ok (currentCycle, colleges), w1) =>
      batches (length colleges) h currentCycle logId colleges 0 noCounters w1
  end.

(** [runCrawler]: returns the counters it ends with, or throws. *)
Definition runCrawler (h : Host) : M Counters := fun w =>
  let startTime := now w in
  (* Create crawl log entry first *)
  match insertCrawlLog startTime w with
  | (Throw e, w1) => (Throw e, w1)
  | (Ok logId, w1) =>
      match crawlAll h logId w1 with
      | ((k, Ok _), w2) =>
          (* Finalize with success *)
          (let* _ := finalizeCrawlLog logId k None in ret k) w2
      | ((k, Throw errorMsg), w2) =>
          (let* _ := finalizeCrawlLog logId k (Some errorMsg) in throw errorMsg) w2
      end
  end.

(** The loop of [runCrawlerForMissingColleges]: nothing is persisted
    between the batches. *)
Fixpoint missingBatches (fuel : nat) (h : Host) (cycle : string)
    (colleges : list College) (i : nat) (k : Counters) : M Counters :=
  match fuel with
  | O => ret k
  | S fuel' =>
      if (i <? length colleges)%nat then
        let batch := sliceList i CONCURRENCY colleges in
        let batchIndex := (i / CONCURRENCY)%nat in
        let* results := promiseAll (fun idx c =>
            processCollege h c cycle (batchIndex * CONCURRENCY + idx + 1))
          0%nat batch in
        missingBatches fuel' h cycle colleges (i + CONCURRENCY)
          (fold_left (aggregate false) results k)
      else ret k
  end.

(** [runCrawlerForMissingColleges] *)
Definition runCrawlerForMissingColleges (h : Host) (cycle : string) : M unit :=
  (* Find colleges without any deadline data for this cycle *)
  let* colleges := selectMissing cycle in
  if (length colleges =? 0)%nat then ret tt
  else let* _ := missingBatches (length colleges) h cycle colleges 0 noCounters in ret tt.

End Crawler.

(** ** pdf-import.ts: the requirements grid *)

Module Pdf.
Import JsString Regex Db Host Fetch DateParser.
Local Open Scope db_scope.

Record ParsedDeadline := {
  collegeName : string;
  roundType : RoundType;
  deadlineDate : string }.

(** Lines to skip (headers, footers, etc.) *)
Definition skipPatterns : list regex :=
  [ seqs [Bol; lit "Page "; plus d; Eol];
    lit "First Year Deadlines";
    seqs [Bol; lit "Updated:"];
    lit "See bottom of document";
    lit "Common App Member School";
    seqs [Bol; lit "Deadlines"; star dot; lit "App Fees"];
    seqs [Bol; lit "2025-26"; Eol];
    seqs [Bol; lit "and Requirements"; Eol];
    seqs [Bol; lit "Rolling"; star dot; lit "US"; star dot; lit "INTL"];
    seqs [Bol; lit "Personal"; star dot; lit "Essay"];
    seqs [Bol; lit "Writing"; star dot; lit "Test Policy"];
    seqs [Bol; lit "SAT/ACT"];
    seqs [Bol; lit "Tests Used"];
    seqs [Bol; lit "--- PAGE BREAK ---"; Eol];
    seqs [Bol; star sp; Eol];
    seqs [Bol; lit "Website"; star sp; Eol];
    seqs [Bol; lit "Website"; plus sp; d];
    seqs [Bol; lit "or P"; star sp; chr "Y"];
    seqs [Bol; oneOf "YN"; plus sp; oneOf "YN"; star sp; Eol];
    seqs [Bol; oneOf "YN"; star sp; Eol];
    seqs [Bol; lit "or ACT"];
    seqs [Bol; lit "D or I or T"];
    seqs [Bol; lit "C or D or I"];
    seqs [Bol; lit "I or T"];
    seqs [Bol; lit "See"; Eol];
    seqs [Bol; lit "Used INTL"] ].

Definition shouldSkipLine (line : string) : bool :=
  let trimmed := trim line in
  (* Skip very short lines *)
  if (String.length trimmed <? 4)%nat then true
  else existsb (fun pattern => test pattern trimmed) skipPatterns.

Definition schoolType : regex := alts [liti "Coed"; liti "Women"; liti "Men"].

(** [/\s+(Coed|Women|Men)\s+/i] *)
Definition collegeEntryPattern : regex := seqs [plus sp; Grp 1 schoolType; plus sp].
(** [/(\d{1,2})\/(\d{1,2})\/(\d{4})/] *)
Definition datePattern : regex := slashPattern.
(** [/^(.+?)\s+(Coed|Women|Men)\s+(.+)$/i] *)
Definition typePattern : regex :=
  seqs [Bol; Grp 1 (plusLazy dot); plus sp; Grp 2 schoolType; plus sp; Grp 3 (plus dot); Eol].

Definition tableNoise : regex :=
  alts [liti "Saves Forms"; liti "Website"; liti "Forms"; liti "Saves"].
Definition yn : regex := oneOf "YN".
Definition yni : regex := oneOf "YNyn".

(** Clean up college name: the chain of [replace] calls. *)
Definition cleanName (name : string) : string :=
  let collegeName := trim (replaceAll (plus sp) " " (trim name)) in
  let collegeName := replaceAll (seqs [Bol; Grp 1 tableNoise; star sp]) "" collegeName in
  let collegeName := replaceAll (seqs [Bol; yn; plus sp; yn; plus sp]) "" collegeName in
  let collegeName := replaceAll (seqs [Bol; yn; plus sp]) "" collegeName in
  let collegeName := replaceAll (seqs [Bol; yn; yn; plus sp]) "" collegeName in
  let collegeName := replaceAll (seqs [plus sp; Grp 1 tableNoise; plus sp]) " " collegeName in
  let collegeName := replaceAll (seqs [plus sp; yni; plus sp; yni; plus sp]) " " collegeName in
  let collegeName := replaceFirst (seqs [Bol; plus (noneOf isLetter)]) "" collegeName in
  trim collegeName.

(** Skip if college name looks invalid *)
Definition invalidName (collegeName : string) : bool :=
  (String.length collegeName <? 4)%nat
  || test (seqs [Bol; Chr (fun a => Ascii.eqb a "$" || isDigit a)]) collegeName
  || test (seqs [Bol; oneOf "YNSFA"; star sp; Eol]) collegeName.

Record DateHit := { hit_month : Z; hit_day : Z; hit_year : Z }.

(** The loop [while ((match = regex.exec(restOfLine)) !== null)]: the
    dates of the line whose year is valid, left to right. *)
Fixpoint collectDates (restOfLine : string) (hits : list found) (allDates : list DateHit)
  : list DateHit :=
  match hits with
  | [] => allDates
  | f :: hits' =>
      let month := JsDate.num (group' restOfLine f 1) in
      let day := JsDate.num (group' restOfLine f 2) in
      let year := JsDate.num (group' restOfLine f 3) in
      collectDates restOfLine hits'
        (* Validate year *)
        (if (2024 <=? year) && (year <=? 2027)
         then app allDates [{| hit_month := month; hit_day := day; hit_year := year |}]
         else allDates)
  end.

(** Infer round type from date: [j] is the index of the date among the
    dates of its line. *)
Definition inferRoundType (j : nat) (month day : Z) (hasRolling : bool) : RoundType :=
  if (month =? 10) || ((month =? 11) && (day <=? 15)) then
    (* Oct or early Nov = ED or EA *)
    if (j =? 0)%nat then ED else EA
  else if (month =? 11) && (15 <? day) then
    (* Late Nov = EA or ED *)
    if (j =? 0)%nat then ED else EA
  else if month =? 12 then
    (* December = EA or ED2 *)
    if (j =? 0)%nat then EA else ED2
  else if (month =? 1) && (day <=? 15) then
    (* Early Jan = ED2 or RD *)
    if (j =? 0)%nat then ED2 else RD
  else if (month =? 1) || (month =? 2) then
    (* Late Jan or Feb = RD *)
    RD
  else if (3 <=? month) && (month <=? 8) then
    (* Mar-Aug with Rolling indicator *)
    if hasRolling then ROLLING else RD
  else ROLLING.

Definition formatDate (dt : DateHit) : string :=
  showZ (hit_year dt) ++ "-" ++ padStart 2 "0" (showZ (hit_month dt))
    ++ "-" ++ padStart 2 "0" (showZ (hit_day dt)).

(** Map dates to round types: the loop [for (let j = 0; j <
    allDates.length; j++)], from index [j] on, pushing to
    [allDeadlines]. *)
Fixpoint pushDates (name : string) (hasRolling : bool) (j : nat) (allDates : list DateHit)
    (allDeadlines : list ParsedDeadline) : list ParsedDeadline :=
  match allDates with
  | [] => allDeadlines
  | dt :: rest =>
      pushDates name hasRolling (S j) rest
        (app allDeadlines
           [{| collegeName := name;
               roundType := inferRoundType j (hit_month dt) (hit_day dt) hasRolling;
               deadlineDate := formatDate dt |}])
  end.

(** What one college entry adds to [allDeadlines]: the dates of the text
    after the school type, or the placeholder of a rolling entry. *)
Definition pushEntry (name : string) (restOfLine : string) (cycleYear : number)
    (allDeadlines : list ParsedDeadline) : list ParsedDeadline :=
  (* Extract dates from this line *)
  let allDates := collectDates restOfLine (execAll slashPattern restOfLine) [] in
  (* Check for "Rolling" in the line *)
  let hasRolling := test (liti "Rolling") restOfLine in
  let allDeadlines := pushDates name hasRolling 0 allDates allDeadlines in
  (* If no dates but has Rolling, add a ROLLING entry *)
  if (length allDates =? 0)%nat && hasRolling
  then app allDeadlines
         [{| collegeName := name; roundType := ROLLING;
             deadlineDate := show (succNum cycleYear) ++ "-08-01" |}]
  else allDeadlines.

Definition joinPending (pendingName trimmed : string) : string :=
  match pendingName with
  | EmptyString => trimmed
  | _ => pendingName ++ " " ++ trimmed
  end.

(** One turn of the loop over the lines; the state is [pendingName] and
    [allDeadlines]. *)
Definition scanLine (cycleYear : number) (st : string * list ParsedDeadline) (line : string)
  : string * list ParsedDeadline :=
  let '(pendingName, allDeadlines) := st in
  let trimmed := trim line in
  if shouldSkipLine trimmed then ("", allDeadlines)
  else if test collegeEntryPattern trimmed then
    (* This is a complete or final line of a college entry *)
    let fullLine := joinPending pendingName trimmed in
    match search typePattern fullLine with
    | None => ("", allDeadlines)
    | Some typeMatch =>
        let name := cleanName (group' fullLine typeMatch 1) in
        let restOfLine := group' fullLine typeMatch 3 in
        if invalidName name then ("", allDeadlines)
        else ("", pushEntry name restOfLine cycleYear allDeadlines)
    end
  else if test datePattern trimmed then
    (* Line has dates but no type marker *)
    ("", allDeadlines)
  else
    let isYNMarker := test (seqs [Bol; yn; star (Seq (plus sp) yn); star sp; Eol]) trimmed in
    if negb isYNMarker && test (seqs [Bol; Chr isUpper]) trimmed
       && (3 <=? String.length trimmed)%nat
    then (joinPending pendingName trimmed, allDeadlines)
    else (pendingName, allDeadlines).

Definition dedupKey (dl : ParsedDeadline) : string :=
  collegeName dl ++ "|" ++ roundName (roundType dl).

(** Deduplicate by college + round type (keep first occurrence): the
    values of the [Map], in the order their keys were set. *)
Fixpoint dedup (seen : gset string) (l : list ParsedDeadline) : list ParsedDeadline :=
  match l with
  | [] => []
  | dl :: l' =>
      if bool_decide (dedupKey dl ∈ seen) then dedup seen l'
      else dl :: dedup ({[dedupKey dl]} ∪ seen) l'
  end.

(** [parseWithRegex] *)
Definition parseWithRegex (pdfText : string) (cycleYear : number) : list ParsedDeadline :=
  let lines := split "010" pdfText in
  let allDeadlines := snd (fold_left (scanLine cycleYear) lines ("", [])) in
  dedup ∅ allDeadlines.

(** *** Matching the parsed names to the colleges of the database *)

(** [[...new Set(names)]]: the names without repetition, in the order of
    their first occurrence. *)
Fixpoint uniqueOf (seen : gset string) (names : list string) : list string :=
  match names with
  | [] => []
  | n :: names' =>
      if bool_decide (n ∈ seen) then uniqueOf seen names'
      else n :: uniqueOf ({[n]} ∪ seen) names'
  end.

(** Try exact match first *)
Definition exactMatch (normalizedParsed : string) (c : College) : bool :=
  String.eqb (toLowerCase (c_name c)) normalizedParsed
  || (truthy (c_short_name c)
      && String.eqb (toLowerCase (default "" (c_short_name c))) normalizedParsed).

(** Try contains match *)
Definition containsMatch (normalizedParsed : string) (c : College) : bool :=
  let dbName := toLowerCase (c_name c) in
  includes dbName normalizedParsed || includes normalizedParsed dbName.

Definition stopwords : list string := ["university"; "college"; "the"; "and"; "of"].

Definition inList (w : string) (l : list string) : bool := existsb (String.eqb w) l.

Definition significantWords (normalizedParsed : string) : list string :=
  List.filter (fun w => (3 <? String.length w)%nat && negb (inList w stopwords))
    (splitSpaces normalizedParsed).

(** Try word-based matching (at least 2 significant words match) *)
Definition wordMatch (parsedWords : list string) (c : College) : bool :=
  let dbWords := splitSpaces (toLowerCase (c_name c)) in
  let matchCount :=
    length (List.filter (fun w => existsb (fun dw => includes dw w || includes w dw) dbWords)
              parsedWords) in
  (2 <=? matchCount)%nat || ((length parsedWords =? 1)%nat && (matchCount =? 1)%nat).

(** [dbColleges.find(p)], when no earlier strategy has found a match *)
Definition orFind (found : option College) (p : College -> bool) (dbColleges : list College)
  : option College :=
  match found with
  | Some c => Some c
  | None => List.find p dbColleges
  end.

Definition matchOne (dbColleges : list College) (parsedName : string) : option College :=
  let normalizedParsed := trim (toLowerCase parsedName) in
  let found := List.find (exactMatch normalizedParsed) dbColleges in
  let found := orFind found (containsMatch normalizedParsed) dbColleges in
  orFind found (wordMatch (significantWords normalizedParsed)) dbColleges.

(** The loop over the unique names: [matches] is the [Map] being built,
    [unmatched] the list that is only logged. *)
Fixpoint matchLoop (dbColleges : list College) (uniqueNames : list string)
    (st : gmap string Z * list string) : gmap string Z * list string :=
  match uniqueNames with
  | [] => st
  | parsedName :: rest =>
      matchLoop dbColleges rest
        (match matchOne dbColleges parsedName with
         | Some c => (<[parsedName := c_id c]> (fst st), snd st)
         | None => (fst st, app (snd st) [parsedName])
         end)
  end.

(** [matchColleges] *)
Definition matchColleges (deadlines : list ParsedDeadline) : M (gmap string Z) :=
  let* dbColleges := selectColleges in
  let uniqueNames := uniqueOf ∅ (map collegeName deadlines) in
  ret (fst (matchLoop dbColleges uniqueNames (∅, []))).

(** *** Importing the deadlines *)

Record ImportResult := { imported : Z; skipped : Z; import_errors : Z }.

Definition countImported (r : ImportResult) : ImportResult :=
  {| imported := imported r + 1; skipped := skipped r; import_errors := import_errors r |}.
Definition countSkipped (r : ImportResult) : ImportResult :=
  {| imported := imported r; skipped := skipped r + 1; import_errors := import_errors r |}.
Definition countError (r : ImportResult) : ImportResult :=
  {| imported := imported r; skipped := skipped r; import_errors := import_errors r + 1 |}.

(** The [try] block of the loop over the deadlines: one candidate for
    the key (college, round type, cycle). *)
Definition importDeadline (collegeId : Z) (cycle : string) (deadline : ParsedDeadline)
    (r : ImportResult) : M ImportResult :=
  (* Check if round already exists *)
  let* rows := selectRound collegeId (roundType deadline) cycle in
  match rows with
  | row :: _ =>
      (* Only update if not admin-confirmed *)
      if negb (cr_admin_confirmed row)
      then let* _ := updateRoundPdf (deadlineDate deadline) (cr_id row) in
           ret (countImported r)
      else ret (countSkipped r)
  | [] =>
      (* Insert new round *)
      let* _ := insertRound collegeId (roundType deadline) cycle (deadlineDate deadline) in
      ret (countImported r)
  end.

(** One turn of the loop over the deadlines.  A name without a match, or
    matched to the id 0, is skipped. *)
Definition importOne (collegeMatches : gmap string Z) (cycle : string)
    (r : ImportResult) (deadline : ParsedDeadline) : M ImportResult :=
  match collegeMatches !! collegeName deadline with
  | Some collegeId =>
      if collegeId =? 0 then ret (countSkipped r)
      else try_catch (importDeadline collegeId cycle deadline r)
                     (fun _ => ret (countError r))
  | None => ret (countSkipped r)
  end.

Fixpoint importLoop (collegeMatches : gmap string Z) (cycle : string)
    (deadlines : list ParsedDeadline) (r : ImportResult) : M ImportResult :=
  match deadlines with
  | [] => ret r
  | deadline :: rest =>
      let* r' := importOne collegeMatches cycle r deadline in
      importLoop collegeMatches cycle rest r'
  end.

(** [importFromPdf] *)
Definition importFromPdf (h : Host) (cycle : string) : M ImportResult :=
  let cycleStartYear := parseInt (hd "" (split "-" cycle)) in
  (* Download PDF, extract text *)
  let* pdfText := lift (gridText h) in
  (* Parse PDF using regex patterns *)
  let deadlines := parseWithRegex pdfText cycleStartYear in
  if (length deadlines =? 0)%nat
  then ret {| imported := 0; skipped := 0; import_errors := 0 |}
  else
    (* Match to database colleges *)
    let* collegeMatches := matchColleges deadlines in
    importLoop collegeMatches cycle deadlines
      {| imported := 0; skipped := 0; import_errors := 0 |}.

(** [shouldImportPdf]: check if PDF import is needed *)
Definition shouldImportPdf : M bool :=
  try_catch
    (let* totalDeadlines := countRounds in
     if totalDeadlines <? 50 then ret true else ret false)
    (fun _ => ret false).

End Pdf.

(** ** index.ts: the crawler service

    The operation that [withTimeout] wraps is taken to settle before the
    ceiling. *)

Module Service.
Import JsString Db Host Fetch DateParser Crawler Pdf.
Local Open Scope db_scope.

(** [hasDeadlineData]: check if database has any deadline data *)
Definition hasDeadlineData : M bool :=
  try_catch
    (let* count := countRounds in ret (0 <? count))
    (fun _ => ret false).

Definition staleAfter : Z := 30 * 60 * 1000.

(** [run_finished_at IS NULL AND run_started_at < NOW() - INTERVAL '30
    minutes'] *)
Definition isStale (t : Z) (l : CrawlLog) : bool :=
  bool_decide (run_finished_at l = None) && (run_started_at l <? t - staleAfter).

Definition staleNote : gmap string Json :=
  {[ "error" := JStr "Stale crawl - marked as failed on startup" ]}.

(** [SET run_finished_at = NOW(), details = COALESCE(details::text,
    '{}')::jsonb || '{"error": ...}'::jsonb]: the keys of the note
    replace those of the details. *)
Definition markStale (t : Z) (l : CrawlLog) : CrawlLog :=
  if isStale t l then
    {| cl_id := cl_id l; run_started_at := run_started_at l;
       run_finished_at := Some t;
       colleges_attempted := colleges_attempted l;
       colleges_successful := colleges_successful l;
       colleges_failed := colleges_failed l;
       cl_details := Some (staleNote ∪ default ∅ (cl_details l)) |}
  else l.

(** [cleanupStaleCrawlLogs]: clean up stale crawl logs that were never
    finished; a failure of the statement is logged and goes no further. *)
Definition cleanupStaleCrawlLogs : M unit :=
  try_catch
    (query (fun w => (Ok tt, record CleanupStale (with_logs (map (markStale (now w))) w))))
    (fun _ => ret tt).

(** [SELECT * FROM crawl_logs ORDER BY run_started_at DESC LIMIT 1]: only
    logged. *)
Definition selectSummary : M unit := query (fun w => (Ok tt, w)).

(** [executeCrawl]: run crawler with logging and timeout *)
Definition executeCrawl (h : Host) : M unit :=
  try_catch
    (let* _ := runCrawler h in selectSummary)
    (fun _ => ret tt).

(** [executeDataImport]: run PDF import then crawl missing colleges *)
Definition executeDataImport (h : Host) : M unit := fun w =>
  let currentCycle := getCurrentCycle (tz h) (now w) in
  try_catch
    ((* Step 1: Import from Common App PDF (primary source) *)
     let* _ := importFromPdf h currentCycle in
     (* Step 2: Crawl missing colleges *)
     runCrawlerForMissingColleges h currentCycle)
    (fun _ => ret tt) w.

(** What [initialize] does after the cleanup, up to the registration of
    the weekly job. *)
Definition startupImport (h : Host) : M unit :=
  (* Check if this is first run (no deadline data) *)
  let* hasData := hasDeadlineData in
  if negb hasData then
    (* Use PDF import + crawler for missing as primary strategy *)
    executeDataImport h
  else
    (* Check if PDF import is needed (few deadlines exist) *)
    let* needsPdfImport := shouldImportPdf in
    if needsPdfImport then executeDataImport h else ret tt.

(** [initialize].  It ends by registering the weekly job with
    [cron.schedule]; the job is [executeCrawl]. *)
Definition initialize (h : Host) : M unit :=
  (* Clean up any stale crawl logs from previous runs that didn't finish *)
  let* _ := cleanupStaleCrawlLogs in
  startupImport h.

(** The service from its start: [initialize], then the weekly job each
    time the schedule fires. *)
Fixpoint scheduled (h : Host) (firings : nat) : M unit :=
  match firings with
  | O => ret tt
  | S n => let* _ := executeCrawl h in scheduled h n
  end.

Definition service (h : Host) (firings : nat) : M unit :=
  let* _ := initialize h in scheduled h firings.

End Service.

(** ** backend routes/crawler.ts: POST /run

    The handler runs up to its [await], and goes on when the INSERT has
    settled; other requests are served in between. *)

Module Backend.
Import Db Crawler.

Inductive Reply :=
| BadRequest (error : string)        (* status 400 *)
| Created (id : Z)                   (* the row that was inserted *)
| ServerError (error : string).      (* status 500 *)

Record Server := {
  isRunning : bool;
  awaiting : list Z;            (* start times of the handlers at their await *)
  db : World;
  replies : list Reply          (* latest first *)
}.

(** A request arrives: the handler up to [await pool.query(...)]. *)
Definition arrive (s : Server) : Server :=
  if isRunning s then
    {| isRunning := isRunning s; awaiting := awaiting s; db := db s;
       replies := BadRequest "Crawler is already running" :: replies s |}
  else
    {| isRunning := true; awaiting := app (awaiting s) [now (db s)]; db := db s;
       replies := replies s |}.

(** The INSERT of the oldest waiting handler settles, and the handler
    runs to its end. *)
Definition settle (s : Server) : Server :=
  match awaiting s with
  | [] => s
  | startTime :: rest =>
      match insertCrawlLog startTime (db s) with
      | (Ok id, w) =>
          {| isRunning := false; awaiting := rest; db := w;
             replies := Created id :: replies s |}
      | (Throw _, w) =>
          {| isRunning := false; awaiting := rest; db := w;
             replies := ServerError "Failed to run crawler" :: replies s |}
      end
  end.

Inductive Event := Arrive | Settle.

Definition step (s : Server) (e : Event) : Server :=
  match e with Arrive => arrive s | Settle => settle s end.

Definition boot (w : World) : Server :=
  {| isRunning := false; awaiting := []; db := w; replies := [] |}.

(** The server after a history of events. *)
Definition after (w : World) (history : list Event) : Server :=
  fold_left step history (boot w).

End Backend.

(** ** pdf-import.ts: downloading the grid and reading its text *)

Module Grid.
Import JsString Db Host Fetch.

(** Where a promise stands. *)
Inductive Settled (A : Type) :=
| Resolved (a : A)
| Rejected (message : string)
| Pending        (* no event is left that would settle it *)
| Following.     (* the requests allowed so far have all been redirected *)
Arguments Resolved {A} a.
Arguments Rejected {A} message.
Arguments Pending {A}.
Arguments Following {A}.

(** Common App Requirements Grid PDF URL *)
Definition REQUIREMENTS_GRID_URL : string := "https://content.commonapp.org/Files/ReqGrid.pdf".

(** [downloadPdf], after at most [requests] requests.  It counts no
    redirects, passes no [timeout] to the request and listens for no
    [timeout] event: a request or a body that stalls leaves the promise
    pending. *)
Fixpoint downloadPdf (requests : nat) (http : string -> HttpOutcome) (url : string)
  : Settled string :=
  match requests with
  | O => Following
  | S requests' =>
      match http url with
      | Response statusCode location body =>
          if isRedirect statusCode location
          then downloadPdf requests' http (default "" location)
          else if negb (bool_decide (statusCode = Some 200))
          then Rejected ("HTTP " ++ showStatus statusCode)
          else match body with
               | BodyEnd data => Resolved data
               | BodyError message => Rejected message
               | BodyStalls => Pending
               end
      | RequestError message => Rejected message
      | RequestTimeout => Pending
      end
  end.

(** The two libraries that read a PDF: [extractText] of unpdf with
    [mergePages: false], which gives the text of each page, and
    pdf-parse, which gives one text. *)
Record PdfReader := {
  unpdf : string -> Res (list string);
  pdfParse : string -> Res string }.

Definition newline : string := String "010" "".

Definition PAGE_BREAK : string := newline ++ newline ++ "--- PAGE BREAK ---" ++ newline ++ newline.

(** [pages.join(sep)] *)
Fixpoint join (sep : string) (pages : list string) : string :=
  match pages with
  | [] => ""
  | [page] => page
  | page :: rest => page ++ sep ++ join sep rest
  end.

(** [extractPdfText]: the pages of unpdf joined with the separator, or,
    when unpdf fails, the text of pdf-parse. *)
Definition extractPdfText (reader : PdfReader) (pdfBuffer : string) : Res string :=
  match unpdf reader pdfBuffer with
  | Ok pages => Ok (join PAGE_BREAK pages)
  | Throw _ => pdfParse reader pdfBuffer
  end.

End Grid.

(** ** backend routes: the deadline records an administrator edits

    The handlers of the routes on [college_rounds].  A row is kept with
    the columns that the crawler service reads or writes; [roundId] is
    the integer that the parameter of the route denotes. *)

Module Admin.
Import Db.
Local Open Scope db_scope.

Inductive Answer :=
| Row (row : CollegeRound)          (* status 200, the row *)
| Success                           (* status 200, [{ success: true }] *)
| NotFound (error : string)         (* status 404 *)
| Failed (error : string).          (* status 500 *)

(** The body of PUT /:id/rounds/:roundId, as the handler reads it: a
    field that is missing, [null] or the empty text is [None]. *)
Record RoundEdit := {
  edit_deadline_date : option string;
  edit_decision_date : option string;
  edit_admin_confirmed : option bool }.

(** [value || null] for a text *)
Definition orNull (value : option string) : option string :=
  match value with Some (String a s) => Some (String a s) | _ => None end.

(** [SET deadline_date = $1, decision_date = $2, admin_confirmed =
    COALESCE($3, admin_confirmed), source = 'ADMIN'] *)
Definition edited (e : RoundEdit) (r : CollegeRound) : CollegeRound :=
  {| cr_id := cr_id r; cr_college_id := cr_college_id r;
     cr_round_type := cr_round_type r; cr_cycle := cr_cycle r;
     cr_deadline_date := orNull (edit_deadline_date e);
     cr_decision_date := orNull (edit_decision_date e);
     cr_source := ADMIN;
     cr_admin_confirmed := default (cr_admin_confirmed r) (edit_admin_confirmed e);
     cr_last_crawled_at := cr_last_crawled_at r |}.

(** [SET admin_confirmed = true, source = 'ADMIN'] *)
Definition confirmed (r : CollegeRound) : CollegeRound :=
  {| cr_id := cr_id r; cr_college_id := cr_college_id r;
     cr_round_type := cr_round_type r; cr_cycle := cr_cycle r;
     cr_deadline_date := cr_deadline_date r;
     cr_decision_date := cr_decision_date r;
     cr_source := ADMIN; cr_admin_confirmed := true;
     cr_last_crawled_at := cr_last_crawled_at r |}.

Definition hasRoundId (roundId : Z) (r : CollegeRound) : Prop := cr_id r = roundId.

#[global] Instance hasRoundId_dec roundId r : Decision (hasRoundId roundId r).
Proof. unfold hasRoundId. apply _. Defined.

(** [UPDATE college_rounds SET ... WHERE id = $n RETURNING *] *)
Definition updateReturning (roundId : Z) (f : CollegeRound -> CollegeRound)
  : M (list CollegeRound) :=
  query (fun w =>
    (Ok (map f (filter (hasRoundId roundId) (college_rounds w))),
     with_rounds (map (onRow roundId f)) w)).

(** [DELETE FROM college_rounds WHERE id = $1 RETURNING *] *)
Definition deleteReturning (roundId : Z) : M (list CollegeRound) :=
  query (fun w =>
    (Ok (filter (hasRoundId roundId) (college_rounds w)),
     with_rounds (filter (fun r => ~ hasRoundId roundId r)) w)).

(** The end of the handlers that answer with the first row. *)
Definition firstRow (rows : list CollegeRound) : Answer :=
  match rows with
  | [] => NotFound "Round not found"
  | row :: _ => Row row
  end.

(** PUT /:id/rounds/:roundId *)
Definition updateRound (roundId : Z) (e : RoundEdit) : M Answer :=
  try_catch
    (let* rows := updateReturning roundId (edited e) in ret (firstRow rows))
    (fun _ => ret (Failed "Failed to update college round")).

(** DELETE /:id/rounds/:roundId *)
Definition deleteRound (roundId : Z) : M Answer :=
  try_catch
    (let* rows := deleteReturning roundId in
     match rows with
     | [] => ret (NotFound "Round not found")
     | _ => ret Success
     end)
    (fun _ => ret (Failed "Failed to delete college round")).

(** POST /rounds/:roundId/confirm *)
Definition confirmRound (roundId : Z) : M Answer :=
  try_catch
    (let* rows := updateReturning roundId confirmed in ret (firstRow rows))
    (fun _ => ret (Failed "Failed to confirm round")).

(** The rows of GET /rounds/pending-review, before they are ordered:
    [JOIN colleges c ON cr.college_id = c.id WHERE cr.source = 'CRAWLER'
    AND cr.admin_confirmed = false]. *)
Definition pendingReview (w : World) : list CollegeRound :=
  List.filter (fun r => bool_decide (cr_source r = CRAWLER)
                        && negb (cr_admin_confirmed r)
                        && bool_decide (Exists (fun c => c_id c = cr_college_id r) (colleges w)))
    (college_rounds w).

End Admin.

(** ** Vocabulary of the statements of Part II *)

Module Spec.
Import JsString Regex Db Host Fetch DateParser Html Crawler Pdf Service Backend.

(** [m] takes every world to one that is related to it by [R], whatever
    it returns. *)
Definition keeps {A} (R : World -> World -> Prop) (m : M A) : Prop :=
  forall w, R w (snd (m w)).

(** The relation of a world to a later one in which [I] still holds. *)
Definition invariantly (I : World -> Prop) (w w' : World) : Prop := I w -> I w'.

(** The statements on [college_rounds]. *)
Definition roundStatement (s : Statement) : Prop :=
  match s with
  | UpdateRoundCrawler _ _ | UpdateRoundPdf _ _ | TouchRound _ | InsertRound _ _ _ _ => True
  | _ => False
  end.

(** The later world differs by statements that satisfy [P]. *)
Definition emitted (P : Statement -> Prop) (w w' : World) : Prop :=
  exists new, executed w' = app new (executed w) /\ Forall P new.

(** Only [college_rounds] was written: the other tables, the clock and
    the log sequence are the same, and storage has not begun to fail. *)
Definition roundsOnly (w w' : World) : Prop :=
  colleges w' = colleges w
  /\ crawl_logs w' = crawl_logs w
  /\ current_cycle w' = current_cycle w
  /\ next_log_id w' = next_log_id w
  /\ now w' = now w
  /\ (faults w = [] -> faults w' = [])
  /\ emitted roundStatement w w'.

(** The statement writes the deadline or decision date of row [id]. *)
Definition writesDates (id : Z) (s : Statement) : Prop :=
  match s with
  | UpdateRoundCrawler i _ | UpdateRoundPdf i _ => i = id
  | _ => False
  end.

(** The admin lock on [row], from a world whose statements were [old]:
    the ids are unique (the primary key), the row is stored as it was,
    and no statement since [old] wrote its dates. *)
Definition locked (row : CollegeRound) (old : list Statement) (w : World) : Prop :=
  NoDup (map cr_id (college_rounds w))
  /\ row ∈ college_rounds w
  /\ forall s, s ∈ executed w -> writesDates (cr_id row) s -> s ∈ old.

(** The next query meets a failure of storage. *)
Definition nextQueryFails (w : World) : bool :=
  match faults w with true :: _ => true | _ => false end.

(** The URL reached from [url] after exactly [n] redirects. *)
Fixpoint hop (http : string -> HttpOutcome) (n : nat) (url : string) : option string :=
  match n with
  | O => Some url
  | S n' =>
      match http url with
      | Response statusCode location _ =>
          if isRedirect statusCode location then hop http n' (default "" location) else None
      | _ => None
      end
  end.

(** A page is served at [url] within [n] redirects: status 200 and a body
    that ends. *)
Definition served (http : string -> HttpOutcome) (n : nat) (url data : string) : Prop :=
  exists k final location,
    (k <= n)%nat /\ hop http k url = Some final
    /\ http final = Response (Some 200) location (BodyEnd data).

Definition is2xx (statusCode : Z) : bool := (200 <=? statusCode) && (statusCode <? 300).

(** From [w] to [w'] the row is stored as it was, and no statement wrote
    its deadline or decision date. *)
Definition untouched (row : CollegeRound) (w w' : World) : Prop :=
  row ∈ college_rounds w'
  /\ forall s, s ∈ executed w' -> writesDates (cr_id row) s -> s ∈ executed w.

(** *** The accounts of a run *)

(** successful + failed = attempted *)
Definition balancedCounters (k : Counters) : Prop :=
  successful k + failed k = completed k.

(** A statement that persists the counters of a run persists balanced
    ones. *)
Definition balanced (s : Statement) : Prop :=
  match s with
  | UpdateProgress _ attempted successful failed
  | FinalizeCrawlLog _ attempted successful failed _ => successful + failed = attempted
  | _ => True
  end.

(** The CrawlRun [id] is stored. *)
Definition hasLog (id : Z) (w : World) : Prop :=
  exists l, l ∈ crawl_logs w /\ cl_id l = id.

(** Every stored CrawlRun [id] has the attempted counter [attempted]. *)
Definition logAttempted (id : Z) (attempted : Z) (w : World) : Prop :=
  forall l, l ∈ crawl_logs w -> cl_id l = id -> colleges_attempted l = attempted.

(** The id that the next CrawlRun gets is free. *)
Definition freshLogId (w : World) : Prop :=
  ~ Exists (fun l => cl_id l = next_log_id w) (crawl_logs w).

(** At [t] the CrawlRun has no end time and started more than 30 minutes
    (1 800 000 ms) ago. *)
Definition staleAt (t : Z) (l : CrawlLog) : Prop :=
  run_finished_at l = None /\ run_started_at l < t - 1800000.

(** The CrawlRun was force-finalized at [t]: it has this end time, the
    error annotation in its details, and the counters it had. *)
Definition finalizedStale (t : Z) (before after : CrawlLog) : Prop :=
  cl_id after = cl_id before
  /\ run_started_at after = run_started_at before
  /\ run_finished_at after = Some t
  /\ colleges_attempted after = colleges_attempted before
  /\ colleges_successful after = colleges_successful before
  /\ colleges_failed after = colleges_failed before
  /\ exists details,
       cl_details after = Some details
       /\ details !! "error" = Some (JStr "Stale crawl - marked as failed on startup").

(** *** The trigger of a run *)


(** The same CrawlRuns are stored, in the same order, and the statements
    executed before are still the end of the trace. *)
Definition sameRuns (w w' : World) : Prop :=
  map cl_id (crawl_logs w') = map cl_id (crawl_logs w)
  /\ exists later, executed w' = app later (executed w).


(** The row that the first reconcile of a candidate stores. *)
Definition crawledRow (w : World) (college : Z) (rt : RoundType) (cycle date : string)
  : CollegeRound :=
  {| cr_id := next_round_id w; cr_college_id := college; cr_round_type := rt;
     cr_cycle := cycle; cr_deadline_date := Some date; cr_decision_date := None;
     cr_source := CRAWLER; cr_admin_confirmed := false;
     cr_last_crawled_at := Some (now w) |}.

Definition candidate (date : string) : DeadlineData :=
  {| deadline_date := Some date; decision_date := None |}.

Definition pdfCandidate (name : string) (rt : RoundType) (date : string) : ParsedDeadline :=
  {| collegeName := name; roundType := rt; deadlineDate := date |}.

(** *** The round type of a date of the grid *)




Definition hitOf (text : string) (f : found) : DateHit :=
  {| hit_month := JsDate.num (group' text f 1);
     hit_day := JsDate.num (group' text f 2);
     hit_year := JsDate.num (group' text f 3) |}.

Definition validYear (dt : DateHit) : bool := (2024 <=? hit_year dt) && (hit_year dt <=? 2027).

(** Every MM/DD/YYYY occurrence of the payload with a year in 2024..2027,
    left to right. *)
Definition datesOf (payload : string) : list DateHit :=
  List.filter validYear (map (hitOf payload) (execAll slashPattern payload)).

(** The payload mentions "rolling", in any case. *)
Definition mentionsRolling (payload : string) : bool := test (liti "Rolling") payload.

(** The candidates of one college entry: one for each date, in their
    order, each with the round type of its month and position; or the
    placeholder of a rolling entry without a date. *)
Definition entryCandidates (name payload : string) (cycleYear : number) : list ParsedDeadline :=
  match datesOf payload with
  | [] =>
      if mentionsRolling payload
      then [{| collegeName := name; roundType := ROLLING;
               deadlineDate := show (succNum cycleYear) ++ "-08-01" |}]
      else []
  | dates =>
      imap (fun j dt =>
              {| collegeName := name;
                 roundType := inferRoundType j (hit_month dt) (hit_day dt)
                                (mentionsRolling payload);
                 deadlineDate := formatDate dt |}) dates
  end.

(** *** The matcher, in the words of its contract

    These definitions follow the contract and use nothing of
    [matchColleges]; they are compared with it in Part II. *)

(** Two names are the same up to the case of their letters. *)
Definition sameName (a b : string) : bool :=
  String.eqb (toLowerCase a) (toLowerCase b).

(** (1) Case-insensitive exact match against the reference name or the
    short name. *)
Definition claimedExact (rawName : string) (c : College) : bool :=
  sameName rawName (c_name c)
  || match c_short_name c with
     | Some short => sameName rawName short
     | None => false
     end.

(** (2) Substring containment in either direction, between the names in
    lower case. *)
Definition claimedContains (rawName : string) (c : College) : bool :=
  includes (toLowerCase (c_name c)) (toLowerCase rawName)
  || includes (toLowerCase rawName) (toLowerCase (c_name c)).

(** A token is significant unless it has at most 3 characters or is one
    of university, college, the, and, of. *)
Definition significant (token : string) : bool :=
  negb ((String.length token <=? 3)%nat
        || bool_decide (token ∈ ["university"; "college"; "the"; "and"; "of"])).

(** The significant tokens of a name: its words, in lower case. *)
Definition significantTokens (name : string) : list string :=
  List.filter significant (splitSpaces (toLowerCase name)).

(** (3) Token overlap: the significant tokens of the candidate that are
    significant tokens of the reference name as well number at least 2,
    or exactly 1 when the candidate has a single significant token. *)
Definition claimedOverlap (rawName : string) (c : College) : bool :=
  let tokens := significantTokens rawName in
  let shared :=
    List.filter (fun token => bool_decide (token ∈ significantTokens (c_name c))) tokens in
  (2 <=? length shared)%nat || ((length tokens =? 1)%nat && (length shared =? 1)%nat).

(** The first strategy that finds a college decides; each strategy takes
    the first college it accepts. *)
Definition claimedMatch (db : list College) (rawName : string) : option College :=
  match List.find (claimedExact rawName) db with
  | Some c => Some c
  | None =>
      match List.find (claimedContains rawName) db with
      | Some c => Some c
      | None => List.find (claimedOverlap rawName) db
      end
  end.

End Spec.

(** ** Concrete inputs of the examples *)

Module Examples.
Import JsString Regex Db Host Fetch DateParser Html Crawler Pdf Service Backend Spec.

(** A site that answers every request with 204 No Content. *)
Definition noContent : string -> HttpOutcome :=
  fun _ => Response (Some 204) None (BodyEnd "").

(** A site that redirects to itself. *)
Definition loopWeb : string -> HttpOutcome :=
  fun _ => Response (Some 302) (Some "https://example.edu/admissions") (BodyEnd "").

(** A site that serves one page. *)
Definition onePage : string -> HttpOutcome :=
  fun _ => Response (Some 200) None (BodyEnd "<body>Early Decision: November 1, 2025</body>").

Definition mit : College :=
  {| c_id := 1; c_name := "MIT"; c_short_name := Some "MIT";
     c_admissions_url := None; c_usnews_rank := None |}.

Definition emptyWorld : World :=
  {| colleges := []; college_rounds := []; crawl_logs := []; current_cycle := None;
     next_round_id := 1; next_log_id := 1; now := 1762041600000; faults := [];
     executed := [] |}.

Definition mitWorld : World :=
  {| colleges := [mit]; college_rounds := []; crawl_logs := []; current_cycle := None;
     next_round_id := 1; next_log_id := 1; now := 1762041600000; faults := [];
     executed := [] |}.

Definition reed : College :=
  {| c_id := 1; c_name := "Reed College"; c_short_name := Some "Reed";
     c_admissions_url := Some "https://example.edu/admissions"; c_usnews_rank := Some 10 |}.

(** A deadline that an administrator has confirmed. *)
Definition confirmedRow : CollegeRound :=
  {| cr_id := 7; cr_college_id := 1; cr_round_type := ED; cr_cycle := "2025-2026";
     cr_deadline_date := Some "2025-11-01"; cr_decision_date := Some "2025-12-15";
     cr_source := ADMIN; cr_admin_confirmed := true; cr_last_crawled_at := None |}.

Definition lockedWorld : World :=
  {| colleges := [reed]; college_rounds := [confirmedRow]; crawl_logs := [];
     current_cycle := Some "2025-2026"; next_round_id := 8; next_log_id := 1;
     now := 1762041600000; faults := []; executed := [] |}.

Definition quietHost : Host :=
  {| tz := 0; http := onePage; bodyText := fun html => html;
     gridText := Ok "Reed College Coed 11/15/2025 1/5/2026" |}.

Definition downCollege : College :=
  {| c_id := 2; c_name := "Down College"; c_short_name := None;
     c_admissions_url := Some "https://down.example.edu"; c_usnews_rank := None |}.

(** A web where one site is down. *)
Definition mixedWeb : string -> HttpOutcome :=
  fun url =>
    if String.eqb url "https://down.example.edu"
    then Response (Some 503) None (BodyEnd "")
    else onePage url.

Definition mixedHost : Host :=
  {| tz := 0; http := mixedWeb; bodyText := fun html => html;
     gridText := Throw "HTTP 404" |}.

Definition campusWorld : World :=
  {| colleges := [downCollege; reed; mit]; college_rounds := []; crawl_logs := [];
     current_cycle := Some "2025-2026"; next_round_id := 1; next_log_id := 1;
     now := 1762041600000; faults := []; executed := [] |}.

(** One run abandoned two hours ago, one started five minutes ago. *)
Definition abandonedRun : CrawlLog :=
  {| cl_id := 1; run_started_at := 1762041600000 - 7200000; run_finished_at := None;
     colleges_attempted := 20; colleges_successful := 15; colleges_failed := 5;
     cl_details := None |}.

Definition recentRun : CrawlLog :=
  {| cl_id := 2; run_started_at := 1762041600000 - 300000; run_finished_at := None;
     colleges_attempted := 0; colleges_successful := 0; colleges_failed := 0;
     cl_details := None |}.

Definition staleWorld : World :=
  {| colleges := [reed]; college_rounds := []; crawl_logs := [abandonedRun; recentRun];
     current_cycle := Some "2025-2026"; next_round_id := 1; next_log_id := 3;
     now := 1762041600000; faults := []; executed := [] |}.

Definition mitCandidate : Pdf.ParsedDeadline :=
  {| collegeName := "Massachusetts Institute of Technology"; roundType := EA;
     deadlineDate := "2025-11-01" |}.

(** Two colleges whose names share no word but "University". *)
Definition texasAM : College :=
  {| c_id := 1; c_name := "Texas A & M University"; c_short_name := None;
     c_admissions_url := None; c_usnews_rank := None |}.

Definition texasWorld : World :=
  {| colleges := [texasAM]; college_rounds := []; crawl_logs := []; current_cycle := None;
     next_round_id := 1; next_log_id := 1; now := 1762041600000; faults := [];
     executed := [] |}.

Definition alabamaCandidate : Pdf.ParsedDeadline :=
  {| collegeName := "Alabama State University"; roundType := RD;
     deadlineDate := "2026-02-01" |}.

End Examples.

(** ** Vocabulary of the further properties *)

Module Props.
Import JsString Regex Db Host Fetch DateParser Html Crawler Pdf Service Backend Grid Admin Spec
  Examples.

(** The world after one query, whether it failed or not: one entry of
    the fault plan is used up. *)
Definition afterQuery (w : World) : World := with_faults (tl (faults w)) w.

(** [parseInt(cycle.split('-')[0])], the start year that
    [parseAdmissionsPage] and [importFromPdf] read from a cycle. *)
Definition cycleStartYear (cycle : string) : number := parseInt (hd "" (split "-" cycle)).

(** The statements of the PDF import. *)
Definition pdfStatement (s : Statement) : Prop :=
  match s with
  | UpdateRoundPdf _ _ | InsertRound _ _ _ _ => True
  | _ => False
  end.

(** The deadlines that a result of the import accounts for. *)
Definition counted (r : ImportResult) : Z := imported r + skipped r + import_errors r.

(** [allDeadlines] of [parseWithRegex] at the end of the loop over the
    lines, before the deduplication. *)
Definition gridCandidates (pdfText : string) (cycleYear : number) : list ParsedDeadline :=
  snd (fold_left (scanLine cycleYear) (split "010" pdfText) ("", [])).

(** Two candidates for the same college name and round type. *)
Definition sameEntry (a b : ParsedDeadline) : bool :=
  bool_decide (collegeName a = collegeName b /\ roundType a = roundType b).

(** Every character of the text satisfies [p]. *)
Fixpoint allOf (p : ascii -> bool) (s : string) : bool :=
  match s with
  | EmptyString => true
  | String a s' => p a && allOf p s'
  end.

Definition notBar (a : ascii) : bool := negb (Ascii.eqb a "|").

(** The order in which [ROUND_KEYWORDS] lists the round types. *)
Definition roundOrder : list RoundType := [ED; ED2; EA; REA; RD; ROLLING].

(** *** The store of deadline records as a map from keys to rows *)

Definition keyOf (r : CollegeRound) : Z * RoundType * string :=
  (cr_college_id r, cr_round_type r, cr_cycle r).

(** The constraints of [college_rounds]: the primary key, UNIQUE
    (college_id, round_type, cycle), and a sequence that is ahead of the
    ids in use. *)
Definition consistent (w : World) : Prop :=
  NoDup (map cr_id (college_rounds w))
  /\ NoDup (map keyOf (college_rounds w))
  /\ Forall (fun r => cr_id r < next_round_id w) (college_rounds w).

(** The row stored for a key. *)
Definition rowOf (w : World) (college : Z) (rt : RoundType) (cycle : string)
  : option CollegeRound :=
  match filter (sameKey college rt cycle) (college_rounds w) with
  | [] => None
  | r :: _ => Some r
  end.

(** What a key holds after a candidate with the date [date] has been
    reconciled at the time [t], seen from the row [after] it holds then:
    a confirmed row is the row that was there before, and any other row
    has the date of the candidate and was crawled at [t]. *)
Definition reconciled (before : option CollegeRound) (t : Z) (date : string)
    (after : CollegeRound) : Prop :=
  (cr_admin_confirmed after = true -> before = Some after)
  /\ (cr_admin_confirmed after = false ->
      cr_deadline_date after = Some date /\ cr_last_crawled_at after = Some t).

(** The college has a deadline record of the cycle. *)
Definition hasDeadline (cycle : string) (rows : list CollegeRound) (college : Z) : Prop :=
  exists r, r ∈ rows /\ cr_college_id r = college /\ cr_cycle r = cycle.

(** *** The colleges of a run, one by one *)

(** The page of the college cannot be fetched or read. *)
Definition pageFails (h : Host) (cycle : string) (c : College) : bool :=
  match parseAdmissionsPage h (default "" (c_admissions_url c)) cycle with
  | Ok _ => false
  | Throw _ => true
  end.

(** The item that a college is in the accounts of a run when storage is
    in order: a success with the round types found on its page, or a
    failure with the error of the fetch. *)
Definition pageResult (h : Host) (cycle : string) (c : College) : ProcessResult :=
  match parseAdmissionsPage h (default "" (c_admissions_url c)) cycle with
  | Ok found =>
      {| success := true; college := c_name c;
         rounds := map (fun e => roundName (fst e)) found; error := None |}
  | Throw e => {| success := false; college := c_name c; rounds := []; error := Some e |}
  end.

(** The cycle a run crawls for: the one of the settings, or else the one
    of the day. *)
Definition cycleOfRun (h : Host) (w : World) : string :=
  match current_cycle w with
  | Some (String a cycle) => String a cycle
  | _ => getCurrentCycle (tz h) (now w)
  end.

(** *** Texts that a pattern cannot tell apart *)

Definition digitChars : list ascii :=
  ["0"; "1"; "2"; "3"; "4"; "5"; "6"; "7"; "8"; "9"]%char.

(** The test gives the same answer on every digit. *)
Definition digitBlind (p : ascii -> bool) : bool :=
  forallb (fun a => Bool.eqb (p a) (p "0"%char)) digitChars.

(** Every character test of the pattern is blind to which digit it
    reads. *)
Fixpoint blind (r : regex) : bool :=
  match r with
  | Chr p => digitBlind p
  | Eps | Bol | Eol => true
  | Seq a b | Alt a b => blind a && blind b
  | Rep _ _ _ a | Grp _ a => blind a
  end.

(** The same character, or two digits. *)
Definition alike (a b : ascii) : Prop := a = b \/ (isDigit a = true /\ isDigit b = true).

(** Two texts of the same length that differ only in which digits they
    have. *)
Inductive alikeText : string -> string -> Prop :=
| alike_nil : alikeText "" ""
| alike_cons a b s t : alike a b -> alikeText s t -> alikeText (String a s) (String b t).

(** The loop of a repetition, as [run] has it, for any matcher of the
    repeated pattern. *)
Definition repeatRun {R : Type}
    (runA : nat -> string -> captures -> (nat -> string -> captures -> option R) -> option R)
    (k : nat -> string -> captures -> option R) (greedy : bool)
  : nat -> nat -> option nat -> nat -> string -> captures -> option R :=
  fix rep (fuel lo : nat) (hi : option nat) (pos : nat) (s : string)
      (c : captures) {struct fuel} : option R :=
    let stop := fun _ : unit => if (lo =? 0)%nat then k pos s c else None in
    let more := fun _ : unit =>
      match fuel with
      | O => None
      | S fuel' =>
          if hi_open hi
          then runA pos s c (fun pos' s' c' =>
                 if (lo =? 0)%nat && (pos' =? pos)%nat then None
                 else rep fuel' (Nat.pred lo) (hi_pred hi) pos' s' c')
          else None
      end in
    if greedy then orElse (more tt) stop else orElse (stop tt) more.

(** *** Calendar dates and how they are written *)

Definition leap (y : Z) : bool :=
  (y mod 4 =? 0) && (negb (y mod 100 =? 0) || (y mod 400 =? 0)).

Definition daysIn (y m : Z) : Z :=
  if m =? 2 then (if leap y then 29 else 28)
  else if (m =? 4) || (m =? 6) || (m =? 9) || (m =? 11) then 30
  else 31.

(** A day of the (proleptic Gregorian) calendar. *)
Definition validDate (y m d : Z) : Prop := 1 <= m <= 12 /\ 1 <= d <= daysIn y m.

(** [lo], [lo + 1], ..., [lo + n - 1] *)
Definition range (lo : Z) (n : nat) : list Z := map (fun i => lo + Z.of_nat i) (seq 0 n).

(** The two steps of [civil_from_days] and [days_from_civil] inside an
    era of 400 years that start on the first of March. *)
Definition yearOfEra (doe : Z) : Z := (doe - doe / 1460 + doe / 36524 - doe / 146096) / 365.
Definition dayOfEra (yoe doy : Z) : Z := yoe * 365 + yoe / 4 - yoe / 100 + doy.

(** "YYYY-MM-DD" *)
Definition isoText (y m d : Z) : string :=
  JsDate.pad 4 y ++ "-" ++ JsDate.pad 2 m ++ "-" ++ JsDate.pad 2 d.

(** The calendar date of a day number, written "YYYY-MM-DD". *)
Definition isoDay (n : Z) : string :=
  let '(y, m, d) := JsDate.civil_from_days n in isoText y m d.

(** The day before a day of the calendar. *)
Definition dayBefore (y m d : Z) : Z * Z * Z :=
  if 1 <? d then (y, m, d - 1)
  else if 1 <? m then (y, m - 1, daysIn y (m - 1))
  else (y - 1, 12, 31).

(** [s] is the number [z] in [n] decimal digits. *)
Definition digitsOf (n : nat) (z : Z) (s : string) : bool :=
  (String.length s =? n)%nat && allOf isDigit s && (JsDate.num s =? z).

(** A day or a month as it is written, with or without a leading zero. *)
Definition written (z : Z) (s : string) : Prop := s = showZ z \/ s = JsDate.pad 2 z.

(** The name of month [m] (1..12). *)
Definition monthText (m : Z) : string := nth (Z.to_nat (m - 1)) monthNames "".

(** The name of a month as a page has it, and as the text of the page
    has it once [parseAdmissionsPage] has put it in lower case. *)
Definition monthWritten (m : Z) (name : string) : Prop :=
  name = monthText m \/ name = toLowerCase (monthText m).

(** [date.toISOString().split('T')[0]], [None] where it throws *)
Definition printed (dt : JsDate.Date) : option string :=
  match JsDate.toISOString dt with
  | Some iso => Some (hd "" (split "T" iso))
  | None => None
  end.

(** The day that the local midnight of [y]-[m]-[d] falls on in UTC, as
    it is printed: the day itself at or west of Greenwich ([tz <= 0]),
    the day before east of it. *)
Definition utcDay (tz y m d : Z) : string :=
  if tz <=? 0 then isoText y m d
  else let '(y', m', d') := dayBefore y m d in isoText y' m' d'.

(** A site where the grid is behind seven redirects. *)
Definition longWay : string -> HttpOutcome :=
  fun url =>
    if (String.length url <? 7)%nat
    then Response (Some 301) (Some (url ++ "/")) (BodyEnd "")
    else Response (Some 200) None (BodyEnd "%PDF-1.7").

(** A deadline found by the crawler that nobody has confirmed. *)
Definition draftRow : CollegeRound :=
  {| cr_id := 3; cr_college_id := 1; cr_round_type := RD; cr_cycle := "2025-2026";
     cr_deadline_date := Some "2026-01-01"; cr_decision_date := None;
     cr_source := CRAWLER; cr_admin_confirmed := false; cr_last_crawled_at := None |}.

Definition draftWorld : World :=
  {| colleges := [reed]; college_rounds := [draftRow]; crawl_logs := [];
     current_cycle := Some "2025-2026"; next_round_id := 4; next_log_id := 1;
     now := 1762041600000; faults := []; executed := [] |}.

(** The edit that moves a deadline to the 15th of January. *)
Definition moveToMidJanuary : RoundEdit :=
  {| edit_deadline_date := Some "2026-01-15"; edit_decision_date := None;
     edit_admin_confirmed := None |}.

End Props.

(* ===================================================================== *)
(** * Part II. Theorems                                                   *)
(* ===================================================================== *)

Import JsString Regex Db Host Fetch DateParser Html Crawler Pdf Service Backend Grid Admin Spec Examples Props.

#[local] Set Warnings "-clear-no-such-hyp".

(** ** Fetching a page *)

Section FetchFacts.
Variable http : string -> HttpOutcome.

(** [fetchPage] as the source writes it: the test of [redirectCount],
    then one request. *)
Lemma fetchPage_unfold (url : string) (redirectCount : nat) :
  fetchPage http url redirectCount =
  if (5 <? redirectCount)%nat then Throw "Too many redirects"
  else match http url with
       | Response statusCode location body =>
           if isRedirect statusCode location
           then fetchPage http (default "" location) (S redirectCount)
           else if negb (bool_decide (statusCode = Some 200))
           then Throw ("HTTP " ++ showStatus statusCode)
           else match body with
                | BodyEnd data => Ok data
                | BodyError message => Throw message
                | BodyStalls => Throw "Request timeout"
                end
       | RequestError message => Throw message
       | RequestTimeout => Throw "Request timeout"
       end.
Proof.
  unfold fetchPage.
  destruct (Nat.ltb_spec 5 redirectCount) as [Hgt|Hle].
  - replace (6 - redirectCount)%nat with 0%nat by lia. reflexivity.
  - replace (6 - redirectCount)%nat with (S (6 - S redirectCount)) by lia.
    reflexivity.
Qed.

Lemma isRedirect_200 (location : option string) : isRedirect (Some 200) location = false.
Proof. reflexivity. Qed.

Lemma fetchPage_left_served (left : nat) (url data : string) :
  fetchPage_left left http url = Ok data <->
  exists k, (S k = left)%nat /\ served http k url data.
Proof.
  revert url. induction left as [|left IH]; intros url; simpl.
  - split; [discriminate | intros (k & Hk & _); lia].
  - destruct (http url) as [statusCode location body|message|] eqn:Hurl.
    + destruct (isRedirect statusCode location) eqn:Hred.
      * rewrite IH. split.
        -- intros (k & <- & (j & final & loc & Hj & Hhop & Hfinal)).
           exists (S k). split; [reflexivity|].
           exists (S j), final, loc. repeat split; [lia| |exact Hfinal].
           simpl. rewrite Hurl, Hred. exact Hhop.
        -- intros (k & Hk & (j & final & loc & Hj & Hhop & Hfinal)).
           destruct j as [|j].
           ++ simpl in Hhop. injection Hhop as <-. rewrite Hurl in Hfinal.
              injection Hfinal as -> -> ->. discriminate Hred.
           ++ simpl in Hhop. rewrite Hurl, Hred in Hhop.
              destruct left as [|left']; [lia|].
              exists left'. split; [reflexivity|].
              exists j, final, loc. repeat split; [lia|exact Hhop|exact Hfinal].
      * case_bool_decide as Hst; simpl.
        -- subst statusCode. split.
           ++ destruct body; try discriminate. intros [= ->].
              exists left. split; [reflexivity|].
              exists 0%nat, url, location. repeat split; [lia|exact Hurl].
           ++ intros (k & Hk & (j & final & loc & Hj & Hhop & Hfinal)).
              destruct j as [|j]; simpl in Hhop.
              ** injection Hhop as <-. rewrite Hurl in Hfinal.
                 injection Hfinal as -> ->. reflexivity.
              ** rewrite Hurl, Hred in Hhop. discriminate.
        -- split; [discriminate|].
           intros (k & Hk & (j & final & loc & Hj & Hhop & Hfinal)).
           destruct j as [|j]; simpl in Hhop.
           ++ injection Hhop as <-. rewrite Hurl in Hfinal. congruence.
           ++ rewrite Hurl, Hred in Hhop. discriminate.
    + split; [discriminate|].
      intros (k & Hk & (j & final & loc & Hj & Hhop & Hfinal)).
      destruct j as [|j]; simpl in Hhop.
      * injection Hhop as <-. congruence.
      * rewrite Hurl in Hhop. discriminate.
    + split; [discriminate|].
      intros (k & Hk & (j & final & loc & Hj & Hhop & Hfinal)).
      destruct j as [|j]; simpl in Hhop.
      * injection Hhop as <-. congruence.
      * rewrite Hurl in Hhop. discriminate.
Qed.

End FetchFacts.

Lemma fetchPage_too_many_redirects (http : string -> HttpOutcome) (url final : string) :
  hop http 6 url = Some final -> fetchPage http url 0 = Throw "Too many redirects".
Proof.
  unfold fetchPage. change (6 - 0)%nat with 6%nat.
  generalize 6%nat as n. intros n. revert url.
  induction n as [|n IH]; intros url; simpl; [reflexivity|].
  destruct (http url) as [statusCode location body|message|]; try discriminate.
  destruct (isRedirect statusCode location); [apply IH | discriminate].
Qed.

(** C6, as stated, fails: a 204 response is a 2xx response reached
    without any redirect, and the fetch fails with "HTTP 204"; and a
    request that times out fails the fetch without any status and
    without any redirect. *)
Lemma fetchPage_rejects_204 :
  is2xx 204 = true
  /\ noContent "https://example.edu/admissions" = Response (Some 204) None (BodyEnd "")
  /\ fetchPage noContent "https://example.edu/admissions" 0 = Throw "HTTP 204"
  /\ fetchPage (fun _ => RequestTimeout) "https://example.edu/admissions" 0
     = Throw "Request timeout".
Proof. repeat split. Qed.

(** C6 (amended): the page fetch resolves with the page body exactly when
    a response with status 200 is reached after at most 5 redirects and
    its body ends without an error; in every other case it fails with an
    error, and it fails with "Too many redirects" when a sixth redirect
    is met. *)
Theorem fetchPage_resolves_iff_200 (http : string -> HttpOutcome) (url : string) :
  (forall data, fetchPage http url 0 = Ok data <-> served http 5 url data)
  /\ ((forall data, ~ served http 5 url data) ->
      exists message, fetchPage http url 0 = Throw message)
  /\ (forall final, hop http 6 url = Some final ->
      fetchPage http url 0 = Throw "Too many redirects").
Proof.
  assert (Hiff : forall data, fetchPage http url 0 = Ok data <-> served http 5 url data).
  { intros data. unfold fetchPage. change (6 - 0)%nat with 6%nat.
    rewrite fetchPage_left_served. split.
    - intros (k & Hk & Hs). assert (k = 5%nat) as -> by lia. exact Hs.
    - intros Hs. exists 5%nat. split; [reflexivity | exact Hs]. }
  split; [exact Hiff|]. split.
  - intros Hnone. destruct (fetchPage http url 0) as [data|message] eqn:Hf.
    + exfalso. apply (Hnone data), Hiff. reflexivity.
    + exists message. reflexivity.
  - apply fetchPage_too_many_redirects.
Qed.

Lemma fetchPage_resolves_iff_200_witness :
  (forall data, ~ served noContent 5 "https://example.edu/admissions" data)
  /\ (exists message, fetchPage noContent "https://example.edu/admissions" 0 = Throw message)
  /\ hop loopWeb 6 "https://example.edu/admissions" = Some "https://example.edu/admissions"
  /\ fetchPage loopWeb "https://example.edu/admissions" 0 = Throw "Too many redirects".
Proof.
  assert (Hnone : forall data, ~ served noContent 5 "https://example.edu/admissions" data).
  { intros data (k & final & location & _ & _ & Hfinal). discriminate Hfinal. }
  destruct (fetchPage_resolves_iff_200 noContent "https://example.edu/admissions")
    as (_ & Hfail & _).
  destruct (fetchPage_resolves_iff_200 loopWeb "https://example.edu/admissions")
    as (_ & _ & Hloop).
  split; [exact Hnone|]. split; [exact (Hfail Hnone)|].
  split; [reflexivity | exact (Hloop _ eq_refl)].
Defined.

Example fetchPage_onePage :
  fetchPage onePage "https://example.edu/admissions" 0
  = Ok "<body>Early Decision: November 1, 2025</body>".
Proof. reflexivity. Qed.

(** ** Dates *)

Example parseDate_full : parseDate 0 "November 1, 2025" (Num 2025) = Some "2025-11-01".
Proof. vm_compute. reflexivity. Qed.

Example parseDate_partial_autumn : parseDate 0 "November 1" (Num 2025) = Some "2025-11-01".
Proof. vm_compute. reflexivity. Qed.

Example parseDate_partial_spring : parseDate 0 "February 1" (Num 2025) = Some "2026-02-01".
Proof. vm_compute. reflexivity. Qed.

Example parseDate_slash_invalid : parseDate 0 "13/45/2025" (Num 2025) = None.
Proof. vm_compute. reflexivity. Qed.

Example parseDate_slash : parseDate 0 "11/01/2025" (Num 2025) = Some "2025-11-01".
Proof. vm_compute. reflexivity. Qed.

Example parseDate_iso : parseDate 0 "2025-11-01" (Num 2025) = Some "2025-11-01".
Proof. vm_compute. reflexivity. Qed.

(** East of Greenwich the local midnight of a month-name date falls on
    the day before in UTC, which is the day [toISOString] prints. *)
Example parseDate_east_of_utc : parseDate 60 "November 1, 2025" (Num 2025) = Some "2025-10-31".
Proof. vm_compute. reflexivity. Qed.

(** An Invalid Date built by the first pattern ends [parseDate]: the
    entry of the debug log calls [toISOString] on it, which throws, and
    the [catch] returns null. *)
Lemma parseDate_full_invalid (tz : Z) (dateStr : string) (cycleStartYear : number) (f : found) :
  search fullPattern dateStr = Some f ->
  JsDate.parse tz (group' dateStr f 1 ++ " " ++ group' dateStr f 2 ++ ", "
                   ++ group' dateStr f 3) = None ->
  parseDate tz dateStr cycleStartYear = None.
Proof.
  intros Hm Hinv. unfold parseDate, parseDate_try. rewrite Hm, Hinv. reflexivity.
Qed.

(** On a text whose month-name date is invalid and whose slash date is
    valid, [parseDate] returns null: the later patterns are not tried.
    ([findNearbyDate] passes one match of one pattern, so that no run
    gives [parseDate] such a text.) *)
Lemma parseDate_skips_later_patterns :
  (forall tz, parseDate tz "November 45, 2025 or 11/01/2025" (Num 2025) = None)
  /\ (forall tz, JsDate.parse tz "November 45, 2025" = None)
  /\ (exists f, search slashPattern "November 45, 2025 or 11/01/2025" = Some f
        /\ matched "November 45, 2025 or 11/01/2025" f = "11/01/2025")
  /\ parseDate 0 "11/01/2025" (Num 2025) = Some "2025-11-01".
Proof.
  split; [intros tz; vm_compute; reflexivity|].
  split; [intros tz; vm_compute; reflexivity|].
  split; [|vm_compute; reflexivity].
  eexists. split; vm_compute; reflexivity.
Qed.

(** ** Storage: what a query does to the world *)

Lemma query_fails {A} (run : World -> Res A * World) (w : World) :
  nextQueryFails w = true ->
  query run w = (Throw dbError, with_faults (tl (faults w)) w).
Proof.
  unfold nextQueryFails, query. destruct (faults w) as [|[] fs]; try discriminate.
  reflexivity.
Qed.

Lemma query_runs {A} (run : World -> Res A * World) (w : World) :
  nextQueryFails w = false ->
  query run w = run (with_faults (tl (faults w)) w).
Proof.
  unfold nextQueryFails, query. destruct w as [cs rs ls cy nr nl t fs ex]; simpl.
  destruct fs as [|[] fs]; try discriminate; reflexivity.
Qed.

(** ** The trigger of the PDF import *)

(** C10: [shouldImportPdf] never throws; it returns true exactly when the
    count query succeeds and there are fewer than 50 rows in
    [college_rounds], and false both when there are 50 or more and when
    the query fails. *)
Theorem shouldImportPdf_threshold (w : World) :
  fst (shouldImportPdf w)
  = Ok (negb (nextQueryFails w) && (length (college_rounds w) <? 50)%nat)
  /\ college_rounds (snd (shouldImportPdf w)) = college_rounds w.
Proof.
  unfold shouldImportPdf, try_catch, bind, countRounds.
  destruct (nextQueryFails w) eqn:Hq.
  - rewrite query_fails by exact Hq. simpl. split; reflexivity.
  - rewrite query_runs by exact Hq. simpl.
    destruct (Z.ltb_spec (Z.of_nat (length (college_rounds w))) 50) as [Hlt|Hge],
             (Nat.ltb_spec (length (college_rounds w)) 50) as [Hlt'|Hge'];
      simpl; try lia; split; reflexivity.
Qed.

(** ** Matching college names *)

(** A name without white space at its ends, and not empty. *)
Section TrimmedName.
Variable rawName : string.
Hypothesis trimmed : trim (toLowerCase rawName) = toLowerCase rawName.
Hypothesis named : rawName <> "".

Lemma toLowerCase_named : toLowerCase rawName <> "".
Proof. destruct rawName; [congruence | discriminate]. Qed.

(** The first strategy of the code is the exact match of the contract. *)
Lemma exactMatch_claimed (c : College) :
  exactMatch (trim (toLowerCase rawName)) c = claimedExact rawName c.
Proof.
  rewrite trimmed. unfold exactMatch, claimedExact, sameName.
  rewrite (String.eqb_sym (toLowerCase (c_name c))). f_equal.
  destruct (c_short_name c) as [[|a short]|]; cbn [truthy default andb]; try reflexivity.
  - symmetry. apply String.eqb_neq. exact toLowerCase_named.
  - apply String.eqb_sym.
Qed.

(** The second strategy of the code is the containment of the contract. *)
Lemma containsMatch_claimed (c : College) :
  containsMatch (trim (toLowerCase rawName)) c = claimedContains rawName c.
Proof. rewrite trimmed. reflexivity. Qed.

Lemma significantWords_tokens :
  significantWords (trim (toLowerCase rawName)) = significantTokens rawName.
Proof.
  rewrite trimmed. unfold significantWords, significantTokens.
  apply List.filter_ext. intros t. unfold significant, stopwords, inList.
  rewrite negb_orb. f_equal.
  - destruct (Nat.ltb_spec 3 (String.length t)), (Nat.leb_spec (String.length t) 3);
      simpl; try reflexivity; lia.
  - f_equal. cbn [existsb]. rewrite orb_false_r.
    destruct (bool_decide _) eqn:Hin.
    + apply bool_decide_eq_true_1 in Hin. rewrite !elem_of_cons in Hin.
      destruct Hin as [->|[->|[->|[->|[->|Hin]]]]]; try reflexivity. inversion Hin.
    + apply bool_decide_eq_false_1 in Hin. rewrite !elem_of_cons in Hin.
      repeat match goal with
             | |- context [String.eqb t ?s] =>
                 destruct (String.eqb_spec t s); [exfalso; apply Hin; tauto|]
             end.
      reflexivity.
Qed.

End TrimmedName.

Lemma startsWith_refl (s : string) : startsWith s s = true.
Proof. induction s as [|a s IH]; simpl; [reflexivity|]. rewrite Ascii.eqb_refl. exact IH. Qed.

Lemma includes_refl (s : string) : includes s s = true.
Proof.
  unfold includes, indexOf. destruct s; simpl; [reflexivity|].
  rewrite Ascii.eqb_refl, startsWith_refl. reflexivity.
Qed.

Lemma filter_length_le {A} (p q : A -> bool) (l : list A) :
  (forall x, p x = true -> q x = true) ->
  (length (List.filter p l) <= length (List.filter q l))%nat
  /\ (length (List.filter q l) <= length l)%nat.
Proof.
  intros Hpq. induction l as [|x l [IH1 IH2]]; simpl; [lia|].
  destruct (p x) eqn:Hp.
  - rewrite (Hpq x Hp). simpl. lia.
  - destruct (q x); simpl; lia.
Qed.

(** What the third strategy of the contract accepts, the word-based
    matching of the code accepts as well. *)
Lemma claimedOverlap_wordMatch (rawName : string) (c : College) :
  claimedOverlap rawName c = true -> wordMatch (significantTokens rawName) c = true.
Proof.
  unfold claimedOverlap, wordMatch. cbv zeta.
  set (tokens := significantTokens rawName).
  set (shared := fun token => bool_decide (token ∈ significantTokens (c_name c))).
  set (near := fun w => existsb (fun dw => includes dw w || includes w dw)
                          (splitSpaces (toLowerCase (c_name c)))).
  assert (Hsub : forall t, shared t = true -> near t = true).
  { intros t Ht. unfold shared in Ht. apply bool_decide_eq_true_1 in Ht.
    unfold significantTokens in Ht. apply list_elem_of_In, filter_In in Ht as [Ht _].
    unfold near. apply existsb_exists. exists t. split; [exact Ht|].
    rewrite includes_refl. reflexivity. }
  destruct (filter_length_le shared near tokens Hsub) as [Hle Hlen].
  intros H. apply orb_true_iff in H as [H|H].
  - apply Nat.leb_le in H. apply orb_true_iff. left. apply Nat.leb_le. lia.
  - apply andb_true_iff in H as [H1 H2]. apply Nat.eqb_eq in H1, H2.
    destruct (Nat.leb_spec 2 (length (List.filter near tokens))); [reflexivity|].
    simpl. apply andb_true_iff. split; apply Nat.eqb_eq; lia.
Qed.

Lemma find_pointwise {A} (p q : A -> bool) (l : list A) :
  (forall x, p x = q x) -> List.find p l = List.find q l.
Proof.
  intros Hpq. induction l as [|a l IH]; simpl; [reflexivity|].
  rewrite Hpq, IH. reflexivity.
Qed.

Lemma find_accepts {A} (p q : A -> bool) (l : list A) (x : A) :
  (forall y, p y = true -> q y = true) ->
  List.find p l = Some x -> exists y, List.find q l = Some y.
Proof.
  intros Hpq. induction l as [|a l IH]; simpl; [discriminate|].
  destruct (q a) eqn:Hq; [eauto|].
  destruct (p a) eqn:Hp; [rewrite (Hpq a Hp) in Hq; discriminate | exact IH].
Qed.

(** [matchOne] against the contract: the first two strategies are those
    of the contract, and the third accepts every college the contract
    accepts. *)
Lemma matchOne_claimed (db : list College) (rawName : string) :
  trim (toLowerCase rawName) = toLowerCase rawName -> rawName <> "" ->
  (forall c, List.find (claimedExact rawName) db = Some c -> matchOne db rawName = Some c)
  /\ (List.find (claimedExact rawName) db = None ->
      forall c, List.find (claimedContains rawName) db = Some c ->
                matchOne db rawName = Some c)
  /\ (matchOne db rawName = None -> claimedMatch db rawName = None).
Proof.
  intros Htrim Hname. unfold matchOne, claimedMatch, orFind. cbv zeta.
  rewrite (find_pointwise _ _ db (exactMatch_claimed rawName Htrim Hname)).
  rewrite (find_pointwise _ _ db (containsMatch_claimed rawName Htrim)).
  rewrite (significantWords_tokens rawName Htrim).
  split; [|split].
  - intros c ->. reflexivity.
  - intros -> c ->. reflexivity.
  - destruct (List.find (claimedExact rawName) db); [discriminate|].
    destruct (List.find (claimedContains rawName) db); [discriminate|].
    intros Hnone. destruct (List.find (claimedOverlap rawName) db) as [c|] eqn:Hc;
      [|reflexivity].
    destruct (find_accepts _ (wordMatch (significantTokens rawName)) db c
                (claimedOverlap_wordMatch rawName) Hc) as [y Hy].
    congruence.
Qed.

Lemma uniqueOf_elem (names : list string) (seen : gset string) (name : string) :
  name ∈ uniqueOf seen names <-> name ∈ names /\ name ∉ seen.
Proof.
  revert seen. induction names as [|n names IH]; intros seen; simpl.
  - set_solver.
  - case_bool_decide as Hn.
    + rewrite IH. set_solver.
    + rewrite elem_of_cons, IH. destruct (decide (name = n)); set_solver.
Qed.

Lemma matchLoop_lookup (db : list College) (names : list string)
    (st : gmap string Z * list string) (name : string) :
  fst (matchLoop db names st) !! name =
  if bool_decide (name ∈ names)
  then match matchOne db name with
       | Some c => Some (c_id c)
       | None => fst st !! name
       end
  else fst st !! name.
Proof.
  revert st. induction names as [|n names IH]; intros st; simpl; [reflexivity|].
  rewrite IH. destruct (decide (name = n)) as [->|Hne].
  - rewrite (bool_decide_eq_true_2 (n ∈ n :: names)) by set_solver.
    destruct (matchOne db n) as [c|] eqn:Hm; simpl.
    + rewrite lookup_insert_eq. destruct (bool_decide _); reflexivity.
    + destruct (bool_decide _); reflexivity.
  - assert (Hst : fst (match matchOne db n with
                       | Some c => (<[n:=c_id c]> (fst st), snd st)
                       | None => (fst st, app (snd st) [n])
                       end) !! name = fst st !! name).
    { destruct (matchOne db n); simpl; [|reflexivity].
      rewrite lookup_insert_ne by congruence. reflexivity. }
    rewrite Hst.
    destruct (decide (name ∈ names)) as [Hin|Hnin].
    + rewrite !bool_decide_eq_true_2 by set_solver. reflexivity.
    + rewrite !bool_decide_eq_false_2 by set_solver. reflexivity.
Qed.

Example match_mit :
  fst (matchColleges [mitCandidate] mitWorld) = Ok ∅.
Proof. vm_compute. reflexivity. Qed.

(** C9: the matcher against its contract.  The result holds, for each
    unique raw name, the college of the first strategy of the code that
    finds one, and no other name; nothing is thrown for a name without a
    match.  For a name without white space at its ends the first two
    strategies are those of the contract (case-insensitive exact match
    against name or short name, then containment in either direction),
    and a name that the code leaves unmatched has no match under the
    contract either: "Massachusetts Institute of Technology" against the
    single college MIT has none.  The third strategy is wider than the
    contract: it counts a significant token of the candidate when any
    word of the reference name, significant or not, contains it or is
    contained in it, so "Alabama State University" is matched to "Texas
    A & M University" by the word "a", although the two names share no
    significant token. *)
Theorem matchColleges_overlap_is_by_substring :
  (forall (w : World) (deadlines : list Pdf.ParsedDeadline),
     nextQueryFails w = false ->
     exists matches : gmap string Z,
       fst (matchColleges deadlines w) = Ok matches
       /\ forall rawName : string,
            (matches !! rawName =
             if bool_decide (rawName ∈ map collegeName deadlines)
             then c_id <$> matchOne (colleges w) rawName
             else None)
            /\ (trim (toLowerCase rawName) = toLowerCase rawName -> rawName <> "" ->
                (forall c, List.find (claimedExact rawName) (colleges w) = Some c ->
                           matchOne (colleges w) rawName = Some c)
                /\ (List.find (claimedExact rawName) (colleges w) = None ->
                    forall c, List.find (claimedContains rawName) (colleges w) = Some c ->
                              matchOne (colleges w) rawName = Some c)
                /\ (matchOne (colleges w) rawName = None ->
                    claimedMatch (colleges w) rawName = None)))
  /\ (claimedMatch [mit] "Massachusetts Institute of Technology" = None
      /\ fst (matchColleges [mitCandidate] mitWorld) = Ok ∅)
  /\ (claimedMatch [texasAM] "Alabama State University" = None
      /\ significantTokens "Alabama State University" = ["alabama"; "state"]
      /\ significantTokens "Texas A & M University" = ["texas"]
      /\ fst (matchColleges [alabamaCandidate] texasWorld)
         = Ok {[ "Alabama State University" := 1 ]}).
Proof.
  split; [|split; [split; vm_compute; reflexivity|]].
  - intros w deadlines Hq.
    unfold matchColleges, bind, selectColleges. rewrite query_runs by exact Hq.
    simpl. eexists. split; [reflexivity|].
    intros rawName. split.
    + rewrite matchLoop_lookup. simpl. rewrite lookup_empty.
      destruct (decide (rawName ∈ map collegeName deadlines)) as [Hin|Hnin].
      * rewrite !bool_decide_eq_true_2; [|exact Hin|apply uniqueOf_elem; set_solver].
        destruct (matchOne _ _); reflexivity.
      * rewrite !bool_decide_eq_false_2; [reflexivity|exact Hnin|].
        rewrite uniqueOf_elem. tauto.
    + apply matchOne_claimed.
  - split; [vm_compute; reflexivity|]. split; [vm_compute; reflexivity|].
    split; [vm_compute; reflexivity|].
    vm_compute. reflexivity.
Qed.

(** ** The round types of the requirements grid *)



Lemma collectDates_filter (payload : string) (hits : list found) (allDates : list DateHit) :
  collectDates payload hits allDates
  = app allDates (List.filter validYear (map (hitOf payload) hits)).
Proof.
  revert allDates. induction hits as [|f hits IH]; intros allDates; simpl.
  - rewrite app_nil_r. reflexivity.
  - rewrite IH. unfold validYear at 2, hitOf at 2. simpl.
    destruct ((2024 <=? _) && (_ <=? 2027)); [|reflexivity].
    rewrite <- app_assoc. reflexivity.
Qed.

Lemma pushDates_imap (name : string) (hasRolling : bool) (j : nat)
    (allDates : list DateHit) (allDeadlines : list ParsedDeadline) :
  pushDates name hasRolling j allDates allDeadlines
  = app allDeadlines
      (imap (fun i dt =>
               {| collegeName := name;
                  roundType := inferRoundType (j + i) (hit_month dt) (hit_day dt) hasRolling;
                  deadlineDate := formatDate dt |}) allDates).
Proof.
  revert j allDeadlines. induction allDates as [|dt rest IH]; intros j allDeadlines; simpl.
  - rewrite app_nil_r. reflexivity.
  - rewrite IH, <- app_assoc. simpl. rewrite Nat.add_0_r.
    do 2 f_equal. apply imap_ext. intros i x _. simpl.
    replace (j + S i)%nat with (S (j + i)) by lia. reflexivity.
Qed.

Lemma pushEntry_candidates (name payload : string) (cycleYear : number)
    (allDeadlines : list ParsedDeadline) :
  pushEntry name payload cycleYear allDeadlines
  = app allDeadlines (entryCandidates name payload cycleYear).
Proof.
  unfold pushEntry, entryCandidates. rewrite collectDates_filter, app_nil_l.
  change (List.filter validYear (map (hitOf payload) (execAll slashPattern payload)))
    with (datesOf payload).
  change (test (liti "Rolling") payload) with (mentionsRolling payload).
  generalize (mentionsRolling payload) as hasRolling.
  generalize (datesOf payload) as dates.
  intros dates hasRolling. rewrite pushDates_imap.
  destruct dates as [|dt dates]; simpl.
  - destruct hasRolling; simpl; rewrite app_nil_r; reflexivity.
  - reflexivity.
Qed.







Example rolling_placeholder :
  parseWithRegex "Open College Coed Rolling $40" (Num 2025)
  = [{| collegeName := "Open College"; roundType := ROLLING; deadlineDate := "2026-08-01" |}].
Proof. vm_compute. reflexivity. Qed.

(** ** Computations: the rules of [keeps] *)

Section Keeps.
Context (R : World -> World -> Prop) `{!PreOrder R}.

Lemma keeps_ret {A} (a : A) : keeps R (ret a).
Proof. intros w. reflexivity. Qed.

Lemma keeps_throw {A} (e : string) : keeps R (@throw A e).
Proof. intros w. reflexivity. Qed.

Lemma keeps_lift {A} (r : Res A) : keeps R (lift r).
Proof. intros w. reflexivity. Qed.

Lemma keeps_bind {A B} (m : M A) (k : A -> M B) :
  keeps R m -> (forall a, keeps R (k a)) -> keeps R (bind m k).
Proof.
  intros Hm Hk w. unfold bind. specialize (Hm w).
  destruct (m w) as [[a|e] w1]; simpl in *; [|exact Hm].
  etransitivity; [exact Hm | apply Hk].
Qed.

Lemma keeps_try_catch {A} (m : M A) (handler : string -> M A) :
  keeps R m -> (forall e, keeps R (handler e)) -> keeps R (try_catch m handler).
Proof.
  intros Hm Hh w. unfold try_catch. specialize (Hm w).
  destruct (m w) as [[a|e] w1]; simpl in *; [exact Hm|].
  etransitivity; [exact Hm | apply Hh].
Qed.

Lemma keeps_query {A} (run : World -> Res A * World) :
  (forall w fs, R w (with_faults fs w)) ->
  (forall w, R w (snd (run w))) ->
  keeps R (query run).
Proof.
  intros Hf Hrun w. unfold query. destruct (faults w) as [|[] fs] eqn:Hfs.
  - apply Hrun.
  - simpl. apply Hf.
  - etransitivity; [apply (Hf w fs) | apply Hrun].
Qed.

Lemma keeps_forEach {A} (xs : list A) (body : A -> M unit) :
  (forall x, keeps R (body x)) -> keeps R (forEach xs body).
Proof.
  intros Hb. induction xs as [|x xs IH]; simpl.
  - apply keeps_ret.
  - apply keeps_bind; [apply Hb | intros _; exact IH].
Qed.

Lemma keeps_promiseAll {A B} (f : nat -> A -> M B) (i : nat) (xs : list A) :
  (forall j x, keeps R (f j x)) -> keeps R (promiseAll f i xs).
Proof.
  intros Hf. revert i. induction xs as [|x xs IH]; intros i; simpl.
  - apply keeps_ret.
  - apply keeps_bind; [apply Hf|]. intros y.
    apply keeps_bind; [apply IH|]. intros ys. apply keeps_ret.
Qed.

End Keeps.

#[local] Instance invariantly_preorder (I : World -> Prop) : PreOrder (invariantly I).
Proof. split; unfold invariantly; [intros w; tauto | intros a b c; tauto]. Qed.

#[local] Instance emitted_preorder (P : Statement -> Prop) : PreOrder (emitted P).
Proof.
  split.
  - intros w. exists []. split; [reflexivity | constructor].
  - intros a b c (n1 & H1 & P1) (n2 & H2 & P2). exists (app n2 n1).
    split; [rewrite H2, H1, app_assoc; reflexivity | apply Forall_app; split; assumption].
Qed.

#[local] Instance roundsOnly_preorder : PreOrder roundsOnly.
Proof.
  split.
  - intros w. unfold roundsOnly. repeat split; try tauto. reflexivity.
  - intros a b c (A1 & A2 & A3 & A4 & A5 & A6 & A7) (B1 & B2 & B3 & B4 & B5 & B6 & B7).
    unfold roundsOnly. repeat split; try congruence; try tauto.
    etransitivity; eassumption.
Qed.

Lemma emitted_weaken (P Q : Statement -> Prop) (w w' : World) :
  (forall s, P s -> Q s) -> emitted P w w' -> emitted Q w w'.
Proof.
  intros HPQ (new & Hex & Hall). exists new. split; [exact Hex|].
  eapply Forall_impl; eassumption.
Qed.

Lemma emitted_none (P : Statement -> Prop) (w w' : World) :
  executed w' = executed w -> emitted P w w'.
Proof. intros H. exists []. split; [exact H | constructor]. Qed.

(** ** Storage: the statements on [college_rounds] *)

Lemma roundsOnly_faults (w : World) (fs : list bool) :
  faults w <> [] -> roundsOnly w (with_faults fs w).
Proof.
  intros Hne. unfold roundsOnly. simpl. repeat split; try tauto.
  apply emitted_none. reflexivity.
Qed.

Lemma roundsOnly_query {A} (run : World -> Res A * World) :
  (forall w, roundsOnly w (snd (run w))) -> keeps roundsOnly (query run).
Proof.
  intros Hrun w. unfold query. destruct (faults w) as [|[] fs] eqn:Hfs.
  - apply Hrun.
  - simpl. apply roundsOnly_faults. congruence.
  - etransitivity; [apply (roundsOnly_faults w fs); congruence | apply Hrun].
Qed.

Lemma roundsOnly_record (s : Statement) (f : list CollegeRound -> list CollegeRound) (w : World) :
  roundStatement s -> roundsOnly w (record s (with_rounds f w)).
Proof.
  intros Hs. unfold roundsOnly. simpl. repeat split; try tauto.
  exists [s]. split; [reflexivity | repeat constructor; exact Hs].
Qed.

Lemma selectRound_roundsOnly (c : Z) (rt : RoundType) (cycle : string) :
  keeps roundsOnly (selectRound c rt cycle).
Proof. apply roundsOnly_query. intros w. reflexivity. Qed.

Lemma updateRoundCrawler_roundsOnly (date : string) (id : Z) :
  keeps roundsOnly (updateRoundCrawler date id).
Proof. apply roundsOnly_query. intros w. apply roundsOnly_record. exact I. Qed.

Lemma updateRoundPdf_roundsOnly (date : string) (id : Z) :
  keeps roundsOnly (updateRoundPdf date id).
Proof. apply roundsOnly_query. intros w. apply roundsOnly_record. exact I. Qed.

Lemma touchRound_roundsOnly (id : Z) : keeps roundsOnly (touchRound id).
Proof. apply roundsOnly_query. intros w. apply roundsOnly_record. exact I. Qed.

Lemma insertRound_roundsOnly (c : Z) (rt : RoundType) (cycle date : string) :
  keeps roundsOnly (insertRound c rt cycle date).
Proof.
  apply roundsOnly_query. intros w. cbv zeta.
  destruct (hasKey _ _ _ _ || hasId _ _); simpl.
  - unfold roundsOnly. simpl. repeat split; try tauto.
    apply emitted_none. reflexivity.
  - unfold roundsOnly. simpl. repeat split; try tauto.
    eexists [_]. split; [reflexivity | repeat constructor].
Qed.

Lemma selectColleges_roundsOnly : keeps roundsOnly selectColleges.
Proof. apply roundsOnly_query. intros w. reflexivity. Qed.

Lemma countRounds_roundsOnly : keeps roundsOnly countRounds.
Proof. apply roundsOnly_query. intros w. reflexivity. Qed.

Lemma reconcileRound_roundsOnly (c : Z) (cycle : string) (rt : RoundType) (data : DeadlineData) :
  keeps roundsOnly (reconcileRound c cycle rt data).
Proof.
  unfold reconcileRound. destruct (truthy _); [|apply keeps_ret; apply _].
  apply keeps_bind; [apply _ | apply selectRound_roundsOnly |].
  intros [|existing rows]; [apply insertRound_roundsOnly|].
  destruct (_ && _); [apply updateRoundCrawler_roundsOnly|].
  destruct (cr_admin_confirmed existing);
    [apply keeps_ret; apply _ | apply touchRound_roundsOnly].
Qed.

(** [processCollege], [importFromPdf] and the crawl of the missing
    colleges keep every relation that their queries keep. *)
Section Pipelines.
Context (R : World -> World -> Prop) `{!PreOrder R}.
Hypothesis reconcile_keeps :
  forall c cycle rt data, keeps R (reconcileRound c cycle rt data).
Hypothesis import_keeps :
  forall c cycle deadline r, keeps R (importDeadline c cycle deadline r).
Hypothesis selectColleges_keeps : keeps R selectColleges.
Hypothesis selectMissing_keeps : forall cycle, keeps R (selectMissing cycle).

Lemma processCollege_keeps (h : Host) (c : College) (cycle : string) (workerId : nat) :
  keeps R (processCollege h c cycle workerId).
Proof.
  unfold processCollege. apply keeps_try_catch; [apply _ | | intros e; apply keeps_ret; apply _].
  apply keeps_bind; [apply _ | apply keeps_lift; apply _ |]. intros deadlines.
  apply keeps_bind; [apply _ | | intros _; apply keeps_ret; apply _].
  destruct (_ <? _)%nat; [|apply keeps_ret; apply _].
  apply keeps_forEach; [apply _|]. intros e. apply reconcile_keeps.
Qed.

Lemma importLoop_keeps (collegeMatches : gmap string Z) (cycle : string)
    (deadlines : list ParsedDeadline) (r : ImportResult) :
  keeps R (importLoop collegeMatches cycle deadlines r).
Proof.
  revert r. induction deadlines as [|deadline rest IH]; intros r; simpl.
  - apply keeps_ret; apply _.
  - apply keeps_bind; [apply _ | | intros r'; apply IH].
    unfold importOne. destruct (collegeMatches !! _) as [collegeId|];
      [|apply keeps_ret; apply _].
    destruct (collegeId =? 0); [apply keeps_ret; apply _|].
    apply keeps_try_catch; [apply _ | apply import_keeps | intros e; apply keeps_ret; apply _].
Qed.

Lemma importFromPdf_keeps (h : Host) (cycle : string) : keeps R (importFromPdf h cycle).
Proof.
  unfold importFromPdf. apply keeps_bind; [apply _ | apply keeps_lift; apply _ |].
  intros pdfText. destruct (_ =? _)%nat; [apply keeps_ret; apply _|].
  apply keeps_bind; [apply _ | | intros m; apply importLoop_keeps].
  unfold matchColleges. apply keeps_bind; [apply _ | apply selectColleges_keeps |].
  intros db. apply keeps_ret; apply _.
Qed.

Lemma missingBatches_keeps (fuel : nat) (h : Host) (cycle : string)
    (colleges : list College) (i : nat) (k : Counters) :
  keeps R (missingBatches fuel h cycle colleges i k).
Proof.
  revert i k. induction fuel as [|fuel IH]; intros i k; simpl.
  - apply keeps_ret; apply _.
  - destruct (_ <? _)%nat; [|apply keeps_ret; apply _].
    apply keeps_bind; [apply _ | | intros results; apply IH].
    apply keeps_promiseAll; [apply _|]. intros j c. apply processCollege_keeps.
Qed.

Lemma runCrawlerForMissingColleges_keeps (h : Host) (cycle : string) :
  keeps R (runCrawlerForMissingColleges h cycle).
Proof.
  unfold runCrawlerForMissingColleges.
  apply keeps_bind; [apply _ | apply selectMissing_keeps |]. intros colleges.
  destruct (_ =? _)%nat; [apply keeps_ret; apply _|].
  apply keeps_bind; [apply _ | apply missingBatches_keeps | intros k; apply keeps_ret; apply _].
Qed.

End Pipelines.

Lemma importDeadline_roundsOnly (c : Z) (cycle : string) (deadline : ParsedDeadline)
    (r : ImportResult) :
  keeps roundsOnly (importDeadline c cycle deadline r).
Proof.
  unfold importDeadline.
  apply keeps_bind; [apply _ | apply selectRound_roundsOnly |].
  intros [|row rows].
  - apply keeps_bind; [apply _ | apply insertRound_roundsOnly |].
    intros _. apply keeps_ret; apply _.
  - destruct (negb _); [|apply keeps_ret; apply _].
    apply keeps_bind; [apply _ | apply updateRoundPdf_roundsOnly |].
    intros _. apply keeps_ret; apply _.
Qed.

Lemma selectMissing_roundsOnly (cycle : string) : keeps roundsOnly (selectMissing cycle).
Proof. apply roundsOnly_query. intros w. reflexivity. Qed.

Lemma processCollege_roundsOnly (h : Host) (c : College) (cycle : string) (workerId : nat) :
  keeps roundsOnly (processCollege h c cycle workerId).
Proof. apply processCollege_keeps; [apply _ | apply reconcileRound_roundsOnly]. Qed.

Lemma importFromPdf_roundsOnly (h : Host) (cycle : string) :
  keeps roundsOnly (importFromPdf h cycle).
Proof.
  apply importFromPdf_keeps;
    [apply _ | apply importDeadline_roundsOnly | apply selectColleges_roundsOnly].
Qed.

Lemma runCrawlerForMissingColleges_roundsOnly (h : Host) (cycle : string) :
  keeps roundsOnly (runCrawlerForMissingColleges h cycle).
Proof.
  apply runCrawlerForMissingColleges_keeps;
    [apply _ | apply reconcileRound_roundsOnly | apply selectMissing_roundsOnly].
Qed.

(** [processCollege] never throws: a failure is a result. *)
Lemma processCollege_returns (h : Host) (c : College) (cycle : string) (workerId : nat)
    (w : World) :
  exists result, fst (processCollege h c cycle workerId w) = Ok result.
Proof.
  unfold processCollege, try_catch.
  match goal with |- context [match ?m w with _ => _ end] => destruct (m w) as [[r|e] w1] end;
    simpl; eexists; reflexivity.
Qed.

(** ** The admin lock *)

Lemma ids_unique (rows : list CollegeRound) (r1 r2 : CollegeRound) :
  NoDup (map cr_id rows) -> r1 ∈ rows -> r2 ∈ rows -> cr_id r1 = cr_id r2 -> r1 = r2.
Proof.
  induction rows as [|r rows IH]; simpl; intros Hnd H1 H2 Hid.
  - inversion H1.
  - apply NoDup_cons in Hnd as [Hfresh Hnd].
    apply elem_of_cons in H1 as [->|H1], H2 as [->|H2].
    + reflexivity.
    + exfalso. apply Hfresh. rewrite Hid. apply list_elem_of_fmap_2. exact H2.
    + exfalso. apply Hfresh. rewrite <- Hid. apply list_elem_of_fmap_2. exact H1.
    + apply IH; assumption.
Qed.

Lemma onRow_ids (id : Z) (f : CollegeRound -> CollegeRound) (rows : list CollegeRound) :
  (forall r, cr_id (f r) = cr_id r) ->
  map cr_id (map (onRow id f) rows) = map cr_id rows.
Proof.
  intros Hf. rewrite map_map. apply map_ext. intros r. unfold onRow.
  destruct (bool_decide _); [apply Hf | reflexivity].
Qed.

Lemma onRow_other (id : Z) (f : CollegeRound -> CollegeRound) (rows : list CollegeRound)
    (row : CollegeRound) :
  row ∈ rows -> cr_id row <> id -> row ∈ map (onRow id f) rows.
Proof.
  intros Hin Hne. replace row with (onRow id f row).
  - apply list_elem_of_fmap_2. exact Hin.
  - unfold onRow. rewrite bool_decide_eq_false_2 by exact Hne. reflexivity.
Qed.

Section Locked.
Variables (row : CollegeRound) (old : list Statement).

Lemma locked_faults (w : World) (fs : list bool) :
  locked row old w -> locked row old (with_faults fs w).
Proof. intros H. exact H. Qed.

Lemma locked_query {A} (run : World -> Res A * World) :
  (forall w, locked row old w -> locked row old (snd (run w))) ->
  keeps (invariantly (locked row old)) (query run).
Proof.
  intros Hrun. apply keeps_query; [apply _ | intros w fs H; exact H | exact Hrun].
Qed.

(** An update of another row keeps the lock, if it leaves the ids as
    they are. *)
Lemma locked_update (s : Statement) (id : Z) (f : CollegeRound -> CollegeRound) (w : World) :
  (forall r, cr_id (f r) = cr_id r) ->
  id <> cr_id row ->
  ~ writesDates (cr_id row) s \/ writesDates id s ->
  locked row old w ->
  locked row old (record s (with_rounds (map (onRow id f)) w)).
Proof.
  intros Hf Hne Hs (Hnd & Hin & Htr). unfold locked. simpl. split; [|split].
  - rewrite onRow_ids by exact Hf. exact Hnd.
  - apply onRow_other; [exact Hin | congruence].
  - intros s' Hs' Hw. apply elem_of_cons in Hs' as [->|Hs']; [|apply Htr; assumption].
    exfalso. destruct Hs as [Hs|Hs]; [exact (Hs Hw)|].
    destruct s; simpl in *; congruence.
Qed.

Lemma updateRoundCrawler_locked (date : string) (id : Z) :
  id <> cr_id row -> keeps (invariantly (locked row old)) (updateRoundCrawler date id).
Proof.
  intros Hne. apply locked_query. intros w. apply locked_update;
    [reflexivity | exact Hne | right; reflexivity].
Qed.

Lemma updateRoundPdf_locked (date : string) (id : Z) :
  id <> cr_id row -> keeps (invariantly (locked row old)) (updateRoundPdf date id).
Proof.
  intros Hne. apply locked_query. intros w. apply locked_update;
    [reflexivity | exact Hne | right; reflexivity].
Qed.

Lemma touchRound_locked (id : Z) :
  id <> cr_id row -> keeps (invariantly (locked row old)) (touchRound id).
Proof.
  intros Hne. apply locked_query. intros w. apply locked_update;
    [reflexivity | exact Hne | left; intros []].
Qed.

Lemma insertRound_locked (c : Z) (rt : RoundType) (cycle date : string) :
  keeps (invariantly (locked row old)) (insertRound c rt cycle date).
Proof.
  apply locked_query. intros w (Hnd & Hin & Htr). cbv zeta.
  destruct (hasKey _ _ _ _) eqn:Hk; simpl; [repeat split; assumption|].
  unfold hasId. case_bool_decide as Hid; simpl; [repeat split; assumption|].
  unfold locked. simpl. split; [|split].
  - rewrite map_app. simpl. apply NoDup_app. split; [exact Hnd|]. split.
    + intros x Hx Hx'. apply list_elem_of_singleton in Hx'. subst x.
      apply Hid. apply Exists_exists.
      apply list_elem_of_fmap in Hx as (r & Hr & Hrin). exists r. split; [exact Hrin | congruence].
    + apply NoDup_singleton.
  - apply elem_of_app. left. exact Hin.
  - intros s Hs Hw. apply elem_of_cons in Hs as [->|Hs]; [destruct Hw | apply Htr; assumption].
Qed.

Lemma selectColleges_locked : keeps (invariantly (locked row old)) selectColleges.
Proof. apply locked_query. intros w H. exact H. Qed.

Lemma selectMissing_locked (cycle : string) :
  keeps (invariantly (locked row old)) (selectMissing cycle).
Proof. apply locked_query. intros w H. exact H. Qed.

Hypothesis row_confirmed : cr_admin_confirmed row = true.

(** A row that a SELECT returns and that is not admin-confirmed is not
    the locked row, so its id is another one. *)
Lemma selected_other (c : Z) (rt : RoundType) (cycle : string) (w : World)
    (existing : CollegeRound) (rows : list CollegeRound) :
  locked row old w ->
  filter (sameKey c rt cycle) (college_rounds w) = existing :: rows ->
  cr_admin_confirmed existing = false ->
  cr_id existing <> cr_id row.
Proof.
  intros (Hnd & Hin & _) Hsel Hfree Hid.
  assert (Hex : existing ∈ college_rounds w).
  { assert (H : existing ∈ filter (sameKey c rt cycle) (college_rounds w))
      by (rewrite Hsel; apply list_elem_of_here).
    apply list_elem_of_filter in H. tauto. }
  assert (existing = row) by (eapply ids_unique; eassumption).
  congruence.
Qed.

Lemma reconcileRound_locked (c : Z) (cycle : string) (rt : RoundType) (data : DeadlineData) :
  keeps (invariantly (locked row old)) (reconcileRound c cycle rt data).
Proof.
  intros w Hl. unfold reconcileRound. destruct (truthy _); [|exact Hl].
  unfold bind, selectRound. destruct (nextQueryFails w) eqn:Hq.
  - rewrite query_fails by exact Hq. exact Hl.
  - rewrite query_runs by exact Hq. cbn [fst snd].
    set (w1 := with_faults _ w).
    change (college_rounds w1) with (college_rounds w).
    assert (Hl1 : locked row old w1) by exact Hl.
    destruct (filter _ (college_rounds w)) as [|existing rows] eqn:Hsel.
    + apply insertRound_locked. exact Hl1.
    + destruct (cr_admin_confirmed existing) eqn:Hc; simpl.
      * exact Hl1.
      * assert (Hne : cr_id existing <> cr_id row)
          by (eapply selected_other; eassumption).
        destruct (differsFromText _ _).
        -- apply updateRoundCrawler_locked; assumption.
        -- apply touchRound_locked; assumption.
Qed.

Lemma importDeadline_locked (c : Z) (cycle : string) (deadline : ParsedDeadline)
    (r : ImportResult) :
  keeps (invariantly (locked row old)) (importDeadline c cycle deadline r).
Proof.
  intros w Hl. unfold importDeadline.
  unfold bind at 1. unfold selectRound. destruct (nextQueryFails w) eqn:Hq.
  - rewrite query_fails by exact Hq. exact Hl.
  - rewrite query_runs by exact Hq. cbn [fst snd].
    set (w1 := with_faults _ w).
    change (college_rounds w1) with (college_rounds w).
    assert (Hl1 : locked row old w1) by exact Hl.
    destruct (filter _ (college_rounds w)) as [|existing rows] eqn:Hsel.
    + apply (keeps_bind (invariantly (locked row old)));
        [apply insertRound_locked | intros _; apply keeps_ret; apply _ | exact Hl1].
    + destruct (cr_admin_confirmed existing) eqn:Hc; simpl.
      * exact Hl1.
      * assert (Hne : cr_id existing <> cr_id row)
          by (eapply selected_other; eassumption).
        apply (keeps_bind (invariantly (locked row old)));
          [apply updateRoundPdf_locked; assumption
          | intros _; apply keeps_ret; apply _ | exact Hl1].
Qed.

Lemma processCollege_locked (h : Host) (c : College) (cycle : string) (workerId : nat) :
  keeps (invariantly (locked row old)) (processCollege h c cycle workerId).
Proof. apply processCollege_keeps; [apply _ | apply reconcileRound_locked]. Qed.

Lemma importFromPdf_locked (h : Host) (cycle : string) :
  keeps (invariantly (locked row old)) (importFromPdf h cycle).
Proof.
  apply importFromPdf_keeps;
    [apply _ | apply importDeadline_locked | apply selectColleges_locked].
Qed.

End Locked.

Lemma locked_start (row : CollegeRound) (w : World) :
  NoDup (map cr_id (college_rounds w)) -> row ∈ college_rounds w ->
  locked row (executed w) w.
Proof. intros Hnd Hin. repeat split; [exact Hnd | exact Hin | tauto]. Qed.

(** C1: a DeadlineRecord whose admin_confirmed flag is true is out of the
    reach of both paths.  Reconciling a candidate for its key, with any
    deadline date, on the HTML-crawl path ([reconcileRound], the loop
    body of [processCollege]) or on the PDF-import path
    ([importDeadline], the loop body of [importFromPdf]) leaves the row
    stored as it was, deadline date included, and executes no statement
    that writes its deadline or decision date; so does every whole run of
    [processCollege] and of [importFromPdf]. *)
Theorem admin_lock (h : Host) (row : CollegeRound) (w : World) :
  NoDup (map cr_id (college_rounds w)) ->
  row ∈ college_rounds w ->
  cr_admin_confirmed row = true ->
  (forall (D2 : string),
     untouched row w
       (snd (reconcileRound (cr_college_id row) (cr_cycle row) (cr_round_type row)
               {| deadline_date := Some D2; decision_date := None |} w)))
  /\ (forall (name D2 : string) (r : ImportResult),
        untouched row w
          (snd (importDeadline (cr_college_id row) (cr_cycle row)
                  {| collegeName := name; roundType := cr_round_type row;
                     deadlineDate := D2 |} r w)))
  /\ (forall (c : College) (cycle : string) (workerId : nat),
        untouched row w (snd (processCollege h c cycle workerId w)))
  /\ (forall (cycle : string), untouched row w (snd (importFromPdf h cycle w))).
Proof.
  intros Hnd Hin Hconf.
  pose proof (locked_start row w Hnd Hin) as Hstart.
  assert (Hout : forall w', locked row (executed w) w' -> untouched row w w').
  { intros w' (_ & Hin' & Htr). split; assumption. }
  split; [|split; [|split]]; intros; apply Hout.
  - apply reconcileRound_locked; assumption.
  - apply importDeadline_locked; assumption.
  - apply processCollege_locked; assumption.
  - apply importFromPdf_locked; assumption.
Qed.

Lemma admin_lock_witness :
  NoDup (map cr_id (college_rounds lockedWorld))
  /\ confirmedRow ∈ college_rounds lockedWorld
  /\ cr_admin_confirmed confirmedRow = true
  /\ untouched confirmedRow lockedWorld
       (snd (reconcileRound 1 "2025-2026" ED
               {| deadline_date := Some "2025-11-15"; decision_date := None |} lockedWorld))
  /\ untouched confirmedRow lockedWorld (snd (importFromPdf quietHost "2025-2026" lockedWorld)).
Proof.
  assert (Hnd : NoDup (map cr_id (college_rounds lockedWorld))) by apply NoDup_singleton.
  assert (Hin : confirmedRow ∈ college_rounds lockedWorld) by apply list_elem_of_here.
  split; [exact Hnd|]. split; [exact Hin|]. split; [reflexivity|].
  destruct (admin_lock quietHost confirmedRow lockedWorld Hnd Hin eq_refl)
    as (Hcrawl & _ & _ & Hpdf).
  split; [apply (Hcrawl "2025-11-15") | apply Hpdf].
Defined.

Example locked_row_survives_import :
  college_rounds (snd (importFromPdf quietHost "2025-2026" lockedWorld))
  = [ confirmedRow;
      {| cr_id := 8; cr_college_id := 1; cr_round_type := RD; cr_cycle := "2025-2026";
         cr_deadline_date := Some "2026-01-05"; cr_decision_date := None;
         cr_source := CRAWLER; cr_admin_confirmed := false;
         cr_last_crawled_at := Some 1762041600000 |} ]
  /\ fst (importFromPdf quietHost "2025-2026" lockedWorld)
     = Ok {| imported := 1; skipped := 1; import_errors := 0 |}.
Proof. split; vm_compute; reflexivity. Qed.

(** ** Reconciling the same candidate twice *)

Lemma query_healthy {A} (run : World -> Res A * World) (w : World) :
  faults w = [] -> query run w = run w.
Proof. intros H. unfold query. rewrite H. reflexivity. Qed.

Lemma filter_sameKey_crawledRow (w : World) (c : Z) (rt : RoundType) (cycle date : string)
    (row : CollegeRound) :
  cr_college_id row = c -> cr_round_type row = rt -> cr_cycle row = cycle ->
  filter (sameKey c rt cycle) [row] = [row].
Proof.
  intros H1 H2 H3. rewrite filter_cons_True by (unfold sameKey; tauto).
  reflexivity.
Qed.

Section Twice.
Variables (w : World) (c : Z) (rt : RoundType) (cycle date : string).
Hypothesis empty_store : college_rounds w = [].
Hypothesis healthy : faults w = [].

(** The first reconcile of either path inserts the row. *)
Lemma insertRound_first :
  insertRound c rt cycle date w
  = (Ok tt, record (InsertRound c rt cycle date)
              (with_rounds (fun rows => app rows [crawledRow w c rt cycle date])
                 (with_next_round_id (next_round_id w + 1) w))).
Proof.
  unfold insertRound. rewrite query_healthy by exact healthy.
  cbv zeta. rewrite empty_store. reflexivity.
Qed.

Lemma reconcileRound_first :
  date <> "" ->
  reconcileRound c cycle rt (candidate date) w
  = (Ok tt, record (InsertRound c rt cycle date)
              (with_rounds (fun rows => app rows [crawledRow w c rt cycle date])
                 (with_next_round_id (next_round_id w + 1) w))).
Proof.
  intros Hdate. unfold reconcileRound, candidate. cbn [deadline_date truthy].
  destruct date as [|a rest] eqn:Hd; [congruence|]. rewrite <- Hd. cbn [default].
  unfold bind, selectRound. rewrite query_healthy by exact healthy.
  rewrite empty_store. cbn [filter list_filter]. apply insertRound_first.
Qed.

Lemma importDeadline_first (name : string) (r : ImportResult) :
  importDeadline c cycle (pdfCandidate name rt date) r w
  = (Ok (countImported r),
     record (InsertRound c rt cycle date)
       (with_rounds (fun rows => app rows [crawledRow w c rt cycle date])
          (with_next_round_id (next_round_id w + 1) w))).
Proof.
  unfold importDeadline, pdfCandidate. cbn [roundType deadlineDate].
  unfold bind, selectRound. rewrite query_healthy by exact healthy.
  rewrite empty_store. cbn [filter list_filter]. rewrite insertRound_first. reflexivity.
Qed.

End Twice.

Lemma differsFromText_always (value : DateValue) (text : string) :
  differsFromText value text = true.
Proof. destruct value; reflexivity. Qed.

Section Existing.
Variables (w : World) (c : Z) (rt : RoundType) (cycle date : string).
Variables (existing : CollegeRound) (others : list CollegeRound).
Hypothesis healthy : faults w = [].
Hypothesis selected : filter (sameKey c rt cycle) (college_rounds w) = existing :: others.
Hypothesis unconfirmed : cr_admin_confirmed existing = false.

(** On the HTML-crawl path a record that is not admin-confirmed gets the
    date of the candidate always: the test of the dates compares the
    [Date] object (or [null]) of the selected row with a text, so it
    finds them different whatever is stored, and the branch that only
    refreshes last_crawled_at is never taken. *)
Lemma reconcileRound_existing :
  date <> "" ->
  reconcileRound c cycle rt (candidate date) w = updateRoundCrawler date (cr_id existing) w.
Proof.
  intros Hdate. unfold reconcileRound, candidate. cbn [deadline_date truthy].
  destruct date as [|a rest] eqn:Hd; [congruence|]. rewrite <- Hd. cbn [default].
  unfold bind, selectRound. rewrite query_healthy by exact healthy.
  rewrite selected, unconfirmed, differsFromText_always. reflexivity.
Qed.

(** On the PDF-import path it gets the date of the candidate always. *)
Lemma importDeadline_existing (name : string) (r : ImportResult) :
  importDeadline c cycle (pdfCandidate name rt date) r w
  = (Ok (countImported r), snd (updateRoundPdf date (cr_id existing) w)).
Proof.
  unfold importDeadline, pdfCandidate. cbn [roundType deadlineDate].
  unfold bind, selectRound. rewrite query_healthy by exact healthy.
  rewrite selected, unconfirmed. cbn [negb].
  unfold updateRoundPdf. rewrite query_healthy by exact healthy. reflexivity.
Qed.

End Existing.

(** C3: on the PDF-import path the second reconcile of the same candidate
    against an initially empty store finds the record that the first one
    inserted, not admin-confirmed and with the date of the candidate, and
    executes the UPDATE of the deadline date all the same; one record is
    stored after both calls. *)
Theorem pdf_second_reconcile_writes :
  let cand := pdfCandidate "Reed College" EA "2025-11-01" in
  let zero := {| imported := 0; skipped := 0; import_errors := 0 |} in
  let w1 := snd (importDeadline 1 "2025-2026" cand zero emptyWorld) in
  let w2 := snd (importDeadline 1 "2025-2026" cand zero w1) in
  map cr_deadline_date (college_rounds w1) = [Some "2025-11-01"]
  /\ map cr_deadline_date (college_rounds w2) = [Some "2025-11-01"]
  /\ executed w2 = [UpdateRoundPdf 1 "2025-11-01"; InsertRound 1 EA "2025-2026" "2025-11-01"]
  /\ fst (importDeadline 1 "2025-2026" cand zero w1)
     = Ok {| imported := 1; skipped := 0; import_errors := 0 |}.
Proof. repeat split; vm_compute; reflexivity. Qed.

(** The same run on the HTML-crawl path: the second reconcile sends the
    UPDATE of the deadline date as well. *)
Example crawl_second_reconcile_writes :
  let w1 := snd (reconcileRound 1 "2025-2026" EA (candidate "2025-11-01") emptyWorld) in
  let w2 := snd (reconcileRound 1 "2025-2026" EA (candidate "2025-11-01") w1) in
  executed w2 = [UpdateRoundCrawler 1 "2025-11-01"; InsertRound 1 EA "2025-2026" "2025-11-01"].
Proof. vm_compute. reflexivity. Qed.

(** Reconciling a candidate twice against an initially empty store leaves
    exactly one DeadlineRecord, the one the first call inserted, on both
    paths.  The second call sends the UPDATE of the deadline date again
    on both paths: in general, for a stored record with admin_confirmed =
    false, each path sends its UPDATE on every reconcile, whether or not
    the date of the candidate is the stored one. *)
Theorem reconcile_twice (w : World) (c : Z) (rt : RoundType) (cycle date : string) :
  faults w = [] ->
  date <> "" ->
  (college_rounds w = [] ->
   let w1 := snd (reconcileRound c cycle rt (candidate date) w) in
   let w2 := snd (reconcileRound c cycle rt (candidate date) w1) in
   college_rounds w1 = [crawledRow w c rt cycle date]
   /\ college_rounds w2 = [crawledRow w c rt cycle date]
   /\ executed w2 = UpdateRoundCrawler (next_round_id w) date
                      :: InsertRound c rt cycle date :: executed w)
  /\ (college_rounds w = [] ->
      forall (name : string) (r r' : ImportResult),
      let w1 := snd (importDeadline c cycle (pdfCandidate name rt date) r w) in
      let w2 := snd (importDeadline c cycle (pdfCandidate name rt date) r' w1) in
      college_rounds w1 = [crawledRow w c rt cycle date]
      /\ college_rounds w2 = [crawledRow w c rt cycle date]
      /\ executed w2 = UpdateRoundPdf (next_round_id w) date
                         :: InsertRound c rt cycle date :: executed w)
  /\ (forall (existing : CollegeRound) (others : list CollegeRound),
      filter (sameKey c rt cycle) (college_rounds w) = existing :: others ->
      cr_admin_confirmed existing = false ->
      executed (snd (reconcileRound c cycle rt (candidate date) w))
      = UpdateRoundCrawler (cr_id existing) date :: executed w)
  /\ (forall (existing : CollegeRound) (others : list CollegeRound) (name : string)
        (r : ImportResult),
      filter (sameKey c rt cycle) (college_rounds w) = existing :: others ->
      cr_admin_confirmed existing = false ->
      executed (snd (importDeadline c cycle (pdfCandidate name rt date) r w))
      = UpdateRoundPdf (cr_id existing) date :: executed w).
Proof.
  intros Hhealthy Hdate.
  assert (Hsel : forall w1, college_rounds w1 = [crawledRow w c rt cycle date] ->
            filter (sameKey c rt cycle) (college_rounds w1) = [crawledRow w c rt cycle date]).
  { intros w1 ->. apply (filter_sameKey_crawledRow w c rt cycle date); reflexivity. }
  split; [|split; [|split]].
  - intros Hempty. cbv zeta.
    rewrite (reconcileRound_first w c rt cycle date Hempty Hhealthy Hdate). cbn [snd].
    set (w1 := record _ _).
    assert (Hrows : college_rounds w1 = [crawledRow w c rt cycle date])
      by (unfold w1; simpl; rewrite Hempty; reflexivity).
    split; [exact Hrows|].
    rewrite (reconcileRound_existing w1 c rt cycle date (crawledRow w c rt cycle date) [])
      by (try apply Hsel; try assumption; reflexivity).
    unfold updateRoundCrawler. rewrite query_healthy by exact Hhealthy. cbn [snd].
    split; [|reflexivity].
    simpl. rewrite Hempty. simpl. unfold onRow. simpl.
    rewrite bool_decide_eq_true_2 by reflexivity. reflexivity.
  - intros Hempty name r r'. cbv zeta.
    rewrite (importDeadline_first w c rt cycle date Hempty Hhealthy). cbn [snd].
    set (w1 := record _ _).
    assert (Hrows : college_rounds w1 = [crawledRow w c rt cycle date])
      by (unfold w1; simpl; rewrite Hempty; reflexivity).
    split; [exact Hrows|].
    rewrite (importDeadline_existing w1 c rt cycle date (crawledRow w c rt cycle date) [])
      by (try apply Hsel; try assumption; reflexivity).
    unfold updateRoundPdf. rewrite query_healthy by exact Hhealthy. cbn [snd].
    split; [|reflexivity].
    simpl. rewrite Hempty. simpl. unfold onRow. simpl.
    rewrite bool_decide_eq_true_2 by reflexivity. reflexivity.
  - intros existing others Hsel' Hfree.
    rewrite (reconcileRound_existing w c rt cycle date existing others) by assumption.
    unfold updateRoundCrawler. rewrite query_healthy by exact Hhealthy. reflexivity.
  - intros existing others name r Hsel' Hfree.
    rewrite (importDeadline_existing w c rt cycle date existing others) by assumption.
    unfold updateRoundPdf. rewrite query_healthy by exact Hhealthy. reflexivity.
Qed.

Lemma reconcile_twice_empty_store :
  faults emptyWorld = []
  /\ "2025-11-01" <> ""
  /\ college_rounds emptyWorld = []
  /\ college_rounds
       (snd (reconcileRound 1 "2025-2026" EA (candidate "2025-11-01")
               (snd (reconcileRound 1 "2025-2026" EA (candidate "2025-11-01") emptyWorld))))
     = [crawledRow emptyWorld 1 EA "2025-2026" "2025-11-01"].
Proof.
  assert (Hdate : "2025-11-01" <> "") by discriminate.
  split; [reflexivity|]. split; [exact Hdate|]. split; [reflexivity|].
  destruct (reconcile_twice emptyWorld 1 EA "2025-2026" "2025-11-01" eq_refl Hdate)
    as (Hcrawl & _).
  destruct (Hcrawl eq_refl) as (_ & Hw2 & _). exact Hw2.
Defined.

(** ** The accounts of a run *)

Lemma CONCURRENCY_pos : (0 < CONCURRENCY)%nat.
Proof. unfold CONCURRENCY. lia. Qed.

Lemma aggregate_completed (keepErrors : bool) (k : Counters) (result : ProcessResult) :
  completed (aggregate keepErrors k result) = completed k + 1.
Proof. unfold aggregate. destruct (success result); reflexivity. Qed.

Lemma aggregate_balanced (keepErrors : bool) (k : Counters) (result : ProcessResult) :
  balancedCounters k -> balancedCounters (aggregate keepErrors k result).
Proof.
  unfold balancedCounters, aggregate. destruct (success result); simpl; lia.
Qed.

Lemma aggregate_all (keepErrors : bool) (results : list ProcessResult) (k : Counters) :
  balancedCounters k ->
  balancedCounters (fold_left (aggregate keepErrors) results k)
  /\ completed (fold_left (aggregate keepErrors) results k)
     = completed k + Z.of_nat (length results).
Proof.
  revert k. induction results as [|r results IH]; intros k Hk; simpl.
  - split; [exact Hk | lia].
  - destruct (IH (aggregate keepErrors k r)) as [Hb Hc];
      [apply aggregate_balanced; exact Hk|].
    split; [exact Hb|]. rewrite Hc, aggregate_completed. lia.
Qed.

(** A batch whose members never throw yields one result per member. *)
Lemma promiseAll_returns {A B} (f : nat -> A -> M B) (xs : list A) (i : nat) (w : World) :
  (forall j x w', exists y, fst (f j x w') = Ok y) ->
  exists ys, fst (promiseAll f i xs w) = Ok ys /\ length ys = length xs.
Proof.
  intros Hf. revert i w. induction xs as [|x xs IH]; intros i w; simpl.
  - exists []. split; reflexivity.
  - unfold bind. destruct (Hf i x w) as [y Hy].
    destruct (f i x w) as [r w1]. simpl in Hy. subst r.
    destruct (IH (S i) w1) as (ys & Hys & Hlen).
    destruct (promiseAll f (S i) xs w1) as [r w2]. simpl in Hys. subst r.
    exists (y :: ys). split; [reflexivity | simpl; lia].
Qed.

Lemma roundStatement_balanced (s : Statement) : roundStatement s -> balanced s.
Proof. destruct s; simpl; tauto. Qed.

Lemma roundsOnly_balanced (w w' : World) : roundsOnly w w' -> emitted balanced w w'.
Proof.
  intros (_ & _ & _ & _ & _ & _ & He).
  eapply emitted_weaken; [exact roundStatement_balanced | exact He].
Qed.

Lemma batch_roundsOnly (h : Host) (cycle : string) (base : nat) (batch : list College) :
  keeps roundsOnly
    (promiseAll (fun idx c => processCollege h c cycle (base + idx + 1)) 0 batch).
Proof.
  apply keeps_promiseAll; [apply _|]. intros j c. apply processCollege_roundsOnly.
Qed.

Lemma emitted_query {A} (P : Statement -> Prop) (run : World -> Res A * World) :
  (forall w, emitted P w (snd (run w))) -> keeps (emitted P) (query run).
Proof.
  intros Hrun. apply keeps_query; [apply _ | | exact Hrun].
  intros w fs. apply emitted_none. reflexivity.
Qed.

Lemma emitted_one (P : Statement -> Prop) (s : Statement) (w w' : World) :
  P s -> executed w' = s :: executed w -> emitted P w w'.
Proof. intros Hs Hex. exists [s]. split; [exact Hex | repeat constructor; exact Hs]. Qed.

Lemma updateProgress_balanced (k : Counters) (logId : Z) :
  balancedCounters k -> keeps (emitted balanced) (updateProgress k logId).
Proof.
  intros Hk. apply emitted_query. intros w.
  eapply emitted_one; [|reflexivity]. exact Hk.
Qed.

Lemma finalizeCrawlLog_balanced (logId : Z) (k : Counters) (error : option string) :
  balancedCounters k -> keeps (emitted balanced) (finalizeCrawlLog logId k error).
Proof.
  intros Hk. apply keeps_try_catch; [apply _ | | intros e; apply keeps_ret; apply _].
  apply emitted_query. intros w. eapply emitted_one; [|reflexivity]. exact Hk.
Qed.

Lemma insertCrawlLog_balanced (startTime : Z) : keeps (emitted balanced) (insertCrawlLog startTime).
Proof.
  apply emitted_query. intros w. cbv zeta. destruct (bool_decide _); simpl.
  - apply emitted_none. reflexivity.
  - eapply emitted_one; [|reflexivity]. exact I.
Qed.

(** Every checkpoint of the loop is balanced, whatever fails. *)
Lemma batches_balanced (fuel : nat) (h : Host) (cycle : string) (logId : Z)
    (colleges : list College) (i : nat) (k : Counters) (w : World) :
  balancedCounters k ->
  emitted balanced w (snd (batches fuel h cycle logId colleges i k w))
  /\ balancedCounters (fst (fst (batches fuel h cycle logId colleges i k w))).
Proof.
  revert i k w. induction fuel as [|fuel IH]; intros i k w Hk; simpl.
  - split; [reflexivity | exact Hk].
  - destruct (i <? length colleges)%nat; [|split; [reflexivity | exact Hk]].
    pose proof (batch_roundsOnly h cycle (i / CONCURRENCY * CONCURRENCY)
                  (sliceList i CONCURRENCY colleges) w) as Hbatch.
    apply roundsOnly_balanced in Hbatch.
    destruct (promiseAll _ 0%nat _ w) as [[results|e] w1]; simpl in Hbatch |- *;
      [|split; [exact Hbatch | exact Hk]].
    destruct (aggregate_all true results k Hk) as [Hk' _].
    pose proof (updateProgress_balanced _ logId Hk' w1) as Hup.
    destruct (updateProgress _ logId w1) as [[[]|e] w2]; simpl in Hup |- *.
    + destruct (IH (i + CONCURRENCY)%nat _ w2 Hk') as [He Hb].
      split; [|exact Hb]. etransitivity; [exact Hbatch|]. etransitivity; eassumption.
    + split; [|exact Hk']. etransitivity; eassumption.
Qed.

Lemma noCounters_balanced : balancedCounters noCounters.
Proof. reflexivity. Qed.

Lemma crawlSetup_balanced (h : Host) : keeps (emitted balanced) (crawlSetup h).
Proof.
  unfold crawlSetup.
  apply keeps_bind; [apply _ | apply emitted_query; intros w'; reflexivity |].
  intros settings. apply keeps_bind; [apply _ | |].
  - destruct (truthy settings); [apply keeps_ret; apply _|].
    intros w. apply (keeps_bind (emitted balanced)); [|intros _; apply keeps_ret; apply _].
    apply emitted_query. intros w'. eapply emitted_one; [|reflexivity]. exact I.
  - intros cy. apply keeps_bind; [apply _ | | intros cs; apply keeps_ret; apply _].
    apply emitted_query. intros w'. reflexivity.
Qed.

Lemma crawlAll_balanced (h : Host) (logId : Z) (w : World) :
  emitted balanced w (snd (crawlAll h logId w))
  /\ balancedCounters (fst (fst (crawlAll h logId w))).
Proof.
  unfold crawlAll. pose proof (crawlSetup_balanced h w) as Hhead.
  destruct (crawlSetup h w) as [[[currentCycle colleges]|e] w1]; simpl in Hhead |- *.
  - destruct (batches_balanced (length colleges) h currentCycle logId colleges 0 noCounters w1
                noCounters_balanced) as [He Hb].
    split; [etransitivity; eassumption | exact Hb].
  - split; [exact Hhead | exact noCounters_balanced].
Qed.

Lemma runCrawler_balanced (h : Host) : keeps (emitted balanced) (runCrawler h).
Proof.
  intros w. unfold runCrawler.
  pose proof (insertCrawlLog_balanced (now w) w) as Hins.
  destruct (insertCrawlLog (now w) w) as [[logId|e] w1]; simpl in Hins |- *; [|exact Hins].
  destruct (crawlAll_balanced h logId w1) as [Hall Hk].
  destruct (crawlAll h logId w1) as [[k [[]|e]] w2]; simpl in Hall, Hk |- *.
  - etransitivity; [exact Hins|]. etransitivity; [exact Hall|].
    apply (keeps_bind (emitted balanced));
      [apply finalizeCrawlLog_balanced; exact Hk | intros _; apply keeps_ret; apply _].
  - etransitivity; [exact Hins|]. etransitivity; [exact Hall|].
    apply (keeps_bind (emitted balanced));
      [apply finalizeCrawlLog_balanced; exact Hk | intros _; apply keeps_throw; apply _].
Qed.

Lemma sliceList_length {A} (i n : nat) (l : list A) :
  length (sliceList i n l) = Nat.min n (length l - i).
Proof. unfold sliceList. rewrite length_firstn, length_skipn. reflexivity. Qed.

Lemma hasLog_onLog (id : Z) (f : CrawlLog -> CrawlLog) (w : World) (s : Statement) :
  (forall l, cl_id (f l) = cl_id l) ->
  hasLog id w -> hasLog id (record s (with_logs (map (onLog id f)) w)).
Proof.
  intros Hf (l & Hin & Hid). exists (onLog id f l). split.
  - simpl. apply list_elem_of_fmap_2. exact Hin.
  - unfold onLog. destruct (bool_decide _); [rewrite Hf|]; exact Hid.
Qed.

(** With storage in order the loop reaches the end of the list: every
    college is attempted, the failed ones included. *)
Lemma batches_complete (h : Host) (cycle : string) (logId : Z) (colleges : list College)
    (fuel i : nat) (k : Counters) (w : World) :
  faults w = [] ->
  hasLog logId w ->
  (length colleges - i <= fuel)%nat ->
  completed k = Z.of_nat (Nat.min i (length colleges)) ->
  balancedCounters k ->
  exists k' w',
    batches fuel h cycle logId colleges i k w = ((k', Ok tt), w')
    /\ faults w' = [] /\ hasLog logId w' /\ now w' = now w
    /\ completed k' = Z.of_nat (length colleges) /\ balancedCounters k'.
Proof.
  revert i k w. induction fuel as [|fuel IH]; intros i k w Hf Hlog Hfuel Hc Hk; simpl.
  - exists k, w. repeat split; try assumption. rewrite Hc. f_equal. lia.
  - destruct (Nat.ltb_spec i (length colleges)) as [Hlt|Hge].
    + pose proof (batch_roundsOnly h cycle (i / CONCURRENCY * CONCURRENCY)
                    (sliceList i CONCURRENCY colleges) w) as Hbatch.
      destruct (promiseAll_returns
                  (fun idx c => processCollege h c cycle
                                  (i / CONCURRENCY * CONCURRENCY + idx + 1))
                  (sliceList i CONCURRENCY colleges) 0 w) as (results & Hres & Hlen).
      { intros j c w'. apply processCollege_returns. }
      destruct (promiseAll _ 0%nat _ w) as [r w1]. simpl in Hres, Hbatch. subst r.
      destruct Hbatch as (_ & Hlogs & _ & _ & Hnow & Hfaults & _).
      specialize (Hfaults Hf).
      destruct (aggregate_all true results k Hk) as [Hk' Hc'].
      unfold updateProgress. rewrite query_healthy by exact Hfaults.
      match goal with |- context [batches fuel _ _ _ _ _ ?k1 ?w2] =>
        destruct (IH (i + CONCURRENCY)%nat k1 w2) as (k2 & w3 & Hrun & H1 & H2 & H3 & H4 & H5)
      end.
      * exact Hfaults.
      * apply hasLog_onLog; [reflexivity|].
        destruct Hlog as (l & Hin & Hid). exists l. rewrite Hlogs. split; assumption.
      * pose proof CONCURRENCY_pos. lia.
      * rewrite Hc', Hc, Hlen, sliceList_length. pose proof CONCURRENCY_pos. lia.
      * exact Hk'.
      * exists k2, w3. rewrite Hrun. repeat split; try assumption.
        rewrite H3. simpl. exact Hnow.
    + exists k, w. repeat split; try assumption. rewrite Hc. f_equal. lia.
Qed.

Lemma insertCrawlLog_fresh (startTime : Z) (w : World) :
  faults w = [] -> freshLogId w ->
  exists w1,
    insertCrawlLog startTime w = (Ok (next_log_id w), w1)
    /\ faults w1 = [] /\ hasLog (next_log_id w) w1 /\ now w1 = now w
    /\ colleges w1 = colleges w /\ current_cycle w1 = current_cycle w.
Proof.
  intros Hf Hfresh. unfold insertCrawlLog. rewrite query_healthy by exact Hf.
  cbv zeta. rewrite bool_decide_eq_false_2 by exact Hfresh.
  eexists. split; [reflexivity|]. simpl. repeat split; try assumption.
  eexists. split; [apply elem_of_app; right; apply list_elem_of_here | reflexivity].
Qed.

Lemma crawlSetup_healthy (h : Host) (w : World) :
  faults w = [] ->
  exists cycle w1,
    crawlSetup h w = (Ok (cycle, targets w), w1)
    /\ faults w1 = [] /\ crawl_logs w1 = crawl_logs w /\ now w1 = now w.
Proof.
  intros Hf. unfold crawlSetup, bind, selectCycle.
  rewrite query_healthy by exact Hf.
  destruct (truthy (current_cycle w)).
  - unfold ret, selectTargets. rewrite query_healthy by exact Hf.
    eexists _, w. repeat split. exact Hf.
  - unfold upsertSettings. rewrite query_healthy by exact Hf.
    unfold ret, selectTargets. rewrite query_healthy by exact Hf.
    eexists _, _. split; [reflexivity|]. repeat split. exact Hf.
Qed.

Lemma crawlAll_complete (h : Host) (logId : Z) (w : World) :
  faults w = [] ->
  hasLog logId w ->
  exists k w',
    crawlAll h logId w = ((k, Ok tt), w')
    /\ faults w' = [] /\ hasLog logId w' /\ now w' = now w
    /\ completed k = Z.of_nat (length (targets w)) /\ balancedCounters k.
Proof.
  intros Hf Hlog. unfold crawlAll.
  destruct (crawlSetup_healthy h w Hf) as (cycle & w1 & Hset & Hf1 & Hl1 & Hn1).
  rewrite Hset.
  destruct (batches_complete h cycle logId (targets w) (length (targets w)) 0 noCounters w1)
    as (k & w' & Hrun & H1 & H2 & H3 & H4 & H5);
    try assumption; try lia; try reflexivity.
  { destruct Hlog as (l & Hin & Hid). exists l. rewrite Hl1. split; assumption. }
  exists k, w'. rewrite Hrun. repeat split; try assumption. congruence.
Qed.

Lemma runCrawler_complete (h : Host) (w : World) :
  faults w = [] ->
  freshLogId w ->
  exists k w',
    runCrawler h w = (Ok k, w')
    /\ completed k = Z.of_nat (length (targets w))
    /\ balancedCounters k
    /\ exists l, l ∈ crawl_logs w'
         /\ cl_id l = next_log_id w
         /\ colleges_attempted l = Z.of_nat (length (targets w))
         /\ colleges_successful l + colleges_failed l = colleges_attempted l
         /\ run_finished_at l = Some (now w).
Proof.
  intros Hf Hfresh. unfold runCrawler.
  destruct (insertCrawlLog_fresh (now w) w Hf Hfresh)
    as (w1 & Hins & Hf1 & Hlog1 & Hnow1 & Hcs1 & _).
  rewrite Hins.
  destruct (crawlAll_complete h (next_log_id w) w1 Hf1 Hlog1)
    as (k & w2 & Hall & Hf2 & Hlog2 & Hnow2 & Hc & Hk).
  rewrite Hall. unfold bind, finalizeCrawlLog, try_catch.
  rewrite query_healthy by exact Hf2. cbn [fst snd ret].
  exists k. eexists. split; [reflexivity|].
  assert (Htargets : targets w1 = targets w) by (unfold targets; rewrite Hcs1; reflexivity).
  rewrite Htargets in Hc. split; [exact Hc|]. split; [exact Hk|].
  destruct Hlog2 as (l & Hin & Hid).
  eexists (onLog (next_log_id w) _ l). split.
  - simpl. apply list_elem_of_fmap_2. exact Hin.
  - unfold onLog. rewrite bool_decide_eq_true_2 by exact Hid. simpl.
    repeat split; try assumption. congruence.
Qed.

(** *** A run that returns has attempted every college, whatever failed *)

Lemma query_result {A} (run : World -> Res A * World) (w : World) (a : A) (w' : World) :
  query run w = (Ok a, w') -> exists w0, crawl_logs w0 = crawl_logs w /\
    colleges w0 = colleges w /\ now w0 = now w /\ next_log_id w0 = next_log_id w /\
    run w0 = (Ok a, w').
Proof.
  unfold query. destruct (faults w) as [|[] fs]; intros H.
  - exists w. repeat split. exact H.
  - discriminate.
  - exists (with_faults fs w). repeat split. exact H.
Qed.

Lemma logAttempted_set (id : Z) (f : CrawlLog -> CrawlLog) (a : Z) (logs : list CrawlLog)
    (w : World) :
  (forall l, colleges_attempted (f l) = a) ->
  (forall l, cl_id (f l) = cl_id l) ->
  crawl_logs w = map (onLog id f) logs ->
  logAttempted id a w.
Proof.
  intros Hf Hid Hlogs l Hin Hl. rewrite Hlogs in Hin.
  apply list_elem_of_fmap in Hin as (l0 & -> & _). unfold onLog in *.
  destruct (bool_decide (cl_id l0 = id)) eqn:Hd; [apply Hf|].
  apply bool_decide_eq_false_1 in Hd. contradiction.
Qed.

Lemma hasLog_map (id : Z) (f : CrawlLog -> CrawlLog) (logs : list CrawlLog) (w : World) :
  (forall l, cl_id (f l) = cl_id l) ->
  (exists l, l ∈ logs /\ cl_id l = id) ->
  crawl_logs w = map (onLog id f) logs ->
  hasLog id w.
Proof.
  intros Hf (l & Hin & Hid) Hlogs. exists (onLog id f l). rewrite Hlogs. split.
  - apply list_elem_of_fmap_2. exact Hin.
  - unfold onLog. destruct (bool_decide _); [rewrite Hf|]; exact Hid.
Qed.

Lemma batches_returned (h : Host) (cycle : string) (logId : Z) (colleges : list College)
    (fuel i : nat) (k : Counters) (w : World) (k' : Counters) (w' : World) :
  (length colleges - i <= fuel)%nat ->
  completed k = Z.of_nat (Nat.min i (length colleges)) ->
  balancedCounters k ->
  hasLog logId w ->
  logAttempted logId (completed k) w ->
  batches fuel h cycle logId colleges i k w = ((k', Ok tt), w') ->
  completed k' = Z.of_nat (length colleges) /\ balancedCounters k'
  /\ hasLog logId w' /\ logAttempted logId (completed k') w'.
Proof.
  revert i k w. induction fuel as [|fuel IH]; intros i k w Hfuel Hc Hk Hlog Hatt; simpl.
  - intros [= <- <-]. repeat split; try assumption. rewrite Hc. f_equal. lia.
  - destruct (Nat.ltb_spec i (length colleges)) as [Hlt|Hge].
    + pose proof (batch_roundsOnly h cycle (i / CONCURRENCY * CONCURRENCY)
                    (sliceList i CONCURRENCY colleges) w) as Hbatch.
      destruct (promiseAll_returns
                  (fun idx c => processCollege h c cycle
                                  (i / CONCURRENCY * CONCURRENCY + idx + 1))
                  (sliceList i CONCURRENCY colleges) 0 w) as (results & Hres & Hlen).
      { intros j c w0. apply processCollege_returns. }
      destruct (promiseAll _ 0%nat _ w) as [r w1]. simpl in Hres, Hbatch. subst r.
      destruct Hbatch as (_ & Hlogs & _).
      destruct (aggregate_all true results k Hk) as [Hk' Hc'].
      destruct (updateProgress _ logId w1) as [[[]|e] w2] eqn:Hup; [|discriminate].
      unfold updateProgress in Hup.
      apply query_result in Hup as (w0 & Hlogs0 & _ & _ & _ & Hrun).
      injection Hrun as <-.
      apply IH.
      * pose proof CONCURRENCY_pos. lia.
      * rewrite Hc', Hc, Hlen, sliceList_length. pose proof CONCURRENCY_pos. lia.
      * exact Hk'.
      * eapply hasLog_map; [| |simpl; reflexivity]; [reflexivity|].
        destruct Hlog as (l & Hin & Hid). exists l. rewrite Hlogs0, Hlogs. split; assumption.
      * eapply logAttempted_set; [| |simpl; reflexivity]; reflexivity.
    + intros [= <- <-]. repeat split; try assumption. rewrite Hc. f_equal. lia.
Qed.

Lemma crawlSetup_returned (h : Host) (w : World) (cycle : string) (cs : list College)
    (w1 : World) :
  crawlSetup h w = (Ok (cycle, cs), w1) ->
  cs = targets w /\ crawl_logs w1 = crawl_logs w.
Proof.
  unfold crawlSetup, bind.
  destruct (selectCycle w) as [[settings|e] w0] eqn:H0; [|discriminate].
  apply query_result in H0 as (v0 & Hl0 & Hc0 & _ & _ & Hrun0). injection Hrun0 as <- <-.
  assert (Hrest : forall (cy : string) (w2 : World),
            crawl_logs w2 = crawl_logs w -> colleges w2 = colleges w ->
            match selectTargets w2 with
            | (Ok colleges, w3) => ret (cy, colleges) w3
            | (Throw e, w3) => (Throw e, w3)
            end = (Ok (cycle, cs), w1) ->
            cs = targets w /\ crawl_logs w1 = crawl_logs w).
  { intros cy w2 Hl2 Hc2.
    destruct (selectTargets w2) as [[colleges|e] w3] eqn:H3; [|discriminate].
    apply query_result in H3 as (v3 & Hl3 & Hc3 & _ & _ & Hrun3).
    injection Hrun3 as <- <-. unfold ret. intros [= _ <- <-].
    split; [unfold targets; rewrite Hc3, Hc2; reflexivity | congruence]. }
  destruct (truthy (current_cycle v0)); cbv beta.
  - unfold ret at 1. apply Hrest; assumption.
  - unfold bind. destruct (upsertSettings _ v0) as [[[]|e] w2] eqn:H2; [|discriminate].
    apply query_result in H2 as (v2 & Hl2 & Hc2 & _ & _ & Hrun2). injection Hrun2 as <-.
    unfold ret at 1. apply Hrest; simpl; congruence.
Qed.

Lemma crawlAll_returned (h : Host) (logId : Z) (w : World) (k : Counters) (w' : World) :
  hasLog logId w ->
  logAttempted logId 0 w ->
  crawlAll h logId w = ((k, Ok tt), w') ->
  completed k = Z.of_nat (length (targets w)) /\ balancedCounters k
  /\ hasLog logId w' /\ logAttempted logId (completed k) w'.
Proof.
  intros Hlog Hatt. unfold crawlAll.
  destruct (crawlSetup h w) as [[[cycle cs]|e] w1] eqn:Hset; [|discriminate].
  apply crawlSetup_returned in Hset as (-> & Hl1). intros Hb.
  eapply batches_returned; [| | | | |exact Hb];
    [lia | reflexivity | exact noCounters_balanced | |].
  - destruct Hlog as (l & Hin & Hid). exists l. rewrite Hl1. split; assumption.
  - intros l Hin Hid. apply Hatt; [|exact Hid]. rewrite <- Hl1. exact Hin.
Qed.

Lemma finalizeCrawlLog_attempted (logId : Z) (k : Counters) (error : option string)
    (w : World) :
  hasLog logId w ->
  logAttempted logId (completed k) w ->
  fst (finalizeCrawlLog logId k error w) = Ok tt
  /\ hasLog logId (snd (finalizeCrawlLog logId k error w))
  /\ logAttempted logId (completed k) (snd (finalizeCrawlLog logId k error w)).
Proof.
  intros Hlog Hatt. unfold finalizeCrawlLog, try_catch.
  destruct (nextQueryFails w) eqn:Hq.
  - rewrite query_fails by exact Hq. simpl. repeat split; assumption.
  - rewrite query_runs by exact Hq. cbn [fst snd]. split; [reflexivity|]. split.
    + eapply hasLog_map; [| |simpl; reflexivity]; [reflexivity | exact Hlog].
    + eapply logAttempted_set; [| |simpl; reflexivity]; reflexivity.
Qed.

Lemma insertCrawlLog_returned (startTime : Z) (w : World) (logId : Z) (w1 : World) :
  insertCrawlLog startTime w = (Ok logId, w1) ->
  logId = next_log_id w /\ colleges w1 = colleges w
  /\ hasLog logId w1 /\ logAttempted logId 0 w1.
Proof.
  unfold insertCrawlLog. intros H.
  apply query_result in H as (w0 & Hl0 & Hc0 & _ & Hn0 & Hrun). cbv zeta in Hrun.
  case_bool_decide as Hex; [discriminate|]. injection Hrun as <- <-.
  split; [exact Hn0|]. split; [exact Hc0|]. split.
  - eexists. simpl. split; [apply elem_of_app; right; apply list_elem_of_here | reflexivity].
  - intros l Hin Hid. simpl in Hin. apply elem_of_app in Hin as [Hin|Hin].
    + exfalso. apply Hex. apply Exists_exists. exists l. split; assumption.
    + apply list_elem_of_singleton in Hin. subst l. reflexivity.
Qed.

Lemma runCrawler_returned (h : Host) (w : World) (k : Counters) (w' : World) :
  runCrawler h w = (Ok k, w') ->
  completed k = Z.of_nat (length (targets w))
  /\ balancedCounters k
  /\ hasLog (next_log_id w) w'
  /\ logAttempted (next_log_id w) (Z.of_nat (length (targets w))) w'.
Proof.
  unfold runCrawler.
  destruct (insertCrawlLog (now w) w) as [[logId|e] w1] eqn:Hins; [|discriminate].
  apply insertCrawlLog_returned in Hins as (-> & Hcs & Hlog1 & Hatt1).
  destruct (crawlAll h (next_log_id w) w1) as [[k1 [[]|e]] w2] eqn:Hall.
  - apply crawlAll_returned in Hall as (Hc & Hk & Hlog2 & Hatt2); [|assumption..].
    destruct (finalizeCrawlLog_attempted (next_log_id w) k1 None w2 Hlog2 Hatt2)
      as (Hok & Hlog3 & Hatt3).
    unfold bind. destruct (finalizeCrawlLog _ k1 None w2) as [r w3]. simpl in *. subst r.
    intros [= <- <-].
    assert (Ht : targets w1 = targets w) by (unfold targets; rewrite Hcs; reflexivity).
    rewrite Ht in Hc. rewrite Hc in Hatt3. repeat split; assumption.
  - unfold bind. destruct (finalizeCrawlLog _ k1 (Some e) w2) as [[[]|e'] w3]; discriminate.
Qed.

(** A page that cannot be fetched makes its college a failed item, and
    nothing is written. *)
Lemma processCollege_fetch_failure (h : Host) (c : College) (cycle : string) (workerId : nat)
    (w : World) (e : string) :
  parseAdmissionsPage h (default "" (c_admissions_url c)) cycle = Throw e ->
  processCollege h c cycle workerId w
  = (Ok {| success := false; college := c_name c; rounds := []; error := Some e |}, w).
Proof.
  intros Hfail. unfold processCollege, try_catch, bind, lift. rewrite Hfail. reflexivity.
Qed.

Lemma aggregate_failure (keepErrors : bool) (k : Counters) (result : ProcessResult) :
  success result = false ->
  failed (aggregate keepErrors k result) = failed k + 1
  /\ successful (aggregate keepErrors k result) = successful k.
Proof. intros H. unfold aggregate. rewrite H. split; reflexivity. Qed.

Example run_with_a_failure :
  fst (runCrawler mixedHost campusWorld)
  = Ok {| completed := 2; successful := 1; failed := 1;
          errors := [("Down College", "HTTP 503")];
          foundDeadlines := [("Reed College", ["ED"])] |}
  /\ executed (snd (runCrawler mixedHost campusWorld))
     = [ FinalizeCrawlLog 1 2 1 1
           (<["completed" := JNum 2]> (<["successful" := JNum 1]> (<["failed" := JNum 1]> ∅)));
         UpdateProgress 1 2 1 1;
         InsertRound 1 ED "2025-2026" "2025-11-01";
         InsertCrawlLog 1762041600000 ].
Proof. split; vm_compute; reflexivity. Qed.

(** ** The cleanup of stale runs *)

Lemma markStale_fresh (t : Z) (l : CrawlLog) : isStale t (markStale t l) = false.
Proof.
  unfold markStale. destruct (isStale t l) eqn:Hs; [reflexivity | exact Hs].
Qed.

Lemma markStale_finalized (t : Z) (l : CrawlLog) :
  isStale t l = true -> finalizedStale t l (markStale t l).
Proof.
  intros Hs. unfold markStale. rewrite Hs. unfold finalizedStale. simpl.
  repeat split. eexists. split; [reflexivity|].
  apply lookup_union_Some_l. apply lookup_singleton_eq.
Qed.

Lemma cleanup_runs (w : World) :
  nextQueryFails w = false ->
  cleanupStaleCrawlLogs w
  = (Ok tt, record CleanupStale
              (with_logs (map (markStale (now w))) (with_faults (tl (faults w)) w))).
Proof.
  intros Hq. unfold cleanupStaleCrawlLogs, try_catch.
  rewrite query_runs by exact Hq. reflexivity.
Qed.

(** When the statement fails, the error is logged and the stale runs
    stay as they are. *)
Lemma cleanup_fails_silently (w : World) :
  nextQueryFails w = true ->
  fst (cleanupStaleCrawlLogs w) = Ok tt
  /\ crawl_logs (snd (cleanupStaleCrawlLogs w)) = crawl_logs w.
Proof.
  intros Hq. unfold cleanupStaleCrawlLogs, try_catch.
  rewrite query_fails by exact Hq. split; reflexivity.
Qed.

Lemma hasDeadlineData_roundsOnly : keeps roundsOnly hasDeadlineData.
Proof.
  apply keeps_try_catch; [apply _ | | intros e; apply keeps_ret; apply _].
  apply keeps_bind; [apply _ | apply countRounds_roundsOnly |].
  intros n. apply keeps_ret; apply _.
Qed.

Lemma shouldImportPdf_roundsOnly : keeps roundsOnly shouldImportPdf.
Proof.
  apply keeps_try_catch; [apply _ | | intros e; apply keeps_ret; apply _].
  apply keeps_bind; [apply _ | apply countRounds_roundsOnly |].
  intros n. destruct (n <? 50); apply keeps_ret; apply _.
Qed.

Lemma executeDataImport_roundsOnly (h : Host) : keeps roundsOnly (executeDataImport h).
Proof.
  intros w. unfold executeDataImport.
  apply (keeps_try_catch roundsOnly); [|intros e; apply keeps_ret; apply _].
  apply keeps_bind; [apply _ | apply importFromPdf_roundsOnly |].
  intros r. apply runCrawlerForMissingColleges_roundsOnly.
Qed.

(** Between the cleanup and the registration of the weekly job only
    [college_rounds] is written: no run is started. *)
Lemma startupImport_roundsOnly (h : Host) : keeps roundsOnly (startupImport h).
Proof.
  unfold startupImport.
  apply keeps_bind; [apply _ | apply hasDeadlineData_roundsOnly |]. intros hasData.
  destruct (negb hasData); [apply executeDataImport_roundsOnly|].
  apply keeps_bind; [apply _ | apply shouldImportPdf_roundsOnly |]. intros needs.
  destruct needs; [apply executeDataImport_roundsOnly | apply keeps_ret; apply _].
Qed.

Lemma scheduled_emits (h : Host) (firings : nat) :
  keeps (emitted (fun _ => True)) (scheduled h firings).
Proof.
  induction firings as [|n IH]; simpl; [apply keeps_ret; apply _|].
  apply keeps_bind; [apply _ | | intros _; exact IH].
  unfold executeCrawl.
  apply keeps_try_catch; [apply _ | | intros e; apply keeps_ret; apply _].
  apply keeps_bind; [apply _ | | intros k].
  - intros w. eapply emitted_weaken; [|apply runCrawler_balanced]. tauto.
  - apply emitted_query. intros w. reflexivity.
Qed.

Lemma isStale_staleAt (t : Z) (l : CrawlLog) : isStale t l = true <-> staleAt t l.
Proof.
  unfold isStale, staleAt, staleAfter. rewrite andb_true_iff, bool_decide_eq_true, Z.ltb_lt.
  change (30 * 60 * 1000) with 1800000. tauto.
Qed.

Lemma not_staleAt (t : Z) (l : CrawlLog) : isStale t l = false <-> ~ staleAt t l.
Proof. rewrite <- isStale_staleAt. destruct (isStale t l); split; congruence. Qed.

(** After a failed cleanup [initialize] goes on with the import, on the
    runs as they were. *)
Lemma initialize_after_failed_cleanup (h : Host) (w : World) :
  nextQueryFails w = true ->
  initialize h w = startupImport h (with_faults (tl (faults w)) w).
Proof.
  intros Hq. unfold initialize, bind, cleanupStaleCrawlLogs, try_catch.
  rewrite query_fails by exact Hq. reflexivity.
Qed.

(** C8, as stated, fails when the statement of the cleanup fails: the
    error is caught and logged, the stale run stays without an end time,
    and the service goes on to its weekly job, which starts a new run. *)
Lemma stale_run_survives_failed_cleanup :
  let w := with_faults [true] staleWorld in
  let w' := snd (service quietHost 1 w) in
  nextQueryFails w = true
  /\ abandonedRun ∈ crawl_logs w
  /\ staleAt (now w) abandonedRun
  /\ map (fun l => (cl_id l, run_finished_at l)) (crawl_logs w')
     = [(1, None); (2, None); (3, Some 1762041600000)]
  /\ In (InsertCrawlLog 1762041600000) (executed w')
  /\ ~ In CleanupStale (executed w').
Proof.
  cbv zeta. split; [reflexivity|]. split; [left|].
  split; [split; [reflexivity | vm_compute; reflexivity]|].
  split; [vm_compute; reflexivity|].
  split; vm_compute; intuition discriminate.
Qed.

(** C8 (amended): [initialize] awaits the cleanup first, and the cleanup
    never throws.  When storage executes its statement, every CrawlRun
    that has no end time and started more than 30 minutes before gets the
    time of the statement as its end time and the error annotation, with
    its counters as they were; no such run is left; the other runs are as
    they were; the statement is the first one of the service, the rest of
    [initialize] starts no run, and all the runs of the weekly job come
    after it.  When the statement fails, the runs are left as they were,
    stale ones included, nothing is recorded, and [initialize] goes on
    with the import and leaves the runs as they were to the weekly
    job. *)
Theorem stale_cleanup (h : Host) (w : World) :
  let w1 := snd (cleanupStaleCrawlLogs w) in
  fst (cleanupStaleCrawlLogs w) = Ok tt
  /\ (nextQueryFails w = false ->
      (forall l, l ∈ crawl_logs w -> staleAt (now w) l ->
         exists l', l' ∈ crawl_logs w1 /\ finalizedStale (now w) l l')
      /\ (forall l', l' ∈ crawl_logs w1 -> ~ staleAt (now w) l')
      /\ (forall l, l ∈ crawl_logs w -> ~ staleAt (now w) l -> l ∈ crawl_logs w1)
      /\ (exists new,
            executed (snd (initialize h w)) = app new (CleanupStale :: executed w)
            /\ Forall roundStatement new)
      /\ (forall firings, exists new,
            executed (snd (service h firings w)) = app new (CleanupStale :: executed w)))
  /\ (nextQueryFails w = true ->
      crawl_logs w1 = crawl_logs w
      /\ executed w1 = executed w
      /\ initialize h w = startupImport h w1
      /\ crawl_logs (snd (initialize h w)) = crawl_logs w
      /\ (forall firings,
            service h firings w = bind (startupImport h) (fun _ => scheduled h firings) w1)).
Proof.
  cbv zeta. split; [|split].
  - unfold cleanupStaleCrawlLogs, try_catch, query.
    destruct (faults w) as [|[] fs]; reflexivity.
  - intros Hq. rewrite (cleanup_runs w Hq). cbn [snd].
    split; [|split; [|split; [|split]]].
    + intros l Hin Hs. exists (markStale (now w) l). split.
      * simpl. apply list_elem_of_fmap_2. exact Hin.
      * apply markStale_finalized. apply isStale_staleAt. exact Hs.
    + simpl. intros l' Hin.
      apply list_elem_of_fmap in Hin as (l & -> & _).
      apply not_staleAt. apply markStale_fresh.
    + intros l Hin Hs. simpl. replace l with (markStale (now w) l) at 1.
      * apply list_elem_of_fmap_2. exact Hin.
      * unfold markStale. apply not_staleAt in Hs. rewrite Hs. reflexivity.
    + unfold initialize, bind. rewrite (cleanup_runs w Hq).
      destruct (startupImport_roundsOnly h
                  (record CleanupStale
                     (with_logs (map (markStale (now w))) (with_faults (tl (faults w)) w))))
        as (_ & _ & _ & _ & _ & _ & (new & Hex & Hall)).
      exists new. split; [exact Hex | exact Hall].
    + intros firings. unfold service, initialize, bind. rewrite (cleanup_runs w Hq).
      set (w1 := record CleanupStale _).
      pose proof (startupImport_roundsOnly h w1) as (_ & _ & _ & _ & _ & _ & (n1 & Hex1 & _)).
      destruct (startupImport h w1) as [[[]|e] w2]; simpl in Hex1 |- *.
      * destruct (scheduled_emits h firings w2) as (n2 & Hex2 & _).
        exists (app n2 n1). rewrite Hex2, Hex1, app_assoc. reflexivity.
      * exists n1. exact Hex1.
  - intros Hq.
    assert (Hw1 : snd (cleanupStaleCrawlLogs w) = with_faults (tl (faults w)) w).
    { unfold cleanupStaleCrawlLogs, try_catch. rewrite query_fails by exact Hq. reflexivity. }
    rewrite Hw1. split; [reflexivity|]. split; [reflexivity|].
    split; [apply initialize_after_failed_cleanup; exact Hq|].
    split.
    + rewrite (initialize_after_failed_cleanup h w Hq).
      destruct (startupImport_roundsOnly h (with_faults (tl (faults w)) w))
        as (_ & Hlogs & _). exact Hlogs.
    + intros firings. unfold service, bind at 1.
      rewrite (initialize_after_failed_cleanup h w Hq). reflexivity.
Qed.

Example cleanup_example :
  map (fun l => (cl_id l, run_finished_at l))
    (crawl_logs (snd (cleanupStaleCrawlLogs staleWorld)))
  = [(1, Some 1762041600000); (2, None)].
Proof. vm_compute. reflexivity. Qed.

Lemma stale_cleanup_witness :
  nextQueryFails staleWorld = false
  /\ staleAt (now staleWorld) abandonedRun
  /\ (forall l, l ∈ crawl_logs staleWorld -> staleAt (now staleWorld) l ->
        exists l', l' ∈ crawl_logs (snd (cleanupStaleCrawlLogs staleWorld))
                   /\ finalizedStale (now staleWorld) l l').
Proof.
  split; [reflexivity|]. split; [split; [reflexivity | vm_compute; reflexivity]|].
  apply (proj1 (proj2 (stale_cleanup quietHost staleWorld)) eq_refl).
Defined.

(** ** The trigger of a run *)



(** *** [runCrawler] asks nothing before its INSERT *)

#[local] Instance sameRuns_preorder : PreOrder sameRuns.
Proof.
  split.
  - intros w. split; [reflexivity | exists []; reflexivity].
  - intros a b c [H1 [l1 E1]] [H2 [l2 E2]]. split; [congruence|].
    exists (app l2 l1). rewrite E2, E1, app_assoc. reflexivity.
Qed.











(** *** The flag of the backend route *)






(* ===================================================================== *)
(** * Part III. Further properties of the pipeline                        *)
(* ===================================================================== *)

Local Open Scope db_scope.

(** ** The PDF import: what its counters count *)

Lemma selectRound_result (c : Z) (rt : RoundType) (cycle : string) (w : World) :
  selectRound c rt cycle w
  = if nextQueryFails w then (Throw dbError, afterQuery w)
    else (Ok (filter (sameKey c rt cycle) (college_rounds w)), afterQuery w).
Proof.
  unfold selectRound. destruct (nextQueryFails w) eqn:Hq.
  - apply query_fails. exact Hq.
  - rewrite query_runs by exact Hq. reflexivity.
Qed.

(** A statement of the import is recorded exactly when its query
    returns. *)
Lemma updateRoundPdf_step (date : string) (id : Z) (w : World) :
  match updateRoundPdf date id w with
  | (Ok _, w') => executed w' = UpdateRoundPdf id date :: executed w
  | (Throw _, w') => executed w' = executed w
  end.
Proof.
  unfold updateRoundPdf, query. destruct (faults w) as [|[] fs]; reflexivity.
Qed.

Lemma insertRound_step (c : Z) (rt : RoundType) (cycle date : string) (w : World) :
  match insertRound c rt cycle date w with
  | (Ok _, w') => executed w' = InsertRound c rt cycle date :: executed w
  | (Throw _, w') => executed w' = executed w
  end.
Proof.
  unfold insertRound, query. destruct (faults w) as [|[] fs]; cbv zeta;
    try reflexivity; destruct (_ || _); reflexivity.
Qed.

Lemma importDeadline_step (c : Z) (cycle : string) (dl : ParsedDeadline) (r : ImportResult)
    (w : World) :
  match importDeadline c cycle dl r w with
  | (Ok r', w') =>
      (r' = countImported r /\ exists s, pdfStatement s /\ executed w' = s :: executed w)
      \/ (r' = countSkipped r /\ executed w' = executed w)
  | (Throw _, w') => executed w' = executed w
  end.
Proof.
  unfold importDeadline. unfold bind at 1. rewrite selectRound_result.
  destruct (nextQueryFails w); [reflexivity|].
  change (executed w) with (executed (afterQuery w)). generalize (afterQuery w) as w1.
  intros w1. destruct (filter _ _) as [|row rows].
  - unfold bind. pose proof (insertRound_step c (roundType dl) cycle (deadlineDate dl) w1) as H.
    destruct (insertRound _ _ _ _ w1) as [[[]|e] w2]; [|exact H].
    left. split; [reflexivity|]. eexists. split; [|exact H]. exact I.
  - destruct (cr_admin_confirmed row); simpl.
    + right. split; reflexivity.
    + unfold bind. pose proof (updateRoundPdf_step (deadlineDate dl) (cr_id row) w1) as H.
      destruct (updateRoundPdf _ _ w1) as [[[]|e] w2]; [|exact H].
      left. split; [reflexivity|]. eexists. split; [|exact H]. exact I.
Qed.

(** One turn of the loop never throws and counts its deadline once. *)
Lemma importOne_step (m : gmap string Z) (cycle : string) (r : ImportResult)
    (dl : ParsedDeadline) (w : World) :
  exists r' w' new,
    importOne m cycle r dl w = (Ok r', w')
    /\ executed w' = app new (executed w)
    /\ Forall pdfStatement new
    /\ imported r' = imported r + Z.of_nat (length new)
    /\ skipped r <= skipped r' /\ import_errors r <= import_errors r'
    /\ counted r' = counted r + 1.
Proof.
  unfold importOne, counted.
  assert (Hskip : exists r' w' new,
             (Ok (countSkipped r), w) = (Ok r', w')
             /\ executed w' = app new (executed w)
             /\ Forall pdfStatement new
             /\ imported r' = imported r + Z.of_nat (length new)
             /\ skipped r <= skipped r' /\ import_errors r <= import_errors r'
             /\ imported r' + skipped r' + import_errors r'
                = imported r + skipped r + import_errors r + 1).
  { exists (countSkipped r), w, []. simpl. repeat split; try constructor; lia. }
  destruct (m !! collegeName dl) as [collegeId|]; [|exact Hskip].
  destruct (collegeId =? 0); [exact Hskip|].
  unfold try_catch. pose proof (importDeadline_step collegeId cycle dl r w) as H.
  destruct (importDeadline collegeId cycle dl r w) as [[r'|e] w'].
  - destruct H as [[-> (s & Hs & Hex)]|[-> Hex]].
    + exists (countImported r), w', [s]. simpl.
      repeat split; try assumption; try lia. repeat constructor. exact Hs.
    + exists (countSkipped r), w', []. simpl.
      repeat split; try assumption; try constructor; lia.
  - exists (countError r), w', []. simpl.
    repeat split; try assumption; try constructor; lia.
Qed.

Lemma importLoop_accounts (m : gmap string Z) (cycle : string) (dls : list ParsedDeadline)
    (r : ImportResult) (w : World) :
  exists r' w' new,
    importLoop m cycle dls r w = (Ok r', w')
    /\ executed w' = app new (executed w)
    /\ Forall pdfStatement new
    /\ imported r' = imported r + Z.of_nat (length new)
    /\ skipped r <= skipped r' /\ import_errors r <= import_errors r'
    /\ counted r' = counted r + Z.of_nat (length dls).
Proof.
  revert r w. induction dls as [|dl dls IH]; intros r w; simpl.
  - exists r, w, []. simpl. repeat split; try constructor; lia.
  - unfold bind.
    destruct (importOne_step m cycle r dl w)
      as (r1 & w1 & new1 & -> & Hex1 & Hn1 & Hi1 & Hs1 & He1 & Hc1).
    destruct (IH r1 w1) as (r2 & w2 & new2 & Hrun & Hex2 & Hn2 & Hi2 & Hs2 & He2 & Hc2).
    exists r2, w2, (app new2 new1). rewrite Hrun. split; [reflexivity|].
    split; [rewrite Hex2, Hex1, app_assoc; reflexivity|].
    split; [apply Forall_app; split; assumption|].
    rewrite length_app. repeat split; lia.
Qed.

Lemma matchColleges_result (dls : list ParsedDeadline) (w : World) :
  (nextQueryFails w = true /\ matchColleges dls w = (Throw dbError, afterQuery w))
  \/ (nextQueryFails w = false
      /\ exists m, matchColleges dls w = (Ok m, afterQuery w)).
Proof.
  unfold matchColleges, bind, selectColleges. destruct (nextQueryFails w) eqn:Hq.
  - left. split; [reflexivity|]. rewrite query_fails by exact Hq. reflexivity.
  - right. split; [reflexivity|]. rewrite query_runs by exact Hq. eexists. reflexivity.
Qed.

Lemma importFromPdf_unfold (h : Host) (cycle : string) (w : World) :
  importFromPdf h cycle w
  = match gridText h with
    | Throw e => (Throw e, w)
    | Ok pdfText =>
        let dls := parseWithRegex pdfText (cycleStartYear cycle) in
        (if (length dls =? 0)%nat
         then ret {| imported := 0; skipped := 0; import_errors := 0 |}
         else let* m := matchColleges dls in
              importLoop m cycle dls {| imported := 0; skipped := 0; import_errors := 0 |}) w
    end.
Proof. unfold importFromPdf, bind at 1, lift. destruct (gridText h); reflexivity. Qed.

(** X1: every deadline that [parseWithRegex] extracts from the grid is
    counted exactly once by the result of [importFromPdf], as imported,
    skipped or failed, whatever storage does; and [imported] is the number
    of statements the import has executed, each an UPDATE or an INSERT of
    a deadline. *)
Theorem importFromPdf_accounts (h : Host) (cycle : string) (w : World) (r : ImportResult) :
  fst (importFromPdf h cycle w) = Ok r ->
  exists pdfText new,
    gridText h = Ok pdfText
    /\ counted r = Z.of_nat (length (parseWithRegex pdfText (cycleStartYear cycle)))
    /\ executed (snd (importFromPdf h cycle w)) = app new (executed w)
    /\ Forall pdfStatement new
    /\ imported r = Z.of_nat (length new)
    /\ 0 <= skipped r /\ 0 <= import_errors r.
Proof.
  rewrite importFromPdf_unfold.
  destruct (gridText h) as [pdfText|e] eqn:Hgrid; [|discriminate].
  cbv zeta. intros H. exists pdfText. revert H.
  generalize (parseWithRegex pdfText (cycleStartYear cycle)) as dls. intros dls.
  destruct (length dls =? 0)%nat eqn:Hlen.
  - apply Nat.eqb_eq in Hlen. intros [= <-]. exists [].
    rewrite Hlen. simpl. repeat split; try constructor; lia.
  - unfold bind. destruct (matchColleges_result dls w) as [[_ ->]|[_ [m ->]]]; [discriminate|].
    destruct (importLoop_accounts m cycle dls
                {| imported := 0; skipped := 0; import_errors := 0 |} (afterQuery w))
      as (r' & w' & new & -> & Hex & Hn & Hi & Hs & He & Hc).
    simpl in *. intros [= <-]. exists new.
    unfold counted in *. simpl in *. repeat split; try assumption; lia.
Qed.

Lemma importFromPdf_accounts_witness :
  fst (importFromPdf quietHost "2025-2026" lockedWorld)
  = Ok {| imported := 1; skipped := 1; import_errors := 0 |}
  /\ exists pdfText new,
       gridText quietHost = Ok pdfText
       /\ counted {| imported := 1; skipped := 1; import_errors := 0 |}
          = Z.of_nat (length (parseWithRegex pdfText (cycleStartYear "2025-2026")))
       /\ executed (snd (importFromPdf quietHost "2025-2026" lockedWorld))
          = app new (executed lockedWorld)
       /\ Forall pdfStatement new
       /\ imported {| imported := 1; skipped := 1; import_errors := 0 |}
          = Z.of_nat (length new)
       /\ 0 <= skipped {| imported := 1; skipped := 1; import_errors := 0 |}
       /\ 0 <= import_errors {| imported := 1; skipped := 1; import_errors := 0 |}.
Proof.
  split; [vm_compute; reflexivity|].
  apply (importFromPdf_accounts quietHost "2025-2026" lockedWorld). vm_compute. reflexivity.
Defined.

(** A candidate whose storage fails has written nothing. *)
Lemma importDeadline_quiet (c : Z) (cycle : string) (dl : ParsedDeadline) (r : ImportResult)
    (w : World) :
  match importDeadline c cycle dl r w with
  | (Ok _, _) => True
  | (Throw _, w') => college_rounds w' = college_rounds w /\ executed w' = executed w
  end.
Proof.
  unfold importDeadline. unfold bind at 1. rewrite selectRound_result.
  destruct (nextQueryFails w); [split; reflexivity|].
  change (college_rounds w) with (college_rounds (afterQuery w)).
  change (executed w) with (executed (afterQuery w)). generalize (afterQuery w) as w1.
  intros w1. destruct (filter _ _) as [|row rows].
  - unfold bind, insertRound, query.
    destruct (faults w1) as [|[] fs]; cbv zeta; try (split; reflexivity);
      destruct (_ || _); simpl; try exact I; split; reflexivity.
  - destruct (cr_admin_confirmed row); simpl; [exact I|].
    unfold bind, updateRoundPdf, query.
    destruct (faults w1) as [|[] fs]; simpl; try exact I; split; reflexivity.
Qed.

Lemma importDeadline_throws (c : Z) (cycle : string) (dl : ParsedDeadline) (r : ImportResult)
    (w : World) (e : string) :
  fst (importDeadline c cycle dl r w) = Throw e ->
  college_rounds (snd (importDeadline c cycle dl r w)) = college_rounds w
  /\ executed (snd (importDeadline c cycle dl r w)) = executed w.
Proof.
  pose proof (importDeadline_quiet c cycle dl r w) as H.
  destruct (importDeadline c cycle dl r w) as [[r'|e'] w']; [discriminate|].
  intros _. exact H.
Qed.

(** A candidate whose storage fails is counted in [errors], and the
    loop goes on with the next one. *)
Lemma importLoop_error (m : gmap string Z) (cycle : string) (dl : ParsedDeadline)
    (rest : list ParsedDeadline) (r : ImportResult) (w : World) (id : Z) (e : string) :
  m !! collegeName dl = Some id -> id <> 0 ->
  fst (importDeadline id cycle dl r w) = Throw e ->
  importLoop m cycle (dl :: rest) r w
  = importLoop m cycle rest (countError r) (snd (importDeadline id cycle dl r w)).
Proof.
  intros Hm Hid Hthrow. simpl. unfold bind, importOne. rewrite Hm.
  destruct (id =? 0) eqn:E; [apply Z.eqb_eq in E; contradiction|].
  unfold try_catch. destruct (importDeadline id cycle dl r w) as [[r'|e'] w']; [discriminate|].
  reflexivity.
Qed.

(** X2: [importFromPdf] throws in two cases only: the grid cannot be
    downloaded or read (the error of the download or of the extraction),
    or the grid has deadlines and the query that lists the colleges fails.
    In both cases nothing has been written.  A failure while one deadline
    is stored is counted in [errors] and the import goes on: the failed
    candidate has written nothing, the loop continues with the next
    deadline and one more error, and it returns a result with more
    errors than it had.  The failure of the SELECT of the stored record
    is such a failure. *)
Theorem importFromPdf_throws (h : Host) (cycle : string) (w : World) (e : string) :
  (fst (importFromPdf h cycle w) = Throw e
   <-> gridText h = Throw e
       \/ exists pdfText,
            gridText h = Ok pdfText
            /\ parseWithRegex pdfText (cycleStartYear cycle) <> []
            /\ nextQueryFails w = true /\ e = dbError)
  /\ (fst (importFromPdf h cycle w) = Throw e ->
      college_rounds (snd (importFromPdf h cycle w)) = college_rounds w
      /\ executed (snd (importFromPdf h cycle w)) = executed w)
  /\ (forall (m : gmap string Z) (dl : ParsedDeadline) (rest : list ParsedDeadline)
        (r : ImportResult) (v : World) (id : Z),
      m !! collegeName dl = Some id -> id <> 0 ->
      (nextQueryFails v = true -> fst (importDeadline id cycle dl r v) = Throw dbError)
      /\ (forall e', fst (importDeadline id cycle dl r v) = Throw e' ->
          let v1 := snd (importDeadline id cycle dl r v) in
          college_rounds v1 = college_rounds v
          /\ executed v1 = executed v
          /\ importLoop m cycle (dl :: rest) r v = importLoop m cycle rest (countError r) v1
          /\ exists r' v',
               importLoop m cycle (dl :: rest) r v = (Ok r', v')
               /\ import_errors r < import_errors r'
               /\ counted r' = counted r + 1 + Z.of_nat (length rest))).
Proof.
  split; [|split].
  3: { intros m dl rest r v id Hm Hid. split.
       - intros Hq. unfold importDeadline. unfold bind at 1. rewrite selectRound_result, Hq.
         reflexivity.
       - intros e' Hthrow. cbv zeta.
         destruct (importDeadline_throws id cycle dl r v e' Hthrow) as [Hrows Hex].
         pose proof (importLoop_error m cycle dl rest r v id e' Hm Hid Hthrow) as Hloop.
         split; [exact Hrows|]. split; [exact Hex|]. split; [exact Hloop|].
         destruct (importLoop_accounts m cycle rest (countError r)
                     (snd (importDeadline id cycle dl r v)))
           as (r' & v' & new & Hrun & _ & _ & _ & _ & He & Hc).
         exists r', v'. rewrite Hloop. split; [exact Hrun|].
         unfold counted in *. simpl in *. split; lia. }
  all: rewrite importFromPdf_unfold.
  all: destruct (gridText h) as [pdfText|e0].
  - cbv zeta.
    destruct (parseWithRegex pdfText (cycleStartYear cycle)) as [|dl dls] eqn:Hdls; simpl.
    + split; [discriminate|].
      intros [H|(t & [= <-] & Hne & _)]; [discriminate | congruence].
    + unfold bind. destruct (matchColleges_result (dl :: dls) w) as [[Hq ->]|[Hq [m ->]]].
      * simpl. split.
        -- intros [= <-]. right. exists pdfText. rewrite Hdls.
           repeat split; [discriminate | exact Hq].
        -- intros [H|(t & _ & _ & _ & ->)]; [discriminate | reflexivity].
      * destruct (importLoop_accounts m cycle (dl :: dls)
                    {| imported := 0; skipped := 0; import_errors := 0 |} (afterQuery w))
          as (r' & w' & new & Hrun & _).
        simpl in Hrun. unfold bind in Hrun. rewrite Hrun. simpl.
        split; [discriminate|].
        intros [H|(t & _ & _ & Hq' & _)]; [discriminate | congruence].
  - simpl. split.
    + intros [= <-]. left. reflexivity.
    + intros [[= <-]|(t & H & _)]; [reflexivity | discriminate].
  - cbv zeta.
    destruct (parseWithRegex pdfText (cycleStartYear cycle)) as [|dl dls] eqn:Hdls; simpl.
    + discriminate.
    + unfold bind. destruct (matchColleges_result (dl :: dls) w) as [[Hq ->]|[Hq [m ->]]].
      * simpl. intros _; split; reflexivity.
      * destruct (importLoop_accounts m cycle (dl :: dls)
                    {| imported := 0; skipped := 0; import_errors := 0 |} (afterQuery w))
          as (r' & w' & new & Hrun & _).
        simpl in Hrun. unfold bind in Hrun. rewrite Hrun. simpl. discriminate.
  - simpl. intros _; split; reflexivity.
Qed.

Lemma importFromPdf_throws_witness :
  (fst (importFromPdf mixedHost "2025-2026" campusWorld) = Throw "HTTP 404"
   /\ college_rounds (snd (importFromPdf mixedHost "2025-2026" campusWorld))
      = college_rounds campusWorld
   /\ executed (snd (importFromPdf mixedHost "2025-2026" campusWorld)) = executed campusWorld)
  /\ (nextQueryFails (with_faults [true] lockedWorld) = true
      /\ fst (importFromPdf quietHost "2025-2026" (with_faults [false; true] lockedWorld))
         = Ok {| imported := 1; skipped := 0; import_errors := 1 |}
      /\ exists r' v',
           importLoop {[ "Reed College" := 1 ]} "2025-2026"
             [pdfCandidate "Reed College" ED "2025-11-15";
              pdfCandidate "Reed College" RD "2026-01-05"]
             {| imported := 0; skipped := 0; import_errors := 0 |}
             (with_faults [true] lockedWorld) = (Ok r', v')
           /\ 0 < import_errors r'
           /\ counted r' = 0 + 1 + 1).
Proof.
  split.
  - split; [reflexivity|].
    apply (proj1 (proj2 (importFromPdf_throws mixedHost "2025-2026" campusWorld "HTTP 404"))).
    reflexivity.
  - split; [reflexivity|]. split; [vm_compute; reflexivity|].
    destruct (proj2 (proj2 (importFromPdf_throws quietHost "2025-2026" lockedWorld dbError))
                {[ "Reed College" := 1 ]} (pdfCandidate "Reed College" ED "2025-11-15")
                [pdfCandidate "Reed College" RD "2026-01-05"]
                {| imported := 0; skipped := 0; import_errors := 0 |}
                (with_faults [true] lockedWorld) 1
                ltac:(apply lookup_singleton_eq) ltac:(discriminate))
      as [Hfail Hgoes].
    destruct (Hgoes dbError (Hfail eq_refl)) as (_ & _ & _ & r' & v' & Hrun & He & Hc).
    exists r', v'. split; [exact Hrun|]. split; [exact He | exact Hc].
Defined.

(** ** The start of the service: when the import runs *)

Lemma countRounds_result (w : World) :
  countRounds w
  = if nextQueryFails w then (Throw dbError, afterQuery w)
    else (Ok (Z.of_nat (length (college_rounds w))), afterQuery w).
Proof.
  unfold countRounds. destruct (nextQueryFails w) eqn:Hq.
  - apply query_fails. exact Hq.
  - rewrite query_runs by exact Hq. reflexivity.
Qed.

Lemma afterQuery_healthy (w : World) : faults w = [] -> afterQuery w = w.
Proof. intros H. destruct w. simpl in H. subst. reflexivity. Qed.

Lemma healthy_next (w : World) : faults w = [] -> nextQueryFails w = false.
Proof. intros H. unfold nextQueryFails. rewrite H. reflexivity. Qed.

(** X3: what [initialize] does after the cleanup.  With storage in order
    the import of the grid and the crawl of the missing colleges run
    exactly when [college_rounds] has fewer than 50 rows; otherwise
    nothing is sent.  When the first count fails the database is taken
    to be empty and the import runs; when the store is not empty and the
    second count fails the import is skipped. *)
Theorem startupImport_threshold (h : Host) (w : World) :
  (faults w = [] ->
   startupImport h w
   = if (length (college_rounds w) <? 50)%nat then executeDataImport h w else (Ok tt, w))
  /\ (nextQueryFails w = true ->
      startupImport h w = executeDataImport h (afterQuery w))
  /\ (nextQueryFails w = false -> college_rounds w <> [] ->
      nextQueryFails (afterQuery w) = true ->
      startupImport h w = (Ok tt, afterQuery (afterQuery w))).
Proof.
  unfold startupImport, hasDeadlineData, shouldImportPdf, bind, try_catch.
  rewrite countRounds_result. split; [|split].
  - intros Hf. rewrite healthy_next by exact Hf. rewrite afterQuery_healthy by exact Hf.
    cbn [ret negb].
    destruct (college_rounds w) as [|r rows] eqn:Hrows; [reflexivity|].
    cbn [length]. replace (0 <? Z.of_nat (S (length rows))) with true
      by (symmetry; apply Z.ltb_lt; lia).
    cbn [negb]. rewrite countRounds_result, healthy_next by exact Hf.
    rewrite afterQuery_healthy by exact Hf. rewrite Hrows. cbn [length].
    destruct (Z.ltb_spec (Z.of_nat (S (length rows))) 50),
             (Nat.ltb_spec (S (length rows)) 50); try lia; reflexivity.
  - intros ->. reflexivity.
  - intros -> Hne Hq. destruct (college_rounds w) as [|r rows] eqn:Hrows; [congruence|].
    cbn [length ret]. replace (0 <? Z.of_nat (S (length rows))) with true
      by (symmetry; apply Z.ltb_lt; lia).
    cbn [negb]. rewrite countRounds_result, Hq. reflexivity.
Qed.

Lemma startupImport_threshold_witness :
  startupImport quietHost lockedWorld = executeDataImport quietHost lockedWorld
  /\ startupImport quietHost (with_faults [true] lockedWorld)
     = executeDataImport quietHost (afterQuery (with_faults [true] lockedWorld))
  /\ startupImport quietHost (with_faults [false; true] lockedWorld)
     = (Ok tt, afterQuery (afterQuery (with_faults [false; true] lockedWorld))).
Proof.
  split; [|split].
  - apply (proj1 (startupImport_threshold quietHost lockedWorld)). reflexivity.
  - apply (proj1 (proj2 (startupImport_threshold quietHost (with_faults [true] lockedWorld)))).
    reflexivity.
  - apply (proj2 (proj2 (startupImport_threshold quietHost
                           (with_faults [false; true] lockedWorld))));
      [reflexivity | discriminate | reflexivity].
Defined.

(** ** What a page yields *)

Lemma findNearbyDate_loop_nonempty (tz : Z) (patterns : list regex) (text : string)
    (cycleStartYear : number) (date : string) :
  findNearbyDate_loop tz patterns text cycleStartYear = Some date -> date <> "".
Proof.
  induction patterns as [|pattern rest IH]; simpl; [discriminate|].
  destruct (search pattern text) as [f|]; [|exact IH].
  destruct (parseDate tz (matched text f) cycleStartYear) as [[|a parsed]|]; try exact IH.
  intros [= <-]. discriminate.
Qed.

Lemma scanKeywords_nonempty (tz : Z) (textContent : string) (cycleStartYear : number)
    (keywords : list string) (date : string) :
  scanKeywords tz textContent cycleStartYear keywords = Some date -> date <> "".
Proof.
  induction keywords as [|keyword rest IH]; simpl; [discriminate|].
  destruct (indexOf textContent keyword) as [keywordIndex|]; [|exact IH].
  destruct (findNearbyDate tz _ cycleStartYear) as [deadlineDate|] eqn:Hd; [|exact IH].
  intros [= <-]. eapply findNearbyDate_loop_nonempty. exact Hd.
Qed.

Lemma scanRounds_shape (tz : Z) (textContent : string) (cycleStartYear : number)
    (table : list (RoundType * list string)) :
  map fst (scanRounds tz textContent cycleStartYear table) `sublist_of` map fst table
  /\ Forall (fun e => exists date, date <> ""
                      /\ snd e = {| deadline_date := Some date; decision_date := None |})
       (scanRounds tz textContent cycleStartYear table).
Proof.
  induction table as [|[roundType keywords] rest [IHs IHf]]; simpl.
  - split; constructor.
  - destruct (scanKeywords tz textContent cycleStartYear keywords) as [date|] eqn:Hk; simpl.
    + split; [apply sublist_skip; exact IHs|]. constructor; [|exact IHf].
      exists date. split; [|reflexivity]. eapply scanKeywords_nonempty. exact Hk.
    + split; [apply sublist_cons; exact IHs | exact IHf].
Qed.

Lemma parseAdmissionsPage_found (h : Host) (url cycle : string) (ds : ParsedDeadlines) :
  parseAdmissionsPage h url cycle = Ok ds ->
  map fst ds `sublist_of` roundOrder
  /\ NoDup (map fst ds)
  /\ Forall (fun e => exists date, date <> ""
                      /\ snd e = {| deadline_date := Some date; decision_date := None |}) ds.
Proof.
  unfold parseAdmissionsPage, andThen.
  destruct (fetchPage (http h) url 0) as [html|e]; [|discriminate].
  intros [= <-].
  destruct (scanRounds_shape (tz h) (toLowerCase (bodyText h html))
              (parseInt (hd "" (split "-" cycle))) ROUND_KEYWORDS) as [Hs Hf].
  split; [exact Hs|]. split; [|exact Hf].
  eapply sublist_NoDup; [|exact Hs].
  change (map fst ROUND_KEYWORDS) with roundOrder.
  apply (bool_decide_unpack _). vm_compute. exact I.
Qed.


(** X4: the deadlines that [parseAdmissionsPage] finds on a page: at most
    one for each round type, in the order ED, ED2, EA, REA, RD, ROLLING;
    each has a deadline date that is not the empty text, and none has a
    decision date. *)
Theorem parseAdmissionsPage_shape (h : Host) (url cycle : string) (ds : ParsedDeadlines) :
  parseAdmissionsPage h url cycle = Ok ds ->
  map fst ds `sublist_of` roundOrder
  /\ NoDup (map fst ds)
  /\ Forall (fun e => exists date, date <> ""
                      /\ snd e = {| deadline_date := Some date; decision_date := None |}) ds.
Proof. apply parseAdmissionsPage_found. Qed.

Lemma parseAdmissionsPage_shape_witness :
  parseAdmissionsPage quietHost "https://example.edu/admissions" "2025-2026"
  = Ok [(ED, {| deadline_date := Some "2025-11-01"; decision_date := None |})]
  /\ NoDup (map fst [(ED, {| deadline_date := Some "2025-11-01"; decision_date := None |})]).
Proof.
  assert (H : parseAdmissionsPage quietHost "https://example.edu/admissions" "2025-2026"
              = Ok [(ED, {| deadline_date := Some "2025-11-01"; decision_date := None |})])
    by (vm_compute; reflexivity).
  split; [exact H|].
  exact (proj1 (proj2 (parseAdmissionsPage_shape quietHost _ _ _ H))).
Defined.

(** ** The grid: one candidate for each college and round type *)

Lemma allOf_app (p : ascii -> bool) (x y : string) :
  allOf p (x ++ y) = allOf p x && allOf p y.
Proof.
  induction x as [|a x IH]; simpl; [reflexivity|]. rewrite IH, andb_assoc. reflexivity.
Qed.

Lemma roundName_no_bar (r : RoundType) (x y : string) : roundName r <> x ++ "|" ++ y.
Proof.
  intros H. assert (Hall : allOf notBar (roundName r) = true) by (destruct r; reflexivity).
  rewrite H, allOf_app in Hall. simpl in Hall. rewrite andb_false_r in Hall. discriminate.
Qed.

Lemma dedupKey_inj (a b : ParsedDeadline) :
  dedupKey a = dedupKey b -> collegeName a = collegeName b /\ roundType a = roundType b.
Proof.
  unfold dedupKey. generalize (collegeName b) as n2. generalize (collegeName a) as n1.
  induction n1 as [|c1 n1 IH]; intros [|c2 n2]; simpl; intros H.
  - injection H as H. split; [reflexivity|].
    destruct (roundType a), (roundType b); (reflexivity || discriminate).
  - injection H as Hc H. exfalso. exact (roundName_no_bar _ _ _ H).
  - injection H as Hc H. exfalso. symmetry in H. exact (roundName_no_bar _ _ _ H).
  - injection H as -> H. destruct (IH n2 H) as [-> Hr]. split; [reflexivity | exact Hr].
Qed.

Lemma sameEntry_key (a b : ParsedDeadline) :
  sameEntry a b = bool_decide (dedupKey a = dedupKey b).
Proof.
  unfold sameEntry. apply bool_decide_ext. split.
  - intros [Hn Hr]. unfold dedupKey. rewrite Hn, Hr. reflexivity.
  - apply dedupKey_inj.
Qed.

Lemma dedup_elem (l : list ParsedDeadline) (seen : gset string) (dl : ParsedDeadline) :
  dl ∈ dedup seen l -> dl ∈ l /\ dedupKey dl ∉ seen.
Proof.
  revert seen. induction l as [|x l IH]; intros seen; simpl.
  - intros H. inversion H.
  - case_bool_decide as Hx.
    + intros H. apply IH in H as [H1 H2]. split; [right; exact H1 | exact H2].
    + intros H. apply elem_of_cons in H as [->|H].
      * split; [left | exact Hx].
      * apply IH in H as [H1 H2]. split; [right; exact H1 | set_solver].
Qed.

Lemma dedup_NoDup (l : list ParsedDeadline) (seen : gset string) :
  NoDup (map dedupKey (dedup seen l)).
Proof.
  revert seen. induction l as [|x l IH]; intros seen; simpl; [constructor|].
  case_bool_decide as Hx; [apply IH|]. simpl. constructor; [|apply IH].
  intros Hin. apply list_elem_of_fmap in Hin as (dl & Hk & Hdl).
  apply dedup_elem in Hdl as [_ Hseen]. set_solver.
Qed.

Lemma dedup_sublist (l : list ParsedDeadline) (seen : gset string) :
  dedup seen l `sublist_of` l.
Proof.
  revert seen. induction l as [|x l IH]; intros seen; simpl; [constructor|].
  case_bool_decide; [apply sublist_cons | apply sublist_skip]; apply IH.
Qed.

Lemma dedup_first (l : list ParsedDeadline) (seen : gset string) (dl : ParsedDeadline) :
  dl ∈ dedup seen l -> List.find (sameEntry dl) l = Some dl.
Proof.
  revert seen. induction l as [|x l IH]; intros seen; simpl.
  - intros H. inversion H.
  - rewrite sameEntry_key. case_bool_decide as Hx.
    + intros H. pose proof (dedup_elem _ _ _ H) as [_ Hseen].
      rewrite bool_decide_eq_false_2 by (intros Heq; rewrite Heq in Hseen; tauto).
      rewrite <- (IH seen H). reflexivity.
    + intros H. apply elem_of_cons in H as [->|H].
      * rewrite bool_decide_eq_true_2 by reflexivity. reflexivity.
      * pose proof (dedup_elem _ _ _ H) as [_ Hseen].
        rewrite bool_decide_eq_false_2 by (intros Heq; rewrite Heq in Hseen; set_solver).
        apply (IH _ H).
Qed.

Lemma dedup_complete (l : list ParsedDeadline) (seen : gset string) (x : ParsedDeadline) :
  x ∈ l -> dedupKey x ∉ seen ->
  exists dl, dl ∈ dedup seen l /\ dedupKey dl = dedupKey x.
Proof.
  revert seen. induction l as [|y l IH]; intros seen Hin Hseen; simpl.
  - inversion Hin.
  - case_bool_decide as Hy.
    + apply elem_of_cons in Hin as [->|Hin]; [tauto|]. apply IH; assumption.
    + destruct (decide (dedupKey y = dedupKey x)) as [Heq|Hne].
      * exists y. split; [left | exact Heq].
      * apply elem_of_cons in Hin as [->|Hin]; [congruence|].
        destruct (IH ({[dedupKey y]} ∪ seen) Hin) as (dl & Hdl & Hk); [set_solver|].
        exists dl. split; [right; exact Hdl | exact Hk].
Qed.

(** X5: [parseWithRegex] returns, of the candidates it has extracted from
    the lines, the first one for each college name and round type, in the
    order of the text: no two of its deadlines have the same name and
    round type, each is the first candidate of the text with its name and
    round type, and every name and round type of a candidate is there. *)
Theorem parseWithRegex_first_of_each (pdfText : string) (cycleYear : number) :
  parseWithRegex pdfText cycleYear `sublist_of` gridCandidates pdfText cycleYear
  /\ NoDup (map (fun dl => (collegeName dl, roundType dl)) (parseWithRegex pdfText cycleYear))
  /\ (forall dl, dl ∈ parseWithRegex pdfText cycleYear ->
        List.find (sameEntry dl) (gridCandidates pdfText cycleYear) = Some dl)
  /\ (forall dl, dl ∈ gridCandidates pdfText cycleYear ->
        exists dl', dl' ∈ parseWithRegex pdfText cycleYear /\ sameEntry dl' dl = true).
Proof.
  change (parseWithRegex pdfText cycleYear) with (dedup ∅ (gridCandidates pdfText cycleYear)).
  generalize (gridCandidates pdfText cycleYear) as all. intros all.
  split; [apply dedup_sublist|]. split; [|split].
  - pose proof (dedup_NoDup all ∅) as Hnd.
    assert (Hmap : map dedupKey (dedup ∅ all)
                   = map (fun p : string * RoundType => fst p ++ "|" ++ roundName (snd p))
                       (map (fun dl => (collegeName dl, roundType dl)) (dedup ∅ all))).
    { rewrite map_map. reflexivity. }
    rewrite Hmap in Hnd. eapply NoDup_fmap_1. exact Hnd.
  - intros dl. apply dedup_first.
  - intros dl Hin. destruct (dedup_complete all ∅ dl Hin) as (dl' & Hdl' & Hk); [set_solver|].
    exists dl'. split; [exact Hdl'|]. rewrite sameEntry_key.
    apply bool_decide_eq_true_2. exact Hk.
Qed.

Lemma parseWithRegex_first_of_each_witness :
  NoDup (map (fun dl => (collegeName dl, roundType dl))
           (parseWithRegex "Reed College Coed 11/15/2025 1/5/2026" (Num 2025))).
Proof.
  exact (proj1 (proj2 (parseWithRegex_first_of_each
                         "Reed College Coed 11/15/2025 1/5/2026" (Num 2025)))).
Defined.

(** ** Numbers and their texts *)

Lemma digits_go_acc (d : Decimal.uint) (acc : positive) :
  digits_go (Z.pos acc) (NilEmpty.string_of_uint d) = Z.pos (Pos.of_uint_acc d acc).
Proof.
  revert acc. induction d; intros acc; simpl; try reflexivity;
    change (isDigit _) with true; cbv iota; rewrite <- IHd; f_equal;
    match goal with
    | |- context [digitVal ?c] =>
        let v := eval vm_compute in (digitVal c) in change (digitVal c) with v
    end; lia.
Qed.

Lemma digits_go_uint (d : Decimal.uint) :
  digits_go 0 (NilEmpty.string_of_uint d) = Z.of_N (Pos.of_uint d).
Proof.
  induction d; simpl; try reflexivity;
    change (isDigit _) with true; cbv iota; try exact IHd;
    rewrite <- digits_go_acc; reflexivity.
Qed.

Lemma allOf_digits_uint (d : Decimal.uint) : allOf isDigit (NilEmpty.string_of_uint d) = true.
Proof. induction d; simpl; try reflexivity; exact IHd. Qed.

Lemma to_uint_string (p : positive) :
  NilZero.string_of_uint (Pos.to_uint p) = NilEmpty.string_of_uint (Pos.to_uint p)
  /\ NilEmpty.string_of_uint (Pos.to_uint p) <> "".
Proof.
  pose proof (DecimalPos.Unsigned.of_to p) as H.
  destruct (Pos.to_uint p) eqn:Hp; simpl; try (split; [reflexivity | discriminate]).
  simpl in H. discriminate.
Qed.

(** The text of a number that is not negative: digits only, at least
    one, and they read back as the number. *)
Lemma showZ_digits (z : Z) :
  0 <= z -> allOf isDigit (showZ z) = true /\ showZ z <> "" /\ digits_go 0 (showZ z) = z.
Proof.
  intros Hz. unfold showZ. destruct z as [|p|p]; [| |lia].
  - split; [reflexivity|]. split; [discriminate | reflexivity].
  - simpl. destruct (to_uint_string p) as [-> Hne].
    split; [apply allOf_digits_uint|]. split; [exact Hne|].
    rewrite digits_go_uint, DecimalPos.Unsigned.of_to. reflexivity.
Qed.

Lemma isDigit_cases (a : ascii) :
  isDigit a = true ->
  a ∈ ["0"; "1"; "2"; "3"; "4"; "5"; "6"; "7"; "8"; "9"]%char.
Proof.
  destruct a as [[] [] [] [] [] [] [] []]; intros H; try discriminate H; set_solver.
Qed.

Lemma parseDigits_digits (s : string) :
  allOf isDigit s = true -> s <> "" -> parseDigits s = Num (digits_go 0 s).
Proof.
  destruct s as [|a s]; [congruence|]. simpl. intros H _.
  apply andb_prop in H as [Ha Hs].
  assert (Hgen : (if isDigit a then Num (digits_go 0 (String a s)) else NaN)
                 = Num (digits_go 0 (String a s))) by (rewrite Ha; reflexivity).
  apply isDigit_cases in Ha.
  repeat (apply elem_of_cons in Ha as [->|Ha]); try exact Hgen; [|inversion Ha].
  destruct s as [|x s]; [reflexivity|]. simpl in Hs. apply andb_prop in Hs as [Hx _].
  apply isDigit_cases in Hx.
  repeat (apply elem_of_cons in Hx as [->|Hx]); try reflexivity. inversion Hx.
Qed.

Lemma parseInt_digits (s : string) :
  allOf isDigit s = true -> s <> "" -> parseInt s = Num (digits_go 0 s).
Proof.
  intros Hall Hne. unfold parseInt.
  destruct s as [|a s]; [congruence|]. pose proof Hall as Hall'. simpl in Hall'.
  apply andb_prop in Hall' as [Ha _].
  assert (Hsp : isSpace a = false).
  { apply isDigit_cases in Ha.
    repeat (apply elem_of_cons in Ha as [->|Ha]); try reflexivity. inversion Ha. }
  cbn [trimStart]. rewrite Hsp.
  rewrite <- (parseDigits_digits (String a s) Hall Hne).
  apply isDigit_cases in Ha.
  repeat (apply elem_of_cons in Ha as [->|Ha]); try reflexivity. inversion Ha.
Qed.

(** [parseInt] reads back every integer that a template literal has
    printed. *)
Lemma parseInt_showZ (z : Z) : parseInt (showZ z) = Num z.
Proof.
  destruct (Z.le_gt_cases 0 z) as [Hz|Hz].
  - destruct (showZ_digits z Hz) as (Hall & Hne & Hval).
    rewrite parseInt_digits by assumption. rewrite Hval. reflexivity.
  - destruct z as [|p|p]; try lia. unfold showZ. simpl.
    destruct (to_uint_string p) as [-> Hne].
    unfold parseInt. cbn [trimStart]. change (isSpace "-") with false. cbv iota.
    change (String "-" ?r) with (String "-" r).
    rewrite parseDigits_digits; [|apply allOf_digits_uint | exact Hne].
    rewrite digits_go_uint, DecimalPos.Unsigned.of_to. reflexivity.
Qed.

(** *** Splitting a text *)

Lemma append_cons (x : ascii) (a b : string) : String x a ++ b = String x (a ++ b).
Proof. reflexivity. Qed.

Lemma append_assoc (a b c : string) : (a ++ b) ++ c = a ++ (b ++ c).
Proof.
  induction a as [|x a IH]; [reflexivity|]. rewrite !append_cons, IH. reflexivity.
Qed.

Lemma append_nil_r (a : string) : a ++ "" = a.
Proof. induction a as [|x a IH]; [reflexivity|]. rewrite append_cons, IH. reflexivity. Qed.

Lemma length_append (a b : string) :
  String.length (a ++ b) = (String.length a + String.length b)%nat.
Proof.
  induction a as [|x a IH]; [reflexivity|]. rewrite append_cons. simpl. rewrite IH. reflexivity.
Qed.

Lemma rev_string_acc (s acc : string) : rev_string s acc = rev_string s "" ++ acc.
Proof.
  revert acc. induction s as [|a s IH]; intros acc; simpl; [reflexivity|].
  rewrite (IH (String a acc)), (IH (String a "")), append_assoc. reflexivity.
Qed.

Lemma split_go_app (sep : ascii) (cur a b : string) :
  split_go sep cur (a ++ String sep b) = app (split_go sep cur a) (split_go sep "" b).
Proof.
  revert cur. induction a as [|c a IH]; intros cur; simpl.
  - rewrite Ascii.eqb_refl. reflexivity.
  - destruct (Ascii.eqb c sep); simpl; rewrite IH; reflexivity.
Qed.

Lemma split_app (sep : ascii) (a b : string) :
  split sep (a ++ String sep b) = app (split sep a) (split sep b).
Proof. apply split_go_app. Qed.

Lemma split_go_whole (sep : ascii) (cur a : string) :
  allOf (fun c => negb (Ascii.eqb c sep)) a = true ->
  split_go sep cur a = [rev_string cur "" ++ a].
Proof.
  revert cur. induction a as [|c a IH]; intros cur; simpl.
  - intros _. rewrite append_nil_r. reflexivity.
  - intros H. apply andb_prop in H as [Hc Ha]. apply negb_true_iff in Hc. rewrite Hc.
    rewrite IH by exact Ha. simpl. rewrite (rev_string_acc cur), append_assoc.
    reflexivity.
Qed.

Lemma split_whole (sep : ascii) (a : string) :
  allOf (fun c => negb (Ascii.eqb c sep)) a = true -> split sep a = [a].
Proof. intros H. unfold split. rewrite split_go_whole by exact H. reflexivity. Qed.

Lemma allOf_impl (p q : ascii -> bool) (s : string) :
  (forall a, p a = true -> q a = true) -> allOf p s = true -> allOf q s = true.
Proof.
  intros Hpq. induction s as [|a s IH]; simpl; [reflexivity|].
  intros H. apply andb_prop in H as [Ha Hs]. rewrite (Hpq a Ha), (IH Hs). reflexivity.
Qed.

Lemma digit_not (c : ascii) (a : ascii) :
  isDigit c = false -> isDigit a = true -> negb (Ascii.eqb a c) = true.
Proof.
  intros Hc Ha. apply negb_true_iff. apply Ascii.eqb_neq. congruence.
Qed.

(** ** The cycle and its start year *)

(** X6: the cycle that [getCurrentCycle] computes, for an instant in year
    1 or later of the local calendar, is [start-(start+1)], where [start]
    is the local year from September on and the year before until
    August; and the start year that [parseAdmissionsPage] and
    [importFromPdf] read from it with [parseInt(cycle.split('-')[0])] is
    that [start] again, never NaN. *)
Theorem cycle_start_year_round_trip (tz t : Z) :
  1 <= JsDate.getFullYear tz t ->
  let start := if geNum (JsDate.getMonth tz (Some t)) 8
               then JsDate.getFullYear tz t else JsDate.getFullYear tz t - 1 in
  getCurrentCycle tz t = showZ start ++ "-" ++ showZ (start + 1)
  /\ cycleStartYear (getCurrentCycle tz t) = Num start.
Proof.
  intros Hy start.
  assert (Hcycle : getCurrentCycle tz t = showZ start ++ "-" ++ showZ (start + 1)).
  { unfold getCurrentCycle, start. destruct (geNum _ 8); [reflexivity|].
    replace (JsDate.getFullYear tz t - 1 + 1) with (JsDate.getFullYear tz t) by lia.
    reflexivity. }
  split; [exact Hcycle|]. rewrite Hcycle. unfold cycleStartYear.
  assert (Hs : 0 <= start) by (unfold start; destruct (geNum _ 8); lia).
  destruct (showZ_digits start Hs) as (Hall & Hne & Hval).
  change (showZ start ++ "-" ++ showZ (start + 1))
    with (showZ start ++ String "-" (showZ (start + 1))).
  rewrite split_app, split_whole.
  - simpl. rewrite parseInt_digits by assumption. rewrite Hval. reflexivity.
  - eapply allOf_impl; [|exact Hall]. intros a. apply digit_not. reflexivity.
Qed.

Lemma cycle_start_year_round_trip_witness :
  1 <= JsDate.getFullYear 0 1762041600000
  /\ getCurrentCycle 0 1762041600000 = "2025-2026"
  /\ cycleStartYear (getCurrentCycle 0 1762041600000) = Num 2025.
Proof.
  assert (H : 1 <= JsDate.getFullYear 0 1762041600000) by (vm_compute; discriminate).
  split; [exact H|]. exact (cycle_start_year_round_trip 0 1762041600000 H).
Defined.

(** ** The download of the grid *)

Lemma hop_earlier (http : string -> HttpOutcome) (j k : nat) (url final : string) :
  hop http k url = Some final -> (j <= k)%nat -> exists mid, hop http j url = Some mid.
Proof.
  revert k url. induction j as [|j IH]; intros k url Hk Hle; simpl.
  - exists url. reflexivity.
  - destruct k as [|k]; [lia|]. simpl in Hk.
    destruct (http url) as [statusCode location body|message|]; try discriminate.
    destruct (isRedirect statusCode location); [|discriminate].
    apply (IH k); [exact Hk | lia].
Qed.

Lemma downloadPdf_served (http : string -> HttpOutcome) (k : nat) (url final : string)
    (location : option string) (data : string) (requests : nat) :
  hop http k url = Some final ->
  http final = Response (Some 200) location (BodyEnd data) ->
  (k < requests)%nat ->
  downloadPdf requests http url = Resolved data.
Proof.
  revert url requests. induction k as [|k IH]; intros url requests Hhop Hfinal Hlt;
    (destruct requests as [|requests]; [lia|]); simpl in Hhop |- *.
  - injection Hhop as ->. rewrite Hfinal. reflexivity.
  - destruct (http url) as [statusCode loc body|message|]; try discriminate.
    destruct (isRedirect statusCode loc); [|discriminate].
    apply IH; [exact Hhop | exact Hfinal | lia].
Qed.

Lemma downloadPdf_loop (http : string -> HttpOutcome) (requests : nat) (url : string) :
  (forall k, hop http k url <> None) -> downloadPdf requests http url = Following.
Proof.
  revert url. induction requests as [|requests IH]; intros url Hloop; simpl; [reflexivity|].
  pose proof (Hloop 1%nat) as H1. simpl in H1.
  destruct (http url) as [statusCode location body|message|] eqn:Hurl; try congruence.
  destruct (isRedirect statusCode location) eqn:Hred; [|congruence].
  apply IH. intros k. specialize (Hloop (S k)). simpl in Hloop.
  rewrite Hurl, Hred in Hloop. exact Hloop.
Qed.

(** X7: [downloadPdf] follows redirects without a bound and without a
    timeout.  A grid that is served with status 200 behind any number of
    redirects is downloaded, also behind the six or more at which
    [fetchPage] gives up; on a chain of redirects that does not end the
    promise is never settled, however many requests are sent; and a
    request that stalls leaves it pending, where [fetchPage] fails after
    its timeout. *)
Theorem downloadPdf_follows_without_bound (http : string -> HttpOutcome) (url : string) :
  (forall (k : nat) (final : string) (location : option string) (data : string),
     hop http k url = Some final ->
     http final = Response (Some 200) location (BodyEnd data) ->
     (forall requests, (k < requests)%nat -> downloadPdf requests http url = Resolved data)
     /\ ((6 <= k)%nat -> fetchPage http url 0 = Throw "Too many redirects"))
  /\ ((forall k, hop http k url <> None) ->
      forall requests, downloadPdf requests http url = Following)
  /\ (http url = RequestTimeout ->
      (forall requests, (0 < requests)%nat -> downloadPdf requests http url = Pending)
      /\ fetchPage http url 0 = Throw "Request timeout").
Proof.
  split; [|split].
  - intros k final location data Hhop Hfinal. split.
    + intros requests Hlt. eapply downloadPdf_served; eassumption.
    + intros Hk. destruct (hop_earlier http 6 k url final Hhop Hk) as [mid Hmid].
      eapply fetchPage_too_many_redirects. exact Hmid.
  - intros Hloop requests. apply downloadPdf_loop. exact Hloop.
  - intros Hurl. split.
    + intros [|requests] Hpos; [lia|]. simpl. rewrite Hurl. reflexivity.
    + rewrite fetchPage_unfold. simpl. rewrite Hurl. reflexivity.
Qed.

Lemma downloadPdf_follows_without_bound_witness :
  (hop longWay 7 "" = Some "///////"
   /\ downloadPdf 8 longWay "" = Resolved "%PDF-1.7"
   /\ fetchPage longWay "" 0 = Throw "Too many redirects")
  /\ (forall requests, downloadPdf requests loopWeb REQUIREMENTS_GRID_URL = Following).
Proof.
  assert (Hhop : hop longWay 7 "" = Some "///////") by reflexivity.
  destruct (downloadPdf_follows_without_bound longWay "") as (Hserved & _ & _).
  destruct (Hserved 7%nat "///////" None "%PDF-1.7" Hhop eq_refl) as [Hall Hfetch].
  split.
  - split; [exact Hhop|]. split; [apply Hall; lia | apply Hfetch; lia].
  - apply (proj1 (proj2 (downloadPdf_follows_without_bound loopWeb REQUIREMENTS_GRID_URL))).
    intros k. generalize REQUIREMENTS_GRID_URL as u. induction k as [|k IH]; intros u.
    + discriminate.
    + apply (IH "https://example.edu/admissions").
Defined.

(** ** The pages of the grid *)

Lemma scanLine_app (cycleYear : number) (pendingName : string)
    (allDeadlines : list ParsedDeadline) (line : string) :
  scanLine cycleYear (pendingName, allDeadlines) line
  = (fst (scanLine cycleYear (pendingName, []) line),
     app allDeadlines (snd (scanLine cycleYear (pendingName, []) line))).
Proof.
  unfold scanLine.
  destruct (shouldSkipLine (trim line)); [rewrite app_nil_r; reflexivity|].
  destruct (test collegeEntryPattern (trim line)).
  - destruct (search typePattern _) as [typeMatch|]; [|rewrite app_nil_r; reflexivity].
    destruct (invalidName _); [rewrite app_nil_r; reflexivity|]. cbn [fst snd].
    rewrite !pushEntry_candidates. reflexivity.
  - destruct (test datePattern (trim line)); [rewrite app_nil_r; reflexivity|].
    match goal with |- context [if ?b then _ else _] => destruct b end;
      rewrite app_nil_r; reflexivity.
Qed.

Lemma scanLines_app (cycleYear : number) (lines : list string) (pendingName : string)
    (allDeadlines : list ParsedDeadline) :
  fold_left (scanLine cycleYear) lines (pendingName, allDeadlines)
  = (fst (fold_left (scanLine cycleYear) lines (pendingName, [])),
     app allDeadlines (snd (fold_left (scanLine cycleYear) lines (pendingName, [])))).
Proof.
  revert pendingName allDeadlines. induction lines as [|line lines IH];
    intros pendingName allDeadlines; cbn [fold_left fst snd].
  - rewrite app_nil_r. reflexivity.
  - rewrite scanLine_app.
    destruct (scanLine cycleYear (pendingName, []) line) as [p1 new1]. cbn [fst snd].
    rewrite (IH p1 (app allDeadlines new1)), (IH p1 new1). cbn [fst snd].
    rewrite app_assoc. reflexivity.
Qed.

Lemma scanLine_skips (cycleYear : number) (st : string * list ParsedDeadline) (line : string) :
  shouldSkipLine (trim line) = true -> scanLine cycleYear st line = ("", snd st).
Proof. intros H. destruct st as [p acc]. unfold scanLine. rewrite H. reflexivity. Qed.

Lemma split_page_break (page rest : string) :
  split "010" (page ++ PAGE_BREAK ++ rest)
  = app (split "010" page) ("" :: "--- PAGE BREAK ---" :: "" :: split "010" rest).
Proof.
  change (page ++ PAGE_BREAK ++ rest)
    with (page ++ String "010" ("" ++ String "010"
            ("--- PAGE BREAK ---" ++ String "010" ("" ++ String "010" rest)))).
  rewrite !split_app. reflexivity.
Qed.

Lemma gridCandidates_page_break (cycleYear : number) (page rest : string) :
  gridCandidates (page ++ PAGE_BREAK ++ rest) cycleYear
  = app (gridCandidates page cycleYear) (gridCandidates rest cycleYear).
Proof.
  unfold gridCandidates. rewrite split_page_break, fold_left_app.
  destruct (fold_left (scanLine cycleYear) (split "010" page) ("", [])) as [p acc].
  cbn [fold_left snd].
  rewrite !scanLine_skips by (vm_compute; reflexivity). cbn [snd].
  rewrite scanLines_app. reflexivity.
Qed.

Lemma gridCandidates_join (cycleYear : number) (pages : list string) :
  gridCandidates (join PAGE_BREAK pages) cycleYear
  = concat (map (fun page => gridCandidates page cycleYear) pages).
Proof.
  induction pages as [|page [|next rest] IH].
  - vm_compute. reflexivity.
  - cbn [join map concat]. rewrite app_nil_r. reflexivity.
  - change (join PAGE_BREAK (page :: next :: rest))
      with (page ++ PAGE_BREAK ++ join PAGE_BREAK (next :: rest)).
    rewrite gridCandidates_page_break, IH. reflexivity.
Qed.

(** X8: the pages of the grid are parsed apart.  When unpdf reads the
    PDF, [extractPdfText] joins its pages with the page-break separator,
    whose lines [parseWithRegex] skips: the candidates of the whole text
    are those of the first page, then those of the second, and so on, so
    that a college name begun at the end of one page is never completed
    by the next; the result is their deduplication. *)
Theorem pages_are_parsed_apart (reader : PdfReader) (pdfBuffer : string) (pages : list string)
    (cycleYear : number) :
  unpdf reader pdfBuffer = Ok pages ->
  exists pdfText,
    extractPdfText reader pdfBuffer = Ok pdfText
    /\ gridCandidates pdfText cycleYear
       = concat (map (fun page => gridCandidates page cycleYear) pages)
    /\ parseWithRegex pdfText cycleYear
       = dedup ∅ (concat (map (fun page => gridCandidates page cycleYear) pages)).
Proof.
  intros Hpages. unfold extractPdfText. rewrite Hpages. eexists. split; [reflexivity|].
  split; [apply gridCandidates_join|].
  change (parseWithRegex ?t cycleYear) with (dedup ∅ (gridCandidates t cycleYear)).
  rewrite gridCandidates_join. reflexivity.
Qed.

Lemma pages_are_parsed_apart_witness :
  exists pdfText,
    extractPdfText {| unpdf := fun _ => Ok ["Reed College Coed 11/15/2025"; "Bard"];
                      pdfParse := fun _ => Throw "unused" |} "%PDF-1.7"
    = Ok pdfText
    /\ gridCandidates pdfText (Num 2025)
       = concat (map (fun page => gridCandidates page (Num 2025))
                   ["Reed College Coed 11/15/2025"; "Bard"])
    /\ parseWithRegex pdfText (Num 2025)
       = dedup ∅ (concat (map (fun page => gridCandidates page (Num 2025))
                            ["Reed College Coed 11/15/2025"; "Bard"])).
Proof.
  apply (pages_are_parsed_apart
           {| unpdf := fun _ => Ok ["Reed College Coed 11/15/2025"; "Bard"];
              pdfParse := fun _ => Throw "unused" |} "%PDF-1.7").
  reflexivity.
Defined.

(** ** The admin lock through the whole service *)

Section LockedService.
Variables (row : CollegeRound) (old : list Statement).
Hypothesis row_confirmed : cr_admin_confirmed row = true.

(** A statement on another table keeps the lock. *)
Lemma locked_logs (s : Statement) (f : list CrawlLog -> list CrawlLog) (w : World) :
  ~ writesDates (cr_id row) s ->
  locked row old w -> locked row old (record s (with_logs f w)).
Proof.
  intros Hs (Hnd & Hin & Htr). unfold locked. simpl. split; [exact Hnd|]. split; [exact Hin|].
  intros s' Hs' Hw. apply elem_of_cons in Hs' as [->|Hs']; [tauto | apply Htr; assumption].
Qed.

Lemma insertCrawlLog_locked (startTime : Z) :
  keeps (invariantly (locked row old)) (insertCrawlLog startTime).
Proof.
  apply locked_query. intros w Hl. cbv zeta. destruct (bool_decide _); [exact Hl|].
  cbn [snd]. apply (locked_logs _ _ (with_next_log_id _ w)); [intros [] | exact Hl].
Qed.

Lemma updateProgress_locked (k : Counters) (logId : Z) :
  keeps (invariantly (locked row old)) (updateProgress k logId).
Proof. apply locked_query. intros w. apply locked_logs. intros []. Qed.

Lemma finalizeCrawlLog_locked (logId : Z) (k : Counters) (error : option string) :
  keeps (invariantly (locked row old)) (finalizeCrawlLog logId k error).
Proof.
  apply keeps_try_catch; [apply _ | | intros e; apply keeps_ret; apply _].
  apply locked_query. intros w. apply locked_logs. intros [].
Qed.

Lemma countRounds_locked : keeps (invariantly (locked row old)) countRounds.
Proof. apply locked_query. intros w H. exact H. Qed.

Lemma crawlSetup_locked (h : Host) : keeps (invariantly (locked row old)) (crawlSetup h).
Proof.
  unfold crawlSetup.
  apply keeps_bind; [apply _ | apply locked_query; intros w H; exact H |].
  intros settings. apply keeps_bind; [apply _ | |].
  - destruct (truthy settings); [apply keeps_ret; apply _|].
    intros w. apply (keeps_bind (invariantly (locked row old)));
      [|intros _; apply keeps_ret; apply _].
    apply locked_query. intros w' (Hnd & Hin & Htr). unfold locked. simpl.
    split; [exact Hnd|]. split; [exact Hin|].
    intros s Hs Hw. apply elem_of_cons in Hs as [->|Hs]; [destruct Hw | apply Htr; assumption].
  - intros cy. apply keeps_bind; [apply _ | | intros cs; apply keeps_ret; apply _].
    apply locked_query. intros w H. exact H.
Qed.

Lemma batch_locked (h : Host) (cycle : string) (base : nat) (batch : list College) :
  keeps (invariantly (locked row old))
    (promiseAll (fun idx c => processCollege h c cycle (base + idx + 1)) 0 batch).
Proof.
  apply keeps_promiseAll; [apply _|]. intros j c.
  apply processCollege_locked. exact row_confirmed.
Qed.

Lemma batches_locked (fuel : nat) (h : Host) (cycle : string) (logId : Z)
    (colleges : list College) (i : nat) (k : Counters) (w : World) :
  locked row old w -> locked row old (snd (batches fuel h cycle logId colleges i k w)).
Proof.
  revert i k w. induction fuel as [|fuel IH]; intros i k w Hl; simpl; [exact Hl|].
  destruct (i <? length colleges)%nat; [|exact Hl].
  pose proof (batch_locked h cycle (i / CONCURRENCY * CONCURRENCY)
                (sliceList i CONCURRENCY colleges) w Hl) as Hbatch.
  destruct (promiseAll _ 0%nat _ w) as [[results|e] w1]; simpl in Hbatch |- *; [|exact Hbatch].
  pose proof (updateProgress_locked (fold_left (aggregate true) results k) logId w1 Hbatch)
    as Hup.
  destruct (updateProgress _ logId w1) as [[[]|e] w2]; simpl in Hup |- *; [|exact Hup].
  apply IH. exact Hup.
Qed.

Lemma runCrawler_locked (h : Host) : keeps (invariantly (locked row old)) (runCrawler h).
Proof.
  intros w Hl. unfold runCrawler.
  pose proof (insertCrawlLog_locked (now w) w Hl) as Hins.
  destruct (insertCrawlLog (now w) w) as [[logId|e] w1]; simpl in Hins |- *; [|exact Hins].
  assert (Hall : locked row old (snd (crawlAll h logId w1))).
  { unfold crawlAll. pose proof (crawlSetup_locked h w1 Hins) as Hset.
    destruct (crawlSetup h w1) as [[[currentCycle colleges]|e] w2]; simpl in Hset |- *;
      [|exact Hset].
    apply batches_locked. exact Hset. }
  destruct (crawlAll h logId w1) as [[k [[]|e]] w2]; simpl in Hall |- *.
  - apply (keeps_bind (invariantly (locked row old)));
      [apply finalizeCrawlLog_locked | intros _; apply keeps_ret; apply _ | exact Hall].
  - apply (keeps_bind (invariantly (locked row old)));
      [apply finalizeCrawlLog_locked | intros _; apply keeps_throw; apply _ | exact Hall].
Qed.

Lemma executeCrawl_locked (h : Host) : keeps (invariantly (locked row old)) (executeCrawl h).
Proof.
  apply keeps_try_catch; [apply _ | | intros e; apply keeps_ret; apply _].
  apply keeps_bind; [apply _ | apply runCrawler_locked |].
  intros _. apply locked_query. intros w H. exact H.
Qed.

Lemma executeDataImport_locked (h : Host) :
  keeps (invariantly (locked row old)) (executeDataImport h).
Proof.
  intros w. unfold executeDataImport.
  apply (keeps_try_catch (invariantly (locked row old)));
    [|intros e; apply keeps_ret; apply _].
  apply keeps_bind; [apply _ | apply importFromPdf_locked; exact row_confirmed |].
  intros _. apply runCrawlerForMissingColleges_keeps;
    [apply _ | intros; apply reconcileRound_locked; exact row_confirmed
    | intros; apply selectMissing_locked].
Qed.

Lemma initialize_locked (h : Host) : keeps (invariantly (locked row old)) (initialize h).
Proof.
  unfold initialize. apply keeps_bind; [apply _ | |].
  - apply keeps_try_catch; [apply _ | | intros e; apply keeps_ret; apply _].
    apply locked_query. intros w. apply locked_logs. intros [].
  - intros _. unfold startupImport. apply keeps_bind; [apply _ | |].
    + apply keeps_try_catch; [apply _ | | intros e; apply keeps_ret; apply _].
      apply keeps_bind; [apply _ | apply countRounds_locked | intros c; apply keeps_ret; apply _].
    + intros hasData. destruct (negb hasData); [apply executeDataImport_locked|].
      apply keeps_bind; [apply _ | |].
      * apply keeps_try_catch; [apply _ | | intros e; apply keeps_ret; apply _].
        apply keeps_bind; [apply _ | apply countRounds_locked |].
        intros c. destruct (c <? 50); apply keeps_ret; apply _.
      * intros needs. destruct needs; [apply executeDataImport_locked | apply keeps_ret; apply _].
Qed.

Lemma service_locked (h : Host) (firings : nat) :
  keeps (invariantly (locked row old)) (service h firings).
Proof.
  unfold service. apply keeps_bind; [apply _ | apply initialize_locked |]. intros _.
  induction firings as [|n IH]; simpl; [apply keeps_ret; apply _|].
  apply keeps_bind; [apply _ | apply executeCrawl_locked | intros _; exact IH].
Qed.

End LockedService.

Lemma filter_hasRoundId_none (roundId : Z) (rows : list CollegeRound) :
  roundId ∉ map cr_id rows -> filter (hasRoundId roundId) rows = [].
Proof.
  induction rows as [|x rows IH]; intros Hnot; [reflexivity|].
  rewrite filter_cons_False.
  - apply IH. intros Hin. apply Hnot. right. exact Hin.
  - unfold hasRoundId. intros Heq. apply Hnot. rewrite <- Heq. left.
Qed.

Lemma filter_hasRoundId (rows : list CollegeRound) (row : CollegeRound) :
  NoDup (map cr_id rows) -> row ∈ rows -> filter (hasRoundId (cr_id row)) rows = [row].
Proof.
  induction rows as [|r rows IH]; intros Hnd Hin; [inversion Hin|].
  simpl in Hnd. apply NoDup_cons in Hnd as [Hfresh Hnd].
  apply elem_of_cons in Hin as [->|Hin].
  - rewrite filter_cons_True by reflexivity. f_equal.
    apply filter_hasRoundId_none. exact Hfresh.
  - rewrite filter_cons_False; [apply IH; assumption|].
    unfold hasRoundId. intros Heq. apply Hfresh. rewrite Heq.
    apply list_elem_of_fmap_2. exact Hin.
Qed.

Lemma filter_hasRoundId_elem (roundId : Z) (rows : list CollegeRound) (r : CollegeRound)
    (rest : list CollegeRound) :
  filter (hasRoundId roundId) rows = r :: rest -> r ∈ rows /\ cr_id r = roundId.
Proof.
  intros H. assert (Hin : r ∈ filter (hasRoundId roundId) rows) by (rewrite H; left).
  apply list_elem_of_filter in Hin. tauto.
Qed.

(** X9: a deadline that an administrator has confirmed through POST
    /rounds/:roundId/confirm is out of the reach of the crawler service
    for good.  When the route answers with the row, the row is stored
    with [admin_confirmed = true] and [source = 'ADMIN']; and from there
    [initialize] followed by any number of scheduled crawls leaves it
    stored as the confirmation left it, executes no statement that
    writes its dates, and never brings it back to the rounds pending
    review. *)
Theorem confirmed_round_outlasts_service (h : Host) (w : World) (roundId : Z)
    (row : CollegeRound) (firings : nat) :
  NoDup (map cr_id (college_rounds w)) ->
  fst (confirmRound roundId w) = Ok (Row row) ->
  cr_id row = roundId
  /\ cr_admin_confirmed row = true
  /\ cr_source row = ADMIN
  /\ row ∈ college_rounds (snd (confirmRound roundId w))
  /\ untouched row (snd (confirmRound roundId w))
       (snd (service h firings (snd (confirmRound roundId w))))
  /\ ~ In row (pendingReview (snd (service h firings (snd (confirmRound roundId w))))).
Proof.
  intros Hnd. unfold confirmRound, try_catch, bind, updateReturning.
  destruct (nextQueryFails w) eqn:Hq.
  { rewrite query_fails by exact Hq. discriminate. }
  rewrite query_runs by exact Hq. cbn [fst snd ret].
  change (college_rounds (with_faults (tl (faults w)) w)) with (college_rounds w).
  destruct (filter (hasRoundId roundId) (college_rounds w)) as [|r0 rest] eqn:Hsel;
    [discriminate|].
  cbn [map firstRow]. intros [= <-].
  apply filter_hasRoundId_elem in Hsel as [Hin0 Hid0].
  set (w1 := with_rounds (map (onRow roundId confirmed)) (with_faults (tl (faults w)) w)).
  assert (Hin1 : confirmed r0 ∈ college_rounds w1).
  { simpl. replace (confirmed r0) with (onRow roundId confirmed r0).
    - apply list_elem_of_fmap_2. exact Hin0.
    - unfold onRow. rewrite bool_decide_eq_true_2 by exact Hid0. reflexivity. }
  assert (Hnd1 : NoDup (map cr_id (college_rounds w1))).
  { simpl. rewrite onRow_ids by reflexivity. exact Hnd. }
  split; [exact Hid0|]. split; [reflexivity|]. split; [reflexivity|].
  split; [exact Hin1|].
  pose proof (service_locked (confirmed r0) (executed w1) eq_refl h firings w1
                (locked_start _ _ Hnd1 Hin1)) as (_ & Hin' & Htr).
  split; [split; assumption|].
  unfold pendingReview. intros Hp. apply filter_In in Hp as [_ Hp].
  simpl in Hp. discriminate Hp.
Qed.

Lemma confirmed_round_outlasts_service_witness :
  NoDup (map cr_id (college_rounds lockedWorld))
  /\ fst (confirmRound 7 lockedWorld) = Ok (Row confirmedRow)
  /\ untouched confirmedRow (snd (confirmRound 7 lockedWorld))
       (snd (service quietHost 2 (snd (confirmRound 7 lockedWorld)))).
Proof.
  assert (Hnd : NoDup (map cr_id (college_rounds lockedWorld))) by apply NoDup_singleton.
  assert (Hrow : fst (confirmRound 7 lockedWorld) = Ok (Row confirmedRow)) by reflexivity.
  split; [exact Hnd|]. split; [exact Hrow|].
  exact (proj1 (proj2 (proj2 (proj2 (proj2
           (confirmed_round_outlasts_service quietHost lockedWorld 7 confirmedRow 2
              Hnd Hrow)))))).
Defined.

(** ** An edit that is not confirmed *)

Lemma filter_onRow (c : Z) (rt : RoundType) (cycle : string) (id : Z)
    (f : CollegeRound -> CollegeRound) (rows : list CollegeRound) :
  (forall r, cr_college_id (f r) = cr_college_id r
             /\ cr_round_type (f r) = cr_round_type r /\ cr_cycle (f r) = cr_cycle r) ->
  filter (sameKey c rt cycle) (map (onRow id f) rows)
  = map (onRow id f) (filter (sameKey c rt cycle) rows).
Proof.
  intros Hf. induction rows as [|r rows IH]; [reflexivity|]. cbn [map].
  assert (Hkey : sameKey c rt cycle (onRow id f r) <-> sameKey c rt cycle r).
  { unfold onRow, sameKey. destruct (bool_decide _); [|tauto].
    destruct (Hf r) as (-> & -> & ->). tauto. }
  destruct (decide (sameKey c rt cycle r)) as [Hk|Hk].
  - rewrite !filter_cons_True by tauto. cbn [map]. rewrite IH. reflexivity.
  - rewrite !filter_cons_False by tauto. exact IH.
Qed.

(** X10: an edit of an administrator that does not confirm the row is
    not protected.  PUT /:id/rounds/:roundId without [admin_confirmed]
    on a row that is not confirmed stores the dates of the edit with
    [source = 'ADMIN'] and leaves the row unconfirmed; the next candidate
    of the PDF import for its key replaces the deadline date of the edit
    and sets the source back to CRAWLER, and so does a candidate of the
    crawl whose date differs from the edit. *)
Theorem unconfirmed_edit_is_overwritten (w : World) (row : CollegeRound) (e : RoundEdit)
    (name date : string) (r : ImportResult) :
  faults w = [] ->
  NoDup (map cr_id (college_rounds w)) ->
  filter (sameKey (cr_college_id row) (cr_round_type row) (cr_cycle row)) (college_rounds w)
  = [row] ->
  cr_admin_confirmed row = false ->
  edit_admin_confirmed e = None ->
  date <> "" ->
  let key := sameKey (cr_college_id row) (cr_round_type row) (cr_cycle row) in
  let w1 := snd (updateRound (cr_id row) e w) in
  let overwritten :=
    {| cr_id := cr_id row; cr_college_id := cr_college_id row;
       cr_round_type := cr_round_type row; cr_cycle := cr_cycle row;
       cr_deadline_date := Some date;
       cr_decision_date := orNull (edit_decision_date e);
       cr_source := CRAWLER; cr_admin_confirmed := false;
       cr_last_crawled_at := Some (now w) |} in
  fst (updateRound (cr_id row) e w) = Ok (Row (edited e row))
  /\ filter key (college_rounds w1) = [edited e row]
  /\ cr_source (edited e row) = ADMIN
  /\ cr_admin_confirmed (edited e row) = false
  /\ filter key
       (college_rounds
          (snd (importDeadline (cr_college_id row) (cr_cycle row)
                  (pdfCandidate name (cr_round_type row) date) r w1)))
     = [overwritten]
  /\ (orNull (edit_deadline_date e) <> Some date ->
      filter key
        (college_rounds
           (snd (reconcileRound (cr_college_id row) (cr_cycle row) (cr_round_type row)
                   (candidate date) w1)))
      = [overwritten]).
Proof.
  intros Hf Hnd Hsel Hun He Hdate key w1 overwritten.
  assert (Hin : row ∈ college_rounds w).
  { assert (H : row ∈ filter key (college_rounds w)) by (unfold key; rewrite Hsel; left).
    apply list_elem_of_filter in H. tauto. }
  assert (Hrun : updateRound (cr_id row) e w
                 = (Ok (Row (edited e row)),
                    with_rounds (map (onRow (cr_id row) (edited e))) w)).
  { unfold updateRound, try_catch, bind, updateReturning.
    rewrite query_healthy by exact Hf. cbn [fst snd].
    rewrite filter_hasRoundId by assumption. reflexivity. }
  assert (Hw1 : w1 = with_rounds (map (onRow (cr_id row) (edited e))) w)
    by (unfold w1; rewrite Hrun; reflexivity).
  assert (Hone : forall f r0, cr_id r0 = cr_id row -> onRow (cr_id row) f r0 = f r0).
  { intros f r0 Hid. unfold onRow. rewrite bool_decide_eq_true_2 by exact Hid. reflexivity. }
  assert (Hsel1 : filter key (college_rounds w1) = [edited e row]).
  { rewrite Hw1. cbn [college_rounds with_rounds]. unfold key.
    rewrite filter_onRow by (intros r0; repeat split). rewrite Hsel. cbn [map].
    rewrite Hone by reflexivity. reflexivity. }
  assert (Hun1 : cr_admin_confirmed (edited e row) = false).
  { simpl. rewrite He. exact Hun. }
  assert (Hf1 : faults w1 = []) by (rewrite Hw1; exact Hf).
  assert (Hnow : now w1 = now w) by (rewrite Hw1; reflexivity).
  rewrite Hrun. split; [reflexivity|]. split; [exact Hsel1|]. split; [reflexivity|].
  split; [exact Hun1|]. split.
  - rewrite (importDeadline_existing w1 _ _ _ date (edited e row) [] Hf1 Hsel1 Hun1).
    unfold updateRoundPdf. rewrite query_healthy by exact Hf1.
    cbn [snd college_rounds record with_rounds]. unfold key.
    rewrite filter_onRow by (intros r0; repeat split). fold key. rewrite Hsel1. cbn [map].
    change (cr_id (edited e row)) with (cr_id row). rewrite Hone by reflexivity. rewrite Hnow.
    unfold overwritten. simpl. rewrite He. simpl. rewrite Hun. reflexivity.
  - intros Hdiff.
    rewrite (reconcileRound_existing w1 _ _ _ date (edited e row) [] Hf1 Hsel1 Hun1 Hdate).
    unfold updateRoundCrawler. rewrite query_healthy by exact Hf1.
    cbn [snd college_rounds record with_rounds]. unfold key.
    rewrite filter_onRow by (intros r0; repeat split). fold key. rewrite Hsel1. cbn [map].
    change (cr_id (edited e row)) with (cr_id row). rewrite Hone by reflexivity. rewrite Hnow.
    unfold overwritten. reflexivity.
Qed.

Lemma unconfirmed_edit_is_overwritten_witness :
  fst (updateRound 3 moveToMidJanuary draftWorld) = Ok (Row (edited moveToMidJanuary draftRow))
  /\ cr_deadline_date (edited moveToMidJanuary draftRow) = Some "2026-01-15"
  /\ map cr_deadline_date
       (college_rounds
          (snd (importDeadline 1 "2025-2026" (pdfCandidate "Reed College" RD "2026-01-05")
                  {| imported := 0; skipped := 0; import_errors := 0 |}
                  (snd (updateRound 3 moveToMidJanuary draftWorld)))))
     = [Some "2026-01-05"].
Proof.
  assert (Hnd : NoDup (map cr_id (college_rounds draftWorld))) by apply NoDup_singleton.
  destruct (unconfirmed_edit_is_overwritten draftWorld draftRow moveToMidJanuary
              "Reed College" "2026-01-05"
              {| imported := 0; skipped := 0; import_errors := 0 |}
              eq_refl Hnd eq_refl eq_refl eq_refl ltac:(discriminate))
    as (Hput & _ & _ & _ & Hpdf & _).
  split; [exact Hput|]. split; [reflexivity|]. reflexivity.
Defined.

(** ** What the crawl of one college leaves in the store *)

Lemma sameKey_keyOf (c : Z) (rt : RoundType) (cycle : string) (r : CollegeRound) :
  sameKey c rt cycle r <-> keyOf r = (c, rt, cycle).
Proof.
  unfold sameKey, keyOf. split; [intros (-> & -> & ->); reflexivity|].
  intros [= -> -> ->]. tauto.
Qed.

Lemma rowOf_elem (w : World) (c : Z) (rt : RoundType) (cycle : string) (r : CollegeRound) :
  rowOf w c rt cycle = Some r -> r ∈ college_rounds w /\ sameKey c rt cycle r.
Proof.
  unfold rowOf. destruct (filter _ _) as [|x l] eqn:H; [discriminate|]. intros [= ->].
  assert (Hin : r ∈ filter (sameKey c rt cycle) (college_rounds w)) by (rewrite H; left).
  apply list_elem_of_filter in Hin. tauto.
Qed.

Lemma onRow_keys (id : Z) (f : CollegeRound -> CollegeRound) (rows : list CollegeRound) :
  (forall r, keyOf (f r) = keyOf r) ->
  map keyOf (map (onRow id f) rows) = map keyOf rows.
Proof.
  intros Hf. rewrite map_map. apply map_ext. intros r. unfold onRow.
  destruct (bool_decide _); [apply Hf | reflexivity].
Qed.

Section Updated.
Variables (s : Statement) (id : Z) (f : CollegeRound -> CollegeRound) (w : World).
Hypothesis f_id : forall r, cr_id (f r) = cr_id r.
Hypothesis f_key : forall r, keyOf (f r) = keyOf r.

Lemma consistent_updated :
  consistent w -> consistent (record s (with_rounds (map (onRow id f)) w)).
Proof.
  intros (Hids & Hkeys & Hseq). unfold consistent. simpl.
  rewrite onRow_ids by exact f_id. rewrite onRow_keys by exact f_key.
  split; [exact Hids|]. split; [exact Hkeys|].
  apply Forall_forall. intros r Hr. apply list_elem_of_fmap in Hr as (r0 & -> & Hr0).
  rewrite Forall_forall in Hseq. specialize (Hseq r0 Hr0).
  unfold onRow. destruct (bool_decide _); [rewrite f_id|]; exact Hseq.
Qed.

Lemma rowOf_updated (c : Z) (rt : RoundType) (cycle : string) :
  rowOf (record s (with_rounds (map (onRow id f)) w)) c rt cycle
  = onRow id f <$> rowOf w c rt cycle.
Proof.
  unfold rowOf. simpl. rewrite filter_onRow.
  - destruct (filter _ (college_rounds w)); reflexivity.
  - intros r. pose proof (f_key r) as H. unfold keyOf in H. injection H as H1 H2 H3. tauto.
Qed.

(** The update of the row of one key leaves the rows of the other keys
    as they are. *)
Lemma rowOf_updated_other (existing : CollegeRound) (c rc : Z) (rt rrt : RoundType)
    (cycle rcycle : string) :
  NoDup (map cr_id (college_rounds w)) ->
  rowOf w c rt cycle = Some existing -> cr_id existing = id ->
  (rc, rrt, rcycle) <> (c, rt, cycle) ->
  rowOf (record s (with_rounds (map (onRow id f)) w)) rc rrt rcycle = rowOf w rc rrt rcycle.
Proof.
  intros Hnd Hex Hid Hne. rewrite rowOf_updated.
  destruct (rowOf w rc rrt rcycle) as [r'|] eqn:Hr'; [|reflexivity]. simpl. f_equal.
  unfold onRow. case_bool_decide as Hsame; [|reflexivity]. exfalso.
  apply rowOf_elem in Hex as [Hin Hk]. apply rowOf_elem in Hr' as [Hin' Hk'].
  assert (r' = existing) by (eapply ids_unique; eauto; congruence). subst r'.
  apply sameKey_keyOf in Hk, Hk'. congruence.
Qed.

End Updated.

Section Inserted.
Variables (w : World) (c : Z) (rt : RoundType) (cycle date : string).
Hypothesis healthy : faults w = [].
Hypothesis sound : consistent w.
Hypothesis absent : rowOf w c rt cycle = None.

Lemma absent_filter : filter (sameKey c rt cycle) (college_rounds w) = [].
Proof. unfold rowOf in absent. destruct (filter _ _); [reflexivity | discriminate]. Qed.

Lemma insertRound_fresh :
  insertRound c rt cycle date w
  = (Ok tt, record (InsertRound c rt cycle date)
              (with_rounds (fun rows => app rows [crawledRow w c rt cycle date])
                 (with_next_round_id (next_round_id w + 1) w))).
Proof.
  unfold insertRound. rewrite query_healthy by exact healthy. cbv zeta.
  destruct sound as (_ & _ & Hseq).
  assert (Hk : hasKey c rt cycle (college_rounds w) = false).
  { unfold hasKey. apply bool_decide_eq_false_2. intros Hex.
    apply Exists_exists in Hex as (r & Hr & Hkey).
    assert (Hin : r ∈ filter (sameKey c rt cycle) (college_rounds w))
      by (apply list_elem_of_filter; split; assumption).
    rewrite absent_filter in Hin. inversion Hin. }
  assert (Hi : hasId (next_round_id w) (college_rounds w) = false).
  { unfold hasId. apply bool_decide_eq_false_2. intros Hex.
    apply Exists_exists in Hex as (r & Hr & Hid).
    rewrite Forall_forall in Hseq. specialize (Hseq r Hr). lia. }
  rewrite Hk, Hi. reflexivity.
Qed.

Lemma consistent_inserted :
  consistent (record (InsertRound c rt cycle date)
                (with_rounds (fun rows => app rows [crawledRow w c rt cycle date])
                   (with_next_round_id (next_round_id w + 1) w))).
Proof.
  destruct sound as (Hids & Hkeys & Hseq). unfold consistent. simpl.
  rewrite !map_app. simpl. rewrite Forall_forall in Hseq. split; [|split].
  - apply NoDup_app. split; [exact Hids|]. split; [|apply NoDup_singleton].
    intros x Hx Hx'. apply list_elem_of_singleton in Hx'. subst x.
    apply list_elem_of_fmap in Hx as (r & Hr & Hin). specialize (Hseq r Hin). lia.
  - apply NoDup_app. split; [exact Hkeys|]. split; [|apply NoDup_singleton].
    intros x Hx Hx'. apply list_elem_of_singleton in Hx'. subst x.
    apply list_elem_of_fmap in Hx as (r & Hr & Hin).
    assert (Hf : r ∈ filter (sameKey c rt cycle) (college_rounds w)).
    { apply list_elem_of_filter. split; [|exact Hin]. apply sameKey_keyOf.
      rewrite <- Hr. reflexivity. }
    rewrite absent_filter in Hf. inversion Hf.
  - apply Forall_app. split.
    + apply Forall_forall. intros r Hr. specialize (Hseq r Hr). lia.
    + repeat constructor. simpl. lia.
Qed.

Lemma rowOf_inserted (rc : Z) (rrt : RoundType) (rcycle : string) :
  rowOf (record (InsertRound c rt cycle date)
           (with_rounds (fun rows => app rows [crawledRow w c rt cycle date])
              (with_next_round_id (next_round_id w + 1) w))) rc rrt rcycle
  = if bool_decide ((rc, rrt, rcycle) = (c, rt, cycle))
    then Some (crawledRow w c rt cycle date)
    else rowOf w rc rrt rcycle.
Proof.
  unfold rowOf at 1. simpl. rewrite filter_app. case_bool_decide as Hk.
  - injection Hk as -> -> ->. rewrite absent_filter.
    rewrite filter_cons_True by (unfold sameKey; simpl; tauto). reflexivity.
  - rewrite (filter_cons_False _ (crawledRow w c rt cycle date)).
    + rewrite filter_nil, app_nil_r. reflexivity.
    + intros Hs. apply sameKey_keyOf in Hs. apply Hk. rewrite <- Hs. reflexivity.
Qed.

End Inserted.

(** One candidate of the crawl, with storage in order. *)
Lemma reconcileRound_spec (w : World) (c : Z) (cycle : string) (rt : RoundType) (date : string) :
  faults w = [] -> consistent w -> date <> "" ->
  exists w',
    reconcileRound c cycle rt (candidate date) w = (Ok tt, w')
    /\ faults w' = [] /\ consistent w' /\ now w' = now w
    /\ (exists row, rowOf w' c rt cycle = Some row
                    /\ reconciled (rowOf w c rt cycle) (now w) date row)
    /\ (forall rc rrt rcycle, (rc, rrt, rcycle) <> (c, rt, cycle) ->
          rowOf w' rc rrt rcycle = rowOf w rc rrt rcycle).
Proof.
  intros Hf Hc Hdate.
  destruct (rowOf w c rt cycle) as [existing|] eqn:Hrow.
  - pose proof Hrow as Hsel. unfold rowOf in Hsel.
    destruct (filter (sameKey c rt cycle) (college_rounds w)) as [|x others] eqn:Hfil;
      [discriminate|]. injection Hsel as ->.
    destruct (cr_admin_confirmed existing) eqn:Hconf.
    + exists w. split.
      { unfold reconcileRound, candidate. cbn [deadline_date truthy].
        destruct date as [|a rest]; [congruence|]. cbn [default].
        unfold bind, selectRound. rewrite query_healthy by exact Hf.
        rewrite Hfil, Hconf. reflexivity. }
      split; [exact Hf|]. split; [exact Hc|]. split; [reflexivity|]. split.
      * exists existing. split; [exact Hrow|]. split; [reflexivity | congruence].
      * reflexivity.
    + rewrite (reconcileRound_existing w c rt cycle date existing others Hf Hfil Hconf Hdate).
      destruct Hc as (Hids & Hkeys & Hseq).
      assert (Hself : forall g, onRow (cr_id existing) g existing = g existing).
      { intros g. unfold onRow. rewrite bool_decide_eq_true_2 by reflexivity. reflexivity. }
      unfold updateRoundCrawler. rewrite query_healthy by exact Hf. eexists.
      split; [reflexivity|].
      split; [exact Hf|]. split; [apply consistent_updated; try reflexivity;
                                  repeat split; assumption|].
      split; [reflexivity|]. split.
      * eexists. split.
        -- rewrite rowOf_updated by reflexivity. rewrite Hrow. simpl. rewrite Hself.
           reflexivity.
        -- split; simpl; [discriminate|]. intros _. split; reflexivity.
      * intros rc rrt rcycle Hne.
        eapply rowOf_updated_other; try reflexivity; eassumption.
  - assert (Hrun : reconcileRound c cycle rt (candidate date) w
                   = insertRound c rt cycle date w).
    { unfold reconcileRound, candidate. cbn [deadline_date truthy].
      destruct date as [|a rest]; [congruence|]. cbn [default].
      unfold bind, selectRound. rewrite query_healthy by exact Hf.
      rewrite (absent_filter w c rt cycle Hrow). reflexivity. }
    rewrite Hrun, (insertRound_fresh w c rt cycle date Hf Hc Hrow).
    eexists. split; [reflexivity|]. split; [exact Hf|].
    split; [apply consistent_inserted; assumption|]. split; [reflexivity|]. split.
    + exists (crawledRow w c rt cycle date). split.
      * rewrite rowOf_inserted by assumption.
        rewrite bool_decide_eq_true_2 by reflexivity. reflexivity.
      * split; simpl; [discriminate|]. intros _. split; reflexivity.
    + intros rc rrt rcycle Hne. rewrite rowOf_inserted by assumption.
      rewrite bool_decide_eq_false_2 by exact Hne. reflexivity.
Qed.

Lemma forEach_reconciles (c : Z) (cycle : string) (ds : ParsedDeadlines) (w : World) :
  faults w = [] -> consistent w -> NoDup (map fst ds) ->
  Forall (fun e => exists date, date <> "" /\ snd e = candidate date) ds ->
  exists w',
    forEach ds (fun e => reconcileRound c cycle (fst e) (snd e)) w = (Ok tt, w')
    /\ faults w' = [] /\ consistent w' /\ now w' = now w
    /\ (forall rt date, (rt, candidate date) ∈ ds ->
          exists row, rowOf w' c rt cycle = Some row
                      /\ reconciled (rowOf w c rt cycle) (now w) date row)
    /\ (forall rc rrt rcycle, rc <> c \/ rcycle <> cycle \/ rrt ∉ map fst ds ->
          rowOf w' rc rrt rcycle = rowOf w rc rrt rcycle).
Proof.
  revert w. induction ds as [|[rt0 data0] ds IH]; intros w Hf Hc Hnd Hshape.
  - exists w. split; [reflexivity|]. split; [exact Hf|]. split; [exact Hc|].
    split; [reflexivity|]. split; [|reflexivity]. intros rt date Hin. inversion Hin.
  - cbn [map fst] in Hnd. apply NoDup_cons in Hnd as [Hfresh Hnd].
    apply Forall_cons in Hshape as [(d0 & Hd0 & Hdata0) Hshape]. cbn [snd] in Hdata0.
    subst data0. cbn [forEach fst snd]. unfold bind.
    destruct (reconcileRound_spec w c cycle rt0 d0 Hf Hc Hd0)
      as (w1 & -> & Hf1 & Hc1 & Hn1 & (row1 & Hrow1 & Hrec1) & Hframe1).
    destruct (IH w1 Hf1 Hc1 Hnd Hshape) as (w' & Hrun & Hf' & Hc' & Hn' & Hrows & Hframe).
    exists w'. split; [exact Hrun|]. split; [exact Hf'|]. split; [exact Hc'|].
    split; [congruence|]. split.
    + intros rt date Hin. apply elem_of_cons in Hin as [Heq|Hin].
      * injection Heq as -> ->. exists row1. split; [|exact Hrec1].
        rewrite Hframe by tauto. exact Hrow1.
      * destruct (Hrows rt date Hin) as (row & Hrow & Hrec).
        exists row. split; [exact Hrow|].
        rewrite Hframe1, Hn1 in Hrec; [exact Hrec|].
        intros [= ->]. apply Hfresh.
        change rt0 with (fst (rt0, candidate date)). apply list_elem_of_fmap_2. exact Hin.
    + intros rc rrt rcycle Hne. cbn [map fst] in Hne.
      rewrite Hframe by (rewrite not_elem_of_cons in Hne; tauto).
      apply Hframe1. intros [= -> -> ->].
      destruct Hne as [Hne|[Hne|Hne]]; [tauto | tauto |].
      apply Hne. left.
Qed.

(** X11: what [processCollege] leaves in the store when the page is
    fetched and storage is in order, under the constraints of
    [college_rounds] (primary key, unique key, sequence ahead of the
    ids), which it keeps.  It succeeds and reports the round types
    found.  For every deadline found the key (college, round type,
    cycle) holds a row afterwards: the confirmed row that was there
    before, untouched, or else a row with the date found and the time of
    this crawl.  Every other key holds what it held before. *)
Theorem processCollege_reconciles (h : Host) (c : College) (cycle : string) (workerId : nat)
    (w : World) (found : ParsedDeadlines) :
  faults w = [] -> consistent w ->
  parseAdmissionsPage h (default "" (c_admissions_url c)) cycle = Ok found ->
  exists w',
    processCollege h c cycle workerId w
    = (Ok {| success := true; college := c_name c;
             rounds := map (fun e => roundName (fst e)) found; error := None |}, w')
    /\ faults w' = [] /\ consistent w'
    /\ (forall rt date, (rt, candidate date) ∈ found ->
          exists row, rowOf w' (c_id c) rt cycle = Some row
                      /\ reconciled (rowOf w (c_id c) rt cycle) (now w) date row)
    /\ (forall rc rrt rcycle, rc <> c_id c \/ rcycle <> cycle \/ rrt ∉ map fst found ->
          rowOf w' rc rrt rcycle = rowOf w rc rrt rcycle).
Proof.
  intros Hf Hc Hpage.
  destruct (parseAdmissionsPage_found h _ _ _ Hpage) as (_ & Hnd & Hshape).
  unfold processCollege, try_catch, bind at 1, lift. rewrite Hpage.
  destruct found as [|e found'] eqn:Hfound.
  - exists w. cbn. split; [reflexivity|]. split; [exact Hf|]. split; [exact Hc|].
    split; [|reflexivity]. intros rt date Hin. inversion Hin.
  - rewrite <- Hfound in *. unfold bind.
    replace (0 <? length (map (fun e0 => roundName (fst e0)) found))%nat with true
      by (rewrite Hfound; reflexivity).
    destruct (forEach_reconciles (c_id c) cycle found w Hf Hc Hnd Hshape)
      as (w' & -> & Hf' & Hc' & _ & Hrows & Hframe).
    exists w'. split; [reflexivity|]. split; [exact Hf'|]. split; [exact Hc'|].
    split; [exact Hrows | exact Hframe].
Qed.

Lemma processCollege_reconciles_witness :
  exists w',
    processCollege quietHost reed "2025-2026" 1 draftWorld
    = (Ok {| success := true; college := "Reed College"; rounds := ["ED"]; error := None |}, w')
    /\ exists row, rowOf w' 1 ED "2025-2026" = Some row
                   /\ reconciled (rowOf draftWorld 1 ED "2025-2026") (now draftWorld)
                        "2025-11-01" row.
Proof.
  assert (Hc : consistent draftWorld).
  { repeat split; try apply NoDup_singleton. repeat constructor. }
  assert (Hpage : parseAdmissionsPage quietHost (default "" (c_admissions_url reed)) "2025-2026"
                  = Ok [(ED, candidate "2025-11-01")]) by (vm_compute; reflexivity).
  destruct (processCollege_reconciles quietHost reed "2025-2026" 1 draftWorld _
              eq_refl Hc Hpage) as (w' & Hrun & _ & _ & Hrows & _).
  exists w'. split; [exact Hrun|]. apply Hrows. left.
Defined.

(** ** The crawl of the missing colleges *)

(** *** Batches of ten are one pass over the list *)

Lemma promiseAll_index {A B} (p : A -> M B) (f : nat -> A -> M B) (i : nat) (xs : list A)
    (w : World) :
  (forall j x, f j x = p x) -> promiseAll f i xs w = promiseAll (fun _ => p) 0 xs w.
Proof.
  intros Hf. revert i w. generalize 0%nat as j.
  induction xs as [|x xs IH]; intros j i w; simpl; [reflexivity|].
  unfold bind. rewrite Hf. destruct (p x w) as [[y|e] w1]; [|reflexivity].
  rewrite (IH (S j) (S i) w1). reflexivity.
Qed.

Lemma promiseAll_app {A B} (p : A -> M B) (xs ys : list A) (w : World) :
  promiseAll (fun _ => p) 0 (app xs ys) w
  = match promiseAll (fun _ => p) 0 xs w with
    | (Ok r1, w1) =>
        match promiseAll (fun _ => p) 0 ys w1 with
        | (Ok r2, w2) => (Ok (app r1 r2), w2)
        | (Throw e, w2) => (Throw e, w2)
        end
    | (Throw e, w1) => (Throw e, w1)
    end.
Proof.
  revert w. induction xs as [|x xs IH]; intros w; simpl.
  - destruct (promiseAll _ 0%nat ys w) as [[r2|e] w2]; reflexivity.
  - unfold bind. destruct (p x w) as [[y|e] w1]; [|reflexivity].
    rewrite (promiseAll_index p (fun _ => p) 1 (app xs ys) w1) by reflexivity.
    rewrite (promiseAll_index p (fun _ => p) 1 xs w1) by reflexivity.
    rewrite IH. destruct (promiseAll _ 0%nat xs w1) as [[r1|e] w2]; unfold ret;
      [|reflexivity].
    destruct (promiseAll _ 0%nat ys w2) as [[r2|e] w3]; reflexivity.
Qed.

Lemma missingBatches_one_pass (h : Host) (cycle : string) (colleges : list College)
    (fuel i : nat) (k : Counters) (w : World) :
  (length colleges - i <= fuel * CONCURRENCY)%nat ->
  missingBatches fuel h cycle colleges i k w
  = match promiseAll (fun _ c => processCollege h c cycle 1) 0 (skipn i colleges) w with
    | (Ok results, w') => (Ok (fold_left (aggregate false) results k), w')
    | (Throw e, w') => (Throw e, w')
    end.
Proof.
  revert i k w. induction fuel as [|fuel IH]; intros i k w Hfuel.
  - rewrite skipn_all2 by lia. reflexivity.
  - cbn [missingBatches]. destruct (Nat.ltb_spec i (length colleges)) as [Hlt|Hge].
    + unfold bind.
      rewrite (promiseAll_index (fun c => processCollege h c cycle 1)) by reflexivity.
      assert (Hsplit : skipn i colleges
                       = app (sliceList i CONCURRENCY colleges)
                           (skipn (i + CONCURRENCY) colleges)).
      { unfold sliceList. rewrite (Nat.add_comm i), <- skipn_skipn, firstn_skipn.
        reflexivity. }
      rewrite Hsplit at 1. rewrite promiseAll_app.
      destruct (promiseAll _ 0%nat (sliceList i CONCURRENCY colleges) w) as [[r1|e] w1];
        [|reflexivity].
      rewrite IH by (unfold CONCURRENCY in *; lia).
      destruct (promiseAll _ 0%nat (skipn (i + CONCURRENCY) colleges) w1) as [[r2|e] w2];
        [|reflexivity].
      rewrite fold_left_app. reflexivity.
    + rewrite skipn_all2 by lia. reflexivity.
Qed.

Lemma runCrawlerForMissingColleges_pass (h : Host) (cycle : string) (w : World) :
  runCrawlerForMissingColleges h cycle w
  = (let* colleges := selectMissing cycle in
     let* _ := promiseAll (fun idx c => processCollege h c cycle (idx + 1)) 0 colleges in
     ret tt) w.
Proof.
  unfold runCrawlerForMissingColleges, bind.
  destruct (selectMissing cycle w) as [[colleges|e] w1]; [|reflexivity].
  rewrite (promiseAll_index (fun c => processCollege h c cycle 1)) by reflexivity.
  destruct colleges as [|c colleges]; [reflexivity|].
  cbn [length Nat.eqb].
  rewrite missingBatches_one_pass by (unfold CONCURRENCY; cbn [length]; lia).
  cbn [skipn]. destruct (promiseAll _ 0%nat (c :: colleges) w1) as [[results|e] w2];
    reflexivity.
Qed.

(** *** It only inserts *)

Lemma filter_none {A} (P : A -> Prop) `{!forall x, Decision (P x)} (l : list A) :
  (forall x, x ∈ l -> ~ P x) -> filter P l = [].
Proof.
  induction l as [|x l IH]; intros Hall; [reflexivity|].
  rewrite filter_cons_False by (apply Hall; left).
  apply IH. intros y Hy. apply Hall. right. exact Hy.
Qed.

Lemma insertRound_appends (c : Z) (rt : RoundType) (cycle date : string) (w : World) :
  exists new,
    college_rounds (snd (insertRound c rt cycle date w)) = app (college_rounds w) new
    /\ Forall (fun r => keyOf r = (c, rt, cycle)
                        /\ cr_source r = CRAWLER /\ cr_admin_confirmed r = false) new.
Proof.
  assert (Hrun : forall w0, college_rounds w0 = college_rounds w ->
            exists new,
              college_rounds
                (snd (let id := next_round_id w0 in
                      let w' := with_next_round_id (id + 1) w0 in
                      if hasKey c rt cycle (college_rounds w0) || hasId id (college_rounds w0)
                      then (@Throw unit "duplicate key value violates unique constraint", w')
                      else (Ok tt,
                            record (InsertRound c rt cycle date)
                              (with_rounds (fun rows => app rows
                                 [{| cr_id := id; cr_college_id := c; cr_round_type := rt;
                                     cr_cycle := cycle; cr_deadline_date := Some date;
                                     cr_decision_date := None; cr_source := CRAWLER;
                                     cr_admin_confirmed := false;
                                     cr_last_crawled_at := Some (now w0) |}]) w'))))
              = app (college_rounds w) new
              /\ Forall (fun r => keyOf r = (c, rt, cycle)
                                  /\ cr_source r = CRAWLER /\ cr_admin_confirmed r = false) new).
  { intros w0 Hw0. cbv zeta. destruct (_ || _); simpl.
    - exists []. rewrite app_nil_r. split; [exact Hw0 | constructor].
    - eexists [_]. rewrite Hw0. split; [reflexivity|]. repeat constructor. }
  unfold insertRound, query. destruct (faults w) as [|[] fs].
  - apply Hrun. reflexivity.
  - exists []. rewrite app_nil_r. split; [reflexivity | constructor].
  - apply Hrun. reflexivity.
Qed.

Lemma reconcileRound_absent (w : World) (c : Z) (cycle : string) (rt : RoundType)
    (data : DeadlineData) :
  filter (sameKey c rt cycle) (college_rounds w) = [] ->
  exists new,
    college_rounds (snd (reconcileRound c cycle rt data w)) = app (college_rounds w) new
    /\ Forall (fun r => keyOf r = (c, rt, cycle)
                        /\ cr_source r = CRAWLER /\ cr_admin_confirmed r = false) new.
Proof.
  intros Habs. unfold reconcileRound.
  destruct (truthy _);
    [|exists []; rewrite app_nil_r; split; [reflexivity | constructor]].
  unfold bind. rewrite selectRound_result.
  destruct (nextQueryFails w);
    [exists []; rewrite app_nil_r; split; [reflexivity | constructor]|].
  rewrite Habs. apply (insertRound_appends c rt cycle _ (afterQuery w)).
Qed.

Lemma forEach_absent (c : Z) (cycle : string) (ds : ParsedDeadlines) (w : World) :
  NoDup (map fst ds) ->
  (forall r, r ∈ college_rounds w -> cr_college_id r = c -> cr_cycle r = cycle ->
             cr_round_type r ∉ map fst ds) ->
  exists new,
    college_rounds (snd (forEach ds (fun e => reconcileRound c cycle (fst e) (snd e)) w))
    = app (college_rounds w) new
    /\ Forall (fun r => cr_college_id r = c /\ cr_cycle r = cycle
                        /\ cr_source r = CRAWLER /\ cr_admin_confirmed r = false) new.
Proof.
  revert w. induction ds as [|[rt0 data0] ds IH]; intros w Hnd Hfree.
  - exists []. rewrite app_nil_r. split; [reflexivity | constructor].
  - cbn [map fst] in Hnd. apply NoDup_cons in Hnd as [Hfresh Hnd].
    cbn [forEach fst snd]. unfold bind.
    destruct (reconcileRound_absent w c cycle rt0 data0) as (new1 & Hw1 & Hnew1).
    { apply filter_none. intros r Hr (Hc & Hrt & Hcy).
      apply (Hfree r Hr Hc Hcy). rewrite Hrt. left. }
    assert (Hnew1' : Forall (fun r => cr_college_id r = c /\ cr_cycle r = cycle
                          /\ cr_source r = CRAWLER /\ cr_admin_confirmed r = false) new1).
    { eapply Forall_impl; [exact Hnew1|]. intros r (Hk & Hs & Ha). cbv beta.
      unfold keyOf in Hk. injection Hk as -> _ ->. tauto. }
    destruct (reconcileRound c cycle rt0 data0 w) as [[[]|e] w1]; cbn [snd] in Hw1 |- *;
      [|exists new1; split; assumption].
    destruct (IH w1 Hnd) as (new2 & Hw2 & Hnew2).
    { intros r Hr Hc Hcy Hin. rewrite Hw1 in Hr. apply elem_of_app in Hr as [Hr|Hr].
      - apply (Hfree r Hr Hc Hcy). right. exact Hin.
      - rewrite Forall_forall in Hnew1. destruct (Hnew1 r Hr) as (Hk & _).
        unfold keyOf in Hk. injection Hk as _ Hrt _. rewrite Hrt in Hin. tauto. }
    exists (app new1 new2). rewrite Hw2, Hw1, app_assoc. split; [reflexivity|].
    apply Forall_app. split; assumption.
Qed.

Lemma processCollege_absent (h : Host) (c : College) (cycle : string) (workerId : nat)
    (w : World) :
  ~ hasDeadline cycle (college_rounds w) (c_id c) ->
  exists result new,
    fst (processCollege h c cycle workerId w) = Ok result
    /\ college_rounds (snd (processCollege h c cycle workerId w)) = app (college_rounds w) new
    /\ Forall (fun r => cr_college_id r = c_id c /\ cr_cycle r = cycle
                        /\ cr_source r = CRAWLER /\ cr_admin_confirmed r = false) new.
Proof.
  intros Hmiss. unfold processCollege, try_catch, bind at 1, lift.
  destruct (parseAdmissionsPage h _ cycle) as [found|e] eqn:Hpage.
  - destruct (parseAdmissionsPage_found h _ _ _ Hpage) as (_ & Hnd & _).
    unfold bind. destruct (0 <? length _)%nat.
    + destruct (forEach_absent (c_id c) cycle found w Hnd) as (new & Hw & Hnew).
      { intros r Hr Hc Hcy _. apply Hmiss. exists r. tauto. }
      destruct (forEach found _ w) as [[[]|e] w1]; cbn [fst snd ret] in Hw |- *;
        eexists _, new; (split; [reflexivity|]); split; assumption.
    + eexists _, []. cbn. rewrite app_nil_r. split; [reflexivity|].
      split; [reflexivity | constructor].
  - eexists _, []. cbn. rewrite app_nil_r. split; [reflexivity|].
    split; [reflexivity | constructor].
Qed.

Lemma pass_only_inserts (h : Host) (cycle : string) (cs : list College) (w : World) :
  NoDup (map c_id cs) ->
  (forall c, c ∈ cs -> ~ hasDeadline cycle (college_rounds w) (c_id c)) ->
  exists new,
    college_rounds (snd (promiseAll (fun _ c => processCollege h c cycle 1) 0 cs w))
    = app (college_rounds w) new
    /\ Forall (fun r => cr_cycle r = cycle /\ cr_source r = CRAWLER
                        /\ cr_admin_confirmed r = false
                        /\ cr_college_id r ∈ map c_id cs) new.
Proof.
  revert w. induction cs as [|x cs IH]; intros w Hnd Hmiss.
  - exists []. rewrite app_nil_r. split; [reflexivity | constructor].
  - cbn [map] in Hnd. apply NoDup_cons in Hnd as [Hfresh Hnd].
    cbn [promiseAll]. unfold bind.
    destruct (processCollege_absent h x cycle 1 w) as (result & new1 & Hres & Hw1 & Hnew1).
    { apply Hmiss. left. }
    destruct (processCollege h x cycle 1 w) as [r1 w1]. cbn [fst snd] in Hres, Hw1. subst r1.
    rewrite (promiseAll_index (fun c => processCollege h c cycle 1)) by reflexivity.
    destruct (IH w1 Hnd) as (new2 & Hw2 & Hnew2).
    { intros c Hc (r & Hr & Hid & Hcy). rewrite Hw1 in Hr.
      apply elem_of_app in Hr as [Hr|Hr].
      - apply (Hmiss c); [right; exact Hc|]. exists r. tauto.
      - rewrite Forall_forall in Hnew1. destruct (Hnew1 r Hr) as (Hx & _).
        apply Hfresh. rewrite <- Hx, Hid. apply list_elem_of_fmap_2. exact Hc. }
    exists (app new1 new2). split.
    + destruct (promiseAll _ 0%nat cs w1) as [[ys|e] w2]; cbn [snd ret] in Hw2 |- *;
        rewrite Hw2, Hw1, app_assoc; reflexivity.
    + apply Forall_app. split.
      * eapply Forall_impl; [exact Hnew1|]. intros r (Hc & Hcy & Hs & Ha). cbv beta.
        repeat split; try assumption. rewrite Hc. left.
      * eapply Forall_impl; [exact Hnew2|]. intros r (Hcy & Hs & Ha & Hin). cbv beta.
        repeat split; try assumption. right. exact Hin.
Qed.

Lemma insertByRank_perm (c : College) (l : list College) : insertByRank c l ≡ₚ c :: l.
Proof.
  induction l as [|x l IH]; simpl; [reflexivity|].
  destruct (rankLe x c); [|reflexivity]. rewrite IH. apply Permutation_swap.
Qed.

Lemma orderByRank_perm (l : list College) : orderByRank l ≡ₚ l.
Proof.
  unfold orderByRank.
  assert (H : forall acc, fold_left (fun acc c => insertByRank c acc) l acc ≡ₚ app l acc).
  { induction l as [|x l IH]; intros acc; simpl; [reflexivity|].
    rewrite IH, insertByRank_perm. symmetry. apply Permutation_middle. }
  rewrite H, app_nil_r. reflexivity.
Qed.

Lemma filter_sublist {A} (p : A -> bool) (l : list A) : List.filter p l `sublist_of` l.
Proof.
  induction l as [|x l IH]; simpl; [constructor|].
  destruct (p x); [apply sublist_skip | apply sublist_cons]; exact IH.
Qed.

(** X13: the crawl of the missing colleges only adds deadline records.
    Under the primary key of [colleges], and whatever storage does, the
    rows of [college_rounds] that were there before
    [runCrawlerForMissingColleges] are all there afterwards, unchanged
    and in their order; the rows that follow them are records of the
    cycle found by the crawler, not confirmed, for colleges that had no
    record of the cycle before.  So the crawl that follows the import of
    the grid replaces no date that the import has stored. *)
Theorem missing_crawl_only_inserts (h : Host) (cycle : string) (w : World) :
  NoDup (map c_id (colleges w)) ->
  exists new,
    college_rounds (snd (runCrawlerForMissingColleges h cycle w)) = app (college_rounds w) new
    /\ Forall (fun r => cr_cycle r = cycle /\ cr_source r = CRAWLER
                        /\ cr_admin_confirmed r = false
                        /\ ~ hasDeadline cycle (college_rounds w) (cr_college_id r)) new.
Proof.
  intros Hnd. rewrite runCrawlerForMissingColleges_pass. unfold bind at 1.
  unfold selectMissing. destruct (nextQueryFails w) eqn:Hq.
  { rewrite query_fails by exact Hq. exists []. rewrite app_nil_r.
    split; [reflexivity | constructor]. }
  rewrite query_runs by exact Hq.
  change (college_rounds (with_faults (tl (faults w)) w)) with (college_rounds w).
  change (colleges (with_faults (tl (faults w)) w)) with (colleges w).
  set (missing := List.filter _ (colleges w)).
  set (w0 := with_faults (tl (faults w)) w).
  assert (Hmissing : forall c, c ∈ orderByRank missing ->
                               ~ hasDeadline cycle (college_rounds w) (c_id c)).
  { intros c Hc. rewrite orderByRank_perm in Hc. apply list_elem_of_In in Hc.
    apply filter_In in Hc as [_ Hc]. apply andb_prop in Hc as [_ Hc].
    apply negb_true_iff in Hc. unfold hasRoundsIn in Hc. apply bool_decide_eq_false_1 in Hc.
    intros (r & Hr & Hid & Hcy). apply Hc. apply Exists_exists. exists r. tauto. }
  assert (Hids : NoDup (map c_id (orderByRank missing))).
  { rewrite orderByRank_perm. eapply sublist_NoDup; [exact Hnd|].
    apply (fmap_sublist c_id), filter_sublist. }
  unfold bind.
  rewrite (promiseAll_index (fun c => processCollege h c cycle 1)) by reflexivity.
  destruct (pass_only_inserts h cycle (orderByRank missing) w0 Hids Hmissing)
    as (new & Hw & Hnew).
  exists new. split.
  - destruct (promiseAll _ 0%nat (orderByRank missing) w0) as [[ys|e] w2];
      cbn [snd ret] in Hw |- *; exact Hw.
  - eapply Forall_impl; [exact Hnew|]. intros r (Hcy & Hs & Ha & Hin). cbv beta.
    repeat split; try assumption.
    apply list_elem_of_fmap in Hin as (c & -> & Hc). apply Hmissing. exact Hc.
Qed.

Lemma missing_crawl_only_inserts_witness :
  exists new,
    college_rounds (snd (runCrawlerForMissingColleges quietHost "2024-2025" draftWorld))
    = app (college_rounds draftWorld) new
    /\ Forall (fun r => cr_cycle r = "2024-2025" /\ cr_source r = CRAWLER
                        /\ cr_admin_confirmed r = false
                        /\ ~ hasDeadline "2024-2025" (college_rounds draftWorld)
                               (cr_college_id r)) new.
Proof.
  apply (missing_crawl_only_inserts quietHost "2024-2025" draftWorld).
  apply NoDup_singleton.
Defined.

(** ** Patterns on texts that differ in their digits only *)

Lemma run_Rep {R : Type} (greedy : bool) (lo : nat) (hi : option nat) (a : regex)
    (pos : nat) (s : string) (c : captures) (k : nat -> string -> captures -> option R) :
  run (Rep greedy lo hi a) pos s c k
  = repeatRun (run a) k greedy (lo + String.length s + 1) lo hi pos s c.
Proof. reflexivity. Qed.

Lemma repeatRun_unfold {R : Type}
    (runA : nat -> string -> captures -> (nat -> string -> captures -> option R) -> option R)
    (k : nat -> string -> captures -> option R) (greedy : bool)
    (fuel lo : nat) (hi : option nat) (pos : nat) (s : string) (c : captures) :
  repeatRun runA k greedy fuel lo hi pos s c
  = let stop := fun _ : unit => if (lo =? 0)%nat then k pos s c else None in
    let more := fun _ : unit =>
      match fuel with
      | O => None
      | S fuel' =>
          if hi_open hi
          then runA pos s c (fun pos' s' c' =>
                 if (lo =? 0)%nat && (pos' =? pos)%nat then None
                 else repeatRun runA k greedy fuel' (Nat.pred lo) (hi_pred hi) pos' s' c')
          else None
      end in
    if greedy then orElse (more tt) stop else orElse (stop tt) more.
Proof. destruct fuel; reflexivity. Qed.

Lemma alikeText_length (s t : string) : alikeText s t -> String.length s = String.length t.
Proof. induction 1; simpl; congruence. Qed.

Lemma alikeText_refl (s : string) : alikeText s s.
Proof. induction s; constructor; [left; reflexivity | assumption]. Qed.

Lemma alikeText_app (s t s' t' : string) :
  alikeText s t -> alikeText s' t' -> alikeText (s ++ s') (t ++ t').
Proof.
  induction 1; intros H'; [exact H'|]. rewrite !append_cons. constructor; auto.
Qed.

Lemma digitBlind_alike (p : ascii -> bool) (a b : ascii) :
  digitBlind p = true -> alike a b -> p a = p b.
Proof.
  intros Hp [->|[Ha Hb]]; [reflexivity|].
  assert (H0 : forall x, isDigit x = true -> p x = p "0"%char).
  { intros x Hx. unfold digitBlind in Hp. rewrite forallb_forall in Hp.
    apply isDigit_cases, list_elem_of_In in Hx. apply Hp in Hx.
    apply Bool.eqb_prop in Hx. exact Hx. }
  rewrite (H0 a Ha), (H0 b Hb). reflexivity.
Qed.

(** A pattern that is blind to digits runs alike on alike texts. *)
Lemma run_alike {R : Type} (r : regex) :
  blind r = true ->
  forall (pos : nat) (s s' : string) (c : captures)
         (k k' : nat -> string -> captures -> option R),
    alikeText s s' ->
    (forall pos1 s1 s1' c1, alikeText s1 s1' -> k pos1 s1 c1 = k' pos1 s1' c1) ->
    run r pos s c k = run r pos s' c k'.
Proof.
  induction r as [p| |a IHa b IHb|a IHa b IHb|greedy lo hi a IHa|i a IHa| |];
    intros Hb pos s s' c k k' Hs Hk.
  - simpl. destruct Hs as [|x y s t Hxy Hst]; [reflexivity|].
    simpl in Hb. rewrite (digitBlind_alike p x y Hb Hxy).
    destruct (p y); [apply Hk; exact Hst | reflexivity].
  - simpl. apply Hk. exact Hs.
  - simpl in Hb. apply andb_prop in Hb as [Ha Hb']. simpl.
    apply IHa; [exact Ha | exact Hs|]. intros pos1 s1 s1' c1 Hs1.
    apply IHb; [exact Hb' | exact Hs1 | exact Hk].
  - simpl in Hb. apply andb_prop in Hb as [Ha Hb']. simpl.
    rewrite (IHa Ha pos s s' c k k' Hs Hk), (IHb Hb' pos s s' c k k' Hs Hk). reflexivity.
  - simpl in Hb. rewrite !run_Rep. rewrite (alikeText_length s s' Hs).
    generalize (lo + String.length s' + 1)%nat as fuel. intros fuel.
    revert lo hi pos s s' c Hs.
    induction fuel as [|fuel IHf]; intros lo hi pos s s' c Hs;
      rewrite !repeatRun_unfold; cbv zeta.
    + rewrite (Hk pos s s' c Hs). reflexivity.
    + rewrite (Hk pos s s' c Hs).
      assert (Hmore : (if hi_open hi
                       then run a pos s c (fun pos' s1 c' =>
                              if (lo =? 0)%nat && (pos' =? pos)%nat then None
                              else repeatRun (run a) k greedy fuel (Nat.pred lo)
                                     (hi_pred hi) pos' s1 c')
                       else None)
                      = (if hi_open hi
                         then run a pos s' c (fun pos' s1 c' =>
                                if (lo =? 0)%nat && (pos' =? pos)%nat then None
                                else repeatRun (run a) k' greedy fuel (Nat.pred lo)
                                       (hi_pred hi) pos' s1 c')
                         else None)).
      { destruct (hi_open hi); [|reflexivity].
        apply IHa; [exact Hb | exact Hs|]. intros pos1 s1 s1' c1 Hs1.
        destruct ((lo =? 0)%nat && (pos1 =? pos)%nat); [reflexivity|].
        apply IHf. exact Hs1. }
      rewrite Hmore. reflexivity.
  - simpl in Hb. simpl. apply IHa; [exact Hb | exact Hs|].
    intros pos1 s1 s1' c1 Hs1. apply Hk. exact Hs1.
  - simpl. destruct (pos =? 0)%nat; [apply Hk; exact Hs | reflexivity].
  - simpl. destruct Hs; [apply Hk; constructor | reflexivity].
Qed.

Lemma search_alike (r : regex) (s s' : string) :
  blind r = true -> alikeText s s' -> search r s = search r s'.
Proof.
  intros Hb. unfold search. generalize 0%nat as pos. intros pos Hs. revert pos.
  induction Hs as [|a b s t Hab Hst IH]; intros pos.
  - reflexivity.
  - cbn [searchFrom]. unfold matchAt.
    rewrite (run_alike r Hb pos (String a s) (String b t) []
               (fun e _ c => Some {| m_start := pos; m_end := e; m_caps := c |})
               (fun e _ c => Some {| m_start := pos; m_end := e; m_caps := c |}))
      by (try (constructor; assumption); reflexivity).
    destruct (run r pos (String b t) [] _); [reflexivity | apply IH].
Qed.

(** ** The calendar *)

Lemma range_elem (lo : Z) (n : nat) (z : Z) : lo <= z < lo + Z.of_nat n -> In z (range lo n).
Proof.
  intros H. unfold range. apply in_map_iff. exists (Z.to_nat (z - lo)).
  split; [lia|]. apply in_seq. lia.
Qed.

Lemma forallb_range (f : Z -> bool) (lo : Z) (n : nat) (z : Z) :
  forallb f (range lo n) = true -> lo <= z < lo + Z.of_nat n -> f z = true.
Proof. intros H Hz. rewrite forallb_forall in H. apply H, range_elem, Hz. Qed.

(** Every day of every year of an era is given back its year. *)
Lemma eraTable :
  forallb (fun yoe =>
    forallb (fun doy =>
      (yearOfEra (dayOfEra yoe doy) =? yoe) && (dayOfEra yoe doy <? 146097))
      (range 0 (if leap (yoe + 1) then 366 else 365)))
    (range 0 400) = true.
Proof. vm_compute. reflexivity. Qed.

Lemma yearOfEra_dayOfEra (yoe doy : Z) :
  0 <= yoe < 400 -> 0 <= doy < (if leap (yoe + 1) then 366 else 365) ->
  yearOfEra (dayOfEra yoe doy) = yoe /\ dayOfEra yoe doy < 146097.
Proof.
  intros Hy Hd. pose proof eraTable as H.
  apply (forallb_range _ 0 400 yoe) in H; [|lia]. cbv beta in H.
  apply (forallb_range _ 0 _ doy) in H; [|destruct (leap (yoe + 1)); lia]. cbv beta in H.
  apply andb_prop in H as [H1 H2]. split; lia.
Qed.

Lemma leap_era (x e : Z) : leap (x + e * 400) = leap x.
Proof.
  unfold leap.
  replace ((x + e * 400) mod 4) with (x mod 4)
    by (replace (x + e * 400) with (x + (e * 100) * 4) by ring; symmetry; apply Z_mod_plus_full).
  replace ((x + e * 400) mod 100) with (x mod 100)
    by (replace (x + e * 400) with (x + (e * 4) * 100) by ring; symmetry; apply Z_mod_plus_full).
  rewrite Z_mod_plus_full. reflexivity.
Qed.

Lemma era_split (era doe : Z) : 0 <= doe < 146097 -> (era * 146097 + doe) / 146097 = era.
Proof.
  intros H. rewrite Z.add_comm, Z.div_add by lia. rewrite Z.div_small by lia. reflexivity.
Qed.

(** The date of a day of an era, from its year and its day of the year. *)
Lemma civil_of_era (era yoe doy : Z) :
  0 <= yoe < 400 -> 0 <= doy < (if leap (yoe + 1) then 366 else 365) ->
  JsDate.civil_from_days (era * 146097 + dayOfEra yoe doy - 719468)
  = (let mp := (5 * doy + 2) / 153 in
     let m := if mp <? 10 then mp + 3 else mp - 9 in
     (yoe + era * 400 + (if m <=? 2 then 1 else 0), m, doy - (153 * mp + 2) / 5 + 1)).
Proof.
  intros Hy Hd. destruct (yearOfEra_dayOfEra yoe doy Hy Hd) as [Hyoe Hlt].
  assert (H0 : 0 <= dayOfEra yoe doy).
  { unfold dayOfEra. assert (yoe / 100 <= yoe / 4).
    { apply Z.div_le_compat_l; lia. }
    assert (0 <= yoe / 100) by (apply Z.div_pos; lia). lia. }
  unfold JsDate.civil_from_days.
  replace (era * 146097 + dayOfEra yoe doy - 719468 + 719468)
    with (era * 146097 + dayOfEra yoe doy) by ring.
  rewrite era_split by lia.
  replace (era * 146097 + dayOfEra yoe doy - era * 146097) with (dayOfEra yoe doy) by ring.
  fold (yearOfEra (dayOfEra yoe doy)). rewrite Hyoe.
  replace (dayOfEra yoe doy - (365 * yoe + yoe / 4 - yoe / 100)) with doy
    by (unfold dayOfEra; ring).
  reflexivity.
Qed.

Lemma days_of_era (y m d : Z) :
  JsDate.days_from_civil y m d
  = (let y' := if m <=? 2 then y - 1 else y in
     let mp := if 2 <? m then m - 3 else m + 9 in
     (y' / 400) * 146097 + dayOfEra (y' mod 400) ((153 * mp + 2) / 5 + d - 1) - 719468).
Proof.
  unfold JsDate.days_from_civil, dayOfEra. cbv zeta.
  rewrite (Z.mod_eq _ 400) by lia.
  replace (400 * ((if m <=? 2 then y - 1 else y) / 400))
    with ((if m <=? 2 then y - 1 else y) / 400 * 400) by ring.
  reflexivity.
Qed.

(** [civil_from_days] undoes [days_from_civil] on every day of the
    calendar. *)
Lemma civil_round_trip (y m d : Z) :
  validDate y m d -> JsDate.civil_from_days (JsDate.days_from_civil y m d) = (y, m, d).
Proof.
  intros [Hm Hd]. rewrite days_of_era. cbv zeta.
  set (y' := if m <=? 2 then y - 1 else y).
  assert (Hy' : y = y' mod 400 + (if m <=? 2 then 1 else 0) + (y' / 400) * 400).
  { pose proof (Z.div_mod y' 400 ltac:(lia)) as E. subst y'.
    destruct (m <=? 2); lia. }
  assert (Hyoe : 0 <= y' mod 400 < 400) by (apply Z.mod_pos_bound; lia).
  assert (Hleap : m <= 2 -> leap y = leap (y' mod 400 + 1)).
  { intros Hm2. rewrite Hy' at 1. destruct (m <=? 2) eqn:E; [|lia]. apply leap_era. }
  revert Hy' Hleap Hyoe. generalize (y' mod 400) (y' / 400). clear y'.
  intros yoe era Hy Hleap Hyoe.
  assert (Hcases : m = 1 \/ m = 2 \/ m = 3 \/ m = 4 \/ m = 5 \/ m = 6 \/ m = 7 \/ m = 8
                   \/ m = 9 \/ m = 10 \/ m = 11 \/ m = 12) by lia.
  unfold daysIn in Hd.
  repeat (destruct Hcases as [Hc|Hcases]; [subst m|]); [..|subst m];
    cbn [Z.ltb Z.leb Z.eqb Z.compare Pos.compare Pos.compare_cont Pos.eqb orb] in *;
    match goal with
    | |- context [((153 * ?mp + 2) / 5 + d - 1)] =>
        let v := eval vm_compute in ((153 * mp + 2) / 5) in
        change ((153 * mp + 2) / 5) with v
    end;
    (rewrite civil_of_era;
     [|exact Hyoe
      |try (rewrite <- Hleap by lia); clear Hleap; revert Hd; destruct (leap _); lia]);
    cbv zeta; clear Hleap; revert Hd; destruct (leap y); intros Hd;
    match goal with
    | |- context [(5 * ?doy + 2) / 153] =>
        match goal with
        | |- _ = (_, ?m, _) =>
            let k := eval vm_compute in (if 2 <? m then m - 3 else m + 9) in
            replace ((5 * doy + 2) / 153) with k by (Z.div_mod_to_equations; lia);
            let v := eval vm_compute in ((153 * k + 2) / 5) in
            change ((153 * k + 2) / 5) with v
        end
    end;
    repeat match goal with
           | |- context [if ?b then _ else _] =>
               let v := eval vm_compute in b in change b with v; cbv iota
           end;
    rewrite !pair_equal_spec; repeat split; lia.
Qed.

Lemma days_from_civil_day (y m d : Z) :
  JsDate.days_from_civil y m 1 + d - 1 = JsDate.days_from_civil y m d.
Proof. unfold JsDate.days_from_civil. cbv zeta. ring. Qed.

Lemma days_from_civil_bound (y m d : Z) :
  0 <= y <= 9999 -> 1 <= m <= 12 -> 1 <= d <= 31 ->
  -1000000 <= JsDate.days_from_civil y m d <= 3000000.
Proof.
  intros Hy Hm Hd. rewrite days_of_era. cbv zeta. unfold dayOfEra.
  set (y' := if m <=? 2 then y - 1 else y).
  assert (Hy' : -1 <= y' <= 9999) by (subst y'; destruct (m <=? 2); lia).
  set (mp := if 2 <? m then m - 3 else m + 9).
  assert (Hmp : 0 <= mp <= 11) by (subst mp; destruct (2 <? m) eqn:E; lia).
  clearbody y' mp.
  pose proof (Z.div_mod y' 400 ltac:(lia)) as E.
  pose proof (Z.mod_pos_bound y' 400 ltac:(lia)) as B.
  revert E B. generalize (y' mod 400) (y' / 400). intros yoe era E B.
  Z.div_mod_to_equations. lia.
Qed.

(** ** Numbers as they are written *)

Lemma pad4_digits (y : Z) : 0 <= y <= 9999 -> digitsOf 4 y (JsDate.pad 4 y) = true.
Proof.
  assert (H : forallb (fun y => digitsOf 4 y (JsDate.pad 4 y)) (range 0 (Z.to_nat 10000)) = true)
    by (vm_compute; reflexivity).
  intros Hy. apply (forallb_range _ 0 (Z.to_nat 10000) y H). lia.
Qed.

Lemma pad2_digits (z : Z) : 0 <= z <= 99 -> digitsOf 2 z (JsDate.pad 2 z) = true.
Proof.
  assert (H : forallb (fun z => digitsOf 2 z (JsDate.pad 2 z)) (range 0 100) = true)
    by (vm_compute; reflexivity).
  intros Hz. apply (forallb_range _ 0 100 z H). lia.
Qed.

Lemma showZ_one_digit (z : Z) : 0 <= z <= 9 -> digitsOf 1 z (showZ z) = true.
Proof.
  assert (H : forallb (fun z => digitsOf 1 z (showZ z)) (range 0 10) = true)
    by (vm_compute; reflexivity).
  intros Hz. apply (forallb_range _ 0 10 z H). lia.
Qed.

Lemma showZ_two_digits (z : Z) : 10 <= z <= 99 -> digitsOf 2 z (showZ z) = true.
Proof.
  assert (H : forallb (fun z => digitsOf 2 z (showZ z)) (range 10 90) = true)
    by (vm_compute; reflexivity).
  intros Hz. apply (forallb_range _ 10 90 z H). lia.
Qed.

Lemma showZ_four_digits (z : Z) : 1000 <= z <= 9999 -> showZ z = JsDate.pad 4 z.
Proof.
  assert (H : forallb (fun z => String.eqb (showZ z) (JsDate.pad 4 z)) (range 1000 (Z.to_nat 9000)) = true)
    by (vm_compute; reflexivity).
  intros Hz. apply String.eqb_eq. apply (forallb_range _ 1000 (Z.to_nat 9000) z H). lia.
Qed.

Lemma digitsOf_1 (z : Z) (s : string) :
  digitsOf 1 z s = true ->
  exists a, s = String a "" /\ isDigit a = true /\ JsDate.num (String a "") = z.
Proof.
  unfold digitsOf. intros H. apply andb_prop in H as [H Hn]. apply andb_prop in H as [Hl Hd].
  destruct s as [|a [|b s]]; try discriminate Hl.
  cbn [allOf] in Hd. rewrite andb_true_r in Hd. apply Z.eqb_eq in Hn. eauto.
Qed.

Lemma digitsOf_2 (z : Z) (s : string) :
  digitsOf 2 z s = true ->
  exists a b, s = String a (String b "") /\ isDigit a = true /\ isDigit b = true
              /\ JsDate.num (String a (String b "")) = z.
Proof.
  unfold digitsOf. intros H. apply andb_prop in H as [H Hn]. apply andb_prop in H as [Hl Hd].
  destruct s as [|a [|b [|c s]]]; try discriminate Hl.
  cbn [allOf] in Hd. rewrite andb_true_r in Hd. apply andb_prop in Hd as [Ha Hb].
  apply Z.eqb_eq in Hn. eauto 8.
Qed.

Lemma digitsOf_4 (z : Z) (s : string) :
  digitsOf 4 z s = true ->
  exists a b c e, s = String a (String b (String c (String e "")))
                  /\ isDigit a = true /\ isDigit b = true /\ isDigit c = true
                  /\ isDigit e = true
                  /\ JsDate.num (String a (String b (String c (String e "")))) = z.
Proof.
  unfold digitsOf. intros H. apply andb_prop in H as [H Hn]. apply andb_prop in H as [Hl Hd].
  destruct s as [|a [|b [|c [|e [|g s]]]]]; try discriminate Hl.
  cbn [allOf] in Hd. rewrite andb_true_r in Hd.
  apply andb_prop in Hd as [Ha Hd]. apply andb_prop in Hd as [Hb Hd].
  apply andb_prop in Hd as [Hc He]. apply Z.eqb_eq in Hn.
  exists a, b, c, e. auto 8.
Qed.

(** The text of a day or a month has one or two digits. *)
Lemma written_digits (z : Z) (s : string) :
  0 <= z <= 99 -> written z s -> digitsOf 1 z s = true \/ digitsOf 2 z s = true.
Proof.
  intros Hz [->| ->].
  - destruct (Z.le_gt_cases z 9).
    + left. apply showZ_one_digit. lia.
    + right. apply showZ_two_digits. lia.
  - right. apply pad2_digits. exact Hz.
Qed.

Ltac alike_texts :=
  try match goal with |- alikeText ?s _ => unfold s end;
  repeat first
    [ apply alike_nil
    | apply alike_cons;
      [first [left; reflexivity | right; split; [assumption | reflexivity]]|] ].

(** [search r s] is replaced by its value on [zeros], a text that differs
    from [s] in its digits only. *)
Ltac search_on r s zeros :=
  let v := eval vm_compute in (search r zeros) in
  replace (search r s) with v
    by (rewrite (search_alike r s zeros)
          by (match goal with
              | |- blind _ = true => vm_compute; reflexivity
              | |- alikeText _ _ => alike_texts
              end);
        vm_compute; reflexivity).

Ltac eval_group s :=
  repeat match goal with
  | |- context [group' s ?f ?i] =>
      let v := eval vm_compute in (group' s f i) in
      change (group' s f i) with v
  | |- context [group s ?f ?i] =>
      let v := eval vm_compute in (group s f i) in
      change (group s f i) with v
  | |- context [matched s ?f] =>
      let v := eval vm_compute in (matched s f) in
      change (matched s f) with v
  end.

Lemma parseDate_iso_digits (tz : Z) (cy : number) (a1 a2 a3 a4 b1 b2 c1 c2 : ascii) :
  isDigit a1 = true -> isDigit a2 = true -> isDigit a3 = true -> isDigit a4 = true ->
  isDigit b1 = true -> isDigit b2 = true -> isDigit c1 = true -> isDigit c2 = true ->
  let s := String a1 (String a2 (String a3 (String a4 (String "-"
             (String b1 (String b2 (String "-" (String c1 (String c2 ""))))))))) in
  parseDate tz s cy
  = printed (JsDate.utcDate (JsDate.num (String a1 (String a2 (String a3 (String a4 "")))))
               (JsDate.num (String b1 (String b2 "")))
               (JsDate.num (String c1 (String c2 "")))).
Proof.
  intros Ha1 Ha2 Ha3 Ha4 Hb1 Hb2 Hc1 Hc2 s.
  unfold parseDate, parseDate_try.
  search_on fullPattern s "0000-00-00".
  search_on partialPattern s "0000-00-00".
  search_on slashPattern s "0000-00-00".
  search_on isoPattern s "0000-00-00".
  cbv beta iota delta [andThen missing JsDate.isInvalid].
  eval_group s.
  match goal with
  | |- context [JsDate.parse tz ?x] =>
      let v := eval vm_compute in x in change x with s
  end.
  unfold JsDate.parse.
  search_on JsDate.reNamed s "0000-00-00".
  search_on JsDate.reNumbers s "0000-00-00".
  search_on JsDate.reSlash s "0000-00-00".
  search_on JsDate.reIso s "0000-00-00".
  cbv beta iota. eval_group s.
  unfold printed. destruct (JsDate.toISOString _); reflexivity.
Qed.

(** ** Printing a day *)

Lemma digitsOf_allOf (n : nat) (z : Z) (s : string) :
  digitsOf n z s = true -> allOf isDigit s = true.
Proof.
  unfold digitsOf. intros H. apply andb_prop in H as [H _]. apply andb_prop in H as [_ H].
  exact H.
Qed.

Lemma isoText_no_T (y m d : Z) :
  0 <= y <= 9999 -> 0 <= m <= 99 -> 0 <= d <= 99 ->
  allOf (fun c => negb (Ascii.eqb c "T")) (isoText y m d) = true.
Proof.
  intros Hy Hm Hd.
  assert (Hdig : forall s, allOf isDigit s = true
                           -> allOf (fun c => negb (Ascii.eqb c "T")) s = true).
  { intros s. apply allOf_impl. intros a Ha. apply isDigit_cases in Ha.
    rewrite !elem_of_cons in Ha.
    destruct Ha as [->|[->|[->|[->|[->|[->|[->|[->|[->|[->|Ha]]]]]]]]]];
      try reflexivity. inversion Ha. }
  unfold isoText. rewrite !allOf_app.
  rewrite (Hdig _ (digitsOf_allOf _ _ _ (pad4_digits y Hy))).
  rewrite (Hdig _ (digitsOf_allOf _ _ _ (pad2_digits m Hm))).
  rewrite (Hdig _ (digitsOf_allOf _ _ _ (pad2_digits d Hd))).
  reflexivity.
Qed.

Lemma clip_keeps (t : Z) : Z.abs t <= 8640000000000000 -> JsDate.TimeClip t = Some t.
Proof. intros H. unfold JsDate.TimeClip. apply Z.leb_le in H. rewrite H. reflexivity. Qed.

(** An instant of the day [y]-[m]-[d] (UTC) is printed as that day. *)
Lemma printed_day (y m d r : Z) :
  0 <= y <= 9999 -> validDate y m d -> 0 <= r < JsDate.msPerDay ->
  printed (Some (JsDate.days_from_civil y m d * JsDate.msPerDay + r)) = Some (isoText y m d).
Proof.
  intros Hy Hv Hr. unfold printed, JsDate.toISOString.
  assert (Hdiv : (JsDate.days_from_civil y m d * JsDate.msPerDay + r) / JsDate.msPerDay
                 = JsDate.days_from_civil y m d).
  { unfold JsDate.msPerDay in *. rewrite Z.add_comm, Z.div_add by lia.
    rewrite Z.div_small by lia. reflexivity. }
  rewrite Hdiv, (civil_round_trip y m d Hv).
  assert (Hyb : (0 <=? y) && (y <=? 9999) = true)
    by (apply andb_true_intro; split; apply Z.leb_le; lia).
  rewrite Hyb. f_equal.
  match goal with
  | |- hd "" (split "T" (?a ++ "-" ++ ?b ++ "-" ++ ?c ++ "T" ++ ?rest)) = _ =>
      replace (a ++ "-" ++ b ++ "-" ++ c ++ "T" ++ rest)
        with (isoText y m d ++ String "T" rest)
        by (unfold isoText; rewrite !append_assoc; reflexivity)
  end.
  rewrite split_app. rewrite split_whole; [reflexivity|].
  destruct Hv as [Hm Hd]. apply isoText_no_T; [exact Hy|lia|].
  unfold daysIn in Hd.
  destruct (m =? 2); [destruct (leap y); lia|].
  destruct ((m =? 4) || (m =? 6) || (m =? 9) || (m =? 11)); lia.
Qed.

Lemma daysIn_bound (y m : Z) : 28 <= daysIn y m <= 31.
Proof.
  unfold daysIn. destruct (m =? 2); [destruct (leap y); lia|].
  destruct ((m =? 4) || (m =? 6) || (m =? 9) || (m =? 11)); lia.
Qed.

Lemma valid_month_day (y m d : Z) :
  validDate y m d -> JsDate.IsMonth m && JsDate.IsDay d = true.
Proof.
  intros [Hm Hd]. pose proof (daysIn_bound y m). unfold JsDate.IsMonth, JsDate.IsDay.
  repeat (apply andb_true_intro; split); apply Z.leb_le; lia.
Qed.

(** A date read as UTC is printed as it was written. *)
Lemma printed_utcDate (y m d : Z) :
  0 <= y <= 9999 -> validDate y m d -> printed (JsDate.utcDate y m d) = Some (isoText y m d).
Proof.
  intros Hy Hv. unfold JsDate.utcDate. rewrite (valid_month_day y m d Hv).
  rewrite days_from_civil_day.
  pose proof (daysIn_bound y m) as Hb. pose proof Hv as [Hm Hd].
  pose proof (days_from_civil_bound y m d Hy Hm ltac:(lia)) as HD.
  rewrite clip_keeps by (unfold JsDate.msPerDay; lia).
  replace (JsDate.days_from_civil y m d * JsDate.msPerDay)
    with (JsDate.days_from_civil y m d * JsDate.msPerDay + 0) by ring.
  apply printed_day; [exact Hy | exact Hv | unfold JsDate.msPerDay; lia].
Qed.

Lemma findNearbyDate_iso (tz : Z) (cy : number) (a1 a2 a3 a4 b1 b2 c1 c2 : ascii) :
  isDigit a1 = true -> isDigit a2 = true -> isDigit a3 = true -> isDigit a4 = true ->
  isDigit b1 = true -> isDigit b2 = true -> isDigit c1 = true -> isDigit c2 = true ->
  let s := String a1 (String a2 (String a3 (String a4 (String "-"
             (String b1 (String b2 (String "-" (String c1 (String c2 ""))))))))) in
  findNearbyDate tz s cy
  = match parseDate tz s cy with
    | Some (String a parsed) => Some (String a parsed)
    | _ => None
    end.
Proof.
  intros Ha1 Ha2 Ha3 Ha4 Hb1 Hb2 Hc1 Hc2 s.
  unfold findNearbyDate, DATE_PATTERNS. cbn [findNearbyDate_loop].
  match goal with |- context [search ?r s] => search_on r s "0000-00-00" end.
  match goal with |- context [search ?r s] => search_on r s "0000-00-00" end.
  match goal with |- context [search ?r s] => search_on r s "0000-00-00" end.
  match goal with |- context [search ?r s] => search_on r s "0000-00-00" end.
  cbv beta iota. eval_group s. fold s.
  destruct (parseDate tz s cy) as [[|a parsed]|]; reflexivity.
Qed.

(** X14: a date written YYYY-MM-DD is read back as it is written, in
    every time zone and every cycle: [parseDate] returns the text itself
    for every day of the calendar of the years 0 to 9999, and so does
    [findNearbyDate] on a window that holds just that text. *)
Theorem iso_date_is_read_back (tz : Z) (cy : number) (y m d : Z) :
  0 <= y <= 9999 -> validDate y m d ->
  parseDate tz (isoText y m d) cy = Some (isoText y m d)
  /\ findNearbyDate tz (isoText y m d) cy = Some (isoText y m d).
Proof.
  intros Hy Hv. pose proof Hv as [Hm Hd]. pose proof (daysIn_bound y m) as Hb.
  destruct (digitsOf_4 _ _ (pad4_digits y Hy))
    as (a1 & a2 & a3 & a4 & Ey & Ha1 & Ha2 & Ha3 & Ha4 & Ny).
  destruct (digitsOf_2 _ _ (pad2_digits m ltac:(lia))) as (b1 & b2 & Em & Hb1 & Hb2 & Nm).
  destruct (digitsOf_2 _ _ (pad2_digits d ltac:(lia))) as (c1 & c2 & Ed & Hc1 & Hc2 & Nd).
  pose proof (printed_utcDate y m d Hy Hv) as Hp.
  assert (Hparse : parseDate tz (isoText y m d) cy = Some (isoText y m d)).
  { rewrite <- Hp. unfold isoText. rewrite Ey, Em, Ed. rewrite <- Ny, <- Nm, <- Nd.
    apply (parseDate_iso_digits tz cy a1 a2 a3 a4 b1 b2 c1 c2); assumption. }
  split; [exact Hparse|].
  pose proof (findNearbyDate_iso tz cy a1 a2 a3 a4 b1 b2 c1 c2
                Ha1 Ha2 Ha3 Ha4 Hb1 Hb2 Hc1 Hc2) as Hf.
  cbv zeta in Hf.
  assert (Es : isoText y m d
               = String a1 (String a2 (String a3 (String a4 (String "-"
                   (String b1 (String b2 (String "-" (String c1 (String c2 ""))))))))))
    by (unfold isoText; rewrite Ey, Em, Ed; reflexivity).
  rewrite <- Es in Hf. rewrite Hf, Hparse. rewrite Es. reflexivity.
Qed.

Lemma iso_date_is_read_back_witness :
  parseDate 330 "2024-02-29" (Num 2025) = Some "2024-02-29"
  /\ findNearbyDate 330 "2024-02-29" (Num 2025) = Some "2024-02-29".
Proof.
  apply (iso_date_is_read_back 330 (Num 2025) 2024 2 29); [lia|].
  split; [lia | vm_compute; split; discriminate].
Defined.

(** ** The day before *)

Lemma year_step :
  forallb (fun r => dayOfEra r 0 - 1 =? dayOfEra (r - 1) (if leap r then 365 else 364))
    (range 1 399) = true.
Proof. vm_compute. reflexivity. Qed.

Lemma dayBefore_valid (y m d : Z) :
  validDate y m d -> let '(y', m', d') := dayBefore y m d in validDate y' m' d'.
Proof.
  intros [Hm Hd]. unfold dayBefore. destruct (1 <? d) eqn:E1.
  - apply Z.ltb_lt in E1. split; lia.
  - destruct (1 <? m) eqn:E2.
    + apply Z.ltb_lt in E2. pose proof (daysIn_bound y (m - 1)). split; lia.
    + split; [lia|]. vm_compute. split; discriminate.
Qed.

Lemma dayBefore_days (y m d : Z) :
  validDate y m d ->
  let '(y', m', d') := dayBefore y m d in
  JsDate.days_from_civil y' m' d' = JsDate.days_from_civil y m d - 1.
Proof.
  intros [Hm Hd]. unfold dayBefore. destruct (1 <? d) eqn:E1.
  { rewrite <- (days_from_civil_day y m (d - 1)), <- (days_from_civil_day y m d). ring. }
  apply Z.ltb_ge in E1. assert (d = 1) by lia. subst d. clear E1 Hd.
  assert (Hcases : m = 1 \/ m = 2 \/ m = 3 \/ m = 4 \/ m = 5 \/ m = 6 \/ m = 7 \/ m = 8
                   \/ m = 9 \/ m = 10 \/ m = 11 \/ m = 12) by lia.
  assert (Hm3 : m = 3 \/ m <> 3) by lia. destruct Hm3 as [->|Hm3].
  - (* the last day of February *)
    change (1 <? 3) with true. cbv iota. change (3 - 1) with 2.
    change (daysIn y 2) with (if leap y then 29 else 28).
    rewrite !days_of_era. cbv zeta. change (3 <=? 2) with false. change (2 <=? 2) with true.
    change (2 <? 3) with true. change (2 <? 2) with false. cbv iota.
    change ((153 * (3 - 3) + 2) / 5 + 1 - 1) with 0.
    change ((153 * (2 + 9) + 2) / 5) with 337.
    pose proof (Z.div_mod y 400 ltac:(lia)) as E.
    pose proof (Z.mod_pos_bound y 400 ltac:(lia)) as B.
    assert (Hl : leap y = leap (y mod 400)).
    { rewrite E at 1. rewrite Z.add_comm, Z.mul_comm. apply leap_era. }
    rewrite Hl.
    destruct (Z.eq_dec (y mod 400) 0) as [E0|E0].
    + assert (Hq : (y - 1) / 400 = y / 400 - 1).
      { symmetry. apply (Z.div_unique (y - 1) 400 (y / 400 - 1) 399); lia. }
      assert (Hr : (y - 1) mod 400 = 399).
      { symmetry. apply (Z.mod_unique (y - 1) 400 (y / 400 - 1) 399); lia. }
      rewrite Hq, Hr, E0. change (leap 0) with true. cbv iota.
      change (dayOfEra 399 (337 + 29 - 1)) with 146096. change (dayOfEra 0 0) with 0. lia.
    + assert (Hq : (y - 1) / 400 = y / 400).
      { symmetry. apply (Z.div_unique (y - 1) 400 (y / 400) (y mod 400 - 1)); lia. }
      assert (Hr : (y - 1) mod 400 = y mod 400 - 1).
      { symmetry. apply (Z.mod_unique (y - 1) 400 (y / 400) (y mod 400 - 1)); lia. }
      rewrite Hq, Hr.
      pose proof (forallb_range _ 1 399 (y mod 400) year_step ltac:(lia)) as Hs.
      cbv beta in Hs. apply Z.eqb_eq in Hs.
      replace (dayOfEra (y mod 400 - 1) (337 + (if leap (y mod 400) then 29 else 28) - 1))
        with (dayOfEra (y mod 400 - 1) (if leap (y mod 400) then 365 else 364))
        by (destruct (leap (y mod 400)); reflexivity).
      lia.
  - repeat (destruct Hcases as [->|Hcases]); [..|subst m]; try congruence;
      unfold daysIn, JsDate.days_from_civil; cbv zeta;
      repeat match goal with
             | |- context [if ?b then _ else _] =>
                 let v := eval vm_compute in b in change b with v; cbv iota
             end;
      repeat match goal with
             | |- context [(153 * ?k + 2) / 5] =>
                 let v := eval vm_compute in ((153 * k + 2) / 5) in
                 change ((153 * k + 2) / 5) with v
             end;
      ring.
Qed.

(** A date read as local time is printed as it was written west of
    Greenwich, and as the day before east of it. *)
Lemma printed_localDate (tz y m d : Z) :
  1 <= y <= 9999 -> validDate y m d -> -1440 < tz < 1440 ->
  printed (JsDate.localDate tz y m d) = Some (utcDay tz y m d).
Proof.
  intros Hy Hv Htz. unfold utcDay, JsDate.localDate. rewrite (valid_month_day y m d Hv).
  rewrite days_from_civil_day.
  pose proof (daysIn_bound y m) as Hb. pose proof Hv as [Hm Hd].
  pose proof (days_from_civil_bound y m d ltac:(lia) Hm ltac:(lia)) as HD.
  rewrite clip_keeps by (unfold JsDate.msPerDay; lia).
  destruct (tz <=? 0) eqn:Etz.
  - apply Z.leb_le in Etz.
    replace (JsDate.days_from_civil y m d * JsDate.msPerDay - tz * 60000)
      with (JsDate.days_from_civil y m d * JsDate.msPerDay + (- tz * 60000)) by ring.
    apply printed_day; [lia | exact Hv | unfold JsDate.msPerDay; lia].
  - apply Z.leb_gt in Etz.
    pose proof (dayBefore_valid y m d Hv) as Hv'.
    pose proof (dayBefore_days y m d Hv) as HD'.
    assert (Hy' : 0 <= fst (fst (dayBefore y m d)) <= 9999).
    { unfold dayBefore. destruct (1 <? d); [simpl; lia|]. destruct (1 <? m); simpl; lia. }
    destruct (dayBefore y m d) as [[y' m'] d']. simpl in Hy'.
    replace (JsDate.days_from_civil y m d * JsDate.msPerDay - tz * 60000)
      with (JsDate.days_from_civil y' m' d' * JsDate.msPerDay
            + (JsDate.msPerDay - tz * 60000)) by (rewrite HD'; ring).
    apply printed_day; [exact Hy' | exact Hv' | unfold JsDate.msPerDay; lia].
Qed.

(** ** Dates written with slashes and with the name of the month *)

Ltac explicit_text s :=
  match goal with
  | |- parseDate _ ?x _ = _ =>
      let v := eval cbv [String.append] in x in change x with v; set (s := v)
  | |- JsDate.parse _ ?x = _ =>
      let v := eval cbv [String.append] in x in change x with v; set (s := v)
  end.

Ltac rebuilt_text tz s :=
  match goal with
  | |- context [JsDate.parse tz ?x] =>
      let v := eval vm_compute in x in change x with s
  end.

Ltac slash_case tz s zeros :=
  explicit_text s;
  unfold parseDate, parseDate_try;
  search_on fullPattern s zeros;
  search_on partialPattern s zeros;
  search_on slashPattern s zeros;
  search_on isoPattern s zeros;
  cbv beta iota delta [andThen missing JsDate.isInvalid];
  eval_group s;
  rebuilt_text tz s;
  unfold JsDate.parse;
  search_on JsDate.reNamed s zeros;
  search_on JsDate.reNumbers s zeros;
  search_on JsDate.reSlash s zeros;
  cbv beta iota; eval_group s;
  unfold printed;
  match goal with
  | |- context [JsDate.toISOString ?dt] => generalize dt
  end;
  intros [?|]; [|reflexivity];
  cbv iota;
  match goal with
  | |- context [JsDate.toISOString ?dt] => destruct (JsDate.toISOString dt)
  end; reflexivity.

Lemma parseDate_slash_digits (tz : Z) (cy : number) (mm dd yyyy : string) (m d y : Z) :
  digitsOf 1 m mm = true \/ digitsOf 2 m mm = true ->
  digitsOf 1 d dd = true \/ digitsOf 2 d dd = true ->
  digitsOf 4 y yyyy = true ->
  parseDate tz (mm ++ "/" ++ dd ++ "/" ++ yyyy) cy
  = printed (if JsDate.IsDay m then JsDate.localDate tz (JsDate.legacyYear y) m d
             else JsDate.localDate tz (JsDate.legacyYear m) d y).
Proof.
  intros Hm Hd Hy.
  apply digitsOf_4 in Hy as (a1 & a2 & a3 & a4 & -> & Ha1 & Ha2 & Ha3 & Ha4 & <-).
  destruct Hm as [Hm|Hm], Hd as [Hd|Hd];
    [apply digitsOf_1 in Hm as (b1 & -> & Hb1 & <-)
    |apply digitsOf_1 in Hm as (b1 & -> & Hb1 & <-)
    |apply digitsOf_2 in Hm as (b1 & b2 & -> & Hb1 & Hb2 & <-)
    |apply digitsOf_2 in Hm as (b1 & b2 & -> & Hb1 & Hb2 & <-)];
    [apply digitsOf_1 in Hd as (c1 & -> & Hc1 & <-)
    |apply digitsOf_2 in Hd as (c1 & c2 & -> & Hc1 & Hc2 & <-)
    |apply digitsOf_1 in Hd as (c1 & -> & Hc1 & <-)
    |apply digitsOf_2 in Hd as (c1 & c2 & -> & Hc1 & Hc2 & <-)].
  - slash_case tz s "0/0/0000".
  - slash_case tz s "0/00/0000".
  - slash_case tz s "00/0/0000".
  - slash_case tz s "00/00/0000".
Qed.

Ltac nearby_case s zeros :=
  match goal with
  | |- findNearbyDate _ ?x _ = _ =>
      let v := eval cbv [String.append] in x in change x with v; set (s := v)
  end;
  unfold findNearbyDate, DATE_PATTERNS; cbn [findNearbyDate_loop];
  repeat match goal with |- context [search ?r s] => search_on r s zeros end;
  cbv beta iota; eval_group s; fold s;
  match goal with
  | |- context [parseDate ?tz s ?cy] => destruct (parseDate tz s cy) as [[|? ?]|]
  end; reflexivity.

Lemma findNearbyDate_slash (tz : Z) (cy : number) (mm dd yyyy : string) (m d y : Z) :
  digitsOf 1 m mm = true \/ digitsOf 2 m mm = true ->
  digitsOf 1 d dd = true \/ digitsOf 2 d dd = true ->
  digitsOf 4 y yyyy = true ->
  findNearbyDate tz (mm ++ "/" ++ dd ++ "/" ++ yyyy) cy
  = match parseDate tz (mm ++ "/" ++ dd ++ "/" ++ yyyy) cy with
    | Some (String a parsed) => Some (String a parsed)
    | _ => None
    end.
Proof.
  intros Hm Hd Hy.
  apply digitsOf_4 in Hy as (a1 & a2 & a3 & a4 & -> & Ha1 & Ha2 & Ha3 & Ha4 & <-).
  destruct Hm as [Hm|Hm], Hd as [Hd|Hd];
    [apply digitsOf_1 in Hm as (b1 & -> & Hb1 & <-)
    |apply digitsOf_1 in Hm as (b1 & -> & Hb1 & <-)
    |apply digitsOf_2 in Hm as (b1 & b2 & -> & Hb1 & Hb2 & <-)
    |apply digitsOf_2 in Hm as (b1 & b2 & -> & Hb1 & Hb2 & <-)];
    [apply digitsOf_1 in Hd as (c1 & -> & Hc1 & <-)
    |apply digitsOf_2 in Hd as (c1 & c2 & -> & Hc1 & Hc2 & <-)
    |apply digitsOf_1 in Hd as (c1 & -> & Hc1 & <-)
    |apply digitsOf_2 in Hd as (c1 & c2 & -> & Hc1 & Hc2 & <-)].
  - nearby_case s "0/0/0000".
  - nearby_case s "0/00/0000".
  - nearby_case s "00/0/0000".
  - nearby_case s "00/00/0000".
Qed.

Lemma legacyYear_late (y : Z) : 100 <= y -> JsDate.legacyYear y = y.
Proof.
  intros Hy. unfold JsDate.legacyYear.
  replace (y <=? 49) with false by (symmetry; apply Z.leb_gt; lia).
  replace (y <=? 99) with false by (symmetry; apply Z.leb_gt; lia).
  rewrite !andb_false_r. reflexivity.
Qed.

Lemma isDay_month_or_day (z : Z) : 1 <= z <= 31 -> JsDate.IsDay z = true.
Proof.
  intros Hz. unfold JsDate.IsDay. apply andb_true_intro. split; apply Z.leb_le; lia.
Qed.

Lemma isoText_starts (y m d : Z) :
  0 <= y <= 9999 -> exists a rest, isoText y m d = String a rest.
Proof.
  intros Hy. destruct (digitsOf_4 _ _ (pad4_digits y Hy)) as (a1 & a2 & a3 & a4 & E & _).
  unfold isoText. rewrite E. eexists _, _. reflexivity.
Qed.

(** The day a local midnight of [y]-[m]-[d] is printed as. *)
Lemma localDay_starts (tz y m d : Z) :
  1 <= y <= 9999 -> validDate y m d ->
  exists a rest, utcDay tz y m d = String a rest.
Proof.
  intros Hy Hv. unfold utcDay. destruct (tz <=? 0); [apply isoText_starts; lia|].
  assert (Hy' : 0 <= fst (fst (dayBefore y m d)) <= 9999).
  { unfold dayBefore. destruct (1 <? d); [simpl; lia|]. destruct (1 <? m); simpl; lia. }
  destruct (dayBefore y m d) as [[y' m'] d']. apply isoText_starts. exact Hy'.
Qed.

(** X15: a date written month/day/year (with or without leading zeros,
    year from 100 on) is read as local midnight and printed in UTC: for
    every day of the calendar the result is that day when the host is
    at or west of Greenwich and the day before when it is east of it,
    from [parseDate] and from [findNearbyDate] alike. *)
Theorem slash_date_by_time_zone (tz : Z) (cy : number) (y m d : Z) (mm dd : string) :
  100 <= y <= 9999 -> validDate y m d -> written m mm -> written d dd ->
  -1440 < tz < 1440 ->
  let text := mm ++ "/" ++ dd ++ "/" ++ JsDate.pad 4 y in
  parseDate tz text cy = Some (utcDay tz y m d)
  /\ findNearbyDate tz text cy = Some (utcDay tz y m d).
Proof.
  intros Hy Hv Hmm Hdd Htz text. pose proof Hv as [Hm Hd].
  pose proof (daysIn_bound y m) as Hb.
  pose proof (written_digits m mm ltac:(lia) Hmm) as Sm.
  pose proof (written_digits d dd ltac:(lia) Hdd) as Sd.
  pose proof (pad4_digits y ltac:(lia)) as Sy.
  assert (Hparse : parseDate tz text cy = Some (utcDay tz y m d)).
  { unfold text. rewrite (parseDate_slash_digits tz cy mm dd _ m d y Sm Sd Sy).
    rewrite (isDay_month_or_day m ltac:(lia)), (legacyYear_late y ltac:(lia)).
    apply printed_localDate; [lia | exact Hv | exact Htz]. }
  split; [exact Hparse|].
  unfold text in *. rewrite (findNearbyDate_slash tz cy mm dd _ m d y Sm Sd Sy), Hparse.
  destruct (localDay_starts tz y m d ltac:(lia) Hv) as (a & rest & E).
  rewrite E. reflexivity.
Qed.

Lemma slash_date_by_time_zone_witness :
  (parseDate 60 "1/1/2026" (Num 2025) = Some "2025-12-31"
   /\ findNearbyDate 60 "1/1/2026" (Num 2025) = Some "2025-12-31")
  /\ (parseDate (-300) "01/01/2026" (Num 2025) = Some "2026-01-01"
      /\ findNearbyDate (-300) "01/01/2026" (Num 2025) = Some "2026-01-01").
Proof.
  split.
  - apply (slash_date_by_time_zone 60 (Num 2025) 2026 1 1 "1" "1");
      [lia | split; [lia | vm_compute; split; discriminate]
      | left; reflexivity | left; reflexivity | lia].
  - apply (slash_date_by_time_zone (-300) (Num 2025) 2026 1 1 "01" "01");
      [lia | split; [lia | vm_compute; split; discriminate]
      | right; reflexivity | right; reflexivity | lia].
Defined.

Lemma toISOString_some (t : Z) : exists iso, JsDate.toISOString (Some t) = Some iso.
Proof.
  unfold JsDate.toISOString. destruct (JsDate.civil_from_days _) as [[y m] d].
  eexists. reflexivity.
Qed.

(** When the pattern with a year matches, [parseDate] prints the date
    that [new Date] makes of the three groups. *)
Lemma parseDate_full_found (tz : Z) (s : string) (cy : number) (f : found) :
  search fullPattern s = Some f ->
  parseDate tz s cy
  = printed (JsDate.parse tz
               (group' s f 1 ++ " " ++ group' s f 2 ++ ", " ++ group' s f 3)).
Proof.
  intros Hf. unfold parseDate, parseDate_try. rewrite Hf.
  generalize (JsDate.parse tz (group' s f 1 ++ " " ++ group' s f 2 ++ ", " ++ group' s f 3)).
  intros [t|].
  - unfold logParsed, printed. destruct (toISOString_some t) as (iso & E). rewrite E.
    cbv beta iota delta [andThen missing JsDate.isInvalid]. rewrite E. reflexivity.
  - reflexivity.
Qed.

(** When only the pattern without a year matches, the year is the start
    year of the cycle from September on and the next year before. *)
Lemma parseDate_partial_found (tz : Z) (s : string) (cy : number) (f : found) :
  search fullPattern s = None -> search partialPattern s = Some f ->
  parseDate tz s cy
  = printed (JsDate.parse tz
               (group' s f 1 ++ " " ++ group' s f 2 ++ ", "
                ++ show (if geNum (JsDate.getMonth tz (JsDate.parse tz (group' s f 1 ++ " 1"))) 8
                         then cy else succNum cy))).
Proof.
  intros Hn Hf. unfold parseDate, parseDate_try. rewrite Hn, Hf.
  cbv beta iota delta [andThen missing].
  match goal with |- context [logParsed ?dt] => generalize dt end.
  intros [t|].
  - unfold logParsed, printed. destruct (toISOString_some t) as (iso & E). rewrite E.
    cbv beta iota delta [andThen missing JsDate.isInvalid]. rewrite E. reflexivity.
  - reflexivity.
Qed.

Ltac month_cases m Hm :=
  let H := fresh "Hcases" in
  assert (H : m = 1 \/ m = 2 \/ m = 3 \/ m = 4 \/ m = 5 \/ m = 6 \/ m = 7 \/ m = 8
              \/ m = 9 \/ m = 10 \/ m = 11 \/ m = 12) by lia;
  clear Hm;
  repeat (destruct H as [H|H]; [subst m|]); [..|subst m].

(** The text of the goal, made explicit as [s]; [zeros] is the name of
    the month followed by [suffix]. *)
Ltac named_text s suffix k :=
  match goal with
  | |- context [toLowerCase (monthText ?m) ++ ?rest] =>
      let zeros := eval vm_compute in (toLowerCase (monthText m) ++ suffix) in
      let v := eval vm_compute in (toLowerCase (monthText m) ++ rest) in
      change (toLowerCase (monthText m) ++ rest) with v; set (s := v);
      k zeros
  | |- context [monthText ?m ++ ?rest] =>
      let zeros := eval vm_compute in (monthText m ++ suffix) in
      let v := eval vm_compute in (monthText m ++ rest) in
      change (monthText m ++ rest) with v; set (s := v);
      k zeros
  end.

Ltac parse_named_case tz s suffix :=
  named_text s suffix ltac:(fun zeros =>
    unfold JsDate.parse;
    search_on JsDate.reNamed s zeros;
    cbv beta iota; eval_group s;
    match goal with
    | |- context [JsDate.namedMonth ?w] =>
        let v := eval vm_compute in (JsDate.namedMonth w) in
        change (JsDate.namedMonth w) with v
    end;
    cbv beta iota; reflexivity).

(** [new Date] on a month name, a day and a year *)
Lemma parse_named (tz : Z) (m d y : Z) (name dd yyyy : string) :
  1 <= m <= 12 -> monthWritten m name ->
  digitsOf 1 d dd = true \/ digitsOf 2 d dd = true ->
  digitsOf 4 y yyyy = true ->
  JsDate.parse tz (name ++ " " ++ dd ++ ", " ++ yyyy)
  = (if JsDate.IsDay d then JsDate.localDate tz (JsDate.legacyYear y) m d
     else JsDate.localDate tz (JsDate.legacyYear d) m y).
Proof.
  intros Hm Hname Hd Hy.
  apply digitsOf_4 in Hy as (a1 & a2 & a3 & a4 & -> & Ha1 & Ha2 & Ha3 & Ha4 & <-).
  destruct Hd as [Hd|Hd].
  - apply digitsOf_1 in Hd as (c1 & -> & Hc1 & <-).
    destruct Hname as [->| ->]; month_cases m Hm; parse_named_case tz s " 0, 0000".
  - apply digitsOf_2 in Hd as (c1 & c2 & -> & Hc1 & Hc2 & <-).
    destruct Hname as [->| ->]; month_cases m Hm; parse_named_case tz s " 00, 0000".
Qed.

Ltac found_case r s zeros :=
  let v := eval vm_compute in (search r zeros) in
  match v with
  | Some ?f =>
      exists f; split;
      [ rewrite (search_alike r s zeros)
          by (match goal with
              | |- blind _ = true => vm_compute; reflexivity
              | |- alikeText _ _ => alike_texts
              end);
        vm_compute; reflexivity
      | repeat split; vm_compute; reflexivity ]
  end.

(** The groups of the pattern with a year on a month name, a day and a
    year. *)
Lemma fullPattern_named (m d y : Z) (name dd yyyy : string) :
  1 <= m <= 12 -> monthWritten m name ->
  digitsOf 1 d dd = true \/ digitsOf 2 d dd = true ->
  digitsOf 4 y yyyy = true ->
  exists f, search fullPattern (name ++ " " ++ dd ++ ", " ++ yyyy) = Some f
            /\ group' (name ++ " " ++ dd ++ ", " ++ yyyy) f 1 = name
            /\ group' (name ++ " " ++ dd ++ ", " ++ yyyy) f 2 = dd
            /\ group' (name ++ " " ++ dd ++ ", " ++ yyyy) f 3 = yyyy.
Proof.
  intros Hm Hname Hd Hy.
  apply digitsOf_4 in Hy as (a1 & a2 & a3 & a4 & -> & Ha1 & Ha2 & Ha3 & Ha4 & _).
  destruct Hd as [Hd|Hd].
  - apply digitsOf_1 in Hd as (c1 & -> & Hc1 & _).
    destruct Hname as [->| ->]; month_cases m Hm;
      named_text s " 0, 0000" ltac:(fun zeros => found_case fullPattern s zeros).
  - apply digitsOf_2 in Hd as (c1 & c2 & -> & Hc1 & Hc2 & _).
    destruct Hname as [->| ->]; month_cases m Hm;
      named_text s " 00, 0000" ltac:(fun zeros => found_case fullPattern s zeros).
Qed.

(** The groups of the pattern without a year on a month name and a day. *)
Lemma partialPattern_named (m d : Z) (name dd : string) :
  1 <= m <= 12 -> monthWritten m name ->
  digitsOf 1 d dd = true \/ digitsOf 2 d dd = true ->
  search fullPattern (name ++ " " ++ dd) = None
  /\ exists f, search partialPattern (name ++ " " ++ dd) = Some f
               /\ group' (name ++ " " ++ dd) f 1 = name
               /\ group' (name ++ " " ++ dd) f 2 = dd.
Proof.
  intros Hm Hname Hd.
  destruct Hd as [Hd|Hd].
  - apply digitsOf_1 in Hd as (c1 & -> & Hc1 & _).
    destruct Hname as [->| ->]; month_cases m Hm;
      named_text s " 0" ltac:(fun zeros =>
        split; [search_on fullPattern s zeros; reflexivity
               | found_case partialPattern s zeros]).
  - apply digitsOf_2 in Hd as (c1 & c2 & -> & Hc1 & Hc2 & _).
    destruct Hname as [->| ->]; month_cases m Hm;
      named_text s " 00" ltac:(fun zeros =>
        split; [search_on fullPattern s zeros; reflexivity
               | found_case partialPattern s zeros]).
Qed.

Ltac nearby_named s zeros :=
  let H := fresh "H" in
  intros H;
  unfold findNearbyDate, DATE_PATTERNS; cbn [findNearbyDate_loop];
  repeat (match goal with |- context [search ?r s] => search_on r s zeros end;
          cbv beta iota);
  eval_group s; fold s;
  rewrite H; reflexivity.

(** On a window that holds just a date with the name of its month,
    [findNearbyDate] gives what [parseDate] makes of it. *)
Lemma findNearbyDate_named (tz : Z) (cy : number) (m d y : Z) (name dd yyyy : string) :
  1 <= m <= 12 -> monthWritten m name ->
  digitsOf 1 d dd = true \/ digitsOf 2 d dd = true ->
  digitsOf 4 y yyyy = true ->
  forall a parsed,
    parseDate tz (name ++ " " ++ dd ++ ", " ++ yyyy) cy = Some (String a parsed) ->
    findNearbyDate tz (name ++ " " ++ dd ++ ", " ++ yyyy) cy = Some (String a parsed).
Proof.
  intros Hm Hname Hd Hy a parsed.
  apply digitsOf_4 in Hy as (a1 & a2 & a3 & a4 & -> & Ha1 & Ha2 & Ha3 & Ha4 & _).
  destruct Hd as [Hd|Hd].
  - apply digitsOf_1 in Hd as (c1 & -> & Hc1 & _).
    destruct Hname as [->| ->]; month_cases m Hm;
      named_text s " 0, 0000" ltac:(fun zeros => nearby_named s zeros).
  - apply digitsOf_2 in Hd as (c1 & c2 & -> & Hc1 & Hc2 & _).
    destruct Hname as [->| ->]; month_cases m Hm;
      named_text s " 00, 0000" ltac:(fun zeros => nearby_named s zeros).
Qed.

Lemma findNearbyDate_partial (tz : Z) (cy : number) (m d : Z) (name dd : string) :
  1 <= m <= 12 -> monthWritten m name ->
  digitsOf 1 d dd = true \/ digitsOf 2 d dd = true ->
  forall a parsed,
    parseDate tz (name ++ " " ++ dd) cy = Some (String a parsed) ->
    findNearbyDate tz (name ++ " " ++ dd) cy = Some (String a parsed).
Proof.
  intros Hm Hname Hd a parsed.
  destruct Hd as [Hd|Hd].
  - apply digitsOf_1 in Hd as (c1 & -> & Hc1 & _).
    destruct Hname as [->| ->]; month_cases m Hm;
      named_text s " 0" ltac:(fun zeros => nearby_named s zeros).
  - apply digitsOf_2 in Hd as (c1 & c2 & -> & Hc1 & Hc2 & _).
    destruct Hname as [->| ->]; month_cases m Hm;
      named_text s " 00" ltac:(fun zeros => nearby_named s zeros).
Qed.

(** A date with the name of its month, its day and its year, as
    [parseDate] reads it. *)
Lemma parseDate_named_day (tz : Z) (cy : number) (y m d : Z) (name dd : string) :
  100 <= y <= 9999 -> validDate y m d -> monthWritten m name -> written d dd ->
  -1440 < tz < 1440 ->
  parseDate tz (name ++ " " ++ dd ++ ", " ++ JsDate.pad 4 y) cy = Some (utcDay tz y m d).
Proof.
  intros Hy Hv Hname Hdd Htz. pose proof Hv as [Hm Hd].
  pose proof (daysIn_bound y m) as Hb.
  pose proof (written_digits d dd ltac:(lia) Hdd) as Sd.
  pose proof (pad4_digits y ltac:(lia)) as Sy.
  destruct (fullPattern_named m d y name dd _ Hm Hname Sd Sy) as (f & Hf & G1 & G2 & G3).
  rewrite (parseDate_full_found tz _ cy f Hf), G1, G2, G3.
  rewrite (parse_named tz m d y name dd _ Hm Hname Sd Sy).
  rewrite (isDay_month_or_day d ltac:(lia)), (legacyYear_late y ltac:(lia)).
  apply printed_localDate; [lia | exact Hv | exact Htz].
Qed.

(** X16: a date written with the name of its month, its day and its
    year (from 100 on) is read as local midnight and printed in UTC:
    for every day of the calendar [parseDate] and [findNearbyDate] give
    that day at or west of Greenwich and the day before east of it. *)
Theorem named_date_by_time_zone (tz : Z) (cy : number) (y m d : Z) (name dd : string) :
  100 <= y <= 9999 -> validDate y m d -> monthWritten m name -> written d dd ->
  -1440 < tz < 1440 ->
  let text := name ++ " " ++ dd ++ ", " ++ JsDate.pad 4 y in
  parseDate tz text cy = Some (utcDay tz y m d)
  /\ findNearbyDate tz text cy = Some (utcDay tz y m d).
Proof.
  intros Hy Hv Hname Hdd Htz text. pose proof Hv as [Hm Hd].
  pose proof (daysIn_bound y m) as Hb.
  pose proof (written_digits d dd ltac:(lia) Hdd) as Sd.
  pose proof (pad4_digits y ltac:(lia)) as Sy.
  pose proof (parseDate_named_day tz cy y m d name dd Hy Hv Hname Hdd Htz) as Hparse.
  fold text in Hparse.
  split; [exact Hparse|].
  destruct (localDay_starts tz y m d ltac:(lia) Hv) as (a & rest & E).
  rewrite E in *. apply (findNearbyDate_named tz cy m d y name dd _ Hm Hname Sd Sy).
  exact Hparse.
Qed.

Lemma named_date_by_time_zone_witness :
  (parseDate 540 "March 1, 2024" (Num 2023) = Some "2024-02-29"
   /\ findNearbyDate 540 "March 1, 2024" (Num 2023) = Some "2024-02-29")
  /\ (parseDate 0 "november 01, 2025" (Num 2025) = Some "2025-11-01"
      /\ findNearbyDate 0 "november 01, 2025" (Num 2025) = Some "2025-11-01").
Proof.
  split.
  - apply (named_date_by_time_zone 540 (Num 2023) 2024 3 1 "March" "1");
      [lia | split; [lia | vm_compute; split; discriminate]
      | left; reflexivity | left; reflexivity | lia].
  - apply (named_date_by_time_zone 0 (Num 2025) 2025 11 1 "november" "01");
      [lia | split; [lia | vm_compute; split; discriminate]
      | right; reflexivity | right; reflexivity | lia].
Defined.

(** [new Date] on a month name and "1": the first of that month in 2001. *)
Lemma parse_month_first (tz m : Z) (name : string) :
  1 <= m <= 12 -> monthWritten m name ->
  JsDate.parse tz (name ++ " 1") = JsDate.localDate tz 2001 m 1.
Proof.
  intros Hm Hname. destruct Hname as [->| ->]; month_cases m Hm;
    match goal with
    | |- JsDate.parse _ ?x = _ =>
        let v := eval vm_compute in x in change x with v; unfold JsDate.parse;
        let r := eval vm_compute in (search JsDate.reNamed v) in
        replace (search JsDate.reNamed v) with r by (vm_compute; reflexivity)
    end; reflexivity.
Qed.

(** [getMonth] gives back the month of a local date. *)
Lemma getMonth_localDate (tz y m d : Z) :
  0 <= y <= 9999 -> validDate y m d -> -1440 < tz < 1440 ->
  JsDate.getMonth tz (JsDate.localDate tz y m d) = Num (m - 1).
Proof.
  intros Hy Hv Htz. unfold JsDate.localDate. rewrite (valid_month_day y m d Hv).
  rewrite days_from_civil_day.
  pose proof (daysIn_bound y m) as Hb. pose proof Hv as [Hm Hd].
  pose proof (days_from_civil_bound y m d Hy Hm ltac:(lia)) as HD.
  rewrite clip_keeps by (unfold JsDate.msPerDay; lia).
  unfold JsDate.getMonth.
  replace (JsDate.days_from_civil y m d * JsDate.msPerDay - tz * 60000 + tz * 60000)
    with (JsDate.days_from_civil y m d * JsDate.msPerDay) by ring.
  rewrite Z.div_mul by (unfold JsDate.msPerDay; lia).
  rewrite (civil_round_trip y m d Hv). reflexivity.
Qed.

(** A date without its year, as [parseDate] reads it. *)
Lemma parseDate_partial_day (tz c m d : Z) (name dd : string) :
  1000 <= c <= 9998 ->
  validDate (if 9 <=? m then c else c + 1) m d -> monthWritten m name -> written d dd ->
  -1440 < tz < 1440 ->
  parseDate tz (name ++ " " ++ dd) (Num c)
  = Some (utcDay tz (if 9 <=? m then c else c + 1) m d).
Proof.
  intros Hc Hv Hname Hdd Htz. set (y := if 9 <=? m then c else c + 1) in *.
  pose proof Hv as [Hm Hd].
  assert (Hy : 1000 <= y <= 9999) by (subst y; destruct (9 <=? m); lia).
  pose proof (daysIn_bound y m) as Hb.
  pose proof (written_digits d dd ltac:(lia) Hdd) as Sd.
  pose proof (pad4_digits y ltac:(lia)) as Sy.
  destruct (partialPattern_named m d name dd Hm Hname Sd) as (Hn & f & Hf & G1 & G2).
  rewrite (parseDate_partial_found tz _ (Num c) f Hn Hf), G1, G2.
  rewrite (parse_month_first tz m name Hm Hname).
  rewrite (getMonth_localDate tz 2001 m 1 ltac:(lia)
             ltac:(split; [lia | pose proof (daysIn_bound 2001 m); lia]) Htz).
  assert (Hyear : show (if geNum (Num (m - 1)) 8 then Num c else succNum (Num c))
                  = JsDate.pad 4 y).
  { unfold geNum, succNum. subst y.
    replace (8 <=? m - 1) with (9 <=? m)
      by (destruct (9 <=? m) eqn:E1, (8 <=? m - 1) eqn:E2; try reflexivity; lia).
    destruct (9 <=? m); apply showZ_four_digits; lia. }
  rewrite Hyear.
  rewrite (parse_named tz m d y name dd _ Hm Hname Sd Sy).
  rewrite (isDay_month_or_day d ltac:(lia)), (legacyYear_late y ltac:(lia)).
  apply printed_localDate; [lia | exact Hv | exact Htz].
Qed.

(** X17: a date written without its year is given the start year of the
    cycle from September to December and the next year from January to
    August, whatever the time zone of the host, and is then read and
    printed like a date with a year: the same day at or west of
    Greenwich, the day before east of it. *)
Theorem partial_date_takes_cycle_year (tz c m d : Z) (name dd : string) :
  1000 <= c <= 9998 ->
  validDate (if 9 <=? m then c else c + 1) m d -> monthWritten m name -> written d dd ->
  -1440 < tz < 1440 ->
  let y := if 9 <=? m then c else c + 1 in
  parseDate tz (name ++ " " ++ dd) (Num c) = Some (utcDay tz y m d)
  /\ findNearbyDate tz (name ++ " " ++ dd) (Num c) = Some (utcDay tz y m d).
Proof.
  intros Hc Hv Hname Hdd Htz y.
  pose proof (parseDate_partial_day tz c m d name dd Hc Hv Hname Hdd Htz) as Hparse.
  fold y in Hv, Hparse. pose proof Hv as [Hm Hd].
  assert (Hy : 1000 <= y <= 9999) by (subst y; destruct (9 <=? m); lia).
  pose proof (daysIn_bound y m) as Hb.
  pose proof (written_digits d dd ltac:(lia) Hdd) as Sd.
  split; [exact Hparse|].
  destruct (localDay_starts tz y m d ltac:(lia) Hv) as (a & rest & E).
  rewrite E in *. apply (findNearbyDate_partial tz (Num c) m d name dd Hm Hname Sd).
  exact Hparse.
Qed.

Lemma partial_date_takes_cycle_year_witness :
  (parseDate (-480) "january 15" (Num 2025) = Some "2026-01-15"
   /\ findNearbyDate (-480) "january 15" (Num 2025) = Some "2026-01-15")
  /\ (parseDate 120 "November 1" (Num 2025) = Some "2025-10-31"
      /\ findNearbyDate 120 "November 1" (Num 2025) = Some "2025-10-31").
Proof.
  split.
  - apply (partial_date_takes_cycle_year (-480) 2025 1 15 "january" "15");
      [lia | split; [lia | vm_compute; split; discriminate]
      | right; reflexivity | left; reflexivity | lia].
  - apply (partial_date_takes_cycle_year 120 2025 11 1 "November" "1");
      [lia | split; [lia | vm_compute; split; discriminate]
      | left; reflexivity | left; reflexivity | lia].
Defined.

(** ** Days that a month does not have *)

Lemma parseDate_isoText (tz : Z) (cy : number) (y m d : Z) :
  0 <= y <= 9999 -> 0 <= m <= 99 -> 0 <= d <= 99 ->
  parseDate tz (isoText y m d) cy = printed (JsDate.utcDate y m d).
Proof.
  intros Hy Hm Hd.
  destruct (digitsOf_4 _ _ (pad4_digits y Hy))
    as (a1 & a2 & a3 & a4 & Ey & Ha1 & Ha2 & Ha3 & Ha4 & Ny).
  destruct (digitsOf_2 _ _ (pad2_digits m Hm)) as (b1 & b2 & Em & Hb1 & Hb2 & Nm).
  destruct (digitsOf_2 _ _ (pad2_digits d Hd)) as (c1 & c2 & Ed & Hc1 & Hc2 & Nd).
  unfold isoText. rewrite Ey, Em, Ed. rewrite <- Ny, <- Nm, <- Nd.
  apply (parseDate_iso_digits tz cy a1 a2 a3 a4 b1 b2 c1 c2); assumption.
Qed.

(** Day [d] of a month of fewer days is day [d - daysIn y m] of the next
    month. *)
Lemma days_roll_over (y m d : Z) :
  1 <= m <= 11 ->
  JsDate.days_from_civil y m 1 + d - 1
  = JsDate.days_from_civil y (m + 1) 1 + (d - daysIn y m) - 1.
Proof.
  intros Hm.
  assert (Hv : validDate y (m + 1) 1).
  { split; [lia|]. pose proof (daysIn_bound y (m + 1)). lia. }
  pose proof (dayBefore_days y (m + 1) 1 Hv) as H. unfold dayBefore in H.
  change (1 <? 1) with false in H. cbv iota in H.
  replace (1 <? m + 1) with true in H by (symmetry; apply Z.ltb_lt; lia).
  replace (m + 1 - 1) with m in H by ring.
  rewrite <- (days_from_civil_day y m (daysIn y m)) in H. lia.
Qed.

Lemma localDate_rolls_over (tz y m d : Z) :
  1 <= m <= 11 -> daysIn y m < d <= 31 ->
  JsDate.localDate tz y m d = JsDate.localDate tz y (m + 1) (d - daysIn y m).
Proof.
  intros Hm Hd. pose proof (daysIn_bound y m) as Hb. unfold JsDate.localDate.
  rewrite (days_roll_over y m d Hm).
  replace (JsDate.IsMonth m && JsDate.IsDay d) with true
    by (symmetry; unfold JsDate.IsMonth, JsDate.IsDay;
        repeat (apply andb_true_intro; split); apply Z.leb_le; lia).
  replace (JsDate.IsMonth (m + 1) && JsDate.IsDay (d - daysIn y m)) with true
    by (symmetry; unfold JsDate.IsMonth, JsDate.IsDay;
        repeat (apply andb_true_intro; split); apply Z.leb_le; lia).
  reflexivity.
Qed.

Lemma utcDate_rolls_over (y m d : Z) :
  1 <= m <= 11 -> daysIn y m < d <= 31 ->
  JsDate.utcDate y m d = JsDate.utcDate y (m + 1) (d - daysIn y m).
Proof.
  intros Hm Hd. pose proof (daysIn_bound y m) as Hb. unfold JsDate.utcDate.
  rewrite (days_roll_over y m d Hm).
  replace (JsDate.IsMonth m && JsDate.IsDay d) with true
    by (symmetry; unfold JsDate.IsMonth, JsDate.IsDay;
        repeat (apply andb_true_intro; split); apply Z.leb_le; lia).
  replace (JsDate.IsMonth (m + 1) && JsDate.IsDay (d - daysIn y m)) with true
    by (symmetry; unfold JsDate.IsMonth, JsDate.IsDay;
        repeat (apply andb_true_intro; split); apply Z.leb_le; lia).
  reflexivity.
Qed.

(** X18: a day number up to 31 that its month does not have is not
    rejected: in each of the three forms with a year, [parseDate] counts
    the days on into the next month (February 30 is the second of March,
    or the first in a leap year) and prints that day, moved by the time
    zone like any other. *)
Theorem impossible_day_rolls_over (tz : Z) (cy : number) (y m d : Z) (name mm dd : string) :
  100 <= y <= 9999 -> 1 <= m <= 11 -> daysIn y m < d <= 31 ->
  monthWritten m name -> written m mm -> written d dd -> -1440 < tz < 1440 ->
  let d' := d - daysIn y m in
  parseDate tz (isoText y m d) cy = Some (isoText y (m + 1) d')
  /\ parseDate tz (mm ++ "/" ++ dd ++ "/" ++ JsDate.pad 4 y) cy
     = Some (utcDay tz y (m + 1) d')
  /\ parseDate tz (name ++ " " ++ dd ++ ", " ++ JsDate.pad 4 y) cy
     = Some (utcDay tz y (m + 1) d').
Proof.
  intros Hy Hm Hd Hname Hmm Hdd Htz d'.
  pose proof (daysIn_bound y m) as Hb. pose proof (daysIn_bound y (m + 1)) as Hb'.
  assert (Hv : validDate y (m + 1) d') by (subst d'; split; lia).
  pose proof (written_digits m mm ltac:(lia) Hmm) as Sm.
  pose proof (written_digits d dd ltac:(lia) Hdd) as Sd.
  pose proof (pad4_digits y ltac:(lia)) as Sy.
  split; [|split].
  - rewrite parseDate_isoText by lia. rewrite (utcDate_rolls_over y m d Hm Hd).
    apply printed_utcDate; [lia | exact Hv].
  - rewrite (parseDate_slash_digits tz cy mm dd _ m d y Sm Sd Sy).
    rewrite (isDay_month_or_day m ltac:(lia)), (legacyYear_late y ltac:(lia)).
    rewrite (localDate_rolls_over tz y m d Hm Hd).
    apply printed_localDate; [lia | exact Hv | exact Htz].
  - destruct (fullPattern_named m d y name dd _ ltac:(lia) Hname Sd Sy)
      as (f & Hf & G1 & G2 & G3).
    rewrite (parseDate_full_found tz _ cy f Hf), G1, G2, G3.
    rewrite (parse_named tz m d y name dd _ ltac:(lia) Hname Sd Sy).
    rewrite (isDay_month_or_day d ltac:(lia)), (legacyYear_late y ltac:(lia)).
    rewrite (localDate_rolls_over tz y m d Hm Hd).
    apply printed_localDate; [lia | exact Hv | exact Htz].
Qed.

Lemma impossible_day_rolls_over_witness :
  parseDate 0 "2026-02-30" (Num 2025) = Some "2026-03-02"
  /\ parseDate 0 "2/30/2026" (Num 2025) = Some "2026-03-02"
  /\ parseDate 0 "february 30, 2026" (Num 2025) = Some "2026-03-02".
Proof.
  apply (impossible_day_rolls_over 0 (Num 2025) 2026 2 30 "february" "2" "30");
    [lia | lia | vm_compute; split; [reflexivity | discriminate]
    | right; reflexivity | left; reflexivity | left; reflexivity | lia].
Defined.

(** ** Deleting a round *)

Lemma NoDup_map_eq {A B} (f : A -> B) (l : list A) (x y : A) :
  NoDup (map f l) -> x ∈ l -> y ∈ l -> f x = f y -> x = y.
Proof.
  induction l as [|a l IH]; intros Hnd Hx Hy Hf; [inversion Hx|].
  simpl in Hnd. apply NoDup_cons in Hnd as [Hfresh Hnd].
  apply elem_of_cons in Hx as [->|Hx]; apply elem_of_cons in Hy as [->|Hy].
  - reflexivity.
  - exfalso. apply Hfresh. rewrite Hf. apply list_elem_of_fmap_2. exact Hy.
  - exfalso. apply Hfresh. rewrite <- Hf. apply list_elem_of_fmap_2. exact Hx.
  - apply IH; assumption.
Qed.

Lemma deleteRound_result (roundId : Z) (w : World) :
  faults w = [] ->
  deleteRound roundId w
  = (match filter (hasRoundId roundId) (college_rounds w) with
     | [] => Ok (NotFound "Round not found")
     | _ => Ok Success
     end,
     with_rounds (filter (fun r => ~ hasRoundId roundId r)) w).
Proof.
  intros Hf. unfold deleteRound, try_catch, bind, deleteReturning.
  rewrite query_healthy by exact Hf.
  destruct (filter (hasRoundId roundId) (college_rounds w)); reflexivity.
Qed.

(** X19: DELETE /:id/rounds/:roundId lifts the lock of a confirmed
    round.  With storage in order and under the constraints of
    [college_rounds], deleting a stored row answers with success, removes
    that row and no other, and keeps the constraints; the next crawl
    candidate for the key of the deleted row is then stored with its own
    date in a new, unconfirmed row, whether or not the deleted row was
    confirmed. *)
Theorem deleted_round_is_crawled_again (w : World) (row : CollegeRound) (date : string) :
  faults w = [] -> consistent w -> row ∈ college_rounds w -> date <> "" ->
  let w1 := snd (deleteRound (cr_id row) w) in
  fst (deleteRound (cr_id row) w) = Ok Success
  /\ consistent w1
  /\ (forall r, r ∈ college_rounds w1 <-> r ∈ college_rounds w /\ r <> row)
  /\ rowOf w1 (cr_college_id row) (cr_round_type row) (cr_cycle row) = None
  /\ exists w2 new,
       reconcileRound (cr_college_id row) (cr_cycle row) (cr_round_type row)
         (candidate date) w1 = (Ok tt, w2)
       /\ rowOf w2 (cr_college_id row) (cr_round_type row) (cr_cycle row) = Some new
       /\ cr_deadline_date new = Some date
       /\ cr_admin_confirmed new = false.
Proof.
  intros Hf Hc Hin Hdate w1. subst w1. rewrite (deleteRound_result _ w Hf).
  cbn [fst snd]. pose proof Hc as (Hids & Hkeys & Hseq).
  rewrite (filter_hasRoundId _ row Hids Hin).
  set (w1 := with_rounds (filter (fun r => ~ hasRoundId (cr_id row) r)) w).
  assert (Hrows : forall r, r ∈ college_rounds w1 <-> r ∈ college_rounds w /\ r <> row).
  { intros r. unfold w1. cbn [college_rounds with_rounds]. rewrite list_elem_of_filter.
    unfold hasRoundId. split.
    - intros [Hne Hr]. split; [exact Hr|]. intros ->. apply Hne. reflexivity.
    - intros [Hr Hne]. split; [|exact Hr]. intros Hid. apply Hne.
      apply (NoDup_map_eq cr_id (college_rounds w)); assumption. }
  assert (Hc1 : consistent w1).
  { unfold consistent, w1. cbn [college_rounds with_rounds next_round_id].
    split; [|split].
    - eapply sublist_NoDup; [exact Hids|]. apply (fmap_sublist cr_id), sublist_filter.
    - eapply sublist_NoDup; [exact Hkeys|]. apply (fmap_sublist keyOf), sublist_filter.
    - apply Forall_forall. intros r Hr. apply list_elem_of_filter in Hr as [_ Hr].
      rewrite Forall_forall in Hseq. apply Hseq. exact Hr. }
  assert (Hnone : rowOf w1 (cr_college_id row) (cr_round_type row) (cr_cycle row) = None).
  { destruct (rowOf w1 _ _ _) as [r|] eqn:Hr; [|reflexivity]. exfalso.
    apply rowOf_elem in Hr as [Hr Hk]. apply Hrows in Hr as [Hr Hne]. apply Hne.
    apply (NoDup_map_eq keyOf (college_rounds w)); try assumption.
    apply sameKey_keyOf in Hk. rewrite Hk. reflexivity. }
  split; [reflexivity|]. split; [exact Hc1|]. split; [exact Hrows|]. split; [exact Hnone|].
  destruct (reconcileRound_spec w1 (cr_college_id row) (cr_cycle row) (cr_round_type row)
              date Hf Hc1 Hdate)
    as (w2 & Hrun & _ & _ & _ & (new & Hnew & Hrec) & _).
  exists w2, new. split; [exact Hrun|]. split; [exact Hnew|].
  rewrite Hnone in Hrec. destruct Hrec as [Hconf Hfresh].
  destruct (cr_admin_confirmed new) eqn:Hadm.
  { specialize (Hconf eq_refl). discriminate Hconf. }
  destruct (Hfresh eq_refl) as [Hd _]. split; [exact Hd | reflexivity].
Qed.

Lemma deleted_round_is_crawled_again_witness :
  let row := confirmed draftRow in
  let w := with_rounds (map (onRow 3 confirmed)) draftWorld in
  let w1 := snd (deleteRound 3 w) in
  fst (deleteRound 3 w) = Ok Success
  /\ consistent w1
  /\ (forall r, r ∈ college_rounds w1 <-> r ∈ college_rounds w /\ r <> row)
  /\ rowOf w1 (cr_college_id row) (cr_round_type row) (cr_cycle row) = None
  /\ exists w2 new,
       reconcileRound (cr_college_id row) (cr_cycle row) (cr_round_type row)
         (candidate "2026-01-15") w1 = (Ok tt, w2)
       /\ rowOf w2 (cr_college_id row) (cr_round_type row) (cr_cycle row) = Some new
       /\ cr_deadline_date new = Some "2026-01-15"
       /\ cr_admin_confirmed new = false.
Proof.
  apply (deleted_round_is_crawled_again
           (with_rounds (map (onRow 3 confirmed)) draftWorld) (confirmed draftRow)
           "2026-01-15").
  - reflexivity.
  - unfold consistent. split; [|split].
    + apply (bool_decide_unpack _). vm_compute. exact I.
    + apply (bool_decide_unpack _). vm_compute. exact I.
    + apply (bool_decide_unpack _). vm_compute. exact I.
  - apply list_elem_of_In. left. reflexivity.
  - discriminate.
Defined.

(** ** The accounts of a run, college by college *)

(** With storage in order and the constraints of [college_rounds] in
    force, a college is the item that its page makes it. *)
Lemma processCollege_page (h : Host) (c : College) (cycle : string) (workerId : nat)
    (w : World) :
  faults w = [] -> consistent w ->
  exists w',
    processCollege h c cycle workerId w = (Ok (pageResult h cycle c), w')
    /\ faults w' = [] /\ consistent w'.
Proof.
  intros Hf Hc. unfold pageResult.
  destruct (parseAdmissionsPage h (default "" (c_admissions_url c)) cycle)
    as [found|e] eqn:Hpage.
  - destruct (parseAdmissionsPage_found h _ _ _ Hpage) as (_ & Hnd & Hshape).
    unfold processCollege, try_catch, bind at 1, lift. rewrite Hpage.
    destruct found as [|e found'] eqn:Hfound.
    + exists w. cbn. split; [reflexivity|]. split; assumption.
    + rewrite <- Hfound in *. unfold bind.
      replace (0 <? length (map (fun e0 => roundName (fst e0)) found))%nat with true
        by (rewrite Hfound; reflexivity).
      destruct (forEach_reconciles (c_id c) cycle found w Hf Hc Hnd Hshape)
        as (w' & -> & Hf' & Hc' & _).
      exists w'. split; [reflexivity|]. split; assumption.
  - exists w. split; [|split; assumption].
    apply processCollege_fetch_failure. exact Hpage.
Qed.

Lemma promiseAll_pages (h : Host) (cycle : string) (base : nat) (batch : list College)
    (i : nat) (w : World) :
  faults w = [] -> consistent w ->
  exists w',
    promiseAll (fun idx c => processCollege h c cycle (base + idx + 1)) i batch w
    = (Ok (map (pageResult h cycle) batch), w')
    /\ faults w' = [] /\ consistent w'.
Proof.
  revert i w. induction batch as [|c batch IH]; intros i w Hf Hc; simpl.
  - exists w. split; [reflexivity|]. split; assumption.
  - unfold bind.
    destruct (processCollege_page h c cycle (base + i + 1) w Hf Hc) as (w1 & -> & Hf1 & Hc1).
    destruct (IH (S i) w1 Hf1 Hc1) as (w2 & -> & Hf2 & Hc2).
    exists w2. split; [reflexivity|]. split; assumption.
Qed.

Lemma firstn_slice {A} (i n : nat) (l : list A) :
  firstn (i + n) l = app (firstn i l) (sliceList i n l).
Proof.
  unfold sliceList. revert l. induction i as [|i IH]; intros l; simpl; [reflexivity|].
  destruct l as [|x l]; simpl.
  - rewrite firstn_nil. reflexivity.
  - rewrite IH. reflexivity.
Qed.

(** The loop over the batches aggregates the items of the colleges in
    their order. *)
Lemma batches_pages (h : Host) (cycle : string) (logId : Z) (colleges : list College)
    (fuel i : nat) (k : Counters) (w : World) :
  faults w = [] -> consistent w ->
  (length colleges - i <= fuel)%nat ->
  k = fold_left (aggregate true) (map (pageResult h cycle) (firstn i colleges)) noCounters ->
  exists w',
    batches fuel h cycle logId colleges i k w
    = ((fold_left (aggregate true) (map (pageResult h cycle) colleges) noCounters, Ok tt), w')
    /\ faults w' = [] /\ consistent w'.
Proof.
  revert i k w. induction fuel as [|fuel IH]; intros i k w Hf Hc Hfuel Hk; simpl.
  - exists w. rewrite Hk, firstn_all2 by lia. split; [reflexivity|]. split; assumption.
  - destruct (Nat.ltb_spec i (length colleges)) as [Hlt|Hge].
    + match goal with
      | |- context [promiseAll (fun idx c => processCollege h c cycle (?base + idx + 1))
                      0%nat ?batch w] =>
          destruct (promiseAll_pages h cycle base batch 0 w Hf Hc) as (w1 & -> & Hf1 & Hc1)
      end.
      unfold updateProgress. rewrite query_healthy by exact Hf1.
      apply IH.
      * exact Hf1.
      * exact Hc1.
      * pose proof CONCURRENCY_pos. lia.
      * rewrite Hk, firstn_slice, map_app, fold_left_app. reflexivity.
    + exists w. rewrite Hk, firstn_all2 by lia. split; [reflexivity|]. split; assumption.
Qed.

Lemma crawlSetup_cycle (h : Host) (w : World) :
  faults w = [] ->
  exists w1,
    crawlSetup h w = (Ok (cycleOfRun h w, targets w), w1)
    /\ faults w1 = [] /\ college_rounds w1 = college_rounds w
    /\ next_round_id w1 = next_round_id w.
Proof.
  intros Hf. unfold crawlSetup, bind, selectCycle, cycleOfRun.
  rewrite query_healthy by exact Hf.
  destruct (current_cycle w) as [[|a cycle]|]; cbn [truthy default].
  - unfold upsertSettings. rewrite query_healthy by exact Hf.
    unfold ret, selectTargets. rewrite query_healthy by exact Hf.
    eexists. split; [reflexivity|]. repeat split. exact Hf.
  - unfold ret, selectTargets. rewrite query_healthy by exact Hf.
    exists w. repeat split. exact Hf.
  - unfold upsertSettings. rewrite query_healthy by exact Hf.
    unfold ret, selectTargets. rewrite query_healthy by exact Hf.
    eexists. split; [reflexivity|]. repeat split. exact Hf.
Qed.

Lemma consistent_rounds (w w' : World) :
  college_rounds w' = college_rounds w -> next_round_id w' = next_round_id w ->
  consistent w -> consistent w'.
Proof. unfold consistent. intros -> ->. tauto. Qed.

(** The counters of a run over the items of the colleges. *)
Lemma aggregate_counts (results : list ProcessResult) (k : Counters) :
  failed (fold_left (aggregate true) results k)
  = failed k + Z.of_nat (length (List.filter (fun r => negb (success r)) results))
  /\ successful (fold_left (aggregate true) results k)
     = successful k + Z.of_nat (length (List.filter success results)).
Proof.
  revert k. induction results as [|r results IH]; intros k; simpl; [lia|].
  destruct (IH (aggregate true k r)) as [-> ->]. unfold aggregate.
  destruct (success r); simpl; lia.
Qed.

Lemma pageResult_success (h : Host) (cycle : string) (c : College) :
  success (pageResult h cycle c) = negb (pageFails h cycle c).
Proof. unfold pageResult, pageFails. destruct (parseAdmissionsPage _ _ _); reflexivity. Qed.

Lemma filter_map_length {A B} (f : A -> B) (p : B -> bool) (l : list A) :
  length (List.filter p (map f l)) = length (List.filter (fun x => p (f x)) l).
Proof.
  induction l as [|x l IH]; simpl; [reflexivity|]. destruct (p (f x)); simpl; rewrite IH;
    reflexivity.
Qed.

Lemma runCrawler_pages (h : Host) (w : World) :
  faults w = [] -> consistent w -> freshLogId w ->
  exists w',
    runCrawler h w
    = (Ok (fold_left (aggregate true) (map (pageResult h (cycleOfRun h w)) (targets w))
             noCounters), w').
Proof.
  intros Hf Hc Hfresh. unfold runCrawler.
  assert (Hins : exists w1,
             insertCrawlLog (now w) w = (Ok (next_log_id w), w1)
             /\ faults w1 = [] /\ college_rounds w1 = college_rounds w
             /\ next_round_id w1 = next_round_id w /\ colleges w1 = colleges w
             /\ current_cycle w1 = current_cycle w /\ now w1 = now w).
  { unfold insertCrawlLog. rewrite query_healthy by exact Hf.
    cbv zeta. rewrite bool_decide_eq_false_2 by exact Hfresh.
    eexists. split; [reflexivity|]. simpl. repeat split. exact Hf. }
  destruct Hins as (w1 & -> & Hf1 & Hr1 & Hn1 & Hcs1 & Hcy1 & Hnow1).
  unfold crawlAll.
  destruct (crawlSetup_cycle h w1 Hf1) as (w2 & -> & Hf2 & Hr2 & Hn2).
  assert (Hc2 : consistent w2).
  { apply (consistent_rounds w); [congruence | congruence | exact Hc]. }
  assert (Htargets : targets w1 = targets w) by (unfold targets; rewrite Hcs1; reflexivity).
  assert (Hcycle : cycleOfRun h w1 = cycleOfRun h w)
    by (unfold cycleOfRun; rewrite Hcy1, Hnow1; reflexivity).
  rewrite Htargets, Hcycle.
  destruct (batches_pages h (cycleOfRun h w) (next_log_id w) (targets w)
              (length (targets w)) 0 noCounters w2 Hf2 Hc2 ltac:(lia) eq_refl)
    as (w3 & -> & Hf3 & _).
  unfold bind, finalizeCrawlLog, try_catch. rewrite query_healthy by exact Hf3.
  eexists. reflexivity.
Qed.

(** What a result of [processCollege] says about its college: a success
    only when the page was read and every deadline found was reconciled,
    a failure with the error that was caught. *)
Lemma processCollege_result (h : Host) (c : College) (cycle : string) (workerId : nat)
    (w : World) (result : ProcessResult) :
  fst (processCollege h c cycle workerId w) = Ok result ->
  college result = c_name c
  /\ (success result = true ->
      exists found,
        parseAdmissionsPage h (default "" (c_admissions_url c)) cycle = Ok found
        /\ rounds result = map (fun e => roundName (fst e)) found
        /\ fst (forEach found (fun e => reconcileRound (c_id c) cycle (fst e) (snd e)) w)
           = Ok tt)
  /\ (success result = false -> exists e, error result = Some e /\ rounds result = []).
Proof.
  unfold processCollege, try_catch, bind at 1, lift.
  destruct (parseAdmissionsPage h (default "" (c_admissions_url c)) cycle)
    as [found|e] eqn:Hpage.
  - unfold bind. destruct found as [|d found'] eqn:Hfound.
    + cbn. intros [= <-]. cbn. split; [reflexivity|]. split; [|discriminate].
      intros _. exists []. repeat split.
    + rewrite <- Hfound.
      replace (0 <? length (map (fun e0 => roundName (fst e0)) found))%nat with true
        by (rewrite Hfound; reflexivity).
      destruct (forEach found _ w) as [[[]|e] w'] eqn:Hrun; cbn; intros [= <-]; cbn.
      * split; [reflexivity|]. split; [|discriminate].
        intros _. exists found. repeat split. rewrite Hrun. reflexivity.
      * split; [reflexivity|]. split; [discriminate|]. intros _. eauto.
  - cbn. intros [= <-]. cbn. split; [reflexivity|]. split; [discriminate|]. eauto.
Qed.

(** C7: a college that fails is a failed item of the run and stops
    neither its batch nor the run.  [processCollege] turns every failure
    into a result: a page that cannot be fetched gives a result with
    [success = false] and the error of the fetch, with nothing written;
    a result says success only when the page was read and every deadline
    found was reconciled, and a failure carries the error that was
    caught; the aggregation counts a result without success as failed.
    Every checkpoint that a run persists (after a batch, or when it is
    finalized) has successful + failed = attempted, whatever fails; a run
    that returns has attempted all the N target colleges, and N is the
    attempted counter of its CrawlRun; with storage in order the run does
    return, for any outcome of the page fetches, with its CrawlRun
    finalized; and with the constraints of [college_rounds] in force as
    well, its failed counter is the number of target colleges whose page
    cannot be fetched and its successful counter the number of the
    others. *)
Theorem batch_accounting (h : Host) (w : World) :
  (forall (c : College) (cycle : string) (workerId : nat) (w0 : World),
     exists result, fst (processCollege h c cycle workerId w0) = Ok result)
  /\ (forall (c : College) (cycle : string) (workerId : nat) (w0 : World) (e : string),
        parseAdmissionsPage h (default "" (c_admissions_url c)) cycle = Throw e ->
        processCollege h c cycle workerId w0
        = (Ok {| success := false; college := c_name c; rounds := []; error := Some e |}, w0))
  /\ (forall (c : College) (cycle : string) (workerId : nat) (w0 : World)
        (result : ProcessResult),
        fst (processCollege h c cycle workerId w0) = Ok result ->
        college result = c_name c
        /\ (success result = true ->
            exists found,
              parseAdmissionsPage h (default "" (c_admissions_url c)) cycle = Ok found
              /\ rounds result = map (fun e => roundName (fst e)) found
              /\ fst (forEach found
                        (fun e => reconcileRound (c_id c) cycle (fst e) (snd e)) w0)
                 = Ok tt)
        /\ (success result = false ->
            exists e, error result = Some e /\ rounds result = []))
  /\ (forall (k : Counters) (result : ProcessResult),
        success result = false ->
        failed (aggregate true k result) = failed k + 1
        /\ successful (aggregate true k result) = successful k)
  /\ emitted balanced w (snd (runCrawler h w))
  /\ (forall k w',
        runCrawler h w = (Ok k, w') ->
        completed k = Z.of_nat (length (targets w))
        /\ successful k + failed k = completed k
        /\ hasLog (next_log_id w) w'
        /\ logAttempted (next_log_id w) (Z.of_nat (length (targets w))) w')
  /\ (faults w = [] -> freshLogId w ->
      exists k w',
        runCrawler h w = (Ok k, w')
        /\ completed k = Z.of_nat (length (targets w))
        /\ successful k + failed k = completed k
        /\ exists l, l ∈ crawl_logs w'
             /\ cl_id l = next_log_id w
             /\ colleges_attempted l = Z.of_nat (length (targets w))
             /\ colleges_successful l + colleges_failed l = colleges_attempted l
             /\ run_finished_at l = Some (now w))
  /\ (faults w = [] -> consistent w -> freshLogId w ->
      exists k w',
        runCrawler h w = (Ok k, w')
        /\ failed k
           = Z.of_nat (length (List.filter (pageFails h (cycleOfRun h w)) (targets w)))
        /\ successful k
           = Z.of_nat (length (List.filter (fun c => negb (pageFails h (cycleOfRun h w) c))
                                 (targets w)))
        /\ k = fold_left (aggregate true)
                 (map (pageResult h (cycleOfRun h w)) (targets w)) noCounters).
Proof.
  split; [intros c cycle workerId w0; apply processCollege_returns|].
  split; [intros c cycle workerId w0 e; apply processCollege_fetch_failure|].
  split; [intros c cycle workerId w0 result; apply processCollege_result|].
  split; [intros k result; apply aggregate_failure|].
  split; [apply runCrawler_balanced|].
  split; [apply runCrawler_returned|].
  split; [apply runCrawler_complete|].
  intros Hf Hc Hfresh. destruct (runCrawler_pages h w Hf Hc Hfresh) as (w' & Hrun).
  eexists _, w'. split; [exact Hrun|].
  destruct (aggregate_counts (map (pageResult h (cycleOfRun h w)) (targets w)) noCounters)
    as [Hfailed Hok].
  rewrite Hfailed, Hok, !filter_map_length. cbn [failed successful noCounters].
  split; [|split; [|reflexivity]].
  - rewrite Z.add_0_l. f_equal. f_equal. apply List.filter_ext. intros c.
    rewrite pageResult_success. apply negb_involutive.
  - rewrite Z.add_0_l. f_equal. f_equal. apply List.filter_ext. intros c.
    apply pageResult_success.
Qed.

Lemma batch_accounting_witness :
  faults campusWorld = []
  /\ consistent campusWorld
  /\ freshLogId campusWorld
  /\ List.filter (pageFails mixedHost (cycleOfRun mixedHost campusWorld)) (targets campusWorld)
     = [downCollege]
  /\ exists k w',
       runCrawler mixedHost campusWorld = (Ok k, w')
       /\ failed k
          = Z.of_nat (length (List.filter
                                (pageFails mixedHost (cycleOfRun mixedHost campusWorld))
                                (targets campusWorld)))
       /\ successful k
          = Z.of_nat (length (List.filter
                                (fun c => negb (pageFails mixedHost
                                                  (cycleOfRun mixedHost campusWorld) c))
                                (targets campusWorld)))
       /\ k = fold_left (aggregate true)
                (map (pageResult mixedHost (cycleOfRun mixedHost campusWorld))
                   (targets campusWorld)) noCounters.
Proof.
  assert (Hfresh : freshLogId campusWorld) by (intros H; inversion H).
  assert (Hc : consistent campusWorld) by (repeat split; constructor).
  split; [reflexivity|]. split; [exact Hc|]. split; [exact Hfresh|].
  split; [vm_compute; reflexivity|].
  apply (proj2 (proj2 (proj2 (proj2 (proj2 (proj2 (proj2
           (batch_accounting mixedHost campusWorld))))))) eq_refl Hc Hfresh).
Defined.

(** ** The examples of the date parser, on any host *)

(** C4: the four examples of the parser, for a host whose local time is
    [tz] minutes ahead of UTC.  "13/45/2025" gives null on every host.
    The three month-name examples give the date of the example only at
    or west of Greenwich: the text is read as local midnight and printed
    in UTC, so that east of Greenwich [parseDate] returns the day
    before, "2025-10-31" for "November 1, 2025" and for "November 1",
    "2026-01-31" for "February 1". *)
Theorem parseDate_examples_by_time_zone (tz : Z) :
  -1440 < tz < 1440 ->
  parseDate tz "November 1, 2025" (Num 2025)
  = Some (if tz <=? 0 then "2025-11-01" else "2025-10-31")
  /\ parseDate tz "November 1" (Num 2025)
     = Some (if tz <=? 0 then "2025-11-01" else "2025-10-31")
  /\ parseDate tz "February 1" (Num 2025)
     = Some (if tz <=? 0 then "2026-02-01" else "2026-01-31")
  /\ parseDate tz "13/45/2025" (Num 2025) = None.
Proof.
  intros Htz.
  assert (Hnov : validDate 2025 11 1) by (split; [lia | vm_compute; split; discriminate]).
  assert (Hfeb : validDate 2026 2 1) by (split; [lia | vm_compute; split; discriminate]).
  split; [|split; [|split]].
  - etransitivity; [exact (parseDate_named_day tz (Num 2025) 2025 11 1 "November" "1"
               ltac:(lia) Hnov ltac:(left; reflexivity) ltac:(left; reflexivity) Htz)|].
    unfold utcDay. destruct (tz <=? 0); reflexivity.
  - etransitivity; [exact (parseDate_partial_day tz 2025 11 1 "November" "1"
               ltac:(lia) Hnov ltac:(left; reflexivity) ltac:(left; reflexivity) Htz)|].
    unfold utcDay. destruct (tz <=? 0); reflexivity.
  - etransitivity; [exact (parseDate_partial_day tz 2025 2 1 "February" "1"
               ltac:(lia) Hfeb ltac:(left; reflexivity) ltac:(left; reflexivity) Htz)|].
    unfold utcDay. destruct (tz <=? 0); reflexivity.
  - vm_compute. reflexivity.
Qed.

Lemma parseDate_examples_by_time_zone_witness :
  -1440 < 60 < 1440
  /\ parseDate 60 "November 1, 2025" (Num 2025) = Some "2025-10-31"
  /\ parseDate 60 "November 1" (Num 2025) = Some "2025-10-31"
  /\ parseDate 60 "February 1" (Num 2025) = Some "2026-01-31"
  /\ parseDate 60 "13/45/2025" (Num 2025) = None.
Proof.
  assert (Htz : -1440 < 60 < 1440) by lia.
  split; [exact Htz|]. exact (parseDate_examples_by_time_zone 60 Htz).
Defined.
